(* ===== verification/_CoqProject ===== *)
-Q . S2P
Prelude.v
Decimal.v
Avx.v
Http.v
Trim.v
Config.v
Shift.v
UserData.v
Crates.v
Handler.v
Uring.v
IoState.v
Listener.v
Sockets.v
Server.v
Replies.v
Buffers.v
Sends.v
Connections.v
Ubdma.v
Invariant.v
Completions.v
EventLoop.v
Api.v
Worker.v
Program.v
Steps.v
Restart.v
Queued.v
Typing.v
Spec.v
Pipeline.v
Client.v
Memory.v
PacketSocket.v
Packets.v
Bpf.v
Print.v
Instances.v
Examples.v
Witnesses.v
