(* ===== verification/Prelude.v ===== *)
(** * Tachyon: a verification of the web server in [src/src]

    Tachyon is an HTTP server on io_uring: every worker thread owns a [Server],
    a ring and a listener, and runs one loop over the completions of its ring.
    This development models the Rust code as executable functions and proves
    what they do, errors and crashes included.

    ** The program and its model

    - [library/utils/http.rs], the AVX2 scanner for request starts and the
      request-line parser: [Avx] (the vector intrinsics on 32-byte lists and the
      lemmas on bit masks) and [Http].
    - [main.rs], router and response writer: [Handler]. The constructor and the
      settings of [server.rs]: [Api].
    - [library/server.rs], the event handlers: the data and one definition per
      method are in [Server]; the theorems are in [Replies] (answering requests),
      [Buffers] (registering and releasing kernel buffers), [Sends] (flushing the
      out buffers), [Connections] (accept, close, routing of completions),
      [Ubdma] (the poll-driven mode) and [Invariant]; [Completions] sums up what the
      handling of any one completion does. The set-up and the loop of [sq_poll] are
      in [EventLoop], theorems about a whole worker in [Worker]. [Steps] sees the
      worker as a transition system and says what holds in every state it can
      reach; [Typing] says it of the requests in its queue, [Queued] of all the
      sends it ever pushed; [Spec] is the abstract server that it implements.
    - The program around the loop, [sq_poll] with its ring, the worker threads and
      their restarts in [run], and [main]: [Program]. [Restart] follows the
      thread-local pointer from one instance of a worker into the next.
    - [library/server_internals.rs]: the constants in [Config], the packed
      64-bit tags in [UserData], the listening socket and the addresses it is
      bound to in [Listener].
    - [library/uring/]: the submission entries and the ring set-up in [Uring].
    - [library/network/socket_helpers.rs] and [library/utils/faf_helpers.rs]: the
      system calls on a socket, in order, in [Sockets].
    - [library/utils/shift.rs] and [trim.rs]: [Shift] and [Trim].
      [library/utils/memory.rs] and the copy routine of [kernel.rs]: [Memory].
    - [library/network/tsocket.rs]: the set-up of the packet socket in
      [PacketSocket], the packet-ring reader and the frame parser in [Packets]. [Bpf]
      gives a meaning to the filter programs of both sockets.
    - [library/utils/mod.rs]: [Print], with the decimal numbers of [Decimal].

    [Pipeline] states what a well-formed pipelined request is and follows it from
    the bytes of a packet to the bytes of the answers; [Client] is a reference
    HTTP client that reads these answers back. [Instances], [Examples] and
    [Witnesses] evaluate the model: concrete implementations of the interfaces, a
    running server with one client, and every theorem with hypotheses applied to
    an input at which they hold.

    ** Conventions

    Code that can fail is a value of [outcome] (this file): [Ret] for a normal
    return, [Panic], [UB] for undefined behaviour (an access outside an object
    through a raw pointer) and [Diverge] for a loop whose fuel ran out. Safe
    indexing panics, pointer accesses are checked and give [UB]. The server's
    methods are in the monad [M] of [IoState]: a function of the [World] to an
    outcome of an [io::Result] and a new [World]; an [Err] stops at the [?] that
    meets it. [runs m w Q] says that [m] started in [w] returns, normally or with
    an [Err], in a result and a state satisfying [Q]; it excludes panics,
    undefined behaviour and divergence.

    Bytes are [Byte.byte], memory is a list of bytes, pointers into a buffer are
    offsets. Machine integers are [N] or [Z] with the conversions written out
    where the code can leave the range; lengths and indices are [nat]. The
    argument [oc] says whether overflow checks are compiled in (the dev profile)
    or not (release): with them a shift by 32 or an underflow panics, without
    them it wraps. [parse_one_manual] reads a [u64] at any offset of a packet: Rust
    calls a misaligned read of this kind undefined and debug builds check for it,
    which is not modelled; here it is the plain load it is compiled to. Methods written [self.x = v] are the setters of [Server]; the
    mutable buffers passed to a function are arguments and results.

    ** Third-party code

    The crates [lake], [tachyon_json], [stable_vec] and [io_uring], with the
    kernel behind the last, are not part of the repository. Each is a class of
    operations in [Crates], [Uring], [Sockets] or [Listener], and a class of laws that state
    the documented behaviour the program relies on: a lake appends writes that
    fit and says nothing of those that do not; a stable vector never reuses the
    index of a push and panics on an insert at or above its capacity; a push into
    the submission queue fails exactly when it has no room; the local view of a
    queue changes at a sync only; the kernel writes inside the buffers it was
    given; a clone of a stable vector keeps its slots and at least its capacity.
    One member of the ring's interface is no call but a history: [sq_pushed], the
    entries pushed so far, which any queue can be instrumented with and which lets
    a theorem say what a whole run queued, although the kernel takes entries away.
    The theorems hold for every implementation with these laws, and
    [Instances] proves that there is one.

    The answers of [socket2] to the calls on the listener are a function of the calls
    made before, without laws; those of thread creation and of the ring builder
    are arguments. The parser of socket addresses belongs to the standard library
    and is written out in [Listener], as is the part of classic BPF in use in [Bpf].

    The kernel memory an entry points to is named by [ptr]: kernel buffer [i], or
    the out buffer of a client. [kmem_of] is the memory the kernel sees at a
    submission, so that an entry that outlives the bytes it was made for can be
    talked about ([Worker.queued_send_overwritten]).

    ** What is shown

    - The worker as a whole: the set-up establishes the invariant [inv] of
      [Invariant] (shapes of the buffers, ids of the released ones, out buffers
      exactly for the open clients beyond the 100 reserved ids, fewer released
      buffers than the release threshold); every handler preserves it; draining a
      batch terminates; any number of iterations of the loop runs without a panic,
      undefined behaviour or a hang. The hypotheses on the environment are
      explicit: the kernel delivers only [permitted] completions, and the
      submission queue has room where the code does not check. [Steps] discharges
      what [permitted] asks of the tags: every request a reachable worker queues
      has a tag that it can handle, now and later, so that of a completion which
      carries the tag of a request only the packet matters ([payload_ok]).
    - The abstract server of [Spec] has open connections, each with a descriptor and
      a stream of answers to be sent, and four actions. Every move of a reachable
      worker performs exactly the actions that [Spec.actions] reads off its state,
      so every run refines a run of the abstract server. The sends that a run pushes
      are one by one its transmissions, so that a client gets its answers in order,
      each at most once, on its own descriptor; and ids are given out upwards and
      never again. Whether the bytes of a queued send are still those answers when the kernel reads
      them is another matter ([Worker.queued_send_overwritten]).
    - Every request in the queue of a reachable worker is well typed: fields in the
      range of their machine types, buffers whole and under their own number,
      sends inside the out buffer of their client.
    - The program: [main] starts its workers; each life of a worker has a listener of
      its own, configured in order, closed on every error and at the end of the
      life; a worker thread is safe through every restart, in UBDMA mode up to the
      first, after which every poll event before the first packet is undefined
      behaviour.
    - Requests: the vectorised scanner and parser agree with byte-by-byte
      reference definitions on all inputs but one shape of request line, for which
      the crash is proved; pipelined well-formed requests are parsed back and
      answered in order; a client that follows Content-Length reads the answers
      back.
    - Handlers one by one: what each changes and, by a frame, all it leaves alone.
    - What happens where the code has no check: full queues, exhausted ids, closed
      clients, a boundary request line, a block of foreign packets.
    - Utilities: shifts, trims, clears and copies equal their one-line
      specifications for every length; the packet parser is total, and inverts
      the framing of well-formed captures, all of which pass the packet filter;
      tags, socket addresses and printed constants round-trip.

    ** Fuel

    [while] and [loop] take fuel. The scanner's loops advance by at least 32 bytes
    and get the length of the buffer; collecting the bits of a 32-bit mask gets
    33; the loop over the starts gets their number; the trims, shifts and clears
    get the length; the packet parser advances by at least 14 bytes and gets the
    length. In each case the correctness theorem shows that the result is
    reached. The retry loop around [push_multiple] either leaves at once or never
    ([Buffers.push_retry_fuel], [Buffers.release_buffers_fuel]), so one turn of fuel
    loses nothing; that it never ends is a theorem about every number of turns. [drain] gets a bound on the completions of the
    batch; [iterations] runs over a list of clock readings, since the loop itself
    ends only with an error, and [worker_loop] over a list of lives for the same
    reason. Printing a number gets the number plus one, a BPF program its length,
    since its jumps go forward.

    ** What is not modelled

    Log output, the log set-up of [main.rs] and the sleep before a start in UBDMA
    mode; the affinity and the priority of a thread, whose failure is only logged;
    the inline assembly of [sys_call5], one system call; the counters' overflow
    checks at 2^64; the contents of the clocks, which are inputs of an iteration.
    The kernel's own work between two calls appears only through the laws of the
    ring. The fields [_mac] and [_pci] of the server, which nothing reads. Workers share nothing but the reuse-port group, so they are modelled one
    by one. *)

From Stdlib.Strings Require Export Byte.
From Stdlib.Strings Require Import String.
Export String.StringSyntax.
From stdpp Require Export base option list numbers decidable.
From stdpp Require Import strings.

From Stdlib Require Import ZArith ZifyNat ZifyN.

#[global] Set Default Goal Selector "!".

(** [lia] with division and remainder by constants. *)
Ltac div_lia := zify; Z.to_euclidean_division_equations; lia.

(** * Bytes *)

Abbreviation bytes := (list byte).

#[export] Instance byte_eq_dec : EqDecision byte := Byte.byte_eq_dec.
#[export] Instance byte_inhabited : Inhabited byte := populate x00.

Definition byte_str (s : string) : bytes := list_byte_of_string s.

Arguments byte_str _%_string.

Definition byte_nat (b : byte) : nat := N.to_nat (Byte.to_N b).

(** * Outcomes of Rust code *)

Inductive outcome (A : Type) : Type :=
  | Ret (a : A)
  | Panic
  | UB
  | Diverge.
Arguments Ret {A} a.
Arguments Panic {A}.
Arguments UB {A}.
Arguments Diverge {A}.

#[export] Instance outcome_ret : MRet outcome := λ A a, Ret a.
#[export] Instance outcome_bind : MBind outcome := λ A B f m,
  match m with
  | Ret a => f a
  | Panic => Panic
  | UB => UB
  | Diverge => Diverge
  end.
#[export] Instance outcome_fmap : FMap outcome := λ A B f m, m ≫= λ a, Ret (f a).

Lemma bind_ret_l {A B} (a : A) (f : A → outcome B) : Ret a ≫= f = f a.
Proof. reflexivity. Qed.

Lemma fmap_ret {A B} (a : A) (f : A → B) : f <$> Ret a = Ret (f a).
Proof. reflexivity. Qed.

Lemma bind_assoc {A B C} (m : outcome A) (f : A → outcome B) (g : B → outcome C) :
  (m ≫= f) ≫= g = m ≫= λ a, f a ≫= g.
Proof. by destruct m. Qed.

(** Runs the monad on known results. *)
Create Rewrite HintDb outcome.
#[export] Hint Rewrite @bind_ret_l @fmap_ret : outcome.
Ltac run := repeat (autorewrite with outcome; cbv beta iota zeta).

(** The general loop: the body either continues with a new state or leaves
    the loop with a result. *)
Fixpoint loop {S R} (fuel : nat) (body : S → outcome (S + R)) (s : S) : outcome R :=
  match fuel with
  | 0 => Diverge
  | Datatypes.S fuel =>
      r ← body s;
      match r with
      | inl s' => loop fuel body s'
      | inr r => Ret r
      end
  end.

Definition while {S} (fuel : nat) (cond : S → bool) (body : S → outcome S) (s : S) : outcome S :=
  loop fuel (λ s, if cond s then inl <$> body s else Ret (inr s)) s.

Section loop_rules.
Context {S R : Type}.

Lemma loop_rule (I : S → Prop) (Q : R → Prop) (μ : S → nat) (body : S → outcome (S + R)) :
  (∀ s, I s →
     (∃ s', body s = Ret (inl s') ∧ I s' ∧ μ s' < μ s) ∨
     (∃ r, body s = Ret (inr r) ∧ Q r)) →
  ∀ s fuel, I s → μ s < fuel → ∃ r, loop fuel body s = Ret r ∧ Q r.
Proof.
  intros Hbody s fuel. revert s.
  induction fuel as [|fuel IH]; intros s HI Hμ; [lia|]. cbn.
  destruct (Hbody s HI) as [(s' & -> & HI' & Hlt) | (r & -> & HQ)]; cbn.
  - apply IH; [done|lia].
  - eauto.
Qed.

End loop_rules.

Section while_rules.
Context {S : Type}.

Lemma while_rule (I : S → Prop) (μ : S → nat) (cond : S → bool) (body : S → outcome S) :
  (∀ s, I s → cond s = true → ∃ s', body s = Ret s' ∧ I s' ∧ μ s' < μ s) →
  ∀ s fuel, I s → μ s < fuel →
  ∃ s', while fuel cond body s = Ret s' ∧ I s' ∧ cond s' = false.
Proof.
  intros Hbody s fuel HI Hμ. unfold while.
  apply (loop_rule I (λ s', I s' ∧ cond s' = false) μ); [|done|done].
  intros s0 HI0. destruct (cond s0) eqn:Hc.
  - left. destruct (Hbody s0 HI0 Hc) as (s' & -> & ? & ?). exists s'. done.
  - right. eauto.
Qed.
End while_rules.

(** * Memory accesses *)

(** Checked indexing, [buf[i]]. *)
Definition index {A} (l : list A) (i : nat) : outcome A :=
  match l !! i with Some a => Ret a | None => Panic end.
(** Unchecked access, [*ptr.add(i)]. *)
Definition read {A} (l : list A) (i : nat) : outcome A :=
  match l !! i with Some a => Ret a | None => UB end.
Definition write {A} (l : list A) (i : nat) (a : A) : outcome (list A) :=
  if decide (i < length l) then Ret (<[i:=a]> l) else UB.
(** [l[i] = a]. *)
Definition index_set {A} (l : list A) (i : nat) (a : A) : outcome (list A) :=
  if decide (i < length l) then Ret (<[i:=a]> l) else Panic.
(** [&l[a..b]] *)
Definition slice {A} (l : list A) (a b : nat) : outcome (list A) :=
  if decide (a ≤ b ∧ b ≤ length l) then Ret (take (b - a) (drop a l)) else Panic.
(** [&l[a..]] *)
Definition slice_from {A} (l : list A) (a : nat) : outcome (list A) :=
  if decide (a ≤ length l) then Ret (drop a l) else Panic.
(** [slice::from_raw_parts(ptr.add(off), len)] *)
Definition from_raw_parts {A} (l : list A) (off len : nat) : outcome (list A) :=
  if decide (off + len ≤ length l) then Ret (take len (drop off l)) else UB.

(** An array of [n] cells of which the first ones hold [l]. *)
Definition padded {A} (d : A) (n : nat) (l : list A) : list A :=
  l ++ replicate (n - length l) d.

Lemma length_padded {A} (d : A) n l : length l ≤ n → length (padded d n l) = n.
Proof. intros H. unfold padded. rewrite length_app, length_replicate. lia. Qed.

Lemma padded_nil {A} (d : A) n : padded d n [] = replicate n d.
Proof. unfold padded. by rewrite Nat.sub_0_r. Qed.

Lemma padded_push {A} (d : A) n l x :
  length l < n → index_set (padded d n l) (length l) x = Ret (padded d n (l ++ [x])).
Proof.
  intros Hl. unfold index_set. rewrite length_padded, decide_True by lia. f_equal.
  unfold padded. rewrite length_app. cbn [length].
  replace (n - length l) with (S (n - (length l + 1))) by lia. cbn [replicate].
  rewrite insert_app_r_alt, Nat.sub_diag by lia. by rewrite <- app_assoc.
Qed.

Lemma padded_index {A} (d : A) n l i x : l !! i = Some x → index (padded d n l) i = Ret x.
Proof.
  intros Hi. unfold index, padded.
  by rewrite lookup_app_l, Hi by by eapply lookup_lt_Some.
Qed.

(** Splitting off the element at a known index. *)
Lemma take_S_lookup {A} (l : list A) i x : l !! i = Some x → take (S i) l = take i l ++ [x].
Proof. apply take_S_r. Qed.

Lemma from_raw_parts_Ret {A} (l : list A) off len :
  off + len ≤ length l → from_raw_parts l off len = Ret (take len (drop off l)).
Proof. intros H. unfold from_raw_parts. by rewrite decide_True. Qed.

Lemma from_raw_parts_UB {A} (l : list A) off len :
  length l < off + len → from_raw_parts l off len = UB.
Proof. intros H. unfold from_raw_parts. rewrite decide_False by lia. done. Qed.

Fixpoint take_while {A} (P : A → bool) (l : list A) : list A :=
  match l with
  | [] => []
  | a :: l => if P a then a :: take_while P l else []
  end.

Lemma take_while_length {A} (P : A → bool) l : length (take_while P l) ≤ length l.
Proof. induction l as [|a l IH]; cbn; [lia|]. destruct (P a); cbn; lia. Qed.

Lemma take_while_Forall {A} (P : A → bool) l : Forall (λ a, P a = true) (take_while P l).
Proof. induction l as [|a l IH]; cbn; [constructor|]. destruct (P a) eqn:?; by constructor. Qed.

Lemma omap_length {A B} (f : A → option B) (l : list A) : length (omap f l) ≤ length l.
Proof. induction l as [|a l IH]; cbn; [lia|]. destruct (f a); cbn; lia. Qed.

(** * Bits *)

Local Open Scope N_scope.

(** A value below [2 ^ n] and a multiple of [2 ^ n] have no common bit. *)
Lemma lor_disjoint a b n : b < 2 ^ n → N.lor (a * 2 ^ n) b = a * 2 ^ n + b.
Proof.
  intros Hb. assert (Hl : N.land (a * 2 ^ n) b = 0).
  { apply N.bits_inj. intros i. rewrite N.land_spec, N.bits_0.
    destruct (N.lt_ge_cases i n) as [Hi|Hi].
    - by rewrite N.mul_pow2_bits_low.
    - rewrite <- (N.mod_small b (2 ^ n)) by done.
      by rewrite N.mod_pow2_bits_high, andb_false_r. }
  by rewrite <- N.lxor_lor, <- N.add_nocarry_lxor.
Qed.
