(* ===== verification/Decimal.v ===== *)
(** Decimal numbers as the program and the standard library write and read them. *)
From S2P Require Import Prelude.

(** * Definitions *)

(** The ASCII digit of a number below 10. *)
Definition digit (k : nat) : byte := default x30 (Byte.of_N (48 + N.of_nat k)).

(** [char::to_digit(10)] *)
Definition to_digit (b : byte) : option nat :=
  if (48 <=? byte_nat b) && (byte_nat b <=? 57) then Some (byte_nat b - 48) else None.

(** The number a string of digits denotes. *)
Definition decimal (l : bytes) : nat := foldl (λ n b, n * 10 + (byte_nat b - 48)) 0 l.

(** [Display] for the unsigned integers: digits without leading zeros. *)
Fixpoint display_fuel (fuel n : nat) : bytes :=
  match fuel with
  | 0 => []
  | S fuel => if n <? 10 then [digit n] else display_fuel fuel (n / 10) ++ [digit (n mod 10)]
  end.
Definition display (n : nat) : bytes := display_fuel (S n) n.

(** * Digits *)

Lemma below_10 k : k < 10 → k ∈ seq 0 10.
Proof. intros Hk. apply elem_of_seq. lia. Qed.

(** What holds of the ten digits. *)
Lemma digit_ind (P : nat → Prop) k : Forall P (seq 0 10) → k < 10 → P k.
Proof. intros HP Hk. rewrite list.Forall_forall in HP. by apply HP, below_10. Qed.

Lemma to_digit_digit k : k < 10 → to_digit (digit k) = Some k.
Proof. apply (digit_ind (λ k, to_digit (digit k) = Some k)). by repeat constructor. Qed.

Lemma digit_value k : k < 10 → byte_nat (digit k) - 48 = k.
Proof. apply (digit_ind (λ k, byte_nat (digit k) - 48 = k)). by repeat constructor. Qed.

Lemma digit_zero k : k < 10 → digit k = x30 → k = 0.
Proof.
  intros Hk Hz. apply (f_equal to_digit) in Hz. rewrite to_digit_digit in Hz by done.
  by injection Hz as ->.
Qed.

Lemma decimal_snoc l b : decimal (l ++ [b]) = decimal l * 10 + (byte_nat b - 48).
Proof. unfold decimal. by rewrite foldl_snoc. Qed.

(** * Printing *)

Lemma display_fuel_enough fuel fuel' n :
  n < fuel → n < fuel' → display_fuel fuel n = display_fuel fuel' n.
Proof.
  revert fuel' n. induction fuel as [|fuel IH]; intros [|fuel'] n Hf Hf'; [lia..|].
  cbn [display_fuel]. destruct (Nat.ltb_spec n 10); [done|]. f_equal.
  assert (n / 10 < n) by (apply Nat.div_lt; lia). apply IH; lia.
Qed.

Lemma display_small n : n < 10 → display n = [digit n].
Proof. intros Hn. unfold display. cbn [display_fuel]. by rewrite (proj2 (Nat.ltb_lt _ _)). Qed.

Lemma display_step n : 10 ≤ n → display n = display (n / 10) ++ [digit (n mod 10)].
Proof.
  intros Hn. change (display n) with
    (if n <? 10 then [digit n] else display_fuel n (n / 10) ++ [digit (n mod 10)]).
  rewrite (proj2 (Nat.ltb_ge _ _)) by done.
  f_equal. assert (n / 10 < n) by (apply Nat.div_lt; lia). apply display_fuel_enough; lia.
Qed.

(** Induction along the digits. *)
Lemma display_ind (P : nat → bytes → Prop) :
  (∀ n, n < 10 → P n [digit n]) →
  (∀ n, 10 ≤ n → P (n / 10) (display (n / 10)) → P n (display (n / 10) ++ [digit (n mod 10)])) →
  ∀ n, P n (display n).
Proof.
  intros H0 HS n. induction n as [n IH] using lt_wf_ind.
  destruct (Nat.lt_ge_cases n 10) as [Hn|Hn].
  - rewrite display_small by done. by apply H0.
  - rewrite display_step by done. apply HS; [done|]. apply IH, Nat.div_lt; lia.
Qed.

Lemma mod_10 n : n mod 10 < 10.
Proof. apply Nat.mod_upper_bound. lia. Qed.

(** Reading back gives the number. *)
Lemma decimal_display n : decimal (display n) = n.
Proof.
  revert n. apply (display_ind (λ n l, decimal l = n)).
  - intros n Hn. change [digit n] with ([] ++ [digit n]).
    by rewrite decimal_snoc, digit_value.
  - intros n Hn IH. rewrite decimal_snoc, IH, digit_value by apply mod_10.
    pose proof (Nat.div_mod_eq n 10). lia.
Qed.

Lemma display_digits n : Forall (λ b, is_Some (to_digit b)) (display n).
Proof.
  revert n. apply (display_ind (λ n l, Forall (λ b, is_Some (to_digit b)) l)).
  - intros n Hn. constructor; [|constructor]. by rewrite to_digit_digit.
  - intros n Hn IH. apply list.Forall_app. split; [done|]. constructor; [|constructor].
    by rewrite to_digit_digit by apply mod_10.
Qed.

Lemma display_length n : 0 < length (display n).
Proof.
  revert n. apply (display_ind (λ n l, 0 < length l)); [cbn; lia|]. intros n Hn IH. rewrite length_app. lia.
Qed.

(** No leading zero but in zero itself. *)
Lemma display_no_zero n : hd_error (display n) = Some x30 → n = 0.
Proof.
  revert n. apply (display_ind (λ n l, hd_error l = Some x30 → n = 0)).
  - intros n Hn [= Hz]. by apply digit_zero in Hz.
  - intros n Hn IH Hh. enough (n / 10 = 0) by div_lia.
    apply IH. pose proof (display_length (n / 10)).
    by destruct (display (n / 10)); [cbn in *; lia|].
Qed.

Lemma display_bound n k : n < 10 ^ S k → length (display n) ≤ S k.
Proof.
  revert n k. apply (display_ind (λ n l, ∀ k, n < 10 ^ S k → length l ≤ S k)).
  - cbn. lia.
  - intros n Hn IH [|k] Hk; [cbn in Hk; lia|]. rewrite length_app. cbn [length].
    enough (length (display (n / 10)) ≤ S k) by lia. apply IH.
    apply Nat.Div0.div_lt_upper_bound. by rewrite <- Nat.pow_succ_r'.
Qed.
