(* ===== verification/Avx.v ===== *)
(** AVX2 intrinsics of [std::arch::x86_64] and the 32-bit integer operations
    the vectorised routines use on their masks. *)
From S2P Require Import Prelude.

(** * 32-bit integers *)

Definition i32_of_u32 (n : N) : Z :=
  if (n <? 2 ^ 31)%N then Z.of_N n else (Z.of_N n - 2 ^ 32)%Z.
Definition u32_of_i32 (z : Z) : N := Z.to_N (z mod 2 ^ 32)%Z.
Definition u8_of_nat (n : nat) : nat := n mod 256.

Fixpoint pos_ctz (p : positive) : nat :=
  match p with
  | (q~0)%positive => S (pos_ctz q)
  | _ => 0
  end.
(** [u32::trailing_zeros] *)
Definition trailing_zeros (n : N) : nat :=
  match n with
  | 0%N => 32
  | Npos p => pos_ctz p
  end.
(** [i32::trailing_ones] *)
Definition trailing_ones (z : Z) : nat :=
  trailing_zeros (N.lxor (u32_of_i32 z) (2 ^ 32 - 1)).
Lemma u8_small n : n < 256 → u8_of_nat n = n.
Proof. apply Nat.mod_small. Qed.

(** [x >> k] on [u32]. With overflow checks (the dev profile) a shift by 32 or
    more panics; without them (the release profile) the amount is taken
    modulo 32. *)
Definition u32_shr (overflow_checks : bool) (x : N) (k : nat) : outcome N :=
  if decide (k < 32) then Ret (N.shiftr x (N.of_nat k))
  else if overflow_checks then Panic
  else Ret (N.shiftr x (N.of_nat (k mod 32))).

Lemma i32_u32_id n : (n < 2 ^ 32)%N → u32_of_i32 (i32_of_u32 n) = n.
Proof.
  intros Hn. unfold u32_of_i32, i32_of_u32.
  destruct (N.ltb_spec n (2 ^ 31)).
  - rewrite Z.mod_small by lia. lia.
  - rewrite <- (Z.mod_add _ 1) by lia. rewrite Z.mod_small by lia. lia.
Qed.

(** * Masks as lists of lanes *)

(** The integer whose bit [i] is lane [i]. *)
Fixpoint mask_bits (bs : list bool) : N :=
  match bs with
  | [] => 0
  | true :: bs => N.succ_double (mask_bits bs)
  | false :: bs => N.double (mask_bits bs)
  end.

Fixpoint first_true (bs : list bool) : option nat :=
  match bs with
  | [] => None
  | true :: _ => Some 0
  | false :: bs => S <$> first_true bs
  end.

Fixpoint trues_from (i : nat) (bs : list bool) : list nat :=
  match bs with
  | [] => []
  | true :: bs => i :: trues_from (S i) bs
  | false :: bs => trues_from (S i) bs
  end.

Fixpoint clear_first (bs : list bool) : list bool :=
  match bs with
  | [] => []
  | true :: bs => false :: bs
  | false :: bs => false :: clear_first bs
  end.

Lemma mask_bits_bound bs : (mask_bits bs < 2 ^ N.of_nat (length bs))%N.
Proof.
  induction bs as [|[] bs IH]; cbn [mask_bits length]; [done| |];
    rewrite Nat2N.inj_succ, N.pow_succ_r'; lia.
Qed.

Lemma mask_bits_0 bs : mask_bits bs = 0%N ↔ first_true bs = None.
Proof.
  induction bs as [|[] bs IH]; cbn [mask_bits first_true]; [done| |].
  - split; [lia|done].
  - rewrite fmap_None, <- IH. lia.
Qed.

Lemma trailing_zeros_double n : n ≠ 0%N → trailing_zeros (N.double n) = S (trailing_zeros n).
Proof. destruct n; done. Qed.

Lemma trailing_zeros_mask bs k :
  first_true bs = Some k → trailing_zeros (mask_bits bs) = k.
Proof.
  revert k. induction bs as [|[] bs IH]; cbn [mask_bits first_true]; intros k Hk.
  - done.
  - simplify_eq. by destruct (mask_bits bs).
  - apply fmap_Some in Hk as (j & Hj & ->).
    rewrite trailing_zeros_double, (IH j Hj); [done|].
    rewrite mask_bits_0. congruence.
Qed.

Lemma first_true_lt bs k : first_true bs = Some k → k < length bs.
Proof.
  revert k. induction bs as [|[] bs IH]; cbn [first_true length]; intros k Hk.
  - done.
  - simplify_eq. lia.
  - apply fmap_Some in Hk as (j & Hj & ->). apply IH in Hj. lia.
Qed.

Lemma mask_bits_shiftr bs k :
  N.shiftr (mask_bits bs) (N.of_nat k) = mask_bits (drop k bs).
Proof.
  revert bs. induction k as [|k IH]; intros bs; [by rewrite N.shiftr_0_r|].
  rewrite Nat2N.inj_succ, <- N.add_1_l, <- N.shiftr_shiftr.
  destruct bs as [|b bs]; cbn [mask_bits drop]; [by rewrite !N.shiftr_0_l|].
  rewrite <- IH. f_equal. rewrite <- N.div2_spec.
  destruct b; [apply N.div2_succ_double | apply N.div2_double].
Qed.

Lemma mask_bits_lor bs bs' :
  length bs = length bs' →
  N.lor (mask_bits bs) (mask_bits bs') = mask_bits (zip_with orb bs bs').
Proof.
  revert bs'. induction bs as [|b bs IH]; intros [|b' bs'] Hl; try done.
  cbn [zip_with mask_bits]. injection Hl as Hl. rewrite <- IH by done.
  destruct b, b'; cbn [orb mask_bits];
    destruct (mask_bits bs), (mask_bits bs'); reflexivity.
Qed.

Lemma mask_bits_clear bs :
  mask_bits bs ≠ 0%N →
  N.land (mask_bits bs) (mask_bits bs - 1) = mask_bits (clear_first bs).
Proof.
  induction bs as [|[] bs IH]; cbn [mask_bits clear_first]; intros Hnz; [done| |].
  - replace (N.succ_double (mask_bits bs) - 1)%N with (N.double (mask_bits bs)) by lia.
    destruct (mask_bits bs) as [|p]; [done|].
    change (N.double (N.land (Npos p) (Npos p)) = Npos p~0). by rewrite N.land_diag.
  - rewrite <- IH by lia.
    replace (N.double (mask_bits bs) - 1)%N with (N.succ_double (mask_bits bs - 1)) by lia.
    destruct (mask_bits bs) as [|p], (_ - 1)%N as [|q]; try done.
Qed.

Lemma trues_first bs i :
  trues_from i bs =
  match first_true bs with
  | Some k => (i + k) :: trues_from i (clear_first bs)
  | None => []
  end.
Proof.
  revert i. induction bs as [|[] bs IH]; intros i; cbn; [done|by rewrite Nat.add_0_r|].
  rewrite IH. destruct (first_true bs); cbn; [|done]. f_equal. lia.
Qed.

Lemma trues_filter {A} (f : A → bool) (l : list A) (g : nat → A) i :
  (∀ j a, l !! j = Some a → g (i + j) = a) →
  g <$> trues_from i (f <$> l) = filter f l.
Proof.
  revert i. induction l as [|a l IH]; intros i Hg; [done|].
  assert (Ha : g i = a) by (rewrite <- (Hg 0 a eq_refl); f_equal; lia).
  assert (Hl : ∀ j b, l !! j = Some b → g (S i + j) = b).
  { intros j b Hj. rewrite <- (Hg (S j) b Hj). f_equal. lia. }
  rewrite fmap_cons, filter_cons. destruct (f a) eqn:Hf; cbn [trues_from].
  - rewrite decide_True by done. by rewrite fmap_cons, Ha, IH.
  - rewrite decide_False by auto. by apply IH.
Qed.

Lemma length_clear_first bs : length (clear_first bs) = length bs.
Proof. induction bs as [|[] bs IH]; cbn; auto. Qed.

(** * The intrinsics *)

(** A [__m256i] is its 32 byte lanes, lane 0 first. *)
Abbreviation m256i := bytes.

(** [_mm256_loadu_si256(ptr.add(off))]: 32 bytes of the allocation [buf]. *)
Definition mm256_loadu_si256 (buf : bytes) (off : nat) : outcome m256i :=
  from_raw_parts buf off 32.
(** [_mm256_storeu_si256(ptr.add(off), v)] *)
Definition mm256_storeu_si256 (buf : bytes) (off : nat) (v : m256i) : outcome bytes :=
  if decide (off + 32 ≤ length buf) then Ret (take off buf ++ v ++ drop (off + 32) buf)
  else UB.
Definition mm256_set1_epi8 (b : byte) : m256i := replicate 32 b.
Definition mm256_setzero_si256 : m256i := replicate 32 x00.

Definition lane (b : bool) : byte := if b then xff else x00.
Definition byte_and (a b : byte) : byte :=
  default x00 (Byte.of_N (N.land (Byte.to_N a) (Byte.to_N b))).
Definition byte_msb (b : byte) : bool := (128 <=? Byte.to_N b)%N.

Definition mm256_cmpeq_epi8 (a b : m256i) : m256i :=
  zip_with (λ x y, lane (Byte.eqb x y)) a b.
Definition mm256_and_si256 (a b : m256i) : m256i := zip_with byte_and a b.
Definition mm256_movemask_epi8 (a : m256i) : Z := i32_of_u32 (mask_bits (byte_msb <$> a)).

Lemma byte_and_lane a b : byte_and (lane a) (lane b) = lane (a && b).
Proof. by destruct a, b. Qed.
Lemma byte_msb_lane b : byte_msb (lane b) = b.
Proof. by destruct b. Qed.

Lemma cmpeq_set1 v b :
  length v = 32 →
  mm256_cmpeq_epi8 v (mm256_set1_epi8 b) = lane <$> ((λ x, Byte.eqb x b) <$> v).
Proof.
  unfold mm256_cmpeq_epi8, mm256_set1_epi8. intros <-.
  induction v as [|x v IH]; [done|]. cbn. by rewrite IH.
Qed.

Lemma and_lanes (l l' : list bool) :
  mm256_and_si256 (lane <$> l) (lane <$> l') = lane <$> zip_with andb l l'.
Proof.
  unfold mm256_and_si256. revert l'.
  induction l as [|a l IH]; intros [|a' l']; [done..|]. cbn. by rewrite byte_and_lane, IH.
Qed.

Lemma movemask_lanes l :
  mm256_movemask_epi8 (lane <$> l) = i32_of_u32 (mask_bits l).
Proof.
  unfold mm256_movemask_epi8. do 2 f_equal.
  induction l as [|a l IH]; [done|]. cbn. by rewrite byte_msb_lane, IH.
Qed.

Lemma mask_bits_u32 l : length l ≤ 32 → (mask_bits l < 2 ^ 32)%N.
Proof.
  intros Hl. eapply N.lt_le_trans; [apply mask_bits_bound|].
  apply N.pow_le_mono_r; lia.
Qed.

Lemma movemask_u32 l :
  length l ≤ 32 → u32_of_i32 (mm256_movemask_epi8 (lane <$> l)) = mask_bits l.
Proof. intros Hl. rewrite movemask_lanes. by apply i32_u32_id, mask_bits_u32. Qed.

Lemma loadu_Ret buf off :
  off + 32 ≤ length buf → mm256_loadu_si256 buf off = Ret (take 32 (drop off buf)).
Proof. intros H. unfold mm256_loadu_si256, from_raw_parts. by rewrite decide_True. Qed.

Lemma storeu_Ret buf off v :
  off + 32 ≤ length buf →
  mm256_storeu_si256 buf off v = Ret (take off buf ++ v ++ drop (off + 32) buf).
Proof. intros H. unfold mm256_storeu_si256. by rewrite decide_True. Qed.

Lemma length_window {A} (buf : list A) off n :
  off + n ≤ length buf → length (take n (drop off buf)) = n.
Proof. intros H. rewrite length_take, length_drop. lia. Qed.
