(* ===== verification/Http.v ===== *)
(** The vectorised HTTP request scanner of [src/library/utils/http.rs]. *)
From S2P Require Import Prelude Avx.

(** * Definitions *)

(** [u64::from_le_bytes] *)
Fixpoint from_le_bytes (l : bytes) : N :=
  match l with
  | [] => 0
  | b :: l => (Byte.to_N b + 256 * from_le_bytes l)%N
  end.

Definition GET_MASK : N := from_le_bytes (byte_str "GET " ++ replicate 4 x00).
Definition POST_MASK : N := from_le_bytes (byte_str "POST " ++ replicate 3 x00).

(** [*(ptr as *const u64)] *)
Definition read_u64_le (buf : bytes) (ptr : nat) : outcome N :=
  w ← from_raw_parts buf ptr 8; Ret (from_le_bytes w).

(** The mask of the space characters among the 32 bytes at [ptr]. *)
Definition space_mask (buf : bytes) (ptr : nat) : outcome N :=
  chunk ← mm256_loadu_si256 buf ptr;
  let space := mm256_set1_epi8 x20 in
  let cmp := mm256_cmpeq_epi8 chunk space in
  Ret (u32_of_i32 (mm256_movemask_epi8 cmp)).

(** A parsed request line: [((method_off, method_len), (path_off, path_len), 0)]. *)
Abbreviation request_line := (((nat * nat) * (nat * nat)) * nat)%type.

Definition parse_one_manual (oc : bool) (buf : bytes) (ptr : nat) :
    outcome (option request_line) :=
  first8 ← read_u64_le buf ptr;
  if (N.land first8 0xFFFFFFFF =? GET_MASK)%N then
    let method_len := 3 in
    let path_start := 4 in
    mask ← space_mask buf ptr;
    mask2 ← u32_shr oc mask path_start;
    if (mask2 =? 0)%N then Ret None
    else
      let path_len := u8_of_nat (trailing_zeros mask2) in
      Ret (Some ((0, method_len), (path_start, path_len), 0))
  else if (N.land first8 0xFFFFFFFFFF =? POST_MASK)%N then
    let method_len := 4 in
    let path_start := 5 in
    mask ← space_mask buf ptr;
    mask2 ← u32_shr oc mask path_start;
    if (mask2 =? 0)%N then Ret None
    else
      let path_len := u8_of_nat (trailing_zeros mask2) in
      Ret (Some ((0, method_len), (path_start, path_len), 0))
  else
    mask ← space_mask buf ptr;
    if (mask =? 0)%N then Ret None
    else
      let method_len := u8_of_nat (trailing_zeros mask) in
      let path_start := method_len + 1 in
      mask2 ← u32_shr oc mask path_start;
      if (mask2 =? 0)%N then Ret None
      else
        let path_len := u8_of_nat (trailing_zeros mask2) in
        Ret (Some ((0, method_len), (path_start, path_len), 0)).

(** The mask of the positions [i .. i+31] where "GET" or "POS" begins. *)
Definition start_mask (buf : bytes) (i : nat) : outcome N :=
  c0 ← mm256_loadu_si256 buf i;
  c1 ← mm256_loadu_si256 buf (i + 1);
  c2 ← mm256_loadu_si256 buf (i + 2);
  let get_mask := u32_of_i32 (mm256_movemask_epi8 (mm256_and_si256
    (mm256_cmpeq_epi8 c0 (mm256_set1_epi8 "G"%byte))
    (mm256_and_si256
      (mm256_cmpeq_epi8 c1 (mm256_set1_epi8 "E"%byte))
      (mm256_cmpeq_epi8 c2 (mm256_set1_epi8 "T"%byte))))) in
  let post_mask := u32_of_i32 (mm256_movemask_epi8 (mm256_and_si256
    (mm256_cmpeq_epi8 c0 (mm256_set1_epi8 "P"%byte))
    (mm256_and_si256
      (mm256_cmpeq_epi8 c1 (mm256_set1_epi8 "O"%byte))
      (mm256_cmpeq_epi8 c2 (mm256_set1_epi8 "S"%byte))))) in
  Ret (N.lor get_mask post_mask).

(** [if mask != 0 { while bits != 0 && count < N { .. bits &= bits - 1 } }] *)
Definition collect_bits (n base : nat) (mask : N) (st : list nat * nat) :
    outcome (list nat * nat) :=
  let '(found, count) := st in
  if (mask =? 0)%N then Ret (found, count)
  else
    '(_, found, count) ← while 33
      (λ '(bits, _, count), negb (bits =? 0)%N && (count <? n))
      (λ '(bits, found, count),
        let tz := trailing_zeros bits in
        found ← index_set found count (base + tz);
        Ret (N.land bits (bits - 1), found, count + 1))
      (mask, found, count);
    Ret (found, count).

Definition find_request_starts_avx2 (n : nat) (buf : bytes) : outcome (list nat * nat) :=
  let len := length buf in
  '(i, found, count) ← while (S len)
    (λ '(i, _, count), (i + 66 <=? len) && (count <? n))
    (λ '(i, found, count),
      mask_a ← start_mask buf i;
      mask_b ← start_mask buf (i + 32);
      st ← collect_bits n i mask_a (found, count);
      '(found, count) ← collect_bits n (i + 32) mask_b st;
      Ret (i + 64, found, count))
    (0, replicate n 0, 0);
  '(_, found, count) ← while (S len)
    (λ '(i, _, count), (i + 34 <=? len) && (count <? n))
    (λ '(i, found, count),
      mask ← start_mask buf i;
      '(found, count) ← collect_bits n i mask (found, count);
      Ret (i + 32, found, count))
    (i, found, count);
  Ret (found, count).

(** [RequestEntry]: (method, path). *)
Abbreviation RequestEntry := (bytes * bytes)%type.

Definition parse_http_methods_paths (oc : bool) (n : nat) (buf : bytes) :
    outcome (list RequestEntry * nat) :=
  '(starts, total) ← find_request_starts_avx2 n buf;
  loop (S total)
    (λ '(i, out, count),
      if negb (i <? total) then Ret (inr (out, count))
      else
        start ← index starts i;
        if length buf <? start + 32 then Ret (inr (out, count))
        else
          r ← parse_one_manual oc buf start;
          match r with
          | Some ((m_off, m_len), (p_off, p_len), _) =>
              m ← from_raw_parts buf (start + m_off) m_len;
              p ← from_raw_parts buf (start + p_off) p_len;
              out ← index_set out count (m, p);
              Ret (inl (i + 1, out, count + 1))
          | None => Ret (inl (i + 1, out, count))
          end)
    (0, replicate n ([], []), 0).

(** * Reference definitions *)

(** Whether "GET" or "POS" stands at position [p]. *)
Definition match_at (buf : bytes) (p : nat) : bool :=
  let w := take 3 (drop p buf) in
  bool_decide (w = byte_str "GET") || bool_decide (w = byte_str "POS").

(** The positions the two loops look at: the largest multiple of 32 whose last
    block still has 34 readable bytes. *)
Definition scanned (len : nat) : nat := 32 * ((len - 2) / 32).

(** The reference scanner: the first [n] matching positions, in order. *)
Definition request_starts (n : nat) (buf : bytes) : list nat :=
  take n (filter (match_at buf) (seq 0 (scanned (length buf)))).

Definition is_space (b : byte) : bool := Byte.eqb b x20.

(** Position of the first space of a window. *)
Definition first_space (w : bytes) : option nat := first_true (is_space <$> w).

(** The reference parser of one request line in a 32-byte window: the method
    is everything before the first space, the path everything up to the next. *)
Definition parse_line (w : bytes) : option request_line :=
  m ← first_space w;
  l ← first_space (drop (m + 1) w);
  Some ((0, m), (m + 1, l), 0).

(** * The start masks *)

Lemma byte_eqb_decide (a b : byte) : Byte.eqb a b = bool_decide (a = b).
Proof.
  case_bool_decide as H.
  - apply Byte.byte_dec_lb; done.
  - destruct (Byte.eqb a b) eqn:E; [|done]. by apply Byte.byte_dec_bl in E.
Qed.

Lemma take_drop_3 {A} (l : list A) p a b c :
  l !! p = Some a → l !! (p + 1) = Some b → l !! (p + 2) = Some c →
  take 3 (drop p l) = [a; b; c].
Proof.
  intros Ha Hb Hc. rewrite (drop_S _ a) by done.
  rewrite (drop_S _ b) by (by rewrite <- Nat.add_1_r).
  rewrite (drop_S _ c) by (rewrite <- Hc; f_equal; lia). done.
Qed.

(** The conjunction of three shifted comparisons, lane by lane. *)
Definition triple_lanes (x y z : byte) (buf : bytes) (i : nat) : list bool :=
  (λ p, bool_decide (take 3 (drop p buf) = [x; y; z])) <$> seq i 32.

Lemma lookup_window {A} (buf : list A) off n j :
  j < n → take n (drop off buf) !! j = buf !! (off + j).
Proof. intros Hj. by rewrite lookup_take_lt, lookup_drop. Qed.

Lemma triple_mask x y z buf i :
  i + 34 ≤ length buf →
  zip_with andb ((λ b, Byte.eqb b x) <$> take 32 (drop i buf))
    (zip_with andb ((λ b, Byte.eqb b y) <$> take 32 (drop (i + 1) buf))
                   ((λ b, Byte.eqb b z) <$> take 32 (drop (i + 2) buf)))
  = triple_lanes x y z buf i.
Proof.
  intros Hlen. apply list_eq_same_length with 32;
    [by unfold triple_lanes; rewrite length_fmap, length_seq| |].
  { rewrite !length_zip_with, !length_fmap, !length_window by lia. lia. }
  intros j b b' Hj Hl Hr. unfold triple_lanes in Hr.
  rewrite list_lookup_fmap, lookup_seq_lt in Hr by lia. injection Hr as <-.
  destruct (lookup_lt_is_Some_2 buf (i + j)) as [a Ha]; [lia|].
  destruct (lookup_lt_is_Some_2 buf (i + j + 1)) as [c Hc]; [lia|].
  destruct (lookup_lt_is_Some_2 buf (i + j + 2)) as [d Hd]; [lia|].
  rewrite (take_drop_3 _ _ a c d Ha Hc Hd).
  rewrite !lookup_zip_with, !list_lookup_fmap, !lookup_window in Hl by lia.
  replace (i + 1 + j) with (i + j + 1) in Hl by lia.
  replace (i + 2 + j) with (i + j + 2) in Hl by lia.
  rewrite Ha, Hc, Hd in Hl. injection Hl as <-.
  rewrite !byte_eqb_decide. repeat case_bool_decide; simplify_eq; done.
Qed.

Lemma zip_with_fmap_same {A B} (f : B → B → B) (g h : A → B) (l : list A) :
  zip_with f (g <$> l) (h <$> l) = (λ a, f (g a) (h a)) <$> l.
Proof. induction l as [|a l IH]; [done|]. cbn. by rewrite IH. Qed.

Lemma start_mask_spec buf i :
  i + 34 ≤ length buf →
  start_mask buf i = Ret (mask_bits (match_at buf <$> seq i 32)).
Proof.
  intros Hlen. unfold start_mask. rewrite !loadu_Ret, !bind_ret_l by lia. cbv zeta.
  rewrite !cmpeq_set1 by (apply length_window; lia).
  rewrite !and_lanes, !triple_mask by done.
  rewrite !movemask_u32 by (unfold triple_lanes; by rewrite length_fmap, length_seq).
  rewrite mask_bits_lor by (unfold triple_lanes; by rewrite !length_fmap).
  unfold triple_lanes. by rewrite zip_with_fmap_same.
Qed.

(** * Collecting the bits of a mask *)

(** The array [found] holds the positions [l], and zeros after them. *)
Definition filled (n : nat) (l : list nat) : list nat * nat := (padded 0 n l, length l).

Lemma length_trues_from bs i : length (trues_from i bs) ≤ length bs.
Proof. revert i. induction bs as [|[] bs IH]; intros i; cbn; [lia| |]; specialize (IH (S i)); lia. Qed.

Lemma trues_step bs i :
  mask_bits bs ≠ 0%N →
  trues_from i bs = (i + trailing_zeros (mask_bits bs)) :: trues_from i (clear_first bs).
Proof.
  intros Hnz. rewrite trues_first. rewrite mask_bits_0 in Hnz.
  destruct (first_true bs) as [k|] eqn:Hk; [|done].
  by rewrite (trailing_zeros_mask bs k Hk).
Qed.

(** What is left to collect after a prefix [l] was stored. *)
Definition collected (n base : nat) (l : list nat) (bs : list bool) : list nat :=
  take n (l ++ ((λ j, base + j) <$> trues_from 0 bs)).

Lemma collect_bits_while n base fuel bs l :
  length (trues_from 0 bs) < fuel → length l ≤ n →
  ∃ bits, while fuel
    (λ '(bits, _, count), negb (bits =? 0)%N && (count <? n))
    (λ '(bits, found, count),
      let tz := trailing_zeros bits in
      found ← index_set found count (base + tz);
      Ret (N.land bits (bits - 1), found, count + 1))
    (mask_bits bs, fst (filled n l), length l)
  = Ret (bits, fst (filled n (collected n base l bs)), length (collected n base l bs)).
Proof.
  unfold while. revert bs l. induction fuel as [|fuel IH]; intros bs l Hf Hl; [lia|].
  cbn [loop]. destruct (N.eqb_spec (mask_bits bs) 0) as [H0|Hnz]; cbn [negb andb].
  { rewrite H0. exists 0%N. unfold collected. rewrite mask_bits_0 in H0.
    rewrite trues_first, H0. cbn [fmap list_fmap]. by rewrite app_nil_r, take_ge. }
  destruct (Nat.ltb_spec (length l) n) as [Hlt|Hge]; cbn [negb andb].
  - cbv zeta. rewrite (padded_push 0 n l) by done. run.
    rewrite mask_bits_clear by done. rewrite trues_step in Hf by done. cbn in Hf.
    destruct (IH (clear_first bs) (l ++ [base + trailing_zeros (mask_bits bs)])) as [bits Hb];
      [lia|rewrite length_app; cbn; lia|].
    exists bits. rewrite length_app in Hb. cbn [length filled fst] in Hb. rewrite Hb.
    unfold collected. rewrite (trues_step bs 0) by done. by rewrite <- app_assoc.
  - exists (mask_bits bs). cbn. unfold collected. by rewrite take_app_le, take_ge by lia.
Qed.

Lemma collect_bits_spec n base bs l :
  length bs ≤ 32 → length l ≤ n →
  collect_bits n base (mask_bits bs) (filled n l) = Ret (filled n (collected n base l bs)).
Proof.
  intros Hbs Hl. unfold collect_bits, filled at 1.
  destruct (N.eqb_spec (mask_bits bs) 0) as [H0|Hnz].
  { unfold collected. rewrite mask_bits_0 in H0. rewrite trues_first, H0.
    cbn [fmap list_fmap]. by rewrite app_nil_r, take_ge. }
  destruct (collect_bits_while n base 33 bs l) as [bits Hw]; [|done|].
  { pose proof (length_trues_from bs 0). lia. }
  unfold filled in Hw at 1. cbn [fst] in Hw. by rewrite Hw.
Qed.

Lemma collected_matches n buf l i k :
  collected n i l (match_at buf <$> seq i k) =
  take n (l ++ filter (match_at buf) (seq i k)).
Proof.
  unfold collected. do 2 f_equal. apply trues_filter.
  intros j a Hj. apply lookup_seq in Hj as [-> _]. lia.
Qed.

(** * The scanner *)

Lemma starts_step n buf i k :
  take n (take n (filter (match_at buf) (seq 0 i)) ++ filter (match_at buf) (seq i k))
  = take n (filter (match_at buf) (seq 0 (i + k))).
Proof.
  rewrite seq_app, list.filter_app, Nat.add_0_l.
  set (l := filter _ (seq 0 i)). set (l' := filter _ (seq i k)).
  destruct (decide (length l ≤ n)).
  - by rewrite (take_ge l) by done.
  - rewrite take_app_le, take_take by (rewrite length_take; lia).
    rewrite Nat.min_id. by rewrite take_app_le by lia.
Qed.

Lemma starts_full n buf i j :
  i ≤ j → n ≤ length (take n (filter (match_at buf) (seq 0 i))) →
  take n (filter (match_at buf) (seq 0 i)) = take n (filter (match_at buf) (seq 0 j)).
Proof.
  intros Hij Hn. rewrite length_take in Hn.
  replace j with (i + (j - i)) by lia. rewrite <- starts_step.
  set (l := filter _ (seq 0 i)) in *.
  rewrite take_app_le, take_take by (rewrite length_take; lia). by rewrite Nat.min_id.
Qed.

Definition scan_inv (n : nat) (buf : bytes) (st : nat * list nat * nat) : Prop :=
  ∃ i, st = (i, fst (filled n (take n (filter (match_at buf) (seq 0 i)))),
             length (take n (filter (match_at buf) (seq 0 i))))
    ∧ i mod 32 = 0 ∧ i ≤ scanned (length buf).

Lemma collect_block n buf i :
  collect_bits n i (mask_bits (match_at buf <$> seq i 32))
    (filled n (take n (filter (match_at buf) (seq 0 i))))
  = Ret (filled n (take n (filter (match_at buf) (seq 0 (i + 32))))).
Proof.
  rewrite collect_bits_spec by (rewrite ?length_fmap, ?length_seq, ?length_take; lia).
  by rewrite collected_matches, starts_step.
Qed.

Lemma filled_eta n l : filled n l = (fst (filled n l), length l).
Proof. done. Qed.

Lemma scan_inv_next n buf i k :
  i mod 32 = 0 → k mod 32 = 0 → i + k + 2 ≤ length buf →
  scan_inv n buf
    (i + k, fst (filled n (take n (filter (match_at buf) (seq 0 (i + k))))),
     length (take n (filter (match_at buf) (seq 0 (i + k))))).
Proof. intros Hi Hk Hl. exists (i + k). split; [done|]. unfold scanned. split; div_lia. Qed.

Lemma scan_inv_start n buf : scan_inv n buf (0, replicate n 0, 0).
Proof.
  exists 0. cbn. rewrite take_nil, padded_nil. split; [done|]. unfold scanned. split; lia.
Qed.

Lemma find_request_starts_spec n buf :
  find_request_starts_avx2 n buf = Ret (filled n (request_starts n buf)).
Proof.
  unfold find_request_starts_avx2. cbv zeta.
  edestruct (while_rule (scan_inv n buf) (λ '(i, _, _), length buf - i)) as
    (st1 & -> & Hinv & _); [|apply scan_inv_start|cbn; lia|].
  { intros st (i & -> & Hm & Hi) Hc. apply andb_true_iff in Hc as [Hc _].
    apply Nat.leb_le in Hc. rewrite !start_mask_spec by lia. run.
    rewrite <- filled_eta, collect_block. run. rewrite collect_block. run.
    rewrite filled_eta, <- Nat.add_assoc. eexists. split; [reflexivity|].
    split; [apply scan_inv_next; [lia|done|lia]|cbv beta iota; lia]. }
  destruct Hinv as (i1 & -> & Hm1 & Hi1). run.
  edestruct (while_rule (scan_inv n buf) (λ '(i, _, _), length buf - i)) as
    (st2 & -> & (i2 & -> & Hm2 & Hi2) & Hc2); [|by exists i1|cbn; lia|].
  { intros st (i & -> & Hm & Hi) Hc. apply andb_true_iff in Hc as [Hc _].
    apply Nat.leb_le in Hc. rewrite !start_mask_spec by lia. run.
    rewrite <- filled_eta, collect_block. run.
    rewrite filled_eta. eexists. split; [reflexivity|].
    split; [apply scan_inv_next; [lia|done|lia]|cbv beta iota; lia]. }
  run. rewrite <- filled_eta. unfold request_starts. do 2 f_equal.
  apply andb_false_iff in Hc2 as [Hc2|Hc2].
  - apply Nat.leb_gt in Hc2. replace i2 with (scanned (length buf)); [done|].
    unfold scanned in *. div_lia.
  - apply Nat.ltb_ge in Hc2. by apply starts_full.
Qed.

(** C12: the vectorised request scanner never reads outside its buffer and its
    result is that of the byte-by-byte reference scanner: the array holds the
    first [n] positions below [scanned (length buf)] at which "GET" or "POS"
    stands, in increasing order, and zeros after them. *)
Theorem find_request_starts_avx2_correct n buf :
  find_request_starts_avx2 n buf = Ret (filled n (request_starts n buf)).
Proof. apply find_request_starts_spec. Qed.

(** * One request line *)

Lemma from_le_bytes_mod k l :
  (from_le_bytes l mod 256 ^ N.of_nat k = from_le_bytes (take k l))%N.
Proof.
  revert l. induction k as [|k IH]; intros l; [by rewrite N.mod_1_r|].
  destruct l as [|b l]; cbn [from_le_bytes take]; [by apply N.Div0.mod_0_l|].
  rewrite Nat2N.inj_succ, N.pow_succ_r', <- IH.
  pose proof (Byte.to_N_bounded b).
  rewrite N.Div0.mod_mul_r.
  rewrite (N.mul_comm 256 (from_le_bytes l)), N.Div0.mod_add, N.div_add by lia.
  by rewrite N.mod_small, N.div_small, N.add_0_l by lia.
Qed.

Lemma from_le_bytes_inj l l' :
  length l = length l' → from_le_bytes l = from_le_bytes l' → l = l'.
Proof.
  revert l'. induction l as [|b l IH]; intros [|b' l'] Hl He; try done.
  cbn [from_le_bytes] in He. injection Hl as Hl.
  pose proof (Byte.to_N_bounded b). pose proof (Byte.to_N_bounded b').
  f_equal; [|apply IH; [done|lia]].
  assert (Hb : Byte.to_N b = Byte.to_N b') by lia.
  apply (f_equal Byte.of_N) in Hb. rewrite !Byte.of_to_N in Hb. by simplify_eq.
Qed.

(** The 64-bit prefix test of the two fast paths. *)
Lemma prefix_test w k pat :
  8 ≤ length w → k ≤ 8 → length pat = k →
  N.land (from_le_bytes (take 8 w)) (N.ones (8 * N.of_nat k)) = from_le_bytes pat →
  take k w = pat.
Proof.
  intros Hw Hk Hp. rewrite N.land_ones.
  replace (2 ^ (8 * N.of_nat k))%N with (256 ^ N.of_nat k)%N
    by (rewrite N.pow_mul_r; done).
  rewrite from_le_bytes_mod, take_take, Nat.min_l by done.
  apply from_le_bytes_inj. rewrite length_take. lia.
Qed.

Lemma space_mask_spec buf ptr :
  ptr + 32 ≤ length buf →
  space_mask buf ptr = Ret (mask_bits (is_space <$> take 32 (drop ptr buf))).
Proof.
  intros H. unfold space_mask. rewrite loadu_Ret by done. run.
  rewrite cmpeq_set1 by by apply length_window.
  by rewrite movemask_u32 by (rewrite length_fmap, length_window; lia).
Qed.

Lemma first_space_lt w k : first_space w = Some k → k < length w.
Proof. intros H%first_true_lt. by rewrite length_fmap in H. Qed.

Lemma space_mask_nonzero w m :
  first_space w = Some m → (mask_bits (is_space <$> w) =? 0)%N = false.
Proof. intros H. apply N.eqb_neq. rewrite mask_bits_0. unfold first_space in H. congruence. Qed.

(** The common tail of the three paths. *)
Lemma finish_line oc w m k :
  length w ≤ 32 → k < 32 →
  ((mask2 ← u32_shr oc (mask_bits (is_space <$> w)) k;
   if (mask2 =? 0)%N then Ret None
   else Ret (Some ((0, m), (k, u8_of_nat (trailing_zeros mask2)), 0)))
   : outcome (option request_line))
  = Ret (l ← first_space (drop k w); Some ((0, m), (k, l), 0)).
Proof.
  intros Hw Hk. unfold u32_shr. rewrite decide_True by done. run.
  rewrite mask_bits_shiftr, <- fmap_drop. unfold first_space.
  destruct (first_true _) as [l|] eqn:Hl.
  - assert (Hl' := Hl). apply first_true_lt in Hl'.
    rewrite length_fmap, length_drop in Hl'.
    rewrite (proj2 (N.eqb_neq _ _)) by (rewrite mask_bits_0; congruence).
    rewrite (trailing_zeros_mask _ l Hl), u8_small; [done|lia].
  - by rewrite (proj2 (mask_bits_0 _) Hl).
Qed.

Lemma first_space_take w k m :
  first_space (take k w) = Some m → first_space w = Some m.
Proof.
  intros Hm. rewrite <- (take_drop k w). revert m Hm. unfold first_space.
  generalize (take k w), (drop k w). clear. intros l l'. rewrite fmap_app.
  induction l as [|b l IH]; intros m; cbn; [done|]. destruct (is_space b); [done|].
  intros (j & Hj & ->)%fmap_Some. by rewrite (IH j Hj).
Qed.

Lemma parse_line_prefix w pat m :
  take (m + 1) w = pat → first_space pat = Some m →
  parse_line w = (l ← first_space (drop (m + 1) w); Some ((0, m), (m + 1, l), 0)).
Proof. intros <- Hm%first_space_take. unfold parse_line. by rewrite Hm. Qed.

Section parse_one.
Context (oc : bool) (buf : bytes) (ptr : nat).
Hypothesis Hlen : ptr + 32 ≤ length buf.
Let w := take 32 (drop ptr buf).

Lemma window_length : length w = 32.
Proof. by apply length_window. Qed.

Lemma window_first8 : read_u64_le buf ptr = Ret (from_le_bytes (take 8 w)).
Proof.
  unfold read_u64_le, from_raw_parts. rewrite decide_True by lia.
  unfold w. by rewrite take_take.
Qed.

(** A fast path agrees with the reference parser when its prefix test
    succeeds. *)
Lemma fast_path pat k :
  length pat = k + 1 → k < 8 → first_space pat = Some k →
  N.land (from_le_bytes (take 8 w)) (N.ones (8 * N.of_nat (k + 1))) = from_le_bytes pat →
  Ret (l ← first_space (drop (k + 1) w); Some ((0, k), (k + 1, l), 0))
  = Ret (parse_line w).
Proof.
  intros Hp Hk Hs Ht. f_equal. symmetry. apply parse_line_prefix with pat; [|done].
  apply prefix_test; [rewrite window_length; lia|lia|done|done].
Qed.

Lemma parse_one_spec :
  first_space w ≠ Some 31 → parse_one_manual oc buf ptr = Ret (parse_line w).
Proof.
  intros H31. unfold parse_one_manual. rewrite window_first8. run.
  rewrite !space_mask_spec by done. fold w. run.
  pose proof window_length as Hw.
  destruct (N.eqb_spec (N.land (from_le_bytes (take 8 w)) 0xFFFFFFFF) GET_MASK) as [Hg|_].
  { rewrite finish_line by lia.
    apply (fast_path (byte_str "GET ") 3); [done|lia|done|exact Hg]. }
  destruct (N.eqb_spec (N.land (from_le_bytes (take 8 w)) 0xFFFFFFFFFF) POST_MASK) as [Hp|_].
  { rewrite finish_line by lia.
    apply (fast_path (byte_str "POST ") 4); [done|lia|done|exact Hp]. }
  unfold parse_line.
  destruct (first_space w) as [m|] eqn:Hs.
  - assert (Hm := first_space_lt w m Hs). rewrite Hw in Hm.
    rewrite (space_mask_nonzero w m Hs). rewrite (trailing_zeros_mask _ m Hs), (u8_small m) by lia.
    rewrite finish_line; [done|lia|]. assert (m ≠ 31) by congruence. lia.
  - by rewrite (proj2 (mask_bits_0 _) Hs).
Qed.

(** On 32 readable bytes whose first space is not the very last one, the
    vectorised request-line parser (two fast paths for GET and POST, a general
    path) is total in both build profiles and agrees with the reference
    parser. *)
Theorem parse_one_manual_correct :
  first_space w ≠ Some 31 → parse_one_manual oc buf ptr = Ret (parse_line w).
Proof. apply parse_one_spec. Qed.

Lemma parse_one_boundary_spec :
  first_space w = Some 31 →
  parse_one_manual oc buf ptr =
    if oc then Panic else Ret (Some ((0, 31), (32, 31), 0)).
Proof.
  intros H31. unfold parse_one_manual. rewrite window_first8. run.
  rewrite !space_mask_spec by done. fold w. run.
  pose proof window_length as Hw.
  assert (Hpre : ∀ pat k, length pat = k + 1 → k < 8 → first_space pat = Some k →
    N.land (from_le_bytes (take 8 w)) (N.ones (8 * N.of_nat (k + 1)))
      ≠ from_le_bytes pat).
  { intros pat k Hp Hk Hs Ht. apply prefix_test in Ht; [|lia..|done].
    rewrite <- Ht in Hs. apply first_space_take in Hs. rewrite H31 in Hs. simplify_eq. lia. }
  rewrite (proj2 (N.eqb_neq _ _)) by exact (Hpre (byte_str "GET ") 3 eq_refl ltac:(lia) eq_refl).
  rewrite (proj2 (N.eqb_neq _ _)) by exact (Hpre (byte_str "POST ") 4 eq_refl ltac:(lia) eq_refl).
  rewrite (space_mask_nonzero w 31 H31).
  rewrite (trailing_zeros_mask _ 31 H31), (u8_small 31) by lia.
  unfold u32_shr. rewrite decide_False by lia. destruct oc; [done|]. run.
  change (N.of_nat ((31 + 1) mod 32)) with 0%N. rewrite N.shiftr_0_r.
  rewrite (space_mask_nonzero w 31 H31).
  by rewrite (trailing_zeros_mask _ 31 H31), (u8_small 31) by lia.
Qed.

(** The boundary case. When the first space is the last of the 32 bytes,
    the shift amount of [mask >> path_start] is 32: the dev profile panics,
    and the release profile shifts by zero and reports a 31-byte path that
    begins just after the window that was read. *)
Theorem parse_one_manual_boundary :
  first_space w = Some 31 →
  parse_one_manual oc buf ptr =
    if oc then Panic else Ret (Some ((0, 31), (32, 31), 0)).
Proof. apply parse_one_boundary_spec. Qed.
End parse_one.

(** * The request parser *)

(** The request at a start position, read from the 32 bytes that follow. *)
Definition entry_at (buf : bytes) (start : nat) : option RequestEntry :=
  let w := take 32 (drop start buf) in
  m ← first_space w;
  l ← first_space (drop (m + 1) w);
  Some (take m w, take l (drop (m + 1) w)).

(** The start positions up to the first one without 32 readable bytes. *)
Definition full_starts (n : nat) (buf : bytes) : list nat :=
  take_while (λ s, s + 32 <=? length buf) (request_starts n buf).

(** The reference list of requests of a packet. *)
Definition requests (n : nat) (buf : bytes) : list RequestEntry :=
  omap (entry_at buf) (full_starts n buf).

(** The request line at [s] has its first space at the last byte of its
    32-byte window. *)
Definition boundary_at (buf : bytes) (s : nat) : bool :=
  bool_decide (first_space (take 32 (drop s buf)) = Some 31).

(** No request line of the packet has it there. *)
Definition no_boundary (n : nat) (buf : bytes) : Prop :=
  Forall (λ s, boundary_at buf s = false) (full_starts n buf).

(** What the release profile makes of such a line: a method of 31 bytes, and for
    a path the 31 bytes behind the window; and whether these leave the packet. *)
Definition wide_entry_at (buf : bytes) (s : nat) : option RequestEntry :=
  if boundary_at buf s then Some (take 31 (drop s buf), take 31 (drop (s + 32) buf))
  else entry_at buf s.
Definition overruns (buf : bytes) (s : nat) : bool :=
  boundary_at buf s && (length buf <? s + 63).

(** The body of the loop over the start positions. *)
Abbreviation request_step oc buf starts total := (λ '(i, out, count),
  if negb (i <? total) then Ret (inr (out, count))
  else
    start ← index starts i;
    if length buf <? start + 32 then Ret (inr (out, count))
    else
      r ← parse_one_manual oc buf start;
      match r with
      | Some ((m_off, m_len), (p_off, p_len), _) =>
          m ← from_raw_parts buf (start + m_off) m_len;
          p ← from_raw_parts buf (start + p_off) p_len;
          out ← index_set out count (m, p);
          Ret (inl (i + 1, out, count + 1))
      | None => Ret (inl (i + 1, out, count))
      end).

Section request_loop.
Context (oc : bool) (n : nat) (buf : bytes) (starts : list nat).
Hypothesis Hn : length starts ≤ n.
Let step := request_step oc buf (padded 0 n starts) (length starts).
Let fits s := s + 32 <=? length buf.

Lemma request_step_end out count :
  step (length starts, out, count) = Ret (inr (out, count)).
Proof. unfold step. by rewrite Nat.ltb_irrefl. Qed.

Lemma request_step_break i s out count :
  starts !! i = Some s → fits s = false → step (i, out, count) = Ret (inr (out, count)).
Proof.
  intros Hs Hf. unfold step. rewrite (proj2 (Nat.ltb_lt _ _)) by by eapply lookup_lt_Some.
  cbn [negb]. rewrite (padded_index _ _ _ _ s) by done. run.
  apply Nat.leb_gt in Hf. by rewrite (proj2 (Nat.ltb_lt _ _)) by done.
Qed.

Lemma request_step_line i s out count :
  starts !! i = Some s → fits s = true →
  step (i, out, count) =
    (r ← parse_one_manual oc buf s;
     match r with
     | Some ((m_off, m_len), (p_off, p_len), _) =>
         m ← from_raw_parts buf (s + m_off) m_len;
         p ← from_raw_parts buf (s + p_off) p_len;
         out ← index_set out count (m, p);
         Ret (inl (i + 1, out, count + 1))
     | None => Ret (inl (i + 1, out, count))
     end).
Proof.
  intros Hs Hf. unfold step. rewrite (proj2 (Nat.ltb_lt _ _)) by by eapply lookup_lt_Some.
  cbn [negb]. rewrite (padded_index _ _ _ _ s) by done. run.
  apply Nat.leb_le in Hf. by rewrite (proj2 (Nat.ltb_ge _ _)) by done.
Qed.

Lemma request_step_fits i s acc :
  starts !! i = Some s → fits s = true → boundary_at buf s = false → length acc < n →
  let acc' := acc ++ option_list (entry_at buf s) in
  step (i, padded ([], []) n acc, length acc)
  = Ret (inl (i + 1, padded ([], []) n acc', length acc')).
Proof.
  intros Hs Hf Hb Hacc. cbv zeta. rewrite (request_step_line i s) by done.
  apply Nat.leb_le in Hf. apply bool_decide_eq_false in Hb.
  rewrite parse_one_spec by done. unfold parse_line, entry_at.
  set (w := take 32 (drop s buf)).
  assert (Hw : length w = 32) by by apply length_window.
  destruct (first_space w) as [m|] eqn:Hm; cbn; [|by rewrite !app_nil_r].
  destruct (first_space (drop (m + 1) w)) as [l|] eqn:Hl; cbn; [|by rewrite !app_nil_r].
  apply first_space_lt in Hm. apply first_space_lt in Hl. rewrite length_drop in Hl.
  rewrite !from_raw_parts_Ret by lia. run. rewrite padded_push by done. run.
  rewrite length_app. cbn [length]. do 6 f_equal.
  unfold w. rewrite Nat.add_0_r, take_take, Nat.min_l by lia. do 2 f_equal.
  rewrite skipn_firstn_comm, drop_drop, take_take. f_equal. lia.
Qed.

Lemma request_loop_spec rest pre acc fuel :
  starts = pre ++ rest → length acc ≤ length pre → length rest < fuel →
  Forall (λ s, boundary_at buf s = false) (take_while fits rest) →
  let acc' := acc ++ omap (entry_at buf) (take_while fits rest) in
  loop fuel step (length pre, padded ([], []) n acc, length acc)
  = Ret (padded ([], []) n acc', length acc').
Proof.
  revert pre acc fuel. induction rest as [|s rest IH]; intros pre acc fuel Hst Hacc Hf Hb;
    (destruct fuel as [|fuel]; [cbn in Hf; lia|]); cbn [loop take_while] in *.
  - rewrite app_nil_r in Hst. subst pre. rewrite request_step_end. cbn.
    by rewrite app_nil_r.
  - assert (Hs : starts !! length pre = Some s)
      by by rewrite Hst, lookup_app_r, Nat.sub_diag.
    assert (Hlen : length pre < length starts) by by eapply lookup_lt_Some.
    destruct (fits s) eqn:Hfit.
    + apply Forall_cons_1 in Hb as [Hb Hbs].
      rewrite (request_step_fits _ s) by (done || lia). run. cbv zeta in IH.
      replace (length pre + 1) with (length (pre ++ [s])) by by rewrite length_app.
      rewrite IH; [|by rewrite <- app_assoc| |cbn in Hf; lia|done].
      * cbn. destruct (entry_at buf s); by rewrite <- app_assoc.
      * rewrite !length_app. destruct (entry_at buf s); cbn; lia.
    + rewrite (request_step_break _ s) by done. cbn. by rewrite app_nil_r.
Qed.

(** ** Lines with their first space at the window's edge *)

Lemma request_step_boundary i s acc :
  starts !! i = Some s → fits s = true → boundary_at buf s = true → length acc < n →
  step (i, padded ([], []) n acc, length acc) =
    if oc then Panic
    else if s + 63 <=? length buf then
      let acc' := acc ++ option_list (wide_entry_at buf s) in
      Ret (inl (i + 1, padded ([], []) n acc', length acc'))
    else UB.
Proof.
  intros Hs Hf Hb Hacc. rewrite (request_step_line i s) by done. apply Nat.leb_le in Hf.
  unfold wide_entry_at. rewrite Hb. apply bool_decide_eq_true in Hb.
  rewrite parse_one_boundary_spec by done. destruct oc; [done|]. run.
  rewrite (from_raw_parts_Ret buf (s + 0) 31) by lia. run. rewrite Nat.add_0_r.
  destruct (Nat.leb_spec (s + 63) (length buf)) as [Hl|Hl].
  - rewrite from_raw_parts_Ret by lia. run. rewrite padded_push by done. run.
    cbn [option_list]. by rewrite length_app.
  - by rewrite from_raw_parts_UB by lia.
Qed.

(** The loop over any starts, boundary lines included. *)
Lemma request_loop_any rest pre acc fuel :
  starts = pre ++ rest → length acc ≤ length pre → length rest < fuel →
  loop fuel step (length pre, padded ([], []) n acc, length acc) =
    if oc && existsb (boundary_at buf) (take_while fits rest) then Panic
    else if existsb (overruns buf) (take_while fits rest) then UB
    else
      let acc' := acc ++ omap (wide_entry_at buf) (take_while fits rest) in
      Ret (padded ([], []) n acc', length acc').
Proof.
  revert pre acc fuel. induction rest as [|s rest IH]; intros pre acc fuel Hst Hacc Hf;
    (destruct fuel as [|fuel]; [cbn in Hf; lia|]); cbn [loop take_while] in *.
  { rewrite app_nil_r in Hst. subst pre. rewrite request_step_end. cbn.
    by rewrite andb_false_r, app_nil_r. }
  assert (Hs : starts !! length pre = Some s)
    by by rewrite Hst, lookup_app_r, Nat.sub_diag.
  assert (Hlen : length pre < length starts) by by eapply lookup_lt_Some.
  destruct (fits s) eqn:Hfit.
  2: { rewrite (request_step_break _ s) by done. cbn. by rewrite andb_false_r, app_nil_r. }
  assert (Hnext : ∀ o : option RequestEntry, let acc1 := acc ++ option_list o in
    loop fuel step (length pre + 1, padded ([], []) n acc1, length acc1) =
    loop fuel step (length (pre ++ [s]), padded ([], []) n acc1, length acc1) ∧
    length acc1 ≤ length (pre ++ [s])).
  { intros o acc1. rewrite length_app. split; [done|]. unfold acc1. rewrite !length_app.
    destruct o; cbn; lia. }
  assert (Homap : acc ++ omap (wide_entry_at buf) (s :: take_while fits rest) =
    (acc ++ option_list (wide_entry_at buf s)) ++ omap (wide_entry_at buf) (take_while fits rest)).
  { rewrite <- app_assoc. f_equal. cbn. by destruct (wide_entry_at buf s). }
  cbv zeta. rewrite Homap. cbn [existsb]. unfold overruns at 1.
  destruct (boundary_at buf s) eqn:Hb.
  - rewrite (request_step_boundary _ s) by (done || lia). cbn [andb orb].
    destruct oc; [done|]. cbn [andb]. rewrite Nat.leb_antisym.
    destruct (length buf <? s + 63) eqn:Hl; cbn [negb orb]; [done|]. run.
    destruct (Hnext (wide_entry_at buf s)) as [-> Hacc'].
    rewrite (IH (pre ++ [s])); [done|by rewrite <- app_assoc|done|cbn in Hf; lia].
  - rewrite (request_step_fits _ s) by (done || lia). run. cbn [andb orb].
    assert (He : entry_at buf s = wide_entry_at buf s) by (unfold wide_entry_at; by rewrite Hb).
    rewrite He. destruct (Hnext (wide_entry_at buf s)) as [-> Hacc'].
    rewrite (IH (pre ++ [s])); [done|by rewrite <- app_assoc|done|cbn in Hf; lia].
Qed.
End request_loop.

Lemma request_starts_length n buf : length (request_starts n buf) ≤ n.
Proof. unfold request_starts. rewrite length_take. lia. Qed.

Lemma requests_length n buf : length (requests n buf) ≤ n.
Proof.
  unfold requests, full_starts. etrans; [apply omap_length|].
  etrans; [apply take_while_length|]. apply request_starts_length.
Qed.

Lemma parse_requests_spec oc n buf :
  no_boundary n buf →
  parse_http_methods_paths oc n buf =
    Ret (padded ([], []) n (requests n buf), length (requests n buf)).
Proof.
  intros Hb. unfold parse_http_methods_paths.
  rewrite find_request_starts_spec. run. cbn [filled].
  rewrite <- (padded_nil ([], [])).
  apply (request_loop_spec oc n buf _ (request_starts_length n buf) (request_starts n buf) [] []);
    [done|done|lia|done].
Qed.

(** C11: if no request line of a packet has its first space at the last byte of
    its 32-byte window, then parsing the packet terminates without a panic and
    without leaving the packet's memory, in both build profiles, and yields the
    reference list of (method, path) pairs, in order. *)
Theorem parse_http_methods_paths_correct oc n buf :
  no_boundary n buf →
  parse_http_methods_paths oc n buf =
    Ret (padded ([], []) n (requests n buf), length (requests n buf)).
Proof. apply parse_requests_spec. Qed.

(** C33: what becomes of a packet in which any request line has its first space at
    the last byte of its window: the dev profile panics; the release profile
    leaves the packet's memory when one of these lines has fewer than 63 bytes
    left, and otherwise goes on with a path made of the 31 bytes behind the
    window. *)
Theorem parse_http_methods_paths_boundary oc n buf :
  ¬ no_boundary n buf →
  parse_http_methods_paths oc n buf =
    if oc then Panic
    else if existsb (overruns buf) (full_starts n buf) then UB
    else
      let reqs := omap (wide_entry_at buf) (full_starts n buf) in
      Ret (padded ([], []) n reqs, length reqs).
Proof.
  intros Hb. assert (Hex : existsb (boundary_at buf) (full_starts n buf) = true).
  { destruct (existsb _ _) eqn:Hex; [done|]. destruct Hb. apply list.Forall_forall. intros s Hs.
    destruct (boundary_at buf s) eqn:Hbs; [|done]. rewrite <- Hex. symmetry.
    apply existsb_exists. exists s. by rewrite <- list_elem_of_In. }
  unfold parse_http_methods_paths. rewrite find_request_starts_spec. run. cbn [filled].
  rewrite <- (padded_nil ([], [])).
  rewrite (request_loop_any oc n buf _ (request_starts_length n buf) (request_starts n buf) [] [])
    by (done || cbn; lia).
  change (take_while _ (request_starts n buf)) with (full_starts n buf). rewrite Hex. by destruct oc.
Qed.
