(* ===== verification/Trim.v ===== *)
(** The zero-trimming routines of [src/library/utils/trim.rs]. *)
From S2P Require Import Prelude Avx.

Definition l_trim256 (data : bytes) : outcome bytes :=
  let len := length data in
  let zero := mm256_set1_epi8 x00 in
  r ← loop (S len)
    (λ i,
      if i + 32 <=? len then
        chunk ← mm256_loadu_si256 data i;
        let cmp := mm256_cmpeq_epi8 chunk zero in
        let mask := mm256_movemask_epi8 cmp in
        if negb (mask =? -1)%Z then
          let tz := trailing_ones mask in
          s ← slice_from data (i + tz);
          Ret (inr (inr s))
        else Ret (inl (i + 32))
      else Ret (inr (inl i)))
    0;
  match r with
  | inr s => Ret s
  | inl i =>
      loop (S len)
        (λ i,
          if i <? len then
            b ← read data i;
            if negb (Byte.eqb b x00) then
              s ← slice_from data i; Ret (inr s)
            else Ret (inl (i + 1))
          else Ret (inr []))
        i
  end.

(** [for j in (0..32).rev() { if *ptr.add(offset + j) != 0 { return .. } }],
    with [k] iterations left. *)
Fixpoint r_trim_chunk (buf : bytes) (offset k : nat) : outcome (option bytes) :=
  match k with
  | 0 => Ret None
  | S j =>
      b ← read buf (offset + j);
      if negb (Byte.eqb b x00) then
        s ← slice buf 0 (offset + j + 1); Ret (Some s)
      else r_trim_chunk buf offset j
  end.

Definition r_trim256 (buf : bytes) : outcome bytes :=
  let len := length buf in
  if len =? 0 then Ret []
  else
    r ← loop (S len)
      (λ i,
        if 32 <=? i then
          let offset := i - 32 in
          chunk ← mm256_loadu_si256 buf offset;
          let cmp := mm256_cmpeq_epi8 chunk mm256_setzero_si256 in
          let mask := mm256_movemask_epi8 cmp in
          if negb (mask =? -1)%Z then
            r ← r_trim_chunk buf offset 32;
            match r with
            | Some s => Ret (inr (inr s))
            | None => Ret (inl (i - 32))
            end
          else Ret (inl (i - 32))
        else Ret (inr (inl i)))
      len;
    match r with
    | inr s => Ret s
    | inl i =>
        loop (S len)
          (λ i,
            if 0 <? i then
              b ← read buf (i - 1);
              if negb (Byte.eqb b x00) then
                s ← slice buf 0 i; Ret (inr s)
              else Ret (inl (i - 1))
            else Ret (inr []))
          i
    end.

(** * Reference definitions *)

Fixpoint trim_left (l : bytes) : bytes :=
  match l with
  | [] => []
  | b :: l' => if Byte.eqb b x00 then trim_left l' else l
  end.

Definition trim_right (l : bytes) : bytes := reverse (trim_left (reverse l)).

(** * Masks of zero bytes *)

Definition zeros (v : bytes) : list bool := (λ b, Byte.eqb b x00) <$> v.

Lemma mask_bits_negb bs :
  N.lxor (mask_bits bs) (N.ones (N.of_nat (length bs))) = mask_bits (negb <$> bs).
Proof.
  induction bs as [|b bs IH]; [done|].
  cbn [length mask_bits fmap list_fmap].
  assert (Ho : N.ones (N.of_nat (S (length bs))) = N.succ_double (N.ones (N.of_nat (length bs)))).
  { rewrite !N.ones_equiv, Nat2N.inj_succ, N.pow_succ_r'.
    assert (2 ^ N.of_nat (length bs) ≠ 0)%N by by apply N.pow_nonzero. lia. }
  rewrite Ho. fold (negb <$> bs). rewrite <- IH.
  destruct b; cbn [negb mask_bits];
    destruct (mask_bits bs), (N.ones (N.of_nat (length bs))); reflexivity.
Qed.

Section zero_mask.
Context (v : bytes).
Hypothesis Hv : length v = 32.
Let mask := mm256_movemask_epi8 (mm256_cmpeq_epi8 v (mm256_set1_epi8 x00)).

Lemma zero_mask_u32 : u32_of_i32 mask = mask_bits (zeros v).
Proof.
  unfold mask. rewrite cmpeq_set1 by done.
  by rewrite movemask_u32 by (rewrite length_fmap; lia).
Qed.

Lemma zero_mask_ones : trailing_ones mask = trailing_zeros (mask_bits (negb <$> zeros v)).
Proof.
  unfold trailing_ones. rewrite zero_mask_u32, <- mask_bits_negb.
  unfold zeros. rewrite length_fmap, Hv. done.
Qed.

Lemma zero_mask_all : (mask =? -1)%Z = bool_decide (first_true (negb <$> zeros v) = None).
Proof.
  assert (Hm : mask = i32_of_u32 (mask_bits (zeros v))).
  { unfold mask. by rewrite cmpeq_set1, movemask_lanes. }
  assert (Hb : (mask_bits (zeros v) < 2 ^ 32)%N).
  { apply mask_bits_u32. unfold zeros. rewrite length_fmap. lia. }
  apply eq_true_iff_eq. rewrite Z.eqb_eq, bool_decide_eq_true, <- mask_bits_0.
  rewrite <- mask_bits_negb, N.lxor_eq_0_iff. unfold zeros at 2.
  rewrite length_fmap, Hv, Hm. change (N.ones (N.of_nat 32)) with (2 ^ 32 - 1)%N.
  unfold i32_of_u32. destruct (N.ltb_spec (mask_bits (zeros v)) (2 ^ 31)); lia.
Qed.
End zero_mask.

(** * Trimming lists *)

Lemma zeros_None v : first_true (negb <$> zeros v) = None ↔ Forall (λ b, b = x00) v.
Proof.
  induction v as [|b v IH]; [by split|]. rewrite list.Forall_cons.
  change (zeros (b :: v)) with (Byte.eqb b x00 :: zeros v). rewrite fmap_cons.
  destruct (Byte.eqb b x00) eqn:Hb; cbn [negb first_true].
  - apply Byte.byte_dec_bl in Hb as ->. rewrite fmap_None, IH. tauto.
  - split; [done|]. by intros [-> _].
Qed.

Lemma trim_left_app v r :
  trim_left (v ++ r) =
  match first_true (negb <$> zeros v) with
  | None => trim_left r
  | Some k => drop k (v ++ r)
  end.
Proof.
  induction v as [|b v IH]; [done|]. cbn. destruct (Byte.eqb b x00); cbn; [|done].
  rewrite IH. fold (zeros v). by destruct (first_true (negb <$> zeros v)).
Qed.

Lemma trim_right_snoc l b :
  trim_right (l ++ [b]) = if Byte.eqb b x00 then trim_right l else l ++ [b].
Proof.
  unfold trim_right. rewrite reverse_snoc. cbn [trim_left]. destruct (Byte.eqb b x00); [done|].
  by rewrite reverse_cons, reverse_involutive.
Qed.

Lemma trim_right_zeros l v : Forall (λ b, b = x00) v → trim_right (l ++ v) = trim_right l.
Proof.
  intros Hv. unfold trim_right. rewrite reverse_app, trim_left_app.
  by rewrite (proj2 (zeros_None (reverse v))) by by apply Forall_reverse.
Qed.

Lemma take_add_window {A} (l : list A) i n : take (i + n) l = take i l ++ take n (drop i l).
Proof. by rewrite take_take_drop. Qed.

Lemma drop_window {A} (l : list A) i n : drop i l = take n (drop i l) ++ drop (i + n) l.
Proof. rewrite <- (take_drop n (drop i l)) at 1. by rewrite drop_drop. Qed.

Lemma slice_from_Ret {A} (l : list A) a : a ≤ length l → slice_from l a = Ret (drop a l).
Proof. intros H. unfold slice_from. by rewrite decide_True. Qed.

Lemma slice_0_Ret {A} (l : list A) b : b ≤ length l → slice l 0 b = Ret (take b l).
Proof. intros H. unfold slice. rewrite decide_True by lia. by rewrite Nat.sub_0_r. Qed.

(** * Correctness *)

Section l_trim.
Context (data : bytes).

(** Everything before [i] is zero. *)
Let inv (i : nat) : Prop := i ≤ length data ∧ trim_left (drop i data) = trim_left data.

Lemma l_trim_chunk i :
  inv i → i + 32 ≤ length data →
  let mask := mm256_movemask_epi8
    (mm256_cmpeq_epi8 (take 32 (drop i data)) (mm256_set1_epi8 x00)) in
  if (mask =? -1)%Z then inv (i + 32)
  else slice_from data (i + trailing_ones mask) = Ret (trim_left data).
Proof.
  intros [Hi Ht] Hle. cbv zeta. set (v := take 32 (drop i data)).
  assert (Hv : length v = 32) by by apply length_window.
  rewrite zero_mask_all by done.
  rewrite (drop_window data i 32), trim_left_app in Ht. fold v in Ht.
  destruct (first_true (negb <$> zeros v)) as [k|] eqn:Hk.
  - rewrite bool_decide_eq_false_2 by done. rewrite zero_mask_ones by done.
    rewrite (trailing_zeros_mask _ k Hk).
    apply first_true_lt in Hk. unfold zeros in Hk. rewrite !length_fmap in Hk.
    rewrite slice_from_Ret by lia. rewrite <- Ht. unfold v.
    by rewrite <- drop_window, drop_drop.
  - rewrite bool_decide_eq_true_2 by done. split; [lia|done].
Qed.

Lemma l_trim256_spec : l_trim256 data = Ret (trim_left data).
Proof.
  unfold l_trim256. cbv zeta.
  edestruct (loop_rule inv (λ r, match r with inr s => s = trim_left data | inl i => inv i end)
    (λ i, length data - i)) as (r & -> & Hr); [|by split; [lia|rewrite drop_0]|lia|].
  { intros i Hi. cbv beta. destruct (Nat.leb_spec (i + 32) (length data)) as [Hle|Hgt].
    - rewrite loadu_Ret by done. run. assert (Hc := l_trim_chunk i Hi Hle). cbv zeta in Hc.
      revert Hc. destruct (_ =? -1)%Z; cbn [negb]; intros Hc.
      + left. eexists. split; [done|]. split; [done|lia].
      + right. rewrite Hc. run. by eexists.
    - right. eexists. split; [done|]. done. }
  run. destruct r as [i|s]; [|by subst].
  edestruct (loop_rule inv (λ s, s = trim_left data) (λ i, length data - i))
    as (s & -> & ->); [|done|lia|done].
  clear i Hr. intros i [Hi Ht]. cbv beta. destruct (Nat.ltb_spec i (length data)) as [Hlt|Hge].
  - destruct (lookup_lt_is_Some_2 data i Hlt) as [b Hb].
    unfold read. rewrite Hb. run.
    rewrite (drop_S _ b) in Ht by done. cbn [trim_left] in Ht.
    destruct (Byte.eqb b x00); cbn [negb].
    + left. eexists. split; [done|]. unfold inv. rewrite Nat.add_1_r. split; [split; [lia|done]|lia].
    + right. rewrite slice_from_Ret by done. run. eexists. split; [done|].
      rewrite <- Ht. by apply drop_S.
  - right. eexists. split; [done|]. rewrite <- Ht. by rewrite drop_ge.
Qed.

(** C34: [l_trim256] reads only inside its argument, terminates, and returns
    the argument without its leading zero bytes. *)
Theorem l_trim256_correct : l_trim256 data = Ret (trim_left data).
Proof. apply l_trim256_spec. Qed.
End l_trim.

Section r_trim.
Context (buf : bytes).

(** Everything from [i] on is zero. *)
Let inv (i : nat) : Prop := i ≤ length buf ∧ trim_right (take i buf) = trim_right buf.

Lemma take_pred i b : buf !! i = Some b → take (i + 1) buf = take i buf ++ [b].
Proof. intros Hb. rewrite Nat.add_1_r. by apply take_S_r. Qed.

Lemma r_trim_chunk_spec offset k :
  offset + k ≤ length buf →
  ∃ r, r_trim_chunk buf offset k = Ret r ∧
    trim_right (take (offset + k) buf) = default (trim_right (take offset buf)) r.
Proof.
  induction k as [|k IH]; intros Hk.
  - exists None. by rewrite Nat.add_0_r.
  - cbn [r_trim_chunk]. destruct (lookup_lt_is_Some_2 buf (offset + k)) as [b Hb]; [lia|].
    unfold read. rewrite Hb. run.
    replace (offset + S k) with (offset + k + 1) by lia.
    rewrite (take_pred _ b), trim_right_snoc by done.
    destruct (Byte.eqb b x00); cbn [negb]; [apply IH; lia|].
    rewrite slice_0_Ret by lia. run. eexists. split; [done|]. cbn.
    by rewrite (take_pred _ b).
Qed.

(** [r_trim256] reads only inside its argument, terminates, and returns
    the argument without its trailing zero bytes. *)
Theorem r_trim256_correct : r_trim256 buf = Ret (trim_right buf).
Proof.
  unfold r_trim256. cbv zeta. destruct (Nat.eqb_spec (length buf) 0) as [H0|Hnz].
  { by apply nil_length_inv in H0 as ->. }
  edestruct (loop_rule inv (λ r, match r with inr s => s = trim_right buf | inl i => inv i end) id)
    as (r & -> & Hr); [|split; [done|by rewrite firstn_all]|cbn; lia|].
  { intros i [Hi Ht]. cbv beta. destruct (Nat.leb_spec 32 i) as [Hle|Hgt].
    2: { right. eexists. split; [done|]. done. }
    rewrite loadu_Ret by lia. run. rewrite zero_mask_all by (apply length_window; lia).
    case_bool_decide as Hz; cbn [negb].
    - left. eexists. split; [done|]. split; [|cbn; lia]. split; [lia|]. rewrite <- Ht.
      replace i with (i - 32 + 32) at 2 by lia. rewrite take_add_window.
      symmetry. by apply trim_right_zeros, zeros_None.
    - destruct (r_trim_chunk_spec (i - 32) 32) as (r & -> & Hr); [lia|]. run.
      replace (i - 32 + 32) with i in Hr by lia. rewrite Ht in Hr.
      destruct r as [s|]; cbn in Hr.
      + right. eexists. split; [done|]. done.
      + left. eexists. split; [done|]. split; [split; [lia|done]|cbn; lia]. }
  run. destruct r as [i|s]; [|by subst].
  edestruct (loop_rule inv (λ s, s = trim_right buf) id)
    as (s & -> & ->); [|done|destruct Hr; cbn; lia|done].
  clear i Hr. intros i [Hi Ht]. cbv beta. destruct (Nat.ltb_spec 0 i) as [Hlt|Hge].
  - destruct (lookup_lt_is_Some_2 buf (i - 1)) as [b Hb]; [lia|].
    unfold read. rewrite Hb. run. replace i with (i - 1 + 1) in Ht by lia.
    rewrite (take_pred _ b), trim_right_snoc in Ht by done.
    destruct (Byte.eqb b x00); cbn [negb].
    + left. eexists. split; [done|]. split; [split; [lia|done]|cbn; lia].
    + right. rewrite slice_0_Ret by done. run. eexists. split; [done|].
      rewrite <- Ht. replace i with (i - 1 + 1) at 1 by lia. by apply take_pred.
  - right. eexists. split; [done|]. rewrite <- Ht. by replace i with 0 by lia.
Qed.
End r_trim.
