(* ===== verification/Config.v ===== *)
(** The compile-time constants of [src/library/server.rs] and
    [src/library/server_internals.rs]. *)
From S2P Require Import Prelude.

Definition BUFFER_SIZE : nat := Z.to_nat 7168.
Definition BUFFERS_COUNT : nat := Z.to_nat 1024.
Definition DATA_LAKE_SIZE : nat := Z.to_nat 21504.
Definition DEFAULT_URING_SIZE : nat := Z.to_nat 4096.
Definition DEFAULT_ACCEPT_MULTIPLICATOR : nat := 16.
Definition DEFAULT_SQPOLL_IDLE : nat := Z.to_nat 5000.

Definition BUF_GROUP : N := 42.
Definition REQ_RESP_OFFSET : N := (2 ^ 64 - 1) / 2.
Definition BUFFER_REGISTER_CODE : N := 0xFAB.
Definition INIT_REQUEST : N := 0xCCA.
Definition POLL_EVENT : N := 0xAAA.
Definition CODE_ACCEPT : N := 0xA.

#[global] Opaque BUFFER_SIZE BUFFERS_COUNT DATA_LAKE_SIZE.

Lemma BUFFER_SIZE_Z : Z.of_nat BUFFER_SIZE = 7168%Z.
Proof. reflexivity. Qed.
Lemma BUFFERS_COUNT_Z : Z.of_nat BUFFERS_COUNT = 1024%Z.
Proof. reflexivity. Qed.
Lemma DATA_LAKE_SIZE_Z : Z.of_nat DATA_LAKE_SIZE = 21504%Z.
Proof. reflexivity. Qed.

(** [lia] knowing the values of the constants. *)
Ltac const_lia :=
  pose proof BUFFER_SIZE_Z; pose proof BUFFERS_COUNT_Z; pose proof DATA_LAKE_SIZE_Z; lia.
