(* ===== verification/Shift.v ===== *)
(** The buffer shifts of [src/library/utils/shift.rs]. *)
From S2P Require Import Prelude Avx Config.

(** [for i in (0..len).rev()], with [k] iterations left. *)
Fixpoint shift_safe_loop (len k : nat) (buf : bytes) : outcome bytes :=
  match k with
  | 0 => Ret buf
  | S i =>
      b ← read buf i;
      buf ← write buf (length buf - len + i) b;
      buf ← write buf i x00;
      shift_safe_loop len i buf
  end.

Definition shift_safe (buf : bytes) (len : nat) : outcome bytes :=
  shift_safe_loop len len buf.

Definition shift_ub (oc : bool) (buf : bytes) (len : nat) : outcome bytes :=
  if decide (len ≤ BUFFER_SIZE) then
    let dst_vec := replicate BUFFER_SIZE x00 in
    let dst := BUFFER_SIZE - len in
    '(i, dst_vec) ← while (S len)
      (λ '(i, _), i + 32 <=? len)
      (λ '(i, dst_vec),
        chunk ← mm256_loadu_si256 buf i;
        dst_vec ← mm256_storeu_si256 dst_vec (dst + i) chunk;
        Ret (i + 32, dst_vec))
      (0, dst_vec);
    '(_, dst_vec) ← while (S len)
      (λ '(i, _), i <? len)
      (λ '(i, dst_vec),
        b ← read buf i;
        dst_vec ← write dst_vec (dst + i) b;
        Ret (i + 1, dst_vec))
      (i, dst_vec);
    Ret dst_vec
  else if oc then Panic else UB.

(** [slice::copy_within(a..b, dst)] *)
Definition copy_within (buf : bytes) (a b dst : nat) : outcome bytes :=
  if decide (a ≤ b ∧ b ≤ length buf ∧ dst ≤ length buf - (b - a)) then
    Ret (take dst buf ++ take (b - a) (drop a buf) ++ drop (dst + (b - a)) buf)
  else Panic.
(** [buf[..n].fill(b)] *)
Definition fill_prefix (buf : bytes) (n : nat) (b : byte) : outcome bytes :=
  if decide (n ≤ length buf) then Ret (replicate n b ++ drop n buf) else Panic.

Definition shift_ub_inplace (buf : bytes) (len : nat) : outcome bytes :=
  let dst_offset := length buf - len in
  buf ← copy_within buf 0 len dst_offset;
  fill_prefix buf dst_offset x00.

(** * Correctness *)

(** The first [len] bytes moved to the end of [n] cells, zeros before them. *)
Definition shifted (n : nat) (buf : bytes) (len : nat) : bytes :=
  replicate (n - len) x00 ++ take len buf.

Lemma shift_ub_inplace_spec buf len :
  shift_ub_inplace buf len =
    if decide (len ≤ length buf) then Ret (shifted (length buf) buf len) else Panic.
Proof.
  unfold shift_ub_inplace, copy_within. case_decide as H1; case_decide as H2; try lia; [|done].
  run. unfold fill_prefix. rewrite !length_app, !length_take, !length_drop.
  rewrite decide_True by lia. f_equal. unfold shifted. f_equal.
  rewrite Nat.sub_0_r, drop_0, drop_app_length' by (rewrite length_take; lia).
  rewrite drop_ge, app_nil_r by lia. done.
Qed.

(** The in-place shift moves the first [len] bytes to the end of the buffer
    and zeroes everything before them; it panics when [len] exceeds the buffer. *)
Theorem shift_ub_inplace_correct buf len :
  shift_ub_inplace buf len =
    if decide (len ≤ length buf) then Ret (shifted (length buf) buf len) else Panic.
Proof. apply shift_ub_inplace_spec. Qed.

Section shift_ub.
Context (oc : bool) (buf : bytes) (len : nat).
Hypothesis Hbs : len ≤ BUFFER_SIZE.
Hypothesis Hlen : len ≤ length buf.

(** The destination after [i] bytes were copied. *)
Definition copied (i : nat) : bytes :=
  replicate (BUFFER_SIZE - len) x00 ++ take i buf ++ replicate (len - i) x00.

Let inv (st : nat * bytes) : Prop := st.1 ≤ len ∧ st.2 = copied st.1.

Lemma length_copied i : i ≤ len → length (copied i) = BUFFER_SIZE.
Proof. intros Hi. unfold copied. rewrite !length_app, !length_replicate, length_take. lia. Qed.

(** Overwriting the next [n] bytes of the destination. *)
Lemma copied_next i n :
  i + n ≤ len →
  take (BUFFER_SIZE - len + i) (copied i) ++ take n (drop i buf) ++
    drop (BUFFER_SIZE - len + i + n) (copied i) = copied (i + n).
Proof.
  intros Hi. unfold copied.
  rewrite take_app_add' by by rewrite length_replicate.
  rewrite take_app_length' by (rewrite length_take; lia).
  rewrite <- Nat.add_assoc, drop_app_add' by by rewrite length_replicate.
  rewrite drop_app_add' by (rewrite length_take; lia).
  rewrite drop_replicate, <- !app_assoc, (app_assoc (take i buf)), take_take_drop.
  do 3 f_equal. lia.
Qed.

Lemma write_app l i (b : byte) :
  i < length l → write l i b = Ret (take i l ++ [b] ++ drop (i + 1) l).
Proof.
  intros Hi. unfold write. rewrite decide_True by done. f_equal.
  rewrite Nat.add_1_r. by apply insert_take_drop.
Qed.

(** C35: the AVX2 shift into a fresh buffer is memory safe and equals the
    specification of the in-place shift of a [BUFFER_SIZE] buffer. *)
Theorem shift_ub_correct : shift_ub oc buf len = Ret (shifted BUFFER_SIZE buf len).
Proof.
  unfold shift_ub. rewrite decide_True by done. cbv zeta.
  edestruct (while_rule inv (λ st, len - st.1)) as (st1 & -> & [Hi1 Hd1] & _).
  { intros [i d] [Hi Hd] Hc. cbn in Hi, Hd. apply Nat.leb_le in Hc. subst d.
    rewrite loadu_Ret by lia. run. rewrite storeu_Ret by (rewrite length_copied; lia). run.
    eexists. split; [done|]. split; [split|]; cbn [fst snd]; [lia| |lia].
    by apply copied_next. }
  { split; [cbn; lia|]. cbn. unfold copied. rewrite take_0, Nat.sub_0_r. cbn [app].
    rewrite <- replicate_add. f_equal. lia. }
  { cbn. lia. }
  destruct st1 as [i1 d1]. cbn in Hi1, Hd1. subst d1. run.
  edestruct (while_rule inv (λ st, len - st.1)) as (st2 & -> & [Hi2 Hd2] & Hc2); [|by split|cbn; lia|].
  { intros [i d] [Hi Hd] Hc. cbn in Hi, Hd. apply Nat.ltb_lt in Hc. subst d.
    destruct (lookup_lt_is_Some_2 buf i) as [b Hb]; [lia|].
    unfold read. rewrite Hb. run. rewrite write_app by (rewrite length_copied; lia). run.
    eexists. split; [done|]. split; [split|]; cbn [fst snd]; [lia| |lia].
    rewrite <- (copied_next i 1) by lia. by rewrite (drop_S buf b). }
  destruct st2 as [i2 d2]. cbn in Hi2, Hd2. subst d2. run. apply Nat.ltb_ge in Hc2.
  unfold copied, shifted. replace i2 with len by lia. by rewrite Nat.sub_diag, app_nil_r.
Qed.
End shift_ub.

(** * The scalar shift *)

Section shift_safe.
Context (o : bytes) (len : nat).
Hypothesis Hlen : len ≤ length o.
Let d := length o - len.

(** Cell [p] when the bytes [k .. len-1] have been moved, for a shift by
    [d > 0]: moved bytes, then zeroed sources, then untouched cells. *)
Definition safe_cell (k p : nat) : option byte :=
  if decide (p < k) then o !! p
  else if decide (d + k ≤ p) then o !! (p - d)
  else if decide (p < len) then Some x00
  else o !! p.

Definition safe_state (k : nat) (buf : bytes) : Prop :=
  length buf = length o ∧ ∀ p, p < length o → buf !! p = safe_cell k p.

Lemma safe_state_init : 0 < d → safe_state len o.
Proof.
  intros Hd. split; [done|]. intros p Hp. unfold safe_cell.
  repeat case_decide; try done; lia.
Qed.

Lemma safe_state_step i b buf :
  0 < d → i < len → safe_state (S i) buf → o !! i = Some b →
  safe_state i (<[i:=x00]> (<[d + i:=b]> buf)).
Proof.
  intros Hd Hi [Hl Hs] Hb. split; [by rewrite !length_insert|]. intros p Hp.
  rewrite !list_lookup_insert, length_insert. unfold safe_cell.
  repeat (case_decide; destruct_and?; subst; try lia; try done).
  all: try (rewrite Hs by done; unfold safe_cell; repeat (case_decide; try lia); done).
  by replace (d + i - d) with i by lia.
Qed.

Lemma shift_safe_loop_spec k buf :
  0 < d → k ≤ len → safe_state k buf →
  ∃ buf', shift_safe_loop len k buf = Ret buf' ∧ safe_state 0 buf'.
Proof.
  intros Hd. revert buf. induction k as [|i IH]; intros buf Hk Hs; [by eexists|].
  cbn [shift_safe_loop]. destruct (lookup_lt_is_Some_2 o i) as [b Hb]; [lia|].
  destruct Hs as [Hl Hc] eqn:Hs'. clear Hs'.
  unfold read. rewrite Hc by lia. unfold safe_cell at 1.
  rewrite decide_True, Hb by lia. run. unfold write. rewrite Hl. fold d.
  rewrite decide_True by lia. run. rewrite length_insert, decide_True by lia. run.
  apply IH; [lia|]. by apply safe_state_step.
Qed.

(** The final buffer of the scalar shift. *)
Definition safe_result : bytes :=
  replicate (d `min` len) x00 ++ drop (d `min` len) (take d o) ++ take len o.

Lemma safe_state_result buf : safe_state 0 buf → buf = safe_result.
Proof.
  intros [Hl Hs]. unfold safe_result. apply list_eq_same_length with (length o); [|done|].
  { rewrite !length_app, length_replicate, length_drop, !length_take. lia. }
  intros p x y Hp Hx Hy. rewrite Hs in Hx by done. unfold safe_cell in Hx.
  rewrite decide_False in Hx by lia. rewrite Nat.add_0_r in Hx.
  destruct (decide (d ≤ p)).
  - rewrite !lookup_app_r in Hy; rewrite ?length_app, ?length_replicate, ?length_drop, ?length_take; try lia.
    rewrite !length_drop, length_take, length_replicate in Hy.
    rewrite lookup_take_lt in Hy by lia. 
    replace (p - d `min` len - (d `min` length o - d `min` len)) with (p - d) in Hy by lia.
    congruence.
  - case_decide.
    + rewrite lookup_app_l, lookup_replicate_2 in Hy by (rewrite ?length_replicate; lia). congruence.
    + rewrite lookup_app_r, length_replicate in Hy by (rewrite length_replicate; lia).
      rewrite lookup_app_l, lookup_drop, lookup_take_lt in Hy
        by (rewrite ?length_drop, ?length_take; lia).
      replace (d `min` len + (p - d `min` len)) with p in Hy by lia. congruence.
Qed.

(** The scalar shift, for a packet shorter than the buffer, is memory
    safe and moves the first [len] bytes to the end; it zeroes only the bytes it
    moved, so the two shifts agree exactly when the packet covers at least half
    of the buffer or the gap was already zero. *)
Theorem shift_safe_correct : len < length o → shift_safe o len = Ret safe_result.
Proof.
  intros H. unfold shift_safe.
  destruct (shift_safe_loop_spec len o) as (buf & -> & Hb); [lia|done|apply safe_state_init; lia|].
  by rewrite (safe_state_result buf).
Qed.
End shift_safe.

(** On a full buffer the destination of each byte is its source, which is then
    cleared. *)
Lemma shift_safe_loop_full len k buf :
  length buf = len → k ≤ len →
  shift_safe_loop len k buf = Ret (replicate k x00 ++ drop k buf).
Proof.
  revert buf. induction k as [|i IH]; intros buf Hl Hk; [by rewrite drop_0|].
  cbn [shift_safe_loop]. destruct (lookup_lt_is_Some_2 buf i) as [b Hb]; [lia|].
  unfold read, write. rewrite Hb. run. rewrite Hl, Nat.sub_diag. cbn [Nat.add].
  rewrite decide_True by lia. run. rewrite length_insert, decide_True by lia. run.
  rewrite list_insert_insert_eq, IH by (rewrite ?length_insert; lia).
  rewrite (drop_S _ x00) by (apply list_lookup_insert_eq; lia).
  rewrite drop_insert_lt by lia. by rewrite replicate_S_end, <- app_assoc.
Qed.

(** A packet that fills the buffer is erased by the scalar shift, while the
    in-place shift keeps it. *)
Theorem shift_safe_full_erases buf :
  shift_safe buf (length buf) = Ret (replicate (length buf) x00) ∧
  shift_ub_inplace buf (length buf) = Ret buf.
Proof.
  split.
  - unfold shift_safe. rewrite shift_safe_loop_full by done. by rewrite drop_all, app_nil_r.
  - rewrite shift_ub_inplace_spec, decide_True by done. unfold shifted.
    by rewrite Nat.sub_diag, firstn_all.
Qed.
