(* ===== verification/UserData.v ===== *)
(** The packed [UserData] of [src/library/server_internals.rs]: the 64-bit tag
    that travels through the kernel with every request of a client. *)
From S2P Require Import Prelude Config.
Local Open Scope N_scope.

Record UserData := mkUserData { client_id : N; buffer_id : N; uniq_id : N }.

(** The field widths: [u32], [u16], [u16]. *)
Definition ud_wf (u : UserData) : Prop :=
  client_id u < 2 ^ 32 ∧ buffer_id u < 2 ^ 16 ∧ uniq_id u < 2 ^ 16.

(** [+] binds tighter than [|] in Rust. The sum of a [u32] and [REQ_RESP_OFFSET]
    fits in 64 bits. *)
Definition pack_user_data (u : UserData) : N :=
  N.lor (N.lor (N.shiftl (uniq_id u) 48) (N.shiftl (buffer_id u) 32))
        (client_id u + REQ_RESP_OFFSET).

(** [user_data - REQ_RESP_OFFSET] on [u64]: underflow panics with overflow
    checks and wraps without. *)
Definition u64_sub (oc : bool) (a b : N) : outcome N :=
  if b <=? a then Ret (a - b)
  else if oc then Panic else Ret (a + 2 ^ 64 - b).

Definition unpack_user_data (oc : bool) (user_data : N) : outcome UserData :=
  raw ← u64_sub oc user_data REQ_RESP_OFFSET;
  Ret (mkUserData
    (N.land raw 0xFFFFFFFF)
    (N.land (N.shiftr raw 32) 0xFFFF)
    (N.land (N.shiftr raw 48) 0xFFFF)).

#[export] Instance UserData_eq_dec : EqDecision UserData.
Proof. solve_decision. Defined.

(** * Arithmetic views of the bit operations *)

Lemma offset_value : REQ_RESP_OFFSET = 2 ^ 63 - 1.
Proof. reflexivity. Qed.

(** The low [n] ones absorb any value below [2 ^ n]. *)
Lemma lor_ones_absorb a n : a < 2 ^ n → N.lor a (N.ones n) = N.ones n.
Proof.
  intros Ha. destruct (decide (a = 0)) as [->|Hz]; [by rewrite N.lor_0_l|].
  apply N.lor_ones_low. apply N.log2_lt_pow2; lia.
Qed.

Section pack.
Context (u : UserData).
Hypothesis Hwf : ud_wf u.
Hypothesis Huniq : uniq_id u < 2 ^ 15.

Lemma pack_tags :
  N.lor (N.shiftl (uniq_id u) 48) (N.shiftl (buffer_id u) 32)
  = (uniq_id u * 2 ^ 16 + buffer_id u) * 2 ^ 32.
Proof.
  destruct Hwf as (_ & Hb & _). rewrite !N.shiftl_mul_pow2.
  replace (uniq_id u * 2 ^ 48) with (uniq_id u * 2 ^ 16 * 2 ^ 32) by lia.
  rewrite <- !N.shiftl_mul_pow2 with (n := 32), <- N.shiftl_lor.
  by rewrite lor_disjoint.
Qed.

Lemma pack_value_pos :
  0 < client_id u →
  pack_user_data u =
    2 ^ 63 + uniq_id u * 2 ^ 48 + buffer_id u * 2 ^ 32 + (client_id u - 1).
Proof.
  intros Hc. destruct Hwf as (Hc' & Hb & _). unfold pack_user_data.
  rewrite pack_tags, offset_value.
  replace (client_id u + (2 ^ 63 - 1)) with (2 ^ 31 * 2 ^ 32 + (client_id u - 1)) by lia.
  rewrite <- (lor_disjoint (2 ^ 31)) by lia. rewrite N.lor_assoc.
  rewrite <- !N.shiftl_mul_pow2 with (n := 32), <- N.shiftl_lor.
  rewrite (N.lor_comm _ (2 ^ 31)).
  replace (2 ^ 31) with (1 * 2 ^ 31) by lia. rewrite lor_disjoint by lia.
  rewrite !N.shiftl_mul_pow2, lor_disjoint by lia. lia.
Qed.

Lemma pack_value_zero : client_id u = 0 → pack_user_data u = REQ_RESP_OFFSET.
Proof.
  intros Hc. destruct Hwf as (_ & Hb & _). unfold pack_user_data.
  rewrite pack_tags, Hc, N.add_0_l. change REQ_RESP_OFFSET with (N.ones 63).
  apply lor_ones_absorb. lia.
Qed.
End pack.

Lemma unpack_fields oc c b q :
  c < 2 ^ 32 → b < 2 ^ 16 → q < 2 ^ 16 →
  unpack_user_data oc (REQ_RESP_OFFSET + (q * 2 ^ 48 + b * 2 ^ 32 + c))
  = Ret (mkUserData c b q).
Proof.
  intros Hc Hb Hq. unfold unpack_user_data, u64_sub.
  rewrite (proj2 (N.leb_le _ _)) by lia. run. rewrite N.add_comm, N.add_sub.
  change 0xFFFFFFFF with (N.ones 32). change 0xFFFF with (N.ones 16).
  rewrite !N.land_ones, !N.shiftr_div_pow2. f_equal. f_equal; div_lia.
Qed.

Lemma unpack_pack_helper oc u :
  ud_wf u → 0 < client_id u → uniq_id u < 2 ^ 15 →
  unpack_user_data oc (pack_user_data u) = Ret u.
Proof.
  intros Hwf Hc Hq. rewrite pack_value_pos by done.
  replace (_ + (client_id u - 1)) with
    (REQ_RESP_OFFSET + (uniq_id u * 2 ^ 48 + buffer_id u * 2 ^ 32 + client_id u))
    by (rewrite offset_value; lia).
  destruct Hwf as (? & ? & ?). rewrite unpack_fields by done. by destruct u.
Qed.

(** C26: unpacking a packed tag gives the tag back, for every client id from 1
    up and every operation code below 2^15, in both build profiles. *)
Theorem unpack_pack oc u :
  ud_wf u → 0 < client_id u → uniq_id u < 2 ^ 15 →
  unpack_user_data oc (pack_user_data u) = Ret u.
Proof. apply unpack_pack_helper. Qed.

(** For client 0 the addition binds before the bitwise or, the offset's 63
    ones absorb the other fields, and the tag comes back with its operation code
    and buffer id lost. *)
Theorem unpack_pack_client_0 oc u :
  ud_wf u → client_id u = 0 → uniq_id u < 2 ^ 15 →
  unpack_user_data oc (pack_user_data u) = Ret (mkUserData 0 0 0).
Proof.
  intros Hwf Hc Hq. rewrite pack_value_zero by done.
  apply (unpack_fields oc 0 0 0); lia.
Qed.

Lemma pack_range_helper u :
  ud_wf u → uniq_id u < 2 ^ 15 →
  REQ_RESP_OFFSET ≤ pack_user_data u ∧
  pack_user_data u ≠ CODE_ACCEPT ∧ pack_user_data u ≠ BUFFER_REGISTER_CODE.
Proof.
  intros Hwf Hq. assert (Hr : REQ_RESP_OFFSET ≤ pack_user_data u).
  { destruct (decide (client_id u = 0)) as [H0|H0].
    - by rewrite pack_value_zero.
    - rewrite pack_value_pos by (done || lia). rewrite offset_value. lia. }
  split; [done|]. rewrite offset_value in Hr. unfold CODE_ACCEPT, BUFFER_REGISTER_CODE. lia.
Qed.
