(* ===== verification/Crates.v ===== *)
(** Interfaces of the third-party crates the program calls: the [lake] byte
    buffer, the [tachyon_json] buffer and the [stable_vec] vector. Each is an
    operational class whose members are parameters of the model, and a class of
    laws stating the documented behaviour the program relies on. Concrete
    instances, used only to evaluate the model on examples, are in
    [Instances]. *)
From S2P Require Import Prelude Decimal.

(** * lake::SmallLake *)

Class Lake := {
  SmallLake : nat → Type;
  lake_build : ∀ n, SmallLake n;
  lake_buf : ∀ {n}, SmallLake n → bytes;
  lake_pos : ∀ {n}, SmallLake n → nat;
  lake_len : ∀ {n}, SmallLake n → nat;
  lake_reset_pos : ∀ {n}, SmallLake n → SmallLake n;
  (** [write(src.as_ptr(), src.len())] *)
  lake_write : ∀ {n}, SmallLake n → bytes → outcome (SmallLake n);
  lake_write_num_str_fixed : ∀ {n}, SmallLake n → nat → nat → outcome (SmallLake n);
  (** [LakeTools::write_to(dst, src, len)] on a destination slice *)
  lake_write_to : bytes → bytes → outcome bytes;
  lake_clone : ∀ {n}, SmallLake n → SmallLake n;
}.

(** The bytes written since the last reset. *)
Definition lake_data `{Lake} {n} (l : SmallLake n) : bytes := take (lake_pos l) (lake_buf l).

Class LakeLaws `{Lake} : Prop := {
  lake_buf_length {n} (l : SmallLake n) : length (lake_buf l) = n;
  lake_pos_bound {n} (l : SmallLake n) : lake_pos l ≤ n;
  lake_len_pos {n} (l : SmallLake n) : lake_len l = lake_pos l;
  lake_build_pos n : lake_pos (lake_build n) = 0;
  lake_reset_pos_0 {n} (l : SmallLake n) : lake_pos (lake_reset_pos l) = 0;
  (** resetting the position leaves the bytes in place *)
  lake_reset_buf {n} (l : SmallLake n) : lake_buf (lake_reset_pos l) = lake_buf l;
  (** a write that fits appends; nothing is assumed of one that does not *)
  lake_write_fits {n} (l : SmallLake n) bs :
    lake_pos l + length bs ≤ n →
    ∃ l', lake_write l bs = Ret l' ∧ lake_pos l' = lake_pos l + length bs ∧
      lake_buf l' = take (lake_pos l) (lake_buf l) ++ bs ++
                    drop (lake_pos l + length bs) (lake_buf l);
  (** a two-digit number in a two-character field *)
  lake_write_num_2 {n} (l : SmallLake n) k :
    10 ≤ k < 100 →
    lake_write_num_str_fixed l k 2 = lake_write l [digit (k / 10); digit (k mod 10)];
  lake_write_to_fits dst src :
    length src ≤ length dst → lake_write_to dst src = Ret (src ++ drop (length src) dst);
}.

Section lake.
Context `{LakeLaws}.

Lemma lake_write_data {n} (l : SmallLake n) bs :
  length (lake_data l) + length bs ≤ n →
  ∃ l', lake_write l bs = Ret l' ∧ lake_data l' = lake_data l ++ bs.
Proof.
  intros Hfit. unfold lake_data in *.
  pose proof (lake_pos_bound l) as Hp. pose proof (lake_buf_length l) as Hb.
  rewrite length_take, Hb, Nat.min_l in Hfit by done.
  destruct (lake_write_fits l bs Hfit) as (l' & Hw & Hp' & Hb').
  exists l'. split; [done|]. rewrite Hp', Hb', app_assoc.
  rewrite take_app_length'; [done|]. rewrite length_app, length_take, Hb. lia.
Qed.

Lemma lake_data_length {n} (l : SmallLake n) : length (lake_data l) = lake_len l.
Proof.
  unfold lake_data. rewrite length_take, lake_buf_length, lake_len_pos.
  pose proof (lake_pos_bound l). lia.
Qed.

Lemma lake_data_reset {n} (l : SmallLake n) : lake_data (lake_reset_pos l) = [].
Proof. unfold lake_data. by rewrite lake_reset_pos_0. Qed.

Lemma lake_data_build n : lake_data (lake_build n) = [].
Proof. unfold lake_data. by rewrite lake_build_pos. Qed.
End lake.

(** * tachyon_json::TachyonBuffer *)

Class Json := {
  TachyonBuffer : nat → Type;
  json_default : ∀ n, TachyonBuffer n;
  json_reset_pos : ∀ {n}, TachyonBuffer n → TachyonBuffer n;
  (** [tachyon_object_noescape! { key => value }.encode(buf, flag)] *)
  json_encode : ∀ {n}, list (bytes * bytes) → bool → TachyonBuffer n → outcome (TachyonBuffer n);
  json_as_slice : ∀ {n}, TachyonBuffer n → bytes;
  json_clone : ∀ {n}, TachyonBuffer n → TachyonBuffer n;
}.

(** The JSON text of a string: the quote character is byte 0x22. *)
Definition quoted (s : bytes) : bytes := [x22] ++ s ++ [x22].
Definition json_pair (kv : bytes * bytes) : bytes :=
  byte_str "{" ++ quoted kv.1 ++ byte_str ":" ++ quoted kv.2 ++ byte_str "}".

Class JsonLaws `{Json} : Prop := {
  (** a one-member object that fits is written after a reset *)
  json_encode_pair {n} (b : TachyonBuffer n) kv flag :
    length (json_pair kv) ≤ n →
    ∃ b', json_encode [kv] flag (json_reset_pos b) = Ret b' ∧ json_as_slice b' = json_pair kv;
}.

(** * stable_vec::ExternStableVec *)

Class StableVecOps := {
  StableVec : Type → Type;
  (** the slots, deleted ones included: the state the laws speak about *)
  sv_slots : ∀ {A}, StableVec A → list (option A);
  sv_capacity : ∀ {A}, StableVec A → nat;
  sv_new : ∀ {A}, StableVec A;
  sv_with_capacity : ∀ {A}, nat → StableVec A;
  sv_push : ∀ {A}, A → StableVec A → nat * StableVec A;
  sv_insert : ∀ {A}, nat → A → StableVec A → outcome (StableVec A);
  sv_get : ∀ {A}, StableVec A → nat → option A;
  (** an assignment through [get_mut] or [get_unchecked_mut] *)
  sv_set : ∀ {A}, nat → A → StableVec A → StableVec A;
  sv_remove : ∀ {A}, nat → StableVec A → option A * StableVec A;
  (** the elements with their indices, in index order *)
  sv_iter : ∀ {A}, StableVec A → list (nat * A);
  (** [clone], given that of the elements *)
  sv_clone : ∀ {A}, (A → A) → StableVec A → StableVec A;
}.

(** The element of a slot. *)
Definition slot {A} (l : list (option A)) (i : nat) : option A := mjoin (l !! i).
(** The filled slots with their indices, from index [i] on. *)
Fixpoint filled_slots {A} (i : nat) (l : list (option A)) : list (nat * A) :=
  match l with
  | [] => []
  | Some a :: l => (i, a) :: filled_slots (S i) l
  | None :: l => filled_slots (S i) l
  end.

Class StableVecLaws `{StableVecOps} : Prop := {
  sv_slots_new {A} : sv_slots (sv_new : StableVec A) = [];
  sv_slots_with_capacity {A} n : sv_slots (sv_with_capacity n : StableVec A) = [];
  sv_capacity_with_capacity {A} n : n ≤ sv_capacity (sv_with_capacity n : StableVec A);
  (** a push takes the next index, never one that was used before *)
  sv_push_index {A} (a : A) v : (sv_push a v).1 = length (sv_slots v);
  sv_push_slots {A} (a : A) v : sv_slots (sv_push a v).2 = sv_slots v ++ [Some a];
  (** an insert below the capacity fills the slot; at or above it, it panics *)
  sv_insert_fits {A} i (a : A) v :
    i < sv_capacity v →
    ∃ v', sv_insert i a v = Ret v' ∧ sv_capacity v' = sv_capacity v ∧
      sv_slots v' = <[i:=Some a]> (sv_slots v ++ replicate (S i - length (sv_slots v)) None);
  sv_insert_panics {A} i (a : A) v : sv_capacity v ≤ i → sv_insert i a v = Panic;
  sv_get_slot {A} (v : StableVec A) i : sv_get v i = slot (sv_slots v) i;
  sv_set_slots {A} i (a : A) v :
    is_Some (sv_get v i) → sv_slots (sv_set i a v) = <[i:=Some a]> (sv_slots v);
  sv_set_capacity {A} i (a : A) v : sv_capacity (sv_set i a v) = sv_capacity v;
  sv_remove_result {A} i (v : StableVec A) : (sv_remove i v).1 = sv_get v i;
  sv_remove_slots {A} i (v : StableVec A) : sv_slots (sv_remove i v).2 = <[i:=None]> (sv_slots v);
  sv_remove_capacity {A} i (v : StableVec A) : sv_capacity (sv_remove i v).2 = sv_capacity v;
  sv_iter_slots {A} (v : StableVec A) : sv_iter v = filled_slots 0 (sv_slots v);
  (** a clone has the same slots, and at least the capacity *)
  sv_clone_slots {A} (f : A → A) v : sv_slots (sv_clone f v) = (λ o : option A, f <$> o) <$> sv_slots v;
  sv_clone_capacity {A} (f : A → A) v : sv_capacity v ≤ sv_capacity (sv_clone f v);
}.

Section stable_vec.
Context `{StableVecLaws}.

Lemma slot_insert {A} (l : list (option A)) i j o :
  i < length l → slot (<[i:=o]> l) j = if decide (i = j) then o else slot l j.
Proof.
  intros Hi. unfold slot. case_decide as Hij; subst.
  - by rewrite list_lookup_insert_eq.
  - by rewrite list_lookup_insert_ne.
Qed.

Lemma slot_app_None {A} (l : list (option A)) k j :
  slot (l ++ replicate k None) j = slot l j.
Proof.
  unfold slot. destruct (decide (j < length l)).
  - by rewrite lookup_app_l.
  - rewrite lookup_app_r, (lookup_ge_None_2 l) by lia.
    destruct (replicate k None !! (j - length l)) as [o|] eqn:Ho; [|done].
    by apply lookup_replicate in Ho as [-> _].
Qed.

Lemma slot_ge {A} (l : list (option A)) j : length l ≤ j → slot l j = None.
Proof. intros Hj. unfold slot. by rewrite lookup_ge_None_2. Qed.

Lemma slot_delete {A} (l : list (option A)) i j :
  slot (<[i:=None]> l) j = if decide (i = j) then None else slot l j.
Proof.
  destruct (decide (i < length l)) as [Hi|Hi]; [by apply slot_insert|].
  rewrite list_insert_ge by lia. case_decide; [|done]. subst. apply slot_ge. lia.
Qed.

Lemma sv_get_push {A} (a : A) v j :
  sv_get (sv_push a v).2 j =
    if decide (length (sv_slots v) = j) then Some a else sv_get v j.
Proof.
  rewrite !sv_get_slot, sv_push_slots. unfold slot. case_decide as Hj.
  - by rewrite lookup_app_r, <- Hj, Nat.sub_diag by lia.
  - destruct (decide (j < length (sv_slots v))).
    + by rewrite lookup_app_l.
    + rewrite !lookup_ge_None_2; [done|lia|]. rewrite length_app. cbn. lia.
Qed.

Lemma sv_get_insert {A} i (a : A) v v' j :
  i < sv_capacity v → sv_insert i a v = Ret v' →
  sv_get v' j = if decide (i = j) then Some a else sv_get v j.
Proof.
  intros Hi Hv. destruct (sv_insert_fits i a v Hi) as (v'' & Hv' & _ & Hs).
  rewrite Hv in Hv'. injection Hv' as <-. rewrite !sv_get_slot, Hs.
  rewrite slot_insert by (rewrite length_app, length_replicate; lia).
  by rewrite slot_app_None.
Qed.

Lemma sv_get_set {A} i (a : A) v j :
  is_Some (sv_get v i) →
  sv_get (sv_set i a v) j = if decide (i = j) then Some a else sv_get v j.
Proof.
  intros Hi. rewrite (sv_get_slot (sv_set i a v)), sv_set_slots by done.
  rewrite sv_get_slot. apply slot_insert. apply not_ge. intros Hge.
  rewrite sv_get_slot, slot_ge in Hi by lia. by destruct Hi.
Qed.

Lemma sv_get_remove {A} i (v : StableVec A) j :
  sv_get (sv_remove i v).2 j = if decide (i = j) then None else sv_get v j.
Proof. rewrite !sv_get_slot, sv_remove_slots. apply slot_delete. Qed.

Lemma sv_get_lt {A} (v : StableVec A) i : is_Some (sv_get v i) → i < length (sv_slots v).
Proof.
  intros Hi. apply not_ge. intros Hge. rewrite sv_get_slot, slot_ge in Hi by lia.
  by destruct Hi.
Qed.

Lemma filled_slots_elem {A} (l : list (option A)) i j a :
  (j, a) ∈ filled_slots i l ↔ i ≤ j ∧ slot l (j - i) = Some a.
Proof.
  revert i. induction l as [|o l IH]; intros i; cbn [filled_slots].
  { split; [by intros ?%not_elem_of_nil|]. by intros [_ ?]. }
  assert (Hs : slot (o :: l) (j - i) = if decide (j ≤ i) then o else slot l (j - S i)).
  { unfold slot. case_decide.
    - by replace (j - i) with 0 by lia.
    - by replace (j - i) with (S (j - S i)) by lia. }
  rewrite Hs. destruct o as [b|]; rewrite ?elem_of_cons, IH; case_decide.
  - split; [intros [[= -> ->]|[? _]]; [done|lia]|].
    intros [? [= ->]]. left. by replace j with i by lia.
  - split; [intros [[= -> ->]|[? ?]]; [lia|]|intros [? ?]; right]; split; (done || lia).
  - split; [lia|]. by intros [_ ?].
  - split; intros [? ?]; split; (done || lia).
Qed.

Lemma sv_iter_elem {A} (v : StableVec A) j a : (j, a) ∈ sv_iter v ↔ sv_get v j = Some a.
Proof.
  rewrite sv_iter_slots, filled_slots_elem, sv_get_slot, Nat.sub_0_r.
  split; [by intros [_ ?]|]. intros ?. split; [lia|done].
Qed.

Lemma filled_slots_NoDup {A} (l : list (option A)) i : NoDup (filled_slots i l).*1.
Proof.
  revert i. induction l as [|[a|] l IH]; intros i; cbn; [constructor| |done].
  constructor; [|done]. intros ([j b] & Hj & Hin)%list_elem_of_fmap. cbn in Hj. subst j.
  apply filled_slots_elem in Hin as [? _]. lia.
Qed.
End stable_vec.
