(* ===== verification/Handler.v ===== *)
(** The request handler of [src/main.rs]: router and response writer. *)
From S2P Require Import Prelude Decimal Crates.

Definition CRLF : bytes := [x0d; x0a].

Definition STATUS_SUCCESS : bytes := byte_str "HTTP/1.1 200 OK" ++ CRLF.
Definition STATUS_NOT_FOUND : bytes := byte_str "HTTP/1.1 404 Not Found" ++ CRLF.
Definition CONTENT_TYPE_TEXT : bytes := byte_str "Content-Type: text/plain; charset=utf-8" ++ CRLF.
Definition CONTENT_TYPE_JSON : bytes :=
  byte_str "Content-Type: application/json; charset=utf-8" ++ CRLF.
Definition BASE_HEADERS : bytes :=
  byte_str "Server: Tachyon" ++ CRLF ++
  byte_str "Connection: keep-alive" ++ CRLF ++
  byte_str "Keep-Alive: timeout=5, max=1000" ++ CRLF ++
  CRLF.

Section handler.
Context `{Lake, Json}.

(** [Server::handler]: the written response goes to the front of [hot_cache];
    the result is its length, with the buffers the call mutates. *)
Definition handler (method path date : bytes) (hot_cache : bytes)
    (json_buf : TachyonBuffer 100) (data_lake : SmallLake 512) :
    outcome (nat * bytes * TachyonBuffer 100 * SmallLake 512) :=
  let json_buf := json_reset_pos json_buf in
  let data_lake := lake_reset_pos data_lake in
  '(status_line, ct, body, json_buf) ←
    (if bool_decide (method = byte_str "GET") && bool_decide (path = byte_str "/plaintext") then
      Ret (STATUS_SUCCESS, CONTENT_TYPE_TEXT, byte_str "Hello, World!", json_buf)
    else if bool_decide (method = byte_str "GET") && bool_decide (path = byte_str "/json") then
      json_buf ← json_encode [(byte_str "message", byte_str "Hello, World!")] true json_buf;
      Ret (STATUS_SUCCESS, CONTENT_TYPE_JSON, json_as_slice json_buf, json_buf)
    else
      Ret (STATUS_NOT_FOUND, CONTENT_TYPE_TEXT, byte_str "Not, found!", json_buf));
  data_lake ← lake_write data_lake status_line;
  data_lake ← lake_write data_lake ct;
  data_lake ← lake_write data_lake date;
  data_lake ← lake_write data_lake CRLF;
  data_lake ← lake_write data_lake (byte_str "Content-Length: ");
  data_lake ← lake_write_num_str_fixed data_lake (length body) 2;
  data_lake ← lake_write data_lake CRLF;
  data_lake ← lake_write data_lake BASE_HEADERS;
  data_lake ← lake_write data_lake body;
  hot_cache ← lake_write_to hot_cache (lake_data data_lake);
  Ret (lake_len data_lake, hot_cache, json_buf, data_lake).
End handler.

(** * Specification *)

(** What a request is answered with: status line, content type and body. *)
Inductive answer := Plaintext | JsonHello | NotFound.

Definition route (method path : bytes) : answer :=
  if bool_decide (method = byte_str "GET") then
    if bool_decide (path = byte_str "/plaintext") then Plaintext
    else if bool_decide (path = byte_str "/json") then JsonHello
    else NotFound
  else NotFound.

Definition answer_status (a : answer) : bytes :=
  match a with NotFound => STATUS_NOT_FOUND | _ => STATUS_SUCCESS end.
Definition answer_type (a : answer) : bytes :=
  match a with JsonHello => CONTENT_TYPE_JSON | _ => CONTENT_TYPE_TEXT end.
Definition answer_body (a : answer) : bytes :=
  match a with
  | Plaintext => byte_str "Hello, World!"
  | JsonHello => json_pair (byte_str "message", byte_str "Hello, World!")
  | NotFound => byte_str "Not, found!"
  end.

Definition decimal_2 (k : nat) : bytes := [digit (k / 10); digit (k mod 10)].

(** The header section of a response, the empty line included. *)
Definition response_head (a : answer) (date : bytes) : bytes :=
  answer_status a ++ answer_type a ++ date ++ CRLF ++ byte_str "Content-Length: " ++
  decimal_2 (length (answer_body a)) ++ CRLF ++ BASE_HEADERS.

Definition response (a : answer) (date : bytes) : bytes :=
  response_head a date ++ answer_body a.

Definition DATE_SIZE : nat := 35.
(** The length of the longest response. *)
Definition MAX_RESPONSE : nat := Z.to_nat 224.

Lemma response_length a date :
  length date = DATE_SIZE →
  length (response a date) =
    match a with Plaintext => 204 | JsonHello => 224 | NotFound => 209 end.
Proof.
  intros Hd. unfold response, response_head. rewrite !length_app, Hd. by destruct a.
Qed.

Lemma response_bound a date :
  length date = DATE_SIZE → length (response a date) ≤ MAX_RESPONSE.
Proof. intros Hd. rewrite response_length by done. unfold MAX_RESPONSE. destruct a; lia. Qed.

(** One write into a lake whose contents are known. *)
Ltac step_write lake bs l' :=
  let W := fresh "W" in let D := fresh "D" in
  edestruct (lake_write_data lake bs) as (l' & W & D);
  [repeat match goal with D : lake_data ?l = _ |- context [lake_data ?l] => rewrite D end;
   rewrite ?length_app; cbn [length]; lia|].

Section handler_spec.
Context `{LakeLaws, JsonLaws}.

(** The nine writes of a response into an empty lake. *)
Lemma write_response (lake : SmallLake 512) a date :
  lake_data lake = [] → length date = DATE_SIZE →
  ∃ lake', lake_data lake' = response a date ∧ ∀ B (f : SmallLake 512 → outcome B),
    (lake ← lake_write lake (answer_status a);
     lake ← lake_write lake (answer_type a);
     lake ← lake_write lake date;
     lake ← lake_write lake CRLF;
     lake ← lake_write lake (byte_str "Content-Length: ");
     lake ← lake_write_num_str_fixed lake (length (answer_body a)) 2;
     lake ← lake_write lake CRLF;
     lake ← lake_write lake BASE_HEADERS;
     lake ← lake_write lake (answer_body a);
     f lake) = f lake'.
Proof.
  intros Hl Hd. pose proof (response_length a date Hd) as Hr.
  unfold response, response_head in *. rewrite !length_app in Hr.
  assert (length (answer_status a) + (length (answer_type a) + (length date +
    (length CRLF + (length (byte_str "Content-Length: ") + (length (decimal_2 (length (answer_body a))) +
    (length CRLF + (length BASE_HEADERS + length (answer_body a)))))))) ≤ 512)
    by (destruct a; lia).
  clear Hr.
  step_write lake (answer_status a) l1. step_write l1 (answer_type a) l2.
  step_write l2 date l3. step_write l3 CRLF l4.
  step_write l4 (byte_str "Content-Length: ") l5.
  step_write l5 (decimal_2 (length (answer_body a))) l6. step_write l6 CRLF l7.
  step_write l7 BASE_HEADERS l8. step_write l8 (answer_body a) l9.
  exists l9. split.
  { repeat match goal with D : lake_data ?l = _ |- context [lake_data ?l] => rewrite D end.
    by rewrite <- !app_assoc. }
  intros B f.
  do 5 (match goal with W : lake_write ?l ?bs = Ret _ |- context [lake_write ?l ?bs] =>
    rewrite W end; run).
  rewrite lake_write_num_2 by (destruct a; cbn; lia).
  fold (decimal_2 (length (answer_body a))).
  do 4 (match goal with W : lake_write ?l ?bs = Ret _ |- context [lake_write ?l ?bs] =>
    rewrite W end; run).
  done.
Qed.

Lemma handler_spec method path date hot_cache json_buf data_lake :
  length date = DATE_SIZE →
  length (response (route method path) date) ≤ length hot_cache →
  ∃ json_buf' data_lake',
    handler method path date hot_cache json_buf data_lake =
    Ret (length (response (route method path) date),
         response (route method path) date ++
           drop (length (response (route method path) date)) hot_cache,
         json_buf', data_lake').
Proof.
  intros Hd Hc.
  assert (Hfin : ∀ (json : TachyonBuffer 100) (lake' : SmallLake 512), lake_data lake' = response (route method path) date →
    (hot_cache ← lake_write_to hot_cache (lake_data lake');
     Ret (lake_len lake', hot_cache, json, lake')) =
    Ret (length (response (route method path) date),
         response (route method path) date ++
           drop (length (response (route method path) date)) hot_cache, json, lake')).
  { intros json lake' Hl. rewrite <- lake_data_length, Hl.
    by rewrite lake_write_to_fits by done. }
  unfold handler. cbv zeta.
  destruct (json_encode_pair json_buf (byte_str "message", byte_str "Hello, World!") true)
    as (jb & Hj & Hs); [cbn; lia|].
  destruct (write_response (lake_reset_pos data_lake) (route method path) date)
    as (lake' & Hl & Hw); [apply lake_data_reset|done|].
  exists (match route method path with JsonHello => jb | _ => json_reset_pos json_buf end), lake'.
  rewrite <- Hfin by done.
  unfold route in *. repeat (case_bool_decide; cbn [andb] in *).
  all: rewrite ?Hj; run; rewrite ?Hs; apply Hw.
Qed.

(** C13: for every method, path and 35-byte date, a handler call with room
    for the response terminates normally and puts exactly the response of the
    route at the front of the cache, leaving the rest of the cache unchanged;
    what the JSON and lake buffers held before does not matter. *)
Theorem handler_correct method path date hot_cache json_buf data_lake :
  length date = DATE_SIZE →
  length (response (route method path) date) ≤ length hot_cache →
  ∃ json_buf' data_lake',
    handler method path date hot_cache json_buf data_lake =
    Ret (length (response (route method path) date),
         response (route method path) date ++
           drop (length (response (route method path) date)) hot_cache,
         json_buf', data_lake').
Proof. apply handler_spec. Qed.
End handler_spec.
