(* ===== verification/Uring.v ===== *)
(** Submission queue entries ([src/library/uring/kernel_cmds.rs]), ring set-up
    ([src/library/uring/mod.rs]) and the interface of the [io_uring] crate with
    the kernel behind it. *)
From S2P Require Import Prelude Config.

(** * Entries *)

(** The memory an entry points to: kernel buffer [i] of [self.buffers], the out
    buffer of a client, a message header, or nothing. *)
Inductive ptr :=
  | PNull
  | PKernelBuf (i : nat)
  | PClientBuf (client : nat)
  | PMsgHdr (addr : N).

Inductive msg_flag := MSG_MORE | MSG_DONTWAIT | SOCK_CLOEXEC | SOCK_NONBLOCK.
Inductive poll_flag := POLLIN | POLLRDHUP | POLLHUP.
Inductive sqe_flag := SKIP_SUCCESS | BUFFER_SELECT.

(** The constructors of [io_uring::opcode] with the arguments the code gives. *)
Inductive opcode :=
  | ProvideBuffers (addr : ptr) (len : Z) (nbufs : N) (bgid : N) (bid : N)
  | AcceptMulti (fd : Z) (flags : list msg_flag)
  | SendMsg (fd : Z) (msg : ptr)
  | Send (fd : Z) (buf : ptr) (len : N) (flags : list msg_flag)
  | SendZc (fd : Z) (buf : ptr) (len : N)
  | SendMsgZc (fd : Z) (msg : ptr)
  | RecvMulti (fd : Z) (buf_group : N)
  | Recv (fd : Z) (buf : ptr) (len : N) (flags : list msg_flag) (buf_group : option N)
  | PollAdd (fd : Z) (flags : list poll_flag) (multi : bool)
  | AsyncCancel (target : N).

Record Entry := mkEntry { e_op : opcode; e_user_data : N; e_flags : list sqe_flag }.

#[export] Instance ptr_eq_dec : EqDecision ptr.
Proof. solve_decision. Defined.
#[export] Instance msg_flag_eq_dec : EqDecision msg_flag.
Proof. solve_decision. Defined.
#[export] Instance poll_flag_eq_dec : EqDecision poll_flag.
Proof. solve_decision. Defined.
#[export] Instance sqe_flag_eq_dec : EqDecision sqe_flag.
Proof. solve_decision. Defined.
#[export] Instance opcode_eq_dec : EqDecision opcode.
Proof. solve_decision. Defined.
#[export] Instance Entry_eq_dec : EqDecision Entry.
Proof. solve_decision. Defined.

(** * kernel_cmds.rs *)

Definition provide_buffer (buffer : ptr) (buffer_id : N) (buffer_size : Z) : Entry :=
  mkEntry (ProvideBuffers buffer buffer_size 1 BUF_GROUP buffer_id) BUFFER_REGISTER_CODE [].

Definition accept_multi (fd : Z) : Entry :=
  mkEntry (AcceptMulti fd [SOCK_CLOEXEC; SOCK_NONBLOCK]) CODE_ACCEPT [].

Definition send_raw_hdr (user_data : N) (client_fd : Z) (data : ptr) : Entry :=
  mkEntry (SendMsg client_fd data) user_data [SKIP_SUCCESS].

(** [data.len() as u32] *)
Definition u32_of_nat (n : nat) : N := (N.of_nat n mod 2 ^ 32)%N.

(** A [&[u8]] argument is its address and its length. *)
Definition send (user_data : N) (client_fd : Z) (data : ptr * nat) (more : bool) : Entry :=
  if more then
    mkEntry (Send client_fd data.1 (u32_of_nat data.2) [MSG_MORE; MSG_DONTWAIT])
      user_data [SKIP_SUCCESS]
  else
    mkEntry (Send client_fd data.1 (u32_of_nat data.2) [MSG_DONTWAIT])
      user_data [SKIP_SUCCESS].

Definition send_zero_copy (user_data : N) (client_fd : Z) (data : ptr * nat) : Entry :=
  mkEntry (SendZc client_fd data.1 (u32_of_nat data.2)) user_data [].

Definition send_msg_zero_copy (user_data : N) (client_fd : Z) (data : ptr) : Entry :=
  mkEntry (SendMsgZc client_fd data) user_data [SKIP_SUCCESS].

Definition recv_multi (client_fd : Z) (user_data : N) : Entry :=
  mkEntry (RecvMulti client_fd BUF_GROUP) user_data [].

Definition recv_buf_group (client_fd : Z) (user_data : N) : Entry :=
  mkEntry (Recv client_fd PNull (u32_of_nat BUFFER_SIZE) [] (Some BUF_GROUP))
    user_data [BUFFER_SELECT].

Definition recv (client_fd : Z) (user_data : N) (buffer : ptr) (len : N) : Entry :=
  mkEntry (Recv client_fd buffer len [MSG_DONTWAIT] None) user_data [].

Definition poll_add (client_fd : Z) (user_data : N) : Entry :=
  mkEntry (PollAdd client_fd [POLLIN; POLLRDHUP; POLLHUP] true) user_data [].

Definition async_cancel : Entry := mkEntry (AsyncCancel 0) 0 [].

(** * Uring::new *)

(** The calls on [io_uring::Builder], in order. *)
Inductive builder_call :=
  | SetupSingleIssuer
  | SetupSqpoll (idle : N)
  | SetupSqpollCpu (cpu : N)
  | Dontfork
  | SetupSubmitAll.

Definition uring_setup (sqpoll_idle affinity : N) (sqpoll_enabled : bool) : list builder_call :=
  [SetupSingleIssuer] ++
  if sqpoll_enabled then [SetupSqpoll sqpoll_idle; SetupSqpollCpu affinity; Dontfork]
  else [SetupSubmitAll].

(** * The io_uring crate *)

(** [cqueue::Entry] *)
Record Cqe := mkCqe { cqe_user_data : N; cqe_result : Z; cqe_flags : N }.

(** [io::Result] *)
Inductive io (A : Type) := IoOk (a : A) | IoErr (errno : Z).
Arguments IoOk {A} a.
Arguments IoErr {A} errno.

(** The process memory the kernel accesses while it works on a submission: it
    may write the buffers it was provided, and it reads the clients' out
    buffers. *)
Record kmem := mkKmem { km_buffers : list bytes; km_out : nat → option bytes }.

(** The submission queue, the completion queue and the kernel behind them. *)
Class RingOps := {
  Ring : Type;
  (** pushes: [None] when the queue has no room ([Err(PushError)]) *)
  sq_push : Entry → Ring → option Ring;
  sq_push_multiple : list Entry → Ring → option Ring;
  sq_sync : Ring → Ring;
  sq_len : Ring → nat;
  sq_capacity : Ring → nat;
  (** entries of the submission queue not yet consumed by the kernel, in order *)
  sq_entries : Ring → list Entry;
  (** all the entries ever pushed, in order: not a call of the crate but its
      history, which specifications speak of *)
  sq_pushed : Ring → list Entry;
  (** system calls: the result, the buffers afterwards, the new ring *)
  submit : kmem → Ring → io nat * list bytes * Ring;
  submit_and_wait : nat → kmem → Ring → io nat * list bytes * Ring;
  register_files : list Z → Ring → io unit * Ring;
  (** completions of the current snapshot *)
  cq_len : Ring → nat;
  cq_next : Ring → option (Cqe * Ring);
  cq_sync : Ring → Ring;
}.

Definition cq_is_empty `{RingOps} (r : Ring) : bool := cq_len r =? 0.

(** The buffers keep their number and their sizes. *)
Definition same_shape (bs bs' : list bytes) : Prop := length <$> bs = length <$> bs'.

Class RingLaws `{RingOps} : Prop := {
  sq_len_entries r : sq_len r = length (sq_entries r);
  (** a push appends when there is room, and fails otherwise *)
  sq_push_fits e r :
    sq_len r < sq_capacity r →
    ∃ r', sq_push e r = Some r' ∧ sq_entries r' = sq_entries r ++ [e] ∧
      sq_capacity r' = sq_capacity r ∧ cq_len r' = cq_len r;
  sq_push_full e r : sq_capacity r ≤ sq_len r → sq_push e r = None;
  sq_push_multiple_fits es r :
    sq_len r + length es ≤ sq_capacity r →
    ∃ r', sq_push_multiple es r = Some r' ∧ sq_entries r' = sq_entries r ++ es ∧
      sq_capacity r' = sq_capacity r ∧ cq_len r' = cq_len r;
  sq_push_multiple_full es r :
    sq_capacity r < sq_len r + length es → sq_push_multiple es r = None;
  (** a sync learns which entries the kernel consumed *)
  sq_sync_entries r : ∃ k, sq_entries (sq_sync r) = drop k (sq_entries r);
  sq_sync_capacity r : sq_capacity (sq_sync r) = sq_capacity r;
  sq_sync_cq r : cq_len (sq_sync r) = cq_len r;
  (** the kernel writes inside the buffers; the local view of both queues is
      unchanged until the next sync *)
  submit_shape m r : same_shape (km_buffers m) (submit m r).1.2;
  submit_capacity m r : sq_capacity (submit m r).2 = sq_capacity r;
  submit_entries m r : sq_entries (submit m r).2 = sq_entries r;
  submit_cq m r : cq_len (submit m r).2 = cq_len r;
  submit_and_wait_shape n m r : same_shape (km_buffers m) (submit_and_wait n m r).1.2;
  submit_and_wait_capacity n m r : sq_capacity (submit_and_wait n m r).2 = sq_capacity r;
  submit_and_wait_entries n m r : sq_entries (submit_and_wait n m r).2 = sq_entries r;
  submit_and_wait_cq n m r : cq_len (submit_and_wait n m r).2 = cq_len r;
  register_files_entries fds r : sq_entries (register_files fds r).2 = sq_entries r;
  register_files_capacity fds r : sq_capacity (register_files fds r).2 = sq_capacity r;
  cq_next_some r : 0 < cq_len r → ∃ e r', cq_next r = Some (e, r') ∧ S (cq_len r') = cq_len r
    ∧ sq_entries r' = sq_entries r ∧ sq_capacity r' = sq_capacity r;
  cq_next_none r : cq_len r = 0 → cq_next r = None;
  cq_sync_sq r : sq_entries (cq_sync r) = sq_entries r;
  cq_sync_capacity r : sq_capacity (cq_sync r) = sq_capacity r;
  cq_sync_len r : cq_len r ≤ cq_len (cq_sync r);
  (** a successful push adds its entries to the history, and nothing else does;
      the queue holds the last of the entries pushed *)
  sq_push_pushed e r r' : sq_push e r = Some r' → sq_pushed r' = sq_pushed r ++ [e];
  sq_push_multiple_pushed es r r' :
    sq_push_multiple es r = Some r' → sq_pushed r' = sq_pushed r ++ es;
  sq_sync_pushed r : sq_pushed (sq_sync r) = sq_pushed r;
  submit_pushed m r : sq_pushed (submit m r).2 = sq_pushed r;
  submit_and_wait_pushed n m r : sq_pushed (submit_and_wait n m r).2 = sq_pushed r;
  register_files_pushed fds r : sq_pushed (register_files fds r).2 = sq_pushed r;
  cq_next_pushed e r r' : cq_next r = Some (e, r') → sq_pushed r' = sq_pushed r;
  cq_sync_pushed r : sq_pushed (cq_sync r) = sq_pushed r;
  sq_entries_pushed r : ∃ k, sq_entries r = drop k (sq_pushed r);
}.
