(* ===== verification/IoState.v ===== *)
(** The monad of the server: a state, [io::Result] for recoverable errors (the
    [?] operator stops at the first), and the outcomes of the prelude. *)
From S2P Require Import Prelude Uring.

Definition M (W A : Type) : Type := W → outcome (io A * W).

#[export] Instance M_ret {W} : MRet (M W) := λ A a w, Ret (IoOk a, w).
#[export] Instance M_bind {W} : MBind (M W) := λ A B f m w,
  '(r, w) ← m w;
  match r with
  | IoOk a => f a w
  | IoErr e => Ret (IoErr e, w)
  end.

Section ops.
Context {W : Type}.
Definition get : M W W := λ w, Ret (IoOk w, w).
Definition gets {A} (f : W → A) : M W A := λ w, Ret (IoOk (f w), w).
Definition modify (f : W → W) : M W unit := λ w, Ret (IoOk tt, f w).
(** A computation that may panic. *)
Definition lift {A} (o : outcome A) : M W A := λ w, a ← o; Ret (IoOk a, w).
Definition io_ok : M W unit := mret tt.
Definition io_fail {A} (e : Z) : M W A := λ w, Ret (IoErr e, w).
End ops.

(** * Reasoning *)

(** [runs m w Q]: [m] started in [w] ends without a panic, undefined behaviour
    or divergence, in a result and state satisfying [Q]. *)
Definition runs {W A} (m : M W A) (w : W) (Q : io A → W → Prop) : Prop :=
  ∃ r w', m w = Ret (r, w') ∧ Q r w'.

Section rules.
Context {W : Type}.
Implicit Types w : W.

Lemma runs_ret {A} (a : A) w Q : Q (IoOk a) w → runs (mret a : M W A) w Q.
Proof. intros HQ. by exists (IoOk a), w. Qed.

Lemma runs_bind {A B} (m : M W A) (f : A → M W B) w Q :
  runs m w (λ r w', match r with IoOk a => runs (f a) w' Q | IoErr e => Q (IoErr e) w' end) →
  runs (m ≫= f) w Q.
Proof.
  intros (r & w' & Hm & HQ). unfold runs, mbind, M_bind. rewrite Hm. cbn.
  destruct r as [a|e]; [done|]. eauto.
Qed.

Lemma runs_gets {A} (f : W → A) w Q : Q (IoOk (f w)) w → runs (gets f) w Q.
Proof. intros HQ. by exists (IoOk (f w)), w. Qed.

Lemma runs_modify (f : W → W) w Q : Q (IoOk tt) (f w) → runs (modify f) w Q.
Proof. intros HQ. by exists (IoOk tt), (f w). Qed.

Lemma runs_lift {A} (o : outcome A) a w Q :
  o = Ret a → Q (IoOk a) w → runs (lift o) w Q.
Proof. intros -> HQ. by exists (IoOk a), w. Qed.

Lemma runs_io_ok w Q : Q (IoOk tt) w → runs io_ok w Q.
Proof. apply runs_ret. Qed.

Lemma runs_weaken {A} (m : M W A) w (Q Q' : io A → W → Prop) :
  runs m w Q → (∀ r w', Q r w' → Q' r w') → runs m w Q'.
Proof. intros (r & w' & Hm & HQ) Himp. exists r, w'. auto. Qed.

Lemma runs_eq {A} (m m' : M W A) w Q : m w = m' w → runs m' w Q → runs m w Q.
Proof. unfold runs. by intros ->. Qed.
End rules.

(** [preserves g m]: [m] changes nothing that [g] observes of the state, however
    it ends. *)
Definition preserves {W A B} (g : W → B) (m : M W A) : Prop :=
  ∀ w r w', m w = Ret (r, w') → g w' = g w.

Section preserves.
Context {W T : Type} (g : W → T).

Lemma preserves_bind {A B} (m : M W A) (f : A → M W B) :
  preserves g m → (∀ a, (∃ w w', m w = Ret (IoOk a, w')) → preserves g (f a)) →
  preserves g (m ≫= f).
Proof.
  intros Hm Hf w r w'. unfold mbind, M_bind. destruct (m w) as [[[a|e] w1]| | |] eqn:Heq; try done.
  - intros Hr. transitivity (g w1); [|by eapply Hm]. eapply Hf; [by eauto|exact Hr].
  - intros [= <- <-]. by eapply Hm.
Qed.

Lemma preserves_ret {A} (a : A) : preserves g (mret a : M W A).
Proof. by intros w r w' [= <- <-]. Qed.
Lemma preserves_io_ok : preserves g io_ok.
Proof. apply preserves_ret. Qed.
Lemma preserves_gets {A} (f : W → A) : preserves g (gets f).
Proof. by intros w r w' [= <- <-]. Qed.
Lemma preserves_modify (f : W → W) : (∀ w, g (f w) = g w) → preserves g (modify f).
Proof. by intros Hf w r w' [= <- <-]. Qed.
Lemma preserves_lift {A} (o : outcome A) : preserves g (lift o).
Proof. intros w r w'. unfold lift. destruct o; [by intros [= <- <-]|done..]. Qed.
Lemma preserves_if {A} (b : bool) (m m' : M W A) :
  preserves g m → preserves g m' → preserves g (if b then m else m').
Proof. by destruct b. Qed.
End preserves.

Create HintDb preserves.
#[export] Hint Resolve preserves_ret preserves_io_ok preserves_gets preserves_lift : preserves.

(** Walks through a computation, leaving the steps that no hint covers. *)
Ltac preserves_step :=
  match goal with
  | |- preserves _ (_ ≫= _) => apply preserves_bind; [|intros ? ?]
  | |- preserves _ (if _ then _ else _) => apply preserves_if
  | |- preserves _ (match ?x with _ => _ end) => destruct x
  | |- preserves _ (let _ := _ in _) => cbv zeta
  | |- preserves _ _ => solve [auto with preserves]
  end.
Ltac preserves_walk := repeat preserves_step.

(** Equations that run the monad forward. *)
Section eqs.
Context {W : Type}.
Lemma bind_eq {A B} (m : M W A) (f : A → M W B) w :
  (m ≫= f) w = match m w with
               | Ret (IoOk a, w') => f a w'
               | Ret (IoErr e, w') => Ret (IoErr e, w')
               | Panic => Panic | UB => UB | Diverge => Diverge
               end.
Proof. unfold mbind, M_bind. by destruct (m w) as [[[]]| | |]. Qed.

Lemma bind_ok {A B} (m : M W A) (f : A → M W B) w a w' :
  m w = Ret (IoOk a, w') → (m ≫= f) w = f a w'.
Proof. intros Hm. by rewrite bind_eq, Hm. Qed.

Lemma bind_gets {A B} (g : W → A) (f : A → M W B) w : (gets g ≫= f) w = f (g w) w.
Proof. done. Qed.
Lemma bind_modify {B} (g : W → W) (f : unit → M W B) w : (modify g ≫= f) w = f tt (g w).
Proof. done. Qed.
Lemma bind_lift {A B} (o : outcome A) a (f : A → M W B) w :
  o = Ret a → (lift o ≫= f) w = f a w.
Proof. by intros ->. Qed.
Lemma bind_mret {A B} (a : A) (f : A → M W B) w : ((mret a : M W A) ≫= f) w = f a w.
Proof. done. Qed.
Lemma if_apply {A} (b : bool) (m m' : M W A) w :
  (if b then m else m') w = if b then m w else m' w.
Proof. by destruct b. Qed.
End eqs.

Ltac mrun := repeat first
  [ rewrite bind_gets | rewrite bind_modify | rewrite bind_mret
  | erewrite bind_lift by eassumption ]; cbv beta.
