(* ===== verification/Listener.v ===== *)
(** The listening socket: [ServerInternal] of [src/library/server_internals.rs],
    with the parser of socket addresses of the standard library that it calls. *)
From S2P Require Import Prelude Decimal Uring IoState.

(** * Socket addresses *)

(** [std::net::SocketAddr]: the octets of an IPv4 address, or the segments of an
    IPv6 address, with the port. *)
Inductive SocketAddr :=
  | V4 (ip : list N) (port : N)
  | V6 (segments : list N) (port : N) (scope_id : N).

#[export] Instance SocketAddr_eq_dec : EqDecision SocketAddr.
Proof. solve_decision. Defined.

(** [char::to_digit(16)] *)
Definition to_digit_16 (b : byte) : option nat :=
  let n := byte_nat b in
  if (48 <=? n) && (n <=? 57) then Some (n - 48)
  else if (97 <=? n) && (n <=? 102) then Some (n - 87)
  else if (65 <=? n) && (n <=? 70) then Some (n - 55)
  else None.

(** A parser takes what is left of the text; [None] leaves it to the caller to
    go on from where it was ([read_atomically]). *)
Definition given_char (c : byte) (l : bytes) : option bytes :=
  match l with
  | b :: l => if bool_decide (b = c) then Some l else None
  | [] => None
  end.

(** The digits in front of a text: their number, their value, the rest; [None]
    when there are more than [max] or, with overflow checks, when the value
    leaves the type. *)
Fixpoint read_digits (to_digit : byte → option nat) (radix : N) (max : option nat) (bound : N)
    (count : nat) (value : N) (l : bytes) : option (nat * N * bytes) :=
  match l with
  | [] => Some (count, value, [])
  | b :: t =>
      match to_digit b with
      | None => Some (count, value, l)
      | Some d =>
          let value := (value * radix + N.of_nat d)%N in
          let ok := match max with
                    | Some max => S count <=? max
                    | None => (value <? bound)%N
                    end in
          if ok then read_digits to_digit radix max bound (S count) value t else None
      end
  end.

(** [read_number], at type [T] with [bound] values. *)
Definition read_number (to_digit : byte → option nat) (radix : N) (max : option nat) (bound : N)
    (allow_zero_prefix : bool) (l : bytes) : option (N * bytes) :=
  '(count, value, rest) ← read_digits to_digit radix max bound 0 0 l;
  if count =? 0 then None
  else if negb allow_zero_prefix && bool_decide (hd_error l = Some x30) && (1 <? count) then None
  else if (value <? bound)%N then Some (value, rest) else None.

Definition read_octet : bytes → option (N * bytes) :=
  read_number to_digit 10 (Some 3) (2 ^ 8) false.

Definition read_ipv4_addr (l : bytes) : option (list N * bytes) :=
  '(a, l) ← read_octet l;
  l ← given_char "."%byte l;
  '(b, l) ← read_octet l;
  l ← given_char "."%byte l;
  '(c, l) ← read_octet l;
  l ← given_char "."%byte l;
  '(d, l) ← read_octet l;
  Some ([a; b; c; d], l).

Definition read_port (l : bytes) : option (N * bytes) :=
  l ← given_char ":"%byte l;
  read_number to_digit 10 None (2 ^ 16) true l.

Definition read_socket_addr_v4 (l : bytes) : option (SocketAddr * bytes) :=
  '(ip, l) ← read_ipv4_addr l;
  '(port, l) ← read_port l;
  Some (V4 ip port, l).

(** [read_separator(':', index, inner)] *)
Definition separated {A} (first : bool) (inner : bytes → option A) (l : bytes) : option A :=
  l ← if first then Some l else given_char ":"%byte l;
  inner l.

(** [read_groups] into [n] segments: the groups read, the rest, and whether they
    end with an IPv4 address. *)
Fixpoint read_groups (first : bool) (n : nat) (l : bytes) : list N * bytes * bool :=
  match n with
  | 0 => ([], l, false)
  | S m =>
      let group :=
        match separated first (read_number to_digit_16 16 (Some 4) (2 ^ 16) true) l with
        | Some (g, l) => let '(gs, l, v4) := read_groups false m l in (g :: gs, l, v4)
        | None => ([], l, false)
        end in
      match m, separated first read_ipv4_addr l with
      | S _, Some (ip, l) =>
          (match ip with
           | [a; b; c; d] => [(a * 256 + b)%N; (c * 256 + d)%N]
           | _ => []
           end, l, true)
      | _, _ => group
      end
  end.

Definition read_ipv6_addr (l : bytes) : option (list N * bytes) :=
  let '(head, l, head_ipv4) := read_groups true 8 l in
  if length head =? 8 then Some (head, l)
  else if head_ipv4 then None
  else
    l ← given_char ":"%byte l;
    l ← given_char ":"%byte l;
    let '(tail, l, _) := read_groups true (8 - (length head + 1)) l in
    Some (head ++ replicate (8 - length head - length tail) 0%N ++ tail, l).

Definition read_scope_id (l : bytes) : option (N * bytes) :=
  l ← given_char "%"%byte l;
  read_number to_digit 10 None (2 ^ 32) true l.

Definition read_socket_addr_v6 (l : bytes) : option (SocketAddr * bytes) :=
  l ← given_char "["%byte l;
  '(ip, l) ← read_ipv6_addr l;
  let '(scope_id, l) := default (0%N, l) (read_scope_id l) in
  l ← given_char "]"%byte l;
  '(port, l) ← read_port l;
  Some (V6 ip port scope_id, l).

(** [addr.parse::<SocketAddr>()] *)
Definition parse_socket_addr (addr : bytes) : option SocketAddr :=
  '(a, rest) ← match read_socket_addr_v4 addr with
               | Some r => Some r
               | None => read_socket_addr_v6 addr
               end;
  match rest with [] => Some a | _ => None end.

Example parse_v4 : parse_socket_addr (byte_str "0.0.0.0:8080") = Some (V4 [0; 0; 0; 0] 8080)%N.
Proof. vm_compute. reflexivity. Qed.
Example parse_v4_octal : parse_socket_addr (byte_str "127.0.0.01:80") = None.
Proof. vm_compute. reflexivity. Qed.
Example parse_v4_big_port : parse_socket_addr (byte_str "127.0.0.1:65536") = None.
Proof. vm_compute. reflexivity. Qed.
Example parse_v6 : parse_socket_addr (byte_str "[fe80::1%7]:443") =
  Some (V6 [0xfe80; 0; 0; 0; 0; 0; 0; 1] 443 7)%N.
Proof. vm_compute. reflexivity. Qed.
Example parse_v6_mapped : parse_socket_addr (byte_str "[::ffff:1.2.3.4]:1") =
  Some (V6 [0; 0; 0; 0; 0; 0xffff; 0x102; 0x304] 1 0)%N.
Proof. vm_compute. reflexivity. Qed.
Example parse_host : parse_socket_addr (byte_str "localhost:80") = None.
Proof. vm_compute. reflexivity. Qed.

(** * The calls on the socket *)

Inductive domain := IPV4 | IPV6.
Inductive socktype := STREAM | DGRAM.
Inductive protocol := TCP | UDP.

(** The methods of [socket2::Socket], and its drop. *)
Inductive listen_call :=
  | NewSocket (d : domain) (t : socktype) (p : option protocol)
  | SetReuseAddress (fd : Z) (reuse : bool)
  | SetReusePort (fd : Z) (reuse : bool)
  | BindTo (fd : Z) (address : SocketAddr)
  | Listen (fd : Z) (backlog : Z)
  | SetNonblocking (fd : Z) (nonblocking : bool)
  | CloseSocket (fd : Z).

Abbreviation Log := (list listen_call).

(** What the crate and the kernel answer to a call after those made before. *)
Class Socket2 := { socket_answer : Log → listen_call → io Z }.

Section listener.
Context `{Socket2}.

Definition socket_call (c : listen_call) : M Log Z := λ log, Ret (socket_answer log c, log ++ [c]).

(** A scope that owns the socket and hands it on: leaving with an error drops
    it, which closes the descriptor. *)
Definition owning {A} (fd : Z) (m : M Log A) : M Log A := λ log,
  '(r, log) ← m log;
  Ret (r, match r with IoOk _ => log | IoErr _ => log ++ [CloseSocket fd] end).

Definition build_listener (addr : bytes) : M Log Z :=
  listener ← socket_call (NewSocket IPV4 STREAM (Some TCP));
  owning listener (
    socket_call (SetReuseAddress listener true);;
    socket_call (SetReusePort listener true);;
    address ← lift (match parse_socket_addr addr with Some a => Ret a | None => Panic end);
    socket_call (BindTo listener address);;
    socket_call (Listen listener 32768);;
    socket_call (SetNonblocking listener true);;
    mret listener).
End listener.

(** * Reading numbers *)

Definition is_digit (b : byte) : Prop := is_Some (to_digit b).

Lemma to_digit_value b d : to_digit b = Some d → byte_nat b - 48 = d.
Proof. unfold to_digit. case_match; [|done]. by intros [= <-]. Qed.

(** The text that follows a number does not go on with a digit. *)
Definition stops (l : bytes) : Prop := match l with [] => True | b :: _ => to_digit b = None end.

Definition digit_step (n : nat) (b : byte) : nat := n * 10 + (byte_nat b - 48).

Lemma digit_step_grows ds v : v ≤ foldl digit_step v ds.
Proof.
  revert v. induction ds as [|b ds IH]; intros v; [done|]. cbn.
  specialize (IH (digit_step v b)). unfold digit_step in *. lia.
Qed.

Lemma read_digits_spec max bound ds rest count v :
  Forall is_digit ds → stops rest →
  match max with
  | Some m => count + length ds ≤ m
  | None => (N.of_nat (foldl digit_step v ds) < bound)%N
  end →
  read_digits to_digit 10 max bound count (N.of_nat v) (ds ++ rest) =
    Some (count + length ds, N.of_nat (foldl digit_step v ds), rest).
Proof.
  intros Hds Hr. revert count v. induction Hds as [|b ds [d Hd] Hds IH]; intros count v Hm.
  - rewrite Nat.add_0_r. destruct rest as [|b rest]; [done|]. cbn in Hr |- *. by rewrite Hr.
  - cbn [app read_digits]. rewrite Hd. cbn [foldl length] in *.
    assert (Hs : (N.of_nat v * 10 + N.of_nat d = N.of_nat (digit_step v b))%N)
      by (unfold digit_step; rewrite (to_digit_value b d) by done; lia).
    rewrite Hs, Nat.add_succ_r. destruct max as [m|].
    + rewrite (proj2 (Nat.leb_le _ _)) by lia. by rewrite IH by lia.
    + pose proof (digit_step_grows ds (digit_step v b)). rewrite (proj2 (N.ltb_lt _ _)) by lia.
      by rewrite IH.
Qed.

(** Every number a type can hold is read back from its decimal form. *)
Lemma read_number_display max bound zero n rest :
  (n < bound)%N → match max with Some m => length (display (N.to_nat n)) ≤ m | None => True end →
  stops rest → read_number to_digit 10 max bound zero (display (N.to_nat n) ++ rest) = Some (n, rest).
Proof.
  intros Hn Hm Hr. unfold read_number. set (ds := display (N.to_nat n)) in *.
  assert (Hv : N.of_nat (foldl digit_step 0 ds) = n).
  { change (foldl digit_step 0 ds) with (decimal ds). unfold ds. rewrite decimal_display. lia. }
  pose proof (display_length (N.to_nat n)) as Hlen. fold ds in Hlen.
  change 0%N with (N.of_nat 0).
  rewrite (read_digits_spec max bound ds rest 0 0); [|apply display_digits|done|].
  2: { destruct max; [done|]. by rewrite Hv. }
  rewrite Hv. cbn [mbind option_bind]. rewrite (proj2 (Nat.eqb_neq _ _)) by lia.
  rewrite (proj2 (N.ltb_lt _ _)) by done.
  destruct (negb zero && _ && _) eqn:Hz; [|done].
  apply andb_true_iff in Hz as [[_ Hz%bool_decide_eq_true]%andb_true_iff Hc%Nat.ltb_lt].
  assert (H0 : N.to_nat n = 0).
  { apply display_no_zero. fold ds. by destruct ds; [cbn in Hlen; lia|]. }
  unfold ds in Hc. rewrite H0 in Hc. cbn in Hc. lia.
Qed.

(** * IPv4 addresses *)

(** [Display] for [SocketAddrV4]. *)
Definition display_v4 (a b c d port : N) : bytes :=
  let number n := display (N.to_nat n) in
  number a ++ "."%byte :: number b ++ "."%byte :: number c ++ "."%byte :: number d ++
  ":"%byte :: number port.

Lemma read_octet_display n rest :
  (n < 256)%N → stops rest → read_octet (display (N.to_nat n) ++ rest) = Some (n, rest).
Proof.
  intros Hn Hr. apply read_number_display; [done| |done].
  apply (display_bound _ 2). cbn. lia.
Qed.

Lemma given_char_eq c l : given_char c (c :: l) = Some l.
Proof. cbn. by rewrite bool_decide_eq_true_2. Qed.

Ltac read_next := rewrite ?given_char_eq; cbn [mbind option_bind]; rewrite ?read_octet_display by done;
  cbn [mbind option_bind].

(** The address parser reads back every IPv4 socket address from its usual
    form, whatever the octets and the port. *)
Theorem parse_socket_addr_roundtrip a b c d port :
  (a < 256)%N → (b < 256)%N → (c < 256)%N → (d < 256)%N → (port < 2 ^ 16)%N →
  parse_socket_addr (display_v4 a b c d port) = Some (V4 [a; b; c; d] port).
Proof.
  intros Ha Hb Hc Hd Hp. unfold parse_socket_addr, read_socket_addr_v4, read_ipv4_addr, display_v4.
  do 8 read_next. unfold read_port. read_next.
  rewrite <- (app_nil_r (display (N.to_nat port))). by rewrite read_number_display.
Qed.

(** * Building the listener *)

Section building.
Context `{Socket2}.

(** The calls on a new socket, in order. *)
Definition listener_plan (fd : Z) (a : SocketAddr) : Log :=
  [SetReuseAddress fd true; SetReusePort fd true; BindTo fd a; Listen fd 32768; SetNonblocking fd true].

Definition accepts (log : Log) (c : listen_call) : Prop := ∃ v, socket_answer log c = IoOk v.

(** All calls of [cs], made in order after [log], succeed. *)
Definition all_accepted (log cs : Log) : Prop :=
  ∀ k c, cs !! k = Some c → accepts (log ++ take k cs) c.

(** The calls of [cs] up to the first that fails. *)
Fixpoint call_all (cs : Log) : M Log unit :=
  match cs with
  | [] => io_ok
  | c :: cs => socket_call c;; call_all cs
  end.

Lemma call_all_app cs cs' log : call_all (cs ++ cs') log = (call_all cs;; call_all cs') log.
Proof.
  revert log. induction cs as [|c cs IH]; intros log; [done|].
  cbn [app call_all]. rewrite !bind_eq. unfold socket_call.
  destruct (socket_answer log c); [|done]. rewrite IH, bind_eq. done.
Qed.

(** Either all succeed, or the calls stop behind the first that fails. *)
Lemma call_all_spec cs log :
  (all_accepted log cs ∧ call_all cs log = Ret (IoOk tt, log ++ cs)) ∨
  ∃ k c e, cs !! k = Some c ∧ all_accepted log (take k cs) ∧
    socket_answer (log ++ take k cs) c = IoErr e ∧
    call_all cs log = Ret (IoErr e, log ++ take (S k) cs).
Proof.
  revert log. induction cs as [|c cs IH]; intros log.
  { left. rewrite app_nil_r. split; [|done]. by intros k c. }
  cbn [call_all]. rewrite bind_eq. unfold socket_call.
  destruct (socket_answer log c) as [v|e] eqn:Hc.
  2: { right. exists 0, c, e. rewrite app_nil_r. split_and!; [done| |done|done]. by intros k c'. }
  assert (Hcons : ∀ l, all_accepted (log ++ [c]) l → all_accepted log (c :: l)).
  { intros l Hl [|k] c' Hk; cbn in Hk |- *.
    - injection Hk as <-. rewrite app_nil_r. by exists v.
    - specialize (Hl _ _ Hk). by rewrite <- app_assoc in Hl. }
  destruct (IH (log ++ [c])) as [[Ha ->]|(k & c' & e & Hk & Ha & He & ->)]; [left|right].
  - rewrite <- app_assoc. split; [by apply Hcons|done].
  - exists (S k), c', e. rewrite <- !app_assoc in *. split_and!; [done|by apply Hcons|done|done].
Qed.

Lemma build_listener_eq addr a log :
  parse_socket_addr addr = Some a →
  build_listener addr log =
    (fd ← socket_call (NewSocket IPV4 STREAM (Some TCP));
     owning fd (call_all (listener_plan fd a);; mret fd)) log.
Proof.
  intros Ha. unfold build_listener, listener_plan, owning, lift, socket_call. cbn [call_all].
  unfold mbind, M_bind, outcome_bind. cbn. rewrite Ha.
  repeat (destruct (socket_answer _ _); cbn; [|done]). done.
Qed.

Lemma build_listener_helper addr a log :
  parse_socket_addr addr = Some a →
  let log0 := log ++ [NewSocket IPV4 STREAM (Some TCP)] in
  ∃ r calls, build_listener addr log = Ret (r, log0 ++ calls) ∧
  match socket_answer log (NewSocket IPV4 STREAM (Some TCP)) with
  | IoErr e => r = IoErr e ∧ calls = []
  | IoOk fd =>
      (r = IoOk fd ∧ calls = listener_plan fd a ∧ all_accepted log0 calls) ∨
      ∃ k c e, r = IoErr e ∧ calls = take (S k) (listener_plan fd a) ++ [CloseSocket fd] ∧
        listener_plan fd a !! k = Some c ∧ all_accepted log0 (take k (listener_plan fd a)) ∧
        socket_answer (log0 ++ take k (listener_plan fd a)) c = IoErr e
  end.
Proof.
  intros Ha log0. rewrite (build_listener_eq _ _ _ Ha), bind_eq. unfold socket_call. fold log0.
  destruct (socket_answer _ _) as [fd|e]; [|exists (IoErr e), []; by rewrite app_nil_r].
  unfold owning. rewrite bind_eq.
  destruct (call_all_spec (listener_plan fd a) log0) as [[Hall ->]|(k & c & e & Hk & Hall & He & ->)].
  - exists (IoOk fd), (listener_plan fd a). split; [done|]. by left.
  - exists (IoErr e), (take (S k) (listener_plan fd a) ++ [CloseSocket fd]).
    split; [by rewrite app_assoc|]. right. by exists k, c, e.
Qed.

(** C17: [build_listener] on a well-formed address makes its calls in their order
    and stops at the first that fails. It hands out a socket only when all
    succeeded, and then open; on an error after the socket was made the
    descriptor is closed, as the last thing. *)
Theorem build_listener_correct addr a log :
  parse_socket_addr addr = Some a →
  let log0 := log ++ [NewSocket IPV4 STREAM (Some TCP)] in
  ∃ r calls, build_listener addr log = Ret (r, log0 ++ calls) ∧
  match socket_answer log (NewSocket IPV4 STREAM (Some TCP)) with
  | IoErr e => r = IoErr e ∧ calls = []
  | IoOk fd =>
      (r = IoOk fd ∧ calls = listener_plan fd a ∧ all_accepted log0 calls) ∨
      ∃ k c e, r = IoErr e ∧ calls = take (S k) (listener_plan fd a) ++ [CloseSocket fd] ∧
        listener_plan fd a !! k = Some c ∧ all_accepted log0 (take k (listener_plan fd a)) ∧
        socket_answer (log0 ++ take k (listener_plan fd a)) c = IoErr e
  end.
Proof. apply build_listener_helper. Qed.

(** A text that is no socket address is met only after three system calls, and
    ends the worker: [unwrap] panics. *)
Theorem build_listener_bad_address addr log fd :
  let log0 := log ++ [NewSocket IPV4 STREAM (Some TCP)] in
  parse_socket_addr addr = None →
  socket_answer log (NewSocket IPV4 STREAM (Some TCP)) = IoOk fd →
  all_accepted log0 (take 2 (listener_plan fd (V4 [] 0))) →
  build_listener addr log = Panic.
Proof.
  intros log0 Ha Hfd Hall. destruct (Hall 0 _ eq_refl) as [v1 H1']. destruct (Hall 1 _ eq_refl) as [v2 H2'].
  cbn in H1', H2'. rewrite app_nil_r in H1'.
  unfold build_listener, owning, lift, socket_call, mbind, M_bind, outcome_bind. cbn.
  rewrite Hfd. cbn. fold log0. rewrite H1'. cbn. rewrite H2'. cbn. by rewrite Ha.
Qed.
End building.
