(* ===== verification/Sockets.v ===== *)
(** Socket preparation, [src/library/network/socket_helpers.rs], and the
    reuse-port filter of [src/library/utils/faf_helpers.rs]: the system calls
    made, in order. *)
From S2P Require Import Prelude.

Inductive sock_level := SOL_SOCKET | IPPROTO_TCP.
Inductive sock_opt := SO_SNDBUF | SO_BUSY_POLL | TCP_NODELAY | SO_ZEROCOPY.

(** A classic BPF instruction, [SockFilter]. *)
Record SockFilter := mkFilter { code : N; jt : N; jf : N; k : N }.

Inductive syscall :=
  | Setsockopt (fd : Z) (level : sock_level) (name : sock_opt) (value : Z)
  | Getsockopt (fd : Z) (level : sock_level) (name : sock_opt)
  | FcntlGetfl (fd : Z)
  | FcntlSetfl (fd : Z) (flags : Z)
  | AttachReuseportCbpf (fd : Z) (level name : Z) (prog : list SockFilter) (size : nat)
  | Close (fd : Z).

(** [fcntl(fd, F_GETFL)] as the kernel answers it. *)
Class SocketOps := { fcntl_getfl : Z → Z }.

Definition O_NONBLOCK : Z := 2048.

Definition prepare_incoming_socket `{SocketOps} (client_fd : Z) : list syscall :=
  let sndbuf_size := (1 * 1024 * 1024)%Z in
  let timeout := 50%Z in
  let enable := 1%Z in
  let flag := fcntl_getfl client_fd in
  [ Setsockopt client_fd SOL_SOCKET SO_SNDBUF sndbuf_size;
    Getsockopt client_fd SOL_SOCKET SO_SNDBUF;
    Setsockopt client_fd SOL_SOCKET SO_BUSY_POLL timeout;
    Setsockopt client_fd IPPROTO_TCP TCP_NODELAY 1;
    Setsockopt client_fd SOL_SOCKET SO_ZEROCOPY enable;
    FcntlGetfl client_fd;
    FcntlSetfl client_fd (Z.lor flag O_NONBLOCK) ].

(** [x as u32] of an [i32]. *)
Definition u32_of_signed (z : Z) : N := Z.to_N (z mod 2 ^ 32).

(** The filter program of [attach_reuseport_cbpf]. *)
Definition reuseport_filter : list SockFilter :=
  let BPF_LD := 0x00%N in
  let BPF_RET := 0x06%N in
  let BPF_W := 0x00%N in
  let BPF_ABS := 0x20%N in
  let BPF_A := 0x10%N in
  let SKF_AD_OFF := (-0x1000)%Z in
  let SKF_AD_CPU := 36%Z in
  [ mkFilter (N.lor (N.lor BPF_LD BPF_W) BPF_ABS) 0 0 (u32_of_signed (SKF_AD_OFF + SKF_AD_CPU));
    mkFilter (N.lor BPF_RET BPF_A) 0 0 0 ].

Definition attach_reuseport_cbpf (fd : Z) : list syscall :=
  [ AttachReuseportCbpf fd 1 51 reuseport_filter 16 ].
