(* ===== verification/Server.v ===== *)
(** The server: [src/library/server.rs]. *)
From S2P Require Import Prelude Config Avx Http Trim Shift Crates UserData Uring IoState.
From S2P Require Import Handler Sockets.

Record ServerConfig := mkConfig {
  addr : bytes;
  workers : N;
  uring_size : N;
  sqpoll_enabled : bool;
  sqpoll_idle : N;
  realtime : bool;
  ub_kernel_dma : bool;
}.

(** The clock and the per-second counters; [rps_acc] and [hz_acc] are the
    fields [_rps] and [_hz]. *)
Record Clocks := mkClocks {
  nano_clock : Z;
  clock : Z;
  last_sync_time : Z;
  rps : N;
  hz : N;
  synced : Z;
  rps_acc : N;
  hz_acc : N;
}.

(** [x += 1] on [u64], without overflow checks. *)
Definition u64_incr (x : N) : N := ((x + 1) mod 2 ^ 64)%N.

Definition incr_rps (c : Clocks) : Clocks :=
  mkClocks (nano_clock c) (clock c) (last_sync_time c) (rps c) (hz c) (synced c)
    (u64_incr (rps_acc c)) (hz_acc c).
Definition incr_hz (c : Clocks) : Clocks :=
  mkClocks (nano_clock c) (clock c) (last_sync_time c) (rps c) (hz c) (synced c)
    (rps_acc c) (u64_incr (hz_acc c)).
Definition set_last_sync_time (t : Z) (c : Clocks) : Clocks :=
  mkClocks (nano_clock c) (clock c) t (rps c) (hz c) (synced c) (rps_acc c) (hz_acc c).

Section server.
Context `{Lake, Json, StableVecOps, RingOps, SocketOps}.
(** Whether overflow checks are compiled in. *)
Context (oc : bool).

Record Server := mkServer {
  config : ServerConfig;
  client_fds : StableVec Z;
  date : bytes;
  hot_json_buf : TachyonBuffer 100;
  hot_data_lake : SmallLake 512;
  sync_now : bool;
  buffers : list bytes;
  released_buffers : list nat;
  client_out_buffers : StableVec (SmallLake DATA_LAKE_SIZE);
  hot_internal_cache : bytes;
  universal_counter : nat;
  io_send_busy : bool;
  clocks : Clocks;
}.

Definition set_client_fds (v : StableVec Z) (s : Server) : Server :=
  mkServer (config s) v (date s) (hot_json_buf s) (hot_data_lake s) (sync_now s) (buffers s)
    (released_buffers s) (client_out_buffers s) (hot_internal_cache s) (universal_counter s) (io_send_busy s) (clocks s).
Definition set_date (v : bytes) (s : Server) : Server :=
  mkServer (config s) (client_fds s) v (hot_json_buf s) (hot_data_lake s) (sync_now s) (buffers s)
    (released_buffers s) (client_out_buffers s) (hot_internal_cache s) (universal_counter s) (io_send_busy s) (clocks s).
Definition set_hot_json_buf (v : TachyonBuffer 100) (s : Server) : Server :=
  mkServer (config s) (client_fds s) (date s) v (hot_data_lake s) (sync_now s) (buffers s)
    (released_buffers s) (client_out_buffers s) (hot_internal_cache s) (universal_counter s) (io_send_busy s) (clocks s).
Definition set_hot_data_lake (v : SmallLake 512) (s : Server) : Server :=
  mkServer (config s) (client_fds s) (date s) (hot_json_buf s) v (sync_now s) (buffers s)
    (released_buffers s) (client_out_buffers s) (hot_internal_cache s) (universal_counter s) (io_send_busy s) (clocks s).
Definition set_sync_now (v : bool) (s : Server) : Server :=
  mkServer (config s) (client_fds s) (date s) (hot_json_buf s) (hot_data_lake s) v (buffers s)
    (released_buffers s) (client_out_buffers s) (hot_internal_cache s) (universal_counter s) (io_send_busy s) (clocks s).
Definition set_buffers (v : list bytes) (s : Server) : Server :=
  mkServer (config s) (client_fds s) (date s) (hot_json_buf s) (hot_data_lake s) (sync_now s) v
    (released_buffers s) (client_out_buffers s) (hot_internal_cache s) (universal_counter s) (io_send_busy s) (clocks s).
Definition set_released_buffers (v : list nat) (s : Server) : Server :=
  mkServer (config s) (client_fds s) (date s) (hot_json_buf s) (hot_data_lake s) (sync_now s) (buffers s)
    v (client_out_buffers s) (hot_internal_cache s) (universal_counter s) (io_send_busy s) (clocks s).
Definition set_client_out_buffers (v : StableVec (SmallLake DATA_LAKE_SIZE)) (s : Server) : Server :=
  mkServer (config s) (client_fds s) (date s) (hot_json_buf s) (hot_data_lake s) (sync_now s) (buffers s)
    (released_buffers s) v (hot_internal_cache s) (universal_counter s) (io_send_busy s) (clocks s).
Definition set_hot_internal_cache (v : bytes) (s : Server) : Server :=
  mkServer (config s) (client_fds s) (date s) (hot_json_buf s) (hot_data_lake s) (sync_now s) (buffers s)
    (released_buffers s) (client_out_buffers s) v (universal_counter s) (io_send_busy s) (clocks s).
Definition set_io_send_busy (v : bool) (s : Server) : Server :=
  mkServer (config s) (client_fds s) (date s) (hot_json_buf s) (hot_data_lake s) (sync_now s) (buffers s)
    (released_buffers s) (client_out_buffers s) (hot_internal_cache s) (universal_counter s) v (clocks s).
Definition set_clocks (v : Clocks) (s : Server) : Server :=
  mkServer (config s) (client_fds s) (date s) (hot_json_buf s) (hot_data_lake s) (sync_now s) (buffers s)
    (released_buffers s) (client_out_buffers s) (hot_internal_cache s) (universal_counter s) (io_send_busy s) v.

(** [Server::clone], which the compiler derives: field by field. *)
Definition clone (s : Server) : Server :=
  mkServer (config s) (sv_clone id (client_fds s)) (date s) (json_clone (hot_json_buf s))
    (lake_clone (hot_data_lake s)) (sync_now s) (buffers s) (released_buffers s)
    (sv_clone lake_clone (client_out_buffers s)) (hot_internal_cache s) (universal_counter s)
    (io_send_busy s) (clocks s).

(** The server, the ring it talks to, the thread-local [CURRENT_KERNEL_BUF]
    (a pointer to the start of one of the kernel buffers) and the system
    calls made so far, latest first. *)
Record World := mkWorld {
  srv : Server;
  ring : Ring;
  kernel_buf : option nat;
  syscalls : list syscall;
}.

Definition upd_srv (f : Server → Server) (w : World) : World :=
  mkWorld (f (srv w)) (ring w) (kernel_buf w) (syscalls w).
Definition upd_ring (f : Ring → Ring) (w : World) : World :=
  mkWorld (srv w) (f (ring w)) (kernel_buf w) (syscalls w).
Definition set_kernel_buf (p : option nat) (w : World) : World :=
  mkWorld (srv w) (ring w) p (syscalls w).
Definition log_syscalls (l : list syscall) (w : World) : World :=
  mkWorld (srv w) (ring w) (kernel_buf w) (reverse l ++ syscalls w).

Abbreviation IO := (M World).
Definition server : IO Server := gets srv.
Definition modify_srv (f : Server → Server) : IO unit := modify (upd_srv f).

(** * Ring operations *)

(** The process memory as the kernel sees it. *)
Definition kmem_of (s : Server) : kmem :=
  mkKmem (buffers s) (λ cid, lake_buf <$> sv_get (client_out_buffers s) cid).

Definition do_submit : IO nat := λ w,
  let '(r, bufs, ring') := submit (kmem_of (srv w)) (ring w) in
  Ret (r, mkWorld (set_buffers bufs (srv w)) ring' (kernel_buf w) (syscalls w)).
Definition do_submit_and_wait (n : nat) : IO nat := λ w,
  let '(r, bufs, ring') := submit_and_wait n (kmem_of (srv w)) (ring w) in
  Ret (r, mkWorld (set_buffers bufs (srv w)) ring' (kernel_buf w) (syscalls w)).

(** [loop { match sq.push_multiple(..) { Ok(_) => break, Err(err) => error!(..) } }]:
    a failed push leaves the queue as it is. *)
Definition push_retry (fuel : nat) (rqs : list Entry) (r : Ring) : outcome Ring :=
  loop fuel
    (λ r, match sq_push_multiple rqs r with
          | Some r' => Ret (inr r')
          | None => Ret (inl r)
          end) r.
Definition RETRY_FUEL : nat := 1.

(** [sq.push_multiple] in the retry loop, on the server's ring. *)
Definition do_push_retry (fuel : nat) (rqs : list Entry) : IO unit :=
  r ← gets ring;
  r' ← lift (push_retry fuel rqs r);
  modify (upd_ring (λ _, r')).
Definition do_sync : IO unit := modify (upd_ring sq_sync).
(** [sq.push(&e).unwrap_or(())]: a full queue drops the entry. *)
Definition push_or_drop (e : Entry) : IO unit :=
  modify (upd_ring (λ r, default r (sq_push e r))).

(** * Buffers *)

Definition register_buffers : IO unit :=
  s ← server;
  let rqs := (λ i, provide_buffer (PKernelBuf i) (N.of_nat i) (Z.of_nat BUFFER_SIZE))
               <$> seq 0 BUFFERS_COUNT in
  do_push_retry RETRY_FUEL rqs;;
  do_sync;;
  do_submit_and_wait BUFFERS_COUNT;;
  io_ok.

(** [self.buffers[*id as usize].as_mut_ptr()] *)
Definition buffer_request (s : Server) (id : nat) : outcome Entry :=
  _ ← index (buffers s) id;
  Ret (provide_buffer (PKernelBuf id) (N.of_nat id) (Z.of_nat BUFFER_SIZE)).

(** [release_buffers] with at most [fuel] turns of its retry loop. *)
Definition release_buffers_within (fuel : nat) : IO unit :=
  s ← server;
  if length (released_buffers s) =? 0 then io_ok
  else
    do_submit;;
    s ← server;
    rqs ← lift (mapM (buffer_request s) (released_buffers s));
    do_push_retry fuel rqs;;
    do_sync;;
    do_submit_and_wait (length (released_buffers s));;
    modify_srv (set_released_buffers []);;
    io_ok.

Definition release_buffers : IO unit := release_buffers_within RETRY_FUEL.

(** * Connections *)

Definition SEND_EVENT : N := 0xCCC.

Definition user_tag (cid : nat) (uniq : N) : N :=
  pack_user_data (mkUserData (N.of_nat cid mod 2 ^ 32)%N 0 uniq).

Definition process_entry_accept (result : Z) : IO unit :=
  let client_fd := result in
  if (client_fd <=? 0)%Z then io_ok
  else
    modify (log_syscalls (prepare_incoming_socket client_fd));;
    s ← server;
    let '(client_fd_id, fds) := sv_push client_fd (client_fds s) in
    modify_srv (set_client_fds fds);;
    outs ← lift (sv_insert client_fd_id (lake_build DATA_LAKE_SIZE) (client_out_buffers s));
    modify_srv (set_client_out_buffers outs);;
    (if ub_kernel_dma (config s) then
      push_or_drop (poll_add client_fd (user_tag client_fd_id POLL_EVENT));;
      do_sync
    else io_ok);;
    push_or_drop (recv_multi client_fd (user_tag client_fd_id INIT_REQUEST));;
    modify_srv (set_sync_now true).

(** The loop of [wideband_send] over the out buffers: the send entries, and
    the vector with the sent buffers reset. *)
Fixpoint collect_sends (fds : StableVec Z) (l : list (nat * SmallLake DATA_LAKE_SIZE))
    (entries : list Entry) (outs : StableVec (SmallLake DATA_LAKE_SIZE)) :
    list Entry * StableVec (SmallLake DATA_LAKE_SIZE) :=
  match l with
  | [] => (entries, outs)
  | (client_id, data_lake) :: l =>
      if lake_len data_lake =? 0 then collect_sends fds l entries outs
      else
        match sv_get fds client_id with
        | Some fd =>
            let send_entry :=
              send (user_tag client_id SEND_EVENT) fd
                (PClientBuf client_id, lake_pos data_lake) false in
            collect_sends fds l (entries ++ [send_entry])
              (sv_set client_id (lake_reset_pos data_lake) outs)
        | None => collect_sends fds l entries outs
        end
  end.

Definition wideband_send : IO unit :=
  s ← server;
  let used := sv_iter (client_out_buffers s) in
  if length used =? 0 then io_ok
  else
    modify_srv (λ s, set_clocks (set_last_sync_time (nano_clock (clocks s)) (clocks s)) s);;
    let '(entries, outs) := collect_sends (client_fds s) used [] (client_out_buffers s) in
    modify_srv (set_client_out_buffers outs);;
    (if 0 <? length entries then
      r ← gets ring;
      r' ← lift (match sq_push_multiple entries r with Some r' => Ret r' | None => Panic end);
      modify (upd_ring (λ _, r'));;
      modify_srv (set_io_send_busy true)
    else io_ok);;
    modify_srv (set_sync_now true).

(** * Requests *)

(** [for index in 0..requests.1], with [k] iterations left. *)
Fixpoint serve_loop (reqs : list RequestEntry) (idx k total_len : nat) (s : Server) :
    outcome (nat * Server) :=
  match k with
  | 0 => Ret (total_len, s)
  | S k =>
      let s := set_clocks (incr_rps (clocks s)) s in
      request ← index reqs idx;
      hot ← slice_from (hot_internal_cache s) total_len;
      '(len, hot, json, lake) ←
        handler request.1 request.2 (date s) hot (hot_json_buf s) (hot_data_lake s);
      let s := set_hot_internal_cache (take total_len (hot_internal_cache s) ++ hot) s in
      let s := set_hot_json_buf json s in
      let s := set_hot_data_lake lake s in
      serve_loop reqs (S idx) k (total_len + len) s
  end.

Definition serve_requests (requests : list RequestEntry * nat) : IO bytes :=
  s ← server;
  r ← lift (serve_loop requests.1 0 requests.2 0 s);
  let '(total_len, s) := r in
  modify_srv (λ _, s);;
  lift (slice (hot_internal_cache s) 0 total_len).

(** [self.client_out_buffers[cid].write(hot_slice)] *)
Definition write_client (cid : nat) (hot_slice : bytes) (lake : SmallLake DATA_LAKE_SIZE) :
    IO unit :=
  lake ← lift (lake_write lake hot_slice);
  modify_srv (λ s, set_client_out_buffers (sv_set cid lake (client_out_buffers s)) s).

Definition MAX_REQUESTS : nat := 50.

Definition ubdma (client : UserData) : IO unit :=
  let cid := N.to_nat (client_id client) in
  p ← gets kernel_buf;
  match p with
  | None => io_ok
  | Some i =>
      s ← server;
      buffer ← lift (b ← read (buffers s) i; from_raw_parts b 0 BUFFER_SIZE);
      buffer ← lift (l_trim256 buffer);
      requests ← lift (parse_http_methods_paths oc MAX_REQUESTS buffer);
      (* [Vec::with_capacity(n).capacity() == 0] exactly when [n == 0] *)
      if (requests.2 - 5) * DATA_LAKE_SIZE =? 0 then io_ok
      else
        match sv_get (client_out_buffers s) cid with
        | None => io_ok
        | Some client_buffer =>
            if negb (lake_len client_buffer =? 0) then io_ok
            else
              hot_slice ← serve_requests requests;
              write_client cid hot_slice client_buffer;;
              modify_srv (set_sync_now true)
        end
  end.

(** [(BUFFERS_COUNT as f64 / 1.5) as usize] *)
Definition release_part : nat := BUFFERS_COUNT * 2 / 3.

(** [&self.buffers[buf_id as usize][..result as usize]]: a negative [i32]
    becomes a huge [usize]. *)
Definition received (s : Server) (buf_id : nat) (result : Z) : outcome bytes :=
  b ← index (buffers s) buf_id;
  if (result <? 0)%Z then Panic else slice b 0 (Z.to_nat result).

Definition request_reply (flags : N) (user_data : UserData) (result : Z) : IO unit :=
  let buf_id := N.to_nat (N.shiftr flags 16 mod 2 ^ 16)%N in
  let cid := N.to_nat (client_id user_data) in
  if (Z.of_nat BUFFER_SIZE <? result)%Z then io_ok
  else
    s ← server;
    buffer ← lift (received s buf_id result);
    modify (set_kernel_buf (Some buf_id));;
    requests ← lift (parse_http_methods_paths oc MAX_REQUESTS buffer);
    hot_slice ← serve_requests requests;
    s ← server;
    client_buffer ← lift (match sv_get (client_out_buffers s) cid with
                          | Some l => Ret l | None => UB end);
    write_client cid hot_slice client_buffer;;
    modify_srv (set_sync_now true);;
    modify_srv (λ s, set_released_buffers (released_buffers s ++ [buf_id]) s);;
    (if ub_kernel_dma (config s) then
      s ← server;
      buf ← lift (index (buffers s) buf_id);
      last ← lift (index buf (BUFFER_SIZE - 1));
      if Byte.eqb last x00 then
        buf ← lift (shift_ub_inplace buf (Z.to_nat result));
        modify_srv (λ s, set_buffers (<[buf_id:=buf]> (buffers s)) s)
      else io_ok
    else io_ok);;
    s ← server;
    if length (released_buffers s) =? release_part then release_buffers else io_ok.

Definition close_connection (client_id : nat) (force : bool) : IO unit :=
  s ← server;
  cfd ←
    (if negb force then
      mret (default 0xFF%Z (sv_get (client_fds s) client_id))
    else
      let '(fd, fds) := sv_remove client_id (client_fds s) in
      modify_srv (set_client_fds fds);;
      modify_srv (λ s, set_client_out_buffers
        (sv_remove client_id (client_out_buffers s)).2 s);;
      mret (default 0xFF%Z fd));
  if (cfd =? 0)%Z then io_ok
  else modify (log_syscalls [Close cfd]).

(** * Completions *)

Definition EAGAIN : Z := 11.
Definition EBADF : Z := 9.
Definition ENOBUFS : Z := 105.
Definition ECONNRESET : Z := 104.

Definition process_entry_response (user_data : N) (result : Z) (flags : N) : IO unit :=
  user ← lift (unpack_user_data oc user_data);
  let client_id := N.to_nat (client_id user) in
  if (result =? - EAGAIN)%Z || (result =? - EBADF)%Z then io_ok
  else if (result =? - ENOBUFS)%Z then release_buffers;; io_ok
  else if (result =? -32)%Z then io_ok
  else if ((result =? 0)%Z && negb (uniq_id user =? SEND_EVENT)%N)
          || (result =? - ECONNRESET)%Z then
    close_connection client_id true;; io_ok
  else if (result <? 0)%Z then io_ok
  else
    s ← server;
    if (uniq_id user =? POLL_EVENT)%N && ub_kernel_dma (config s) then ubdma user;; io_ok
    else if (uniq_id user =? SEND_EVENT)%N then io_ok
    else if (0 <? result)%Z then request_reply flags user result;; io_ok
    else io_ok.

Definition process_entry (cqe : Cqe) : IO unit :=
  let user_data := cqe_user_data cqe in
  let result := cqe_result cqe in
  let flags := cqe_flags cqe in
  if (user_data =? BUFFER_REGISTER_CODE)%N && (result =? 0)%Z && (flags =? 0)%N then io_ok
  else if (user_data =? CODE_ACCEPT)%N then process_entry_accept result
  else if (REQ_RESP_OFFSET <=? user_data)%N then
    process_entry_response user_data result flags
  else io_ok.

Definition reserve_writes_buffer (reserve : nat) : IO unit :=
  modify_srv (λ s, set_client_fds
    (Nat.iter reserve (λ v, (sv_push 0xFFFF%Z v).2) (client_fds s)) s).
End server.

(** Equations for the server's primitives. *)
Section server_eqs.
Context `{Lake, Json, StableVecOps, RingOps, SocketOps}.

Lemma bind_server {B} (f : Server → M World B) w : (server ≫= f) w = f (srv w) w.
Proof. done. Qed.
Lemma bind_modify_srv {B} g (f : unit → M World B) w :
  (modify_srv g ≫= f) w = f tt (upd_srv g w).
Proof. done. Qed.
Lemma bind_io_ok {B} (f : unit → M World B) w : (io_ok ≫= f) w = f tt w.
Proof. done. Qed.
Lemma preserves_server {T} (g : World → T) : preserves g server.
Proof. apply preserves_gets. Qed.
Lemma modify_srv_eq g w : modify_srv g w = Ret (IoOk tt, upd_srv g w).
Proof. done. Qed.
Lemma bind_write_client {B} cid bs lake lake' (f : unit → M World B) w :
  lake_write lake bs = Ret lake' →
  (write_client cid bs lake ≫= f) w
  = f tt (upd_srv (λ s, set_client_out_buffers (sv_set cid lake' (client_out_buffers s)) s) w).
Proof. intros Hw. unfold write_client, lift. rewrite Hw. done. Qed.
End server_eqs.
#[export] Hint Resolve preserves_server : preserves.

(** Runs a server computation forward through the steps with known results. *)
Ltac srun := repeat first
  [ rewrite bind_server | rewrite bind_modify_srv | rewrite bind_io_ok
  | rewrite bind_gets | rewrite bind_modify | rewrite bind_mret
  | erewrite bind_lift by eassumption
  | erewrite bind_write_client by eassumption
  | erewrite bind_ok by eassumption ]; cbv beta.
