(* ===== verification/Replies.v ===== *)
(** Theorems about the request path of the server: the reply loop and
    [request_reply]. *)
From S2P Require Import Prelude Config Avx Http Trim Shift Crates UserData Uring IoState.
From S2P Require Import Handler Sockets Server.

(** The bytes answered to a list of requests. *)
Definition responses (date : bytes) (reqs : list RequestEntry) : bytes :=
  mjoin ((λ r, response (route r.1 r.2) date) <$> reqs).

Lemma responses_app date r1 r2 : responses date (r1 ++ r2) = responses date r1 ++ responses date r2.
Proof. unfold responses. by rewrite fmap_app, join_app. Qed.

Lemma responses_cons date r reqs :
  responses date (r :: reqs) = response (route r.1 r.2) date ++ responses date reqs.
Proof. done. Qed.

Lemma responses_length date reqs :
  length date = DATE_SIZE → length (responses date reqs) ≤ length reqs * MAX_RESPONSE.
Proof.
  intros Hd. induction reqs as [|r reqs IH]; [done|].
  rewrite responses_cons, length_app. cbn [length]. rewrite Nat.mul_succ_l.
  pose proof (response_bound (route r.1 r.2) date Hd). lia.
Qed.

Section replies.
Context `{LakeLaws, JsonLaws, StableVecLaws, RingLaws, SocketOps}.
Implicit Types s : Server.

(** Serving touches only the hot buffers and the clocks. *)
Definition hot_frame (s s' : Server) : Prop :=
  ∃ clk cache json lake,
    s' = set_clocks clk (set_hot_internal_cache cache
           (set_hot_json_buf json (set_hot_data_lake lake s))).

Lemma hot_frame_trans s1 s2 s3 : hot_frame s1 s2 → hot_frame s2 s3 → hot_frame s1 s3.
Proof.
  intros (? & ? & ? & ? & ->) (clk & cache & json & lake & ->).
  by exists clk, cache, json, lake.
Qed.

Lemma serve_loop_spec reqs idx k total s :
  length (date s) = DATE_SIZE →
  idx + k ≤ length reqs →
  total + k * MAX_RESPONSE ≤ length (hot_internal_cache s) →
  let resp := responses (date s) (take k (drop idx reqs)) in
  ∃ s', serve_loop reqs idx k total s = Ret (total + length resp, s') ∧
    hot_frame s s' ∧ clocks s' = Nat.iter k incr_rps (clocks s) ∧
    length (hot_internal_cache s') = length (hot_internal_cache s) ∧
    take (total + length resp) (hot_internal_cache s') =
      take total (hot_internal_cache s) ++ resp.
Proof.
  revert idx total s. induction k as [|k IH]; intros idx total s Hd Hi Hc; cbv zeta.
  { exists s. cbn [take]. unfold responses. cbn [fmap list_fmap mjoin list_join length].
    rewrite Nat.add_0_r, app_nil_r. split; [done|]. split; [|done].
    exists (clocks s), (hot_internal_cache s), (hot_json_buf s), (hot_data_lake s). by destruct s. }
  rewrite Nat.mul_succ_l in Hc.
  destruct (lookup_lt_is_Some_2 reqs idx) as [r Hr]; [lia|].
  cbn [serve_loop]. unfold index. rewrite Hr. run.
  set (s1 := set_clocks _ s).
  pose proof (response_bound (route r.1 r.2) (date s) Hd) as Hb.
  assert (Hc1 : total ≤ length (hot_internal_cache s1)) by (cbn; lia).
  rewrite slice_from_Ret by done. run.
  destruct (handler_spec r.1 r.2 (date s1) (drop total (hot_internal_cache s1))
    (hot_json_buf s1) (hot_data_lake s1)) as (jb & lk & ->);
    [done|rewrite length_drop; cbn in *; lia|].
  run. change (date s1) with (date s). set (resp1 := response (route r.1 r.2) (date s)) in *.
  set (cache2 := take total _ ++ _).
  assert (Hl2 : length cache2 = length (hot_internal_cache s)).
  { unfold cache2. rewrite !length_app, length_take, !length_drop. cbn in *. lia. }
  assert (Ht2 : take (total + length resp1) cache2 = take total (hot_internal_cache s) ++ resp1).
  { unfold cache2. rewrite app_assoc. apply take_app_length'.
    rewrite length_app, length_take. cbn. lia. }
  set (s2 := set_hot_data_lake lk _).
  destruct (IH (S idx) (total + length resp1) s2) as (s' & Hs & Hf & Hk & Hl & Ht).
  { done. } { lia. } { change (hot_internal_cache s2) with cache2. lia. }
  change (date s2) with (date s) in *. change (hot_internal_cache s2) with cache2 in *.
  rewrite (drop_S _ r) by done.
  cbn [take]. rewrite responses_cons. fold resp1.
  rewrite length_app, Nat.add_assoc. exists s'. split; [exact Hs|]. split_and!.
  - eapply hot_frame_trans; [|exact Hf]. by eexists _, _, _, _.
  - rewrite Hk, Nat.iter_succ_r. done.
  - by rewrite Hl.
  - rewrite Ht, Ht2. by rewrite app_assoc.
Qed.

(** The parts of the state a request path relies on. *)
Record srv_shape (s : Server) : Prop := {
  shape_buffers : length (buffers s) = BUFFERS_COUNT;
  shape_buffer_size : Forall (λ b, length b = BUFFER_SIZE) (buffers s);
  shape_cache : length (hot_internal_cache s) = 2 * BUFFER_SIZE;
  shape_date : length (date s) = DATE_SIZE;
}.

Lemma shape_lookup s i :
  srv_shape s → i < BUFFERS_COUNT →
  ∃ b, buffers s !! i = Some b ∧ length b = BUFFER_SIZE.
Proof.
  intros Hs Hi. destruct (lookup_lt_is_Some_2 (buffers s) i) as [b Hb];
    [by rewrite shape_buffers|].
  exists b. split; [done|]. by eapply (Forall_lookup_1 _ _ _ _ (shape_buffer_size s Hs)).
Qed.

Lemma max_reply_fits n : n ≤ MAX_REQUESTS → n * MAX_RESPONSE ≤ 2 * BUFFER_SIZE.
Proof. unfold MAX_REQUESTS, MAX_RESPONSE. const_lia. Qed.

Lemma serve_requests_spec w reqs :
  srv_shape (srv w) → length reqs ≤ MAX_REQUESTS →
  ∃ s', serve_requests (padded ([], []) MAX_REQUESTS reqs, length reqs) w =
      Ret (IoOk (responses (date (srv w)) reqs), upd_srv (λ _, s') w) ∧
    hot_frame (srv w) s' ∧
    clocks s' = Nat.iter (length reqs) incr_rps (clocks (srv w)) ∧
    length (hot_internal_cache s') = 2 * BUFFER_SIZE.
Proof.
  intros Hs Hn. pose proof (max_reply_fits _ Hn) as Hmax.
  destruct (serve_loop_spec (padded ([], []) MAX_REQUESTS reqs) 0 (length reqs) 0 (srv w))
    as (s' & Heq & Hf & Hk & Hl & Ht).
  { apply Hs. } { by rewrite length_padded. } { by rewrite (shape_cache _ Hs). }
  assert (Htk : take (length reqs) (padded ([], []) MAX_REQUESTS reqs) = reqs)
    by apply take_app_length.
  rewrite drop_0, Htk in *.
  cbn [Nat.add take app] in *. exists s'. rewrite (shape_cache _ Hs) in Hl.
  split; [|done]. unfold serve_requests. unfold server. mrun. cbn [fst snd].
  unfold modify_srv, lift. mrun. cbn [take app] in Ht.
  rewrite slice_0_Ret, Ht; [done|].
  pose proof (responses_length (date (srv w)) reqs (shape_date _ Hs)). lia.
Qed.

(** * request_reply *)

(** The kernel buffers after the reply: in UBDMA mode, a buffer whose last
    byte is zero has its packet shifted to the end. *)
Definition buffers_after (s : Server) (buf_id : nat) (buf : bytes) (len : nat) : list bytes :=
  if ub_kernel_dma (config s) && bool_decide (buf !! (BUFFER_SIZE - 1) = Some x00)
  then <[buf_id := shifted BUFFER_SIZE buf len]> (buffers s)
  else buffers s.

(** What a reply changes in the server: the answered bytes are appended to
    the out buffer of client [cid], the kernel buffer joins the released ones,
    and nothing else but the hot buffers and the clocks changes. *)
Record replied (s : Server) (cid buf_id : nat) (reqs : list RequestEntry)
    (bufs : list bytes) (s' : Server) : Prop := {
  rp_out : ∃ lake lake', sv_get (client_out_buffers s) cid = Some lake ∧
    sv_get (client_out_buffers s') cid = Some lake' ∧
    lake_data lake' = lake_data lake ++ responses (date s) reqs;
  rp_others cid' : cid ≠ cid' →
    sv_get (client_out_buffers s') cid' = sv_get (client_out_buffers s) cid';
  rp_fds : client_fds s' = client_fds s;
  rp_config : config s' = config s;
  rp_date : date s' = date s;
  rp_buffers : buffers s' = bufs;
  rp_released : released_buffers s' = released_buffers s ++ [buf_id];
  rp_sync : sync_now s' = true;
  rp_cache : length (hot_internal_cache s') = 2 * BUFFER_SIZE;
  rp_clocks : clocks s' = Nat.iter (length reqs) incr_rps (clocks s);
  rp_capacity : sv_capacity (client_out_buffers s') = sv_capacity (client_out_buffers s);
}.

(** The tail of [request_reply] that shifts the packet in UBDMA mode. *)
Lemma shift_block w buf_id buf len (k : unit → M World unit) :
  length (buffers (srv w)) = BUFFERS_COUNT → length buf = BUFFER_SIZE →
  buffers (srv w) !! buf_id = Some buf → len ≤ BUFFER_SIZE →
  ((if ub_kernel_dma (config (srv w)) then
      s ← server;
      buf ← lift (index (buffers s) buf_id);
      last ← lift (index buf (BUFFER_SIZE - 1));
      if Byte.eqb last x00 then
        buf ← lift (shift_ub_inplace buf len);
        modify_srv (λ s, set_buffers (<[buf_id:=buf]> (buffers s)) s)
      else io_ok
    else io_ok) ≫= k) w
  = k tt (upd_srv (set_buffers (buffers_after (srv w) buf_id buf len)) w).
Proof.
  intros Hn Hl Hb Hlen. unfold buffers_after.
  assert (Hid : upd_srv (set_buffers (buffers (srv w))) w = w)
    by (destruct w as [[] ? ? ?]; done).
  destruct (ub_kernel_dma (config (srv w))); cbn [andb]; [|by rewrite Hid].
  destruct (lookup_lt_is_Some_2 buf (BUFFER_SIZE - 1)) as [last Hlast]; [const_lia|].
  unfold server, index. rewrite bind_eq. mrun. rewrite Hb.
  rewrite (bind_lift (Ret buf) buf) by done. cbv beta. rewrite Hlast.
  rewrite (bind_lift (Ret last) last) by done. cbv beta.
  rewrite byte_eqb_decide. case_bool_decide as Hz.
  - subst last. rewrite bool_decide_eq_true_2 by done.
    rewrite shift_ub_inplace_spec, decide_True by lia.
    rewrite (bind_lift (Ret _) (shifted (length buf) buf len)) by done.
    cbv beta. unfold modify_srv, modify. rewrite Hl. by destruct w.
  - rewrite bool_decide_eq_false_2 by naive_solver. unfold io_ok, mret, M_ret. by rewrite Hid.
Qed.

Lemma sv_get_upd (outs : StableVec (SmallLake DATA_LAKE_SIZE)) cid lake lake' :
  sv_get outs cid = Some lake →
  sv_get (sv_set cid lake' outs) cid = Some lake' ∧
  ∀ cid', cid ≠ cid' → sv_get (sv_set cid lake' outs) cid' = sv_get outs cid'.
Proof.
  intros Hg. split; [|intros cid' Hne]; rewrite sv_get_set by by eexists.
  - by rewrite decide_True.
  - by rewrite decide_False.
Qed.

(** The whole of [request_reply] on a received packet: every request the
    reference parser finds in the packet is answered, in order, into the out
    buffer of the client and of no other; the kernel buffer is put on the
    release list; when that brings the list to two thirds of the buffers they
    are returned to the kernel. *)
Lemma request_reply_helper oc flags user result w buf lake :
  let s := srv w in
  let buf_id := N.to_nat (N.shiftr flags 16 mod 2 ^ 16) in
  let cid := N.to_nat (client_id user) in
  let packet := take (Z.to_nat result) buf in
  let reqs := requests MAX_REQUESTS packet in
  srv_shape s → (0 ≤ result ≤ Z.of_nat BUFFER_SIZE)%Z →
  buffers s !! buf_id = Some buf →
  no_boundary MAX_REQUESTS packet →
  sv_get (client_out_buffers s) cid = Some lake →
  length (lake_data lake) + length (responses (date s) reqs) ≤ DATA_LAKE_SIZE →
  ∃ s', replied s cid buf_id reqs (buffers_after s buf_id buf (Z.to_nat result)) s' ∧
    let w' := mkWorld s' (ring w) (Some buf_id) (syscalls w) in
    request_reply oc flags user result w =
      if length (released_buffers s') =? release_part then release_buffers w'
      else Ret (IoOk tt, w').
Proof.
  intros s buf_id cid packet reqs Hs Hr Hbuf Hbd Hlk Hfit.
  assert (Hbl : length buf = BUFFER_SIZE).
  { by eapply (Forall_lookup_1 _ _ _ _ (shape_buffer_size s Hs)). }
  assert (Hle : Z.to_nat result ≤ BUFFER_SIZE) by (clear -Hr; lia).
  assert (Hbig : (Z.of_nat BUFFER_SIZE <? result)%Z = false) by (clear -Hr; lia).
  assert (Hneg : (result <? 0)%Z = false) by (clear -Hr; lia).
  unfold request_reply. rewrite Hbig. fold buf_id cid.
  assert (Hrec : received s buf_id result = Ret packet).
  { unfold received, index. rewrite Hbuf. run. rewrite Hneg.
    apply slice_0_Ret. by rewrite Hbl. }
  pose proof (parse_requests_spec oc _ _ Hbd) as Hparse. fold reqs in Hparse.
  set (w1 := set_kernel_buf (Some buf_id) w).
  destruct (serve_requests_spec w1 reqs Hs (requests_length _ _))
    as (s1 & Hserve & (clk & cache & json & lk & Hs1) & Hk & Hc).
  change (date (srv w1)) with (date s) in Hserve.
  destruct (lake_write_data lake (responses (date s) reqs)) as (lake' & Hw & Hd); [done|].
  assert (Hget : (match sv_get (client_out_buffers s1) cid with
                  | Some l => Ret l | None => UB end) = Ret lake).
  { rewrite Hs1. cbn [client_out_buffers set_clocks set_hot_internal_cache
      set_hot_json_buf set_hot_data_lake]. change (srv w1) with s. by rewrite Hlk. }
  srun. set (w2 := upd_srv (λ s, set_released_buffers _ s) _).
  change (config (srv (upd_srv (λ _, s1) w1))) with (config (srv w2)).
  assert (Hw2b : buffers (srv w2) = buffers s) by (cbn; by rewrite Hs1).
  assert (Hw2c : config (srv w2) = config s) by (cbn; by rewrite Hs1).
  rewrite (shift_block w2 buf_id buf); [|by rewrite Hw2b, shape_buffers|done|by rewrite Hw2b|done].
  assert (Hba : buffers_after (srv w2) buf_id buf (Z.to_nat result)
                = buffers_after s buf_id buf (Z.to_nat result)).
  { unfold buffers_after. by rewrite Hw2b, Hw2c. }
  rewrite Hba. srun.
  eexists (set_buffers (buffers_after s buf_id buf (Z.to_nat result)) (srv w2)).
  split; [|rewrite if_apply; done].
  pose proof (sv_get_upd (client_out_buffers s) cid lake lake' Hlk) as [Hg Ho].
  rewrite Hs1 in Hk, Hc. subst s1. split; try done; [by exists lake, lake'|]. apply sv_set_capacity.
Qed.
End replies.
