(* ===== verification/Buffers.v ===== *)
(** Theorems about the kernel buffers: registering them, and returning released
    ones ([register_buffers], [release_buffers]). *)
From S2P Require Import Prelude Config Crates Uring IoState Handler Sockets Server Replies.

Section buffers.
Context `{LakeLaws, JsonLaws, StableVecLaws, RingLaws, SocketOps}.

(** * The retry loop *)

Lemma push_retry_fits fuel es r :
  0 < fuel → sq_len r + length es ≤ sq_capacity r →
  ∃ r', push_retry fuel es r = Ret r' ∧ sq_push_multiple es r = Some r' ∧
    sq_entries r' = sq_entries r ++ es ∧
    sq_capacity r' = sq_capacity r ∧ cq_len r' = cq_len r.
Proof.
  intros Hf Hfit. destruct (sq_push_multiple_fits es r Hfit) as (r' & Hp & ? & ? & ?).
  exists r'. split; [|done]. destruct fuel as [|fuel]; [lia|].
  unfold push_retry. cbn. by rewrite Hp.
Qed.

Lemma push_retry_full fuel es r :
  sq_capacity r < sq_len r + length es → push_retry fuel es r = Diverge.
Proof.
  intros Hfull. unfold push_retry. pose proof (sq_push_multiple_full es r Hfull) as Hp.
  induction fuel as [|fuel IH]; [done|]. cbn. rewrite Hp. cbn. exact IH.
Qed.

(** The retry loop around [push_multiple] never leaves a full queue: the
    failed push changes nothing and the loop neither syncs nor submits, so no
    number of iterations ends it. *)
Theorem push_retry_full_diverges fuel es r :
  sq_capacity r < sq_len r + length es → push_retry fuel es r = Diverge.
Proof. apply push_retry_full. Qed.

(** One iteration decides: the model's fuel loses no behaviour. *)
Lemma push_retry_fuel fuel es r :
  0 < fuel → push_retry fuel es r = push_retry RETRY_FUEL es r.
Proof.
  intros Hf. destruct (decide (sq_len r + length es ≤ sq_capacity r)) as [Hfit|Hfull].
  - destruct (push_retry_fits fuel es r Hf Hfit) as (r1 & -> & Hp1 & _).
    destruct (push_retry_fits RETRY_FUEL es r) as (r2 & -> & Hp2 & _);
      [unfold RETRY_FUEL; lia|done|].
    congruence.
  - by rewrite !push_retry_full by lia.
Qed.

(** * Releasing *)

Definition provide_entry (id : nat) : Entry :=
  provide_buffer (PKernelBuf id) (N.of_nat id) (Z.of_nat BUFFER_SIZE).

Lemma buffer_requests s ids :
  length (buffers s) = BUFFERS_COUNT → Forall (λ id, id < BUFFERS_COUNT) ids →
  mapM (buffer_request s) ids = Ret (provide_entry <$> ids).
Proof.
  intros Hn. induction 1 as [|id ids Hid Hids IH]; [done|].
  change (mapM (buffer_request s) (id :: ids)) with
    (e ← buffer_request s id; es ← mapM (buffer_request s) ids; mret (e :: es)).
  destruct (lookup_lt_is_Some_2 (buffers s) id) as [b Hb]; [lia|].
  assert (He : buffer_request s id = Ret (provide_entry id))
    by (unfold buffer_request, index; by rewrite Hb).
  rewrite He. run. by rewrite IH.
Qed.

(** Everything but the released list, the buffer contents and the ring. *)
Definition buffers_frame (s s' : Server) : Prop :=
  ∃ bufs rel, s' = set_buffers bufs (set_released_buffers rel s).

Lemma same_shape_Forall (bs bs' : list bytes) n :
  same_shape bs bs' → Forall (λ b, length b = n) bs → Forall (λ b, length b = n) bs'.
Proof.
  unfold same_shape. intros Heq Hb. rewrite <- (list.Forall_fmap length (λ k, k = n)).
  rewrite <- Heq. by rewrite list.Forall_fmap.
Qed.

Lemma shape_kernel_write s bufs :
  same_shape (buffers s) bufs → srv_shape s → srv_shape (set_buffers bufs s).
Proof.
  intros Hsh [Hn Hf Hc Hd]. split; try done; cbn.
  - rewrite <- Hn. unfold same_shape in Hsh. apply (f_equal length) in Hsh.
    by rewrite !length_fmap in Hsh.
  - by eapply same_shape_Forall.
Qed.

(** What a release leaves unchanged. *)
Definition release_frame (w w' : World) : Prop :=
  buffers_frame (srv w) (srv w') ∧ srv_shape (srv w') ∧
  kernel_buf w' = kernel_buf w ∧ syscalls w' = syscalls w ∧
  sq_capacity (ring w') = sq_capacity (ring w) ∧ cq_len (ring w') = cq_len (ring w).

(** The outcome of a release: on success the released list is empty and
    exactly one request per released buffer was queued behind the pending
    entries; on a system-call error the list is unchanged. *)
Definition release_result (w : World) (r : io unit) (w' : World) : Prop :=
  release_frame w w' ∧
  match r with
  | IoOk _ => released_buffers (srv w') = [] ∧
      ∃ k, sq_entries (ring w') =
        drop k (sq_entries (ring w) ++ (provide_entry <$> released_buffers (srv w)))
  | IoErr _ => released_buffers (srv w') = released_buffers (srv w)
  end.

Section release.
Context (w : World).
Hypothesis Hshape : srv_shape (srv w).
Hypothesis Hids : Forall (λ id, id < BUFFERS_COUNT) (released_buffers (srv w)).
Hypothesis Hne : released_buffers (srv w) ≠ [].

Let r1 := (submit (kmem_of (srv w)) (ring w)).1.1.
Let bufs1 := (submit (kmem_of (srv w)) (ring w)).1.2.
Let ring1 := (submit (kmem_of (srv w)) (ring w)).2.
Let w1 := mkWorld (set_buffers bufs1 (srv w)) ring1 (kernel_buf w) (syscalls w).

Lemma do_submit_eq : do_submit w = Ret (r1, w1).
Proof. unfold do_submit, w1, r1, bufs1, ring1. by destruct (submit _ _) as [[? ?] ?]. Qed.

Lemma w1_shape : srv_shape (srv w1).
Proof. apply shape_kernel_write; [apply (submit_shape (kmem_of (srv w)))|done]. Qed.

Lemma released_nonzero : (length (released_buffers (srv w)) =? 0) = false.
Proof. apply Nat.eqb_neq. by destruct (released_buffers (srv w)). Qed.

(** C36: when the kernel accepts the pending submissions but the submission
    queue, as the process sees it, has no room for the released buffers,
    [release_buffers] never returns: however many turns its retry loop takes, it
    is not over. *)
Theorem release_buffers_full_diverges n :
  r1 = IoOk n →
  sq_capacity (ring w) < sq_len (ring w) + length (released_buffers (srv w)) →
  ∀ fuel, release_buffers_within fuel w = Diverge.
Proof.
  intros Hr Hfull fuel. unfold release_buffers_within. srun. rewrite released_nonzero.
  rewrite bind_eq, do_submit_eq, Hr. srun.
  pose proof (buffer_requests (srv w1) _ (shape_buffers _ w1_shape) Hids) as Hreq.
  change (released_buffers (srv w1)) with (released_buffers (srv w)). srun.
  unfold do_push_retry. rewrite bind_eq. srun. unfold lift at 1. rewrite bind_eq.
  rewrite push_retry_full_diverges; [done|]. rewrite length_fmap.
  change (ring w1) with ring1. unfold ring1.
  by rewrite sq_len_entries, submit_entries, submit_capacity, <- sq_len_entries.
Qed.

Lemma release_nonempty :
  sq_len (ring w) + length (released_buffers (srv w)) ≤ sq_capacity (ring w) →
  runs release_buffers w (release_result w).
Proof.
  intros Hroom. unfold runs, release_buffers, release_buffers_within. srun. rewrite released_nonzero.
  rewrite bind_eq, do_submit_eq. destruct r1 as [n|e].
  2: { exists (IoErr e), w1. split; [done|]. split; [|done]. split_and!; try done.
       - by exists bufs1, (released_buffers (srv w)); destruct (srv w).
       - apply w1_shape.
       - apply submit_capacity.
       - apply submit_cq. }
  pose proof (buffer_requests (srv w1) _ (shape_buffers _ w1_shape) Hids) as Hreq.
  srun. change (released_buffers (srv w1)) with (released_buffers (srv w)). srun.
  destruct (push_retry_fits RETRY_FUEL (provide_entry <$> released_buffers (srv w)) (ring w1))
    as (r2 & Hp & _ & He2 & Hc2 & Hq2); [unfold RETRY_FUEL; lia| |].
  { rewrite length_fmap. change (ring w1) with ring1. unfold ring1.
    by rewrite sq_len_entries, submit_entries, submit_capacity, <- sq_len_entries. }
  unfold do_push_retry. rewrite bind_eq. srun. unfold modify at 1, do_sync. srun.
  set (w2 := upd_ring sq_sync _).
  destruct (submit_and_wait (length (released_buffers (srv w))) (kmem_of (srv w2)) (ring w2))
    as [[r3 bufs3] ring3] eqn:Hwait.
  assert (Hw3 : do_submit_and_wait (length (released_buffers (srv w))) w2 =
    Ret (r3, mkWorld (set_buffers bufs3 (srv w2)) ring3 (kernel_buf w2) (syscalls w2)))
    by (unfold do_submit_and_wait; by rewrite Hwait).
  rewrite bind_eq, Hw3.
  set (w3 := mkWorld (set_buffers bufs3 (srv w2)) ring3 _ _).
  pose proof (submit_and_wait_shape (length (released_buffers (srv w))) (kmem_of (srv w2)) (ring w2)) as Hs3.
  pose proof (submit_and_wait_capacity (length (released_buffers (srv w))) (kmem_of (srv w2)) (ring w2)) as Hcap3.
  pose proof (submit_and_wait_cq (length (released_buffers (srv w))) (kmem_of (srv w2)) (ring w2)) as Hcq3.
  pose proof (submit_and_wait_entries (length (released_buffers (srv w))) (kmem_of (srv w2)) (ring w2)) as He3.
  rewrite Hwait in Hs3, Hcap3, Hcq3, He3. cbn [fst snd] in *.
  assert (Hsh3 : srv_shape (srv w3)) by (apply (shape_kernel_write (srv w2)); [done|apply w1_shape]).
  assert (Hfr : ∀ rel, release_frame w (upd_srv (set_released_buffers rel) w3)).
  { intros rel. split_and!; try done.
    - exists bufs3, rel. by destruct (srv w).
    - by destruct Hsh3; split.
    - cbn. rewrite Hcap3. cbn. rewrite sq_sync_capacity, Hc2. apply submit_capacity.
    - cbn. rewrite Hcq3. cbn. rewrite sq_sync_cq, Hq2. apply submit_cq. }
  destruct r3 as [m|e].
  - srun. eexists _, _. split; [done|]. split; [apply Hfr|]. split; [done|].
    destruct (sq_sync_entries r2) as [k Hk]. exists k.
    cbn. rewrite He3. cbn. rewrite Hk, He2. do 2 f_equal. apply submit_entries.
  - exists (IoErr e), w3. split; [done|]. split; [|done].
    specialize (Hfr (released_buffers (srv w))).
    assert (Hid : upd_srv (set_released_buffers (released_buffers (srv w))) w3 = w3)
      by (unfold w3, w2, w1, upd_srv, upd_ring; cbn; by destruct (srv w)).
    by rewrite Hid in Hfr.
Qed.
End release.

Lemma release_buffers_spec w :
  srv_shape (srv w) → Forall (λ id, id < BUFFERS_COUNT) (released_buffers (srv w)) →
  sq_len (ring w) + length (released_buffers (srv w)) ≤ sq_capacity (ring w) →
  runs release_buffers w (release_result w).
Proof.
  intros Hs Hids Hroom. destruct (released_buffers (srv w)) as [|id ids] eqn:Hrel.
  - exists (IoOk tt), w. unfold release_buffers, release_buffers_within. srun. rewrite Hrel. split; [done|].
    split; [|split; [done|exists 0; by rewrite Hrel, app_nil_r]].
    split_and!; try done. exists (buffers (srv w)), (released_buffers (srv w)).
    by destruct (srv w).
  - apply release_nonempty; rewrite ?Hrel; done.
Qed.

Lemma do_push_retry_fuel fuel es w :
  0 < fuel → do_push_retry fuel es w = do_push_retry RETRY_FUEL es w.
Proof. intros Hf. unfold do_push_retry, lift. srun. by rewrite !bind_eq, push_retry_fuel. Qed.

(** One turn of the retry loop is all the fuel a release can use. *)
Lemma release_buffers_fuel fuel w :
  0 < fuel → release_buffers_within fuel w = release_buffers w.
Proof.
  intros Hf. unfold release_buffers, release_buffers_within. srun.
  rewrite !if_apply. destruct (_ =? 0); [done|]. rewrite !(bind_eq do_submit).
  destruct (do_submit w) as [[[n|e] w1]| | |]; [|done..]. srun. rewrite !bind_eq.
  destruct (lift _ w1) as [[[rqs|e] w2]| | |]; [|done..].
  by rewrite !bind_eq, do_push_retry_fuel.
Qed.

End buffers.
