(* ===== verification/Sends.v ===== *)
(** Theorems about flushing the clients' output ([wideband_send]). *)
From S2P Require Import Prelude Config Crates UserData Uring IoState Handler Sockets Server.
From S2P Require Import Replies.

Section sends.
Context `{LakeLaws, JsonLaws, StableVecLaws, RingLaws, SocketOps}.
Abbreviation Out := (SmallLake DATA_LAKE_SIZE).

(** The send request of one out buffer, when there is something to send and
    the client is known. *)
Definition send_of (fds : StableVec Z) (cl : nat * Out) : option Entry :=
  if lake_len cl.2 =? 0 then None
  else fd ← sv_get fds cl.1;
       Some (mkEntry (Send fd (PClientBuf cl.1) (u32_of_nat (lake_pos cl.2)) [MSG_DONTWAIT])
               (user_tag cl.1 SEND_EVENT) [SKIP_SUCCESS]).

(** The out buffer after the flush. *)
Definition flushed (fds : StableVec Z) (cid : nat) (lake : Out) : Out :=
  match send_of fds (cid, lake) with
  | Some _ => lake_reset_pos lake
  | None => lake
  end.

Lemma collect_sends_entries fds l entries outs :
  (collect_sends fds l entries outs).1 = entries ++ omap (send_of fds) l.
Proof.
  revert entries outs. induction l as [|[cid lake] l IH]; intros entries outs;
    cbn [collect_sends]; [by rewrite app_nil_r|].
  cbn [omap list_omap]. unfold send_of at 1. cbn [fst snd].
  destruct (lake_len lake =? 0); [apply IH|].
  destruct (sv_get fds cid) as [fd|]; cbn; [|apply IH].
  rewrite IH. unfold send. cbn. by rewrite <- app_assoc.
Qed.

Lemma collect_sends_outs fds l entries outs cid :
  NoDup l.*1 → (∀ c lk, (c, lk) ∈ l → sv_get outs c = Some lk) →
  sv_get (collect_sends fds l entries outs).2 cid =
    if decide (cid ∈ l.*1) then flushed fds cid <$> sv_get outs cid else sv_get outs cid.
Proof.
  revert entries outs. induction l as [|[c lk] l IH]; intros entries outs Hnd Hin.
  { cbn. by rewrite decide_False by apply not_elem_of_nil. }
  apply list.NoDup_cons in Hnd as [Hc Hnd]. cbn [fst] in Hc.
  assert (Hlk : sv_get outs c = Some lk) by (apply Hin; by left).
  cbn [collect_sends].
  assert (Hskip : flushed fds c lk = lk →
    sv_get (collect_sends fds l entries outs).2 cid =
    if decide (cid ∈ c :: l.*1) then flushed fds cid <$> sv_get outs cid else sv_get outs cid).
  { intros Hfl. rewrite IH by (done || intros; apply Hin; by right).
    destruct (decide (cid = c)) as [->|Hne].
    - rewrite decide_False, decide_True by (done || by left).
      rewrite Hlk. cbn. by rewrite Hfl.
    - repeat case_decide; try rewrite elem_of_cons in *; naive_solver. }
  unfold flushed, send_of in Hskip. cbn [fst snd] in Hskip.
  destruct (lake_len lk =? 0) eqn:Hl; [by apply Hskip|].
  destruct (sv_get fds c) as [fd|] eqn:Hfd; [|by apply Hskip]. clear Hskip.
  rewrite IH; [|done|].
  2: { intros c' lk' Hin'. rewrite sv_get_set by by eexists. rewrite decide_False.
       - apply Hin. by right.
       - intros ->. apply Hc. apply list_elem_of_fmap. by exists (c', lk'). }
  rewrite sv_get_set by by eexists. cbn [fmap list_fmap fst].
  destruct (decide (c = cid)) as [->|Hne].
  - rewrite decide_False, decide_True by (done || by left). rewrite Hlk. cbn.
    unfold flushed, send_of. cbn [fst snd]. by rewrite Hl, Hfd.
  - repeat case_decide; try rewrite elem_of_cons in *; naive_solver.
Qed.

Lemma collect_sends_capacity fds l entries outs :
  sv_capacity (collect_sends fds l entries outs).2 = sv_capacity outs.
Proof.
  revert entries outs. induction l as [|[cid lake] l IH]; intros entries outs; [done|].
  cbn [collect_sends]. destruct (lake_len lake =? 0); [apply IH|].
  destruct (sv_get fds cid); [|apply IH]. by rewrite IH, sv_set_capacity.
Qed.

(** The send requests a flush queues, in client order. *)
Definition pending_sends (s : Server) : list Entry :=
  omap (send_of (client_fds s)) (sv_iter (client_out_buffers s)).

(** What a flush changes in the server. *)
Record sent (s s' : Server) : Prop := {
  sent_out cid : sv_get (client_out_buffers s') cid =
    flushed (client_fds s) cid <$> sv_get (client_out_buffers s) cid;
  sent_fds : client_fds s' = client_fds s;
  sent_config : config s' = config s;
  sent_buffers : buffers s' = buffers s;
  sent_released : released_buffers s' = released_buffers s;
  sent_date : date s' = date s;
  sent_cache : hot_internal_cache s' = hot_internal_cache s;
  sent_capacity : sv_capacity (client_out_buffers s') = sv_capacity (client_out_buffers s);
}.

Lemma collect_sends_iter fds (outs : StableVec Out) cid :
  sv_get (collect_sends fds (sv_iter outs) [] outs).2 cid =
    flushed fds cid <$> sv_get outs cid.
Proof.
  rewrite collect_sends_outs.
  - case_decide as Hin; [done|]. destruct (sv_get outs cid) as [lk|] eqn:Hlk; [|done].
    exfalso. apply Hin, list_elem_of_fmap. exists (cid, lk). by rewrite sv_iter_elem.
  - rewrite sv_iter_slots. apply filled_slots_NoDup.
  - intros c lk. by rewrite sv_iter_elem.
Qed.

Lemma iter_nil_get (outs : StableVec Out) cid :
  length (sv_iter outs) = 0 → sv_get outs cid = None.
Proof.
  intros Hl%nil_length_inv. destruct (sv_get outs cid) as [lk|] eqn:Hlk; [|done].
  apply sv_iter_elem in Hlk. rewrite Hl in Hlk. by apply not_elem_of_nil in Hlk.
Qed.

Lemma wideband_send_spec w :
  sq_len (ring w) + length (pending_sends (srv w)) ≤ sq_capacity (ring w) →
  ∃ w', wideband_send w = Ret (IoOk tt, w') ∧ sent (srv w) (srv w') ∧
    sq_entries (ring w') = sq_entries (ring w) ++ pending_sends (srv w) ∧
    sq_capacity (ring w') = sq_capacity (ring w) ∧ cq_len (ring w') = cq_len (ring w) ∧
    kernel_buf w' = kernel_buf w ∧ syscalls w' = syscalls w ∧
    (pending_sends (srv w) ≠ [] → sync_now (srv w') = true).
Proof.
  intros Hroom. unfold wideband_send. srun.
  destruct (Nat.eqb_spec (length (sv_iter (client_out_buffers (srv w)))) 0) as [H0'|Hne].
  { assert (Hnil : pending_sends (srv w) = []).
    { unfold pending_sends. by rewrite (nil_length_inv _ H0'). }
    rewrite Hnil, app_nil_r. exists w. split_and!; try done. split; try done.
    intros cid. by rewrite (iter_nil_get _ cid H0'). }
  pose proof (collect_sends_entries (client_fds (srv w)) (sv_iter (client_out_buffers (srv w))) []
    (client_out_buffers (srv w))) as He.
  pose proof (collect_sends_iter (client_fds (srv w)) (client_out_buffers (srv w))) as Ho.
  pose proof (collect_sends_capacity (client_fds (srv w)) (sv_iter (client_out_buffers (srv w))) []
    (client_out_buffers (srv w))) as Hcap.
  destruct (collect_sends _ _ _ _) as [entries outs]. cbn [fst snd app] in He, Ho, Hcap.
  fold (pending_sends (srv w)) in He. subst entries. srun. rewrite bind_eq, if_apply.
  destruct (Nat.ltb_spec 0 (length (pending_sends (srv w)))) as [Hpos|Hnil].
  - destruct (sq_push_multiple_fits _ _ Hroom) as (r' & Hp & He & Hc & Hq).
    srun. change (ring (upd_srv _ (upd_srv _ w))) with (ring w). rewrite Hp.
    rewrite (bind_lift (Ret r') r') by done. srun. rewrite modify_srv_eq. cbv beta iota.
    rewrite modify_srv_eq. eexists. split; [done|]. split_and!; try done.
  - assert (Hnil' : pending_sends (srv w) = []) by (apply nil_length_inv; lia).
    rewrite Hnil', app_nil_r. unfold io_ok at 1, mret, M_ret. rewrite modify_srv_eq.
    eexists. split; [done|]. split_and!; try done.
Qed.

(** C21: a flush with room in the submission queue queues exactly one send
    per client with pending output and a known descriptor, in client order,
    each pointing at that client's out buffer with its length, and resets
    exactly those buffers; descriptors, kernel buffers and the release list
    are untouched. *)
Theorem wideband_send_correct w :
  sq_len (ring w) + length (pending_sends (srv w)) ≤ sq_capacity (ring w) →
  ∃ w', wideband_send w = Ret (IoOk tt, w') ∧ sent (srv w) (srv w') ∧
    sq_entries (ring w') = sq_entries (ring w) ++ pending_sends (srv w) ∧
    sq_capacity (ring w') = sq_capacity (ring w) ∧ cq_len (ring w') = cq_len (ring w) ∧
    kernel_buf w' = kernel_buf w ∧ syscalls w' = syscalls w ∧
    (pending_sends (srv w) ≠ [] → sync_now (srv w') = true).
Proof. apply wideband_send_spec. Qed.

(** Without that room the flush panics, and the profile aborts the whole
    process on a panic. *)
Theorem wideband_send_full_panics w :
  pending_sends (srv w) ≠ [] →
  sq_capacity (ring w) < sq_len (ring w) + length (pending_sends (srv w)) →
  wideband_send w = Panic.
Proof.
  intros Hne Hfull. unfold wideband_send. srun.
  destruct (Nat.eqb_spec (length (sv_iter (client_out_buffers (srv w)))) 0) as [H0'|_].
  { exfalso. apply Hne. unfold pending_sends. by rewrite (nil_length_inv _ H0'). }
  pose proof (collect_sends_entries (client_fds (srv w)) (sv_iter (client_out_buffers (srv w))) []
    (client_out_buffers (srv w))) as He.
  destruct (collect_sends _ _ _ _) as [entries outs]. cbn [fst snd app] in He.
  fold (pending_sends (srv w)) in He. subst entries. srun. rewrite bind_eq, if_apply.
  destruct (Nat.ltb_spec 0 (length (pending_sends (srv w)))) as [Hpos|Hnil].
  - srun. change (ring (upd_srv _ (upd_srv _ w))) with (ring w).
    by rewrite sq_push_multiple_full.
  - exfalso. apply Hne, nil_length_inv. lia.
Qed.
End sends.
