(* ===== verification/Connections.v ===== *)
(** Theorems about the life of a connection: accept, close, and the routing of
    completions to their handlers. *)
From S2P Require Import Prelude Config Crates UserData Uring IoState Handler Sockets Server.
From S2P Require Import Replies.

Section connections.
Context `{LakeLaws, JsonLaws, StableVecLaws, RingLaws, SocketOps}.

(** * Accepting *)

(** The id the next accepted client gets: the number of ids ever given. *)
Definition next_id (s : Server) : nat := length (sv_slots (client_fds s)).

(** The requests queued for a new client. *)
Definition accept_entries (s : Server) (fd : Z) : list Entry :=
  (if ub_kernel_dma (config s) then [poll_add fd (user_tag (next_id s) POLL_EVENT)] else []) ++
  [recv_multi fd (user_tag (next_id s) INIT_REQUEST)].

(** What accepting changes in the server: the two tables and the request for a
    sync, and nothing else. *)
Record accepted (s : Server) (fd : Z) (s' : Server) : Prop := {
  acc_fds cid : sv_get (client_fds s') cid =
    if decide (next_id s = cid) then Some fd else sv_get (client_fds s) cid;
  acc_out cid : sv_get (client_out_buffers s') cid =
    if decide (next_id s = cid) then Some (lake_build DATA_LAKE_SIZE)
    else sv_get (client_out_buffers s) cid;
  acc_next : next_id s' = S (next_id s);
  acc_capacity : sv_capacity (client_out_buffers s') = sv_capacity (client_out_buffers s);
  acc_config : config s' = config s;
  acc_buffers : buffers s' = buffers s;
  acc_released : released_buffers s' = released_buffers s;
  acc_date : date s' = date s;
  acc_cache : hot_internal_cache s' = hot_internal_cache s;
  acc_sync : sync_now s' = true;
  acc_rest : s' = set_sync_now true (set_client_out_buffers (client_out_buffers s')
    (set_client_fds (client_fds s') s));
}.

Lemma push_or_drop_eq e w :
  push_or_drop e w = Ret (IoOk tt, upd_ring (λ r, default r (sq_push e r)) w).
Proof. done. Qed.

Definition ring_after_accept (s : Server) (fd : Z) (r : Ring) : Ring :=
  let push e r := default r (sq_push e r) in
  push (recv_multi fd (user_tag (next_id s) INIT_REQUEST))
    (if ub_kernel_dma (config s) then
       sq_sync (push (poll_add fd (user_tag (next_id s) POLL_EVENT)) r)
     else r).

Lemma accept_runs fd w :
  (0 < fd)%Z → next_id (srv w) < sv_capacity (client_out_buffers (srv w)) →
  ∃ s', process_entry_accept fd w =
      Ret (IoOk tt, mkWorld s' (ring_after_accept (srv w) fd (ring w)) (kernel_buf w)
             (reverse (prepare_incoming_socket fd) ++ syscalls w)) ∧
    accepted (srv w) fd s'.
Proof.
  intros Hfd Hcap. unfold process_entry_accept. rewrite (proj2 (Z.leb_gt _ _)) by done.
  srun. cbn [srv log_syscalls].
  destruct (sv_push fd (client_fds (srv w))) as [id fds] eqn:Hpush.
  pose proof (sv_push_index fd (client_fds (srv w))) as Hid.
  pose proof (sv_push_slots fd (client_fds (srv w))) as Hsl.
  pose proof (λ j, sv_get_push fd (client_fds (srv w)) j) as Hget.
  rewrite Hpush in Hid, Hsl, Hget. cbn [fst snd] in *. fold (next_id (srv w)) in Hid, Hget.
  subst id. srun.
  destruct (sv_insert_fits (next_id (srv w)) (lake_build DATA_LAKE_SIZE)
    (client_out_buffers (srv w)) Hcap) as (outs & Hins & Hoc & _).
  pose proof (λ j, sv_get_insert _ _ _ _ j Hcap Hins) as Hout.
  rewrite (bind_lift _ _ _ _ Hins). srun.
  exists (set_sync_now true (set_client_out_buffers outs (set_client_fds fds (srv w)))).
  split.
  - rewrite bind_eq, if_apply. unfold ring_after_accept, do_sync.
    destruct (ub_kernel_dma (config (srv w))).
    + rewrite bind_eq, push_or_drop_eq. unfold modify at 1. cbv beta iota.
      rewrite bind_eq, push_or_drop_eq. done.
    + unfold io_ok, mret, M_ret. rewrite bind_eq, push_or_drop_eq. done.
  - split; try done. unfold next_id. cbn. rewrite Hsl, length_app. cbn. lia.
Qed.

Lemma push_or_drop_room e (r : Ring) :
  sq_len r < sq_capacity r →
  let r' := default r (sq_push e r) in
  sq_entries r' = sq_entries r ++ [e] ∧ sq_capacity r' = sq_capacity r ∧ cq_len r' = cq_len r.
Proof. intros Hr. destruct (sq_push_fits e r Hr) as (r' & -> & ?). done. Qed.

(** C22: with an id left below the capacity of the out buffers and room for two
    requests in the submission queue, an accepted descriptor gets an id no client
    had before, an empty out buffer, the prescribed socket options and a multishot
    receive carrying its id (behind a multishot poll in UBDMA mode), and asks for
    a sync; nothing else of the server changes: the two tables at every other id,
    clocks, flags, buffers and caches are as they were. *)
Theorem process_entry_accept_correct fd w :
  (0 < fd)%Z → next_id (srv w) < sv_capacity (client_out_buffers (srv w)) →
  sq_len (ring w) + 2 ≤ sq_capacity (ring w) →
  ∃ s' r' k, process_entry_accept fd w =
      Ret (IoOk tt, mkWorld s' r' (kernel_buf w)
             (reverse (prepare_incoming_socket fd) ++ syscalls w)) ∧
    accepted (srv w) fd s' ∧
    sv_get (client_fds (srv w)) (next_id (srv w)) = None ∧
    sq_entries r' =
      drop k (sq_entries (ring w) ++
        (if ub_kernel_dma (config (srv w))
         then [poll_add fd (user_tag (next_id (srv w)) POLL_EVENT)] else []))
      ++ [recv_multi fd (user_tag (next_id (srv w)) INIT_REQUEST)] ∧
    (ub_kernel_dma (config (srv w)) = false → k = 0) ∧
    sq_capacity r' = sq_capacity (ring w) ∧ cq_len r' = cq_len (ring w).
Proof.
  intros Hfd Hcap Hroom. destruct (accept_runs fd w Hfd Hcap) as (s' & Heq & Hacc).
  assert (Hnone : sv_get (client_fds (srv w)) (next_id (srv w)) = None)
    by (rewrite sv_get_slot; by apply slot_ge).
  unfold ring_after_accept in Heq. destruct (ub_kernel_dma (config (srv w))).
  - destruct (push_or_drop_room (poll_add fd (user_tag (next_id (srv w)) POLL_EVENT)) (ring w))
      as (He1 & Hc1 & Hq1); [lia|].
    set (r1 := default _ (sq_push (poll_add _ _) _)) in *.
    destruct (sq_sync_entries r1) as [k Hk].
    destruct (push_or_drop_room (recv_multi fd (user_tag (next_id (srv w)) INIT_REQUEST)) (sq_sync r1))
      as (He2 & Hc2 & Hq2).
    { rewrite sq_len_entries in *. rewrite Hk, sq_sync_capacity, Hc1, length_drop, He1, length_app.
      cbn. lia. }
    eexists _, _, k. split; [exact Heq|]. split_and!; try done.
    + by rewrite He2, Hk, He1.
    + by rewrite Hc2, sq_sync_capacity.
    + by rewrite Hq2, sq_sync_cq.
  - destruct (push_or_drop_room (recv_multi fd (user_tag (next_id (srv w)) INIT_REQUEST)) (ring w))
      as (He1 & Hc1 & Hq1); [lia|].
    eexists _, _, 0. split; [exact Heq|]. split_and!; try done.
    by rewrite app_nil_r, drop_0.
Qed.

(** When the submission queue is full the receive request is dropped
    without an error: the client is registered and open, but nothing will
    ever read from it. *)
Theorem process_entry_accept_full fd w :
  (0 < fd)%Z → next_id (srv w) < sv_capacity (client_out_buffers (srv w)) →
  ub_kernel_dma (config (srv w)) = false → sq_capacity (ring w) ≤ sq_len (ring w) →
  ∃ s', process_entry_accept fd w =
      Ret (IoOk tt, mkWorld s' (ring w) (kernel_buf w)
             (reverse (prepare_incoming_socket fd) ++ syscalls w)) ∧
    accepted (srv w) fd s'.
Proof.
  intros Hfd Hcap Hub Hfull. destruct (accept_runs fd w Hfd Hcap) as (s' & Heq & Hacc).
  exists s'. split; [|done]. rewrite Heq. unfold ring_after_accept.
  by rewrite Hub, sq_push_full.
Qed.

(** At the capacity of the out buffers an accept panics. *)
Lemma accept_exhausted fd w :
  (0 < fd)%Z → sv_capacity (client_out_buffers (srv w)) ≤ next_id (srv w) →
  process_entry_accept fd w = Panic.
Proof.
  intros Hfd Hcap. unfold process_entry_accept. rewrite (proj2 (Z.leb_gt _ _)) by done.
  srun. cbn [srv log_syscalls].
  pose proof (sv_push_index fd (client_fds (srv w))) as Hid.
  destruct (sv_push fd (client_fds (srv w))) as [id fds]. cbn [fst] in Hid. subst id.
  srun. unfold next_id in Hcap. by rewrite sv_insert_panics.
Qed.

(** * Closing *)

(** What a forced close changes in the server: the two tables, at one id. *)
Record closed (s : Server) (cid : nat) (s' : Server) : Prop := {
  cl_fds c : sv_get (client_fds s') c =
    if decide (cid = c) then None else sv_get (client_fds s) c;
  cl_out c : sv_get (client_out_buffers s') c =
    if decide (cid = c) then None else sv_get (client_out_buffers s) c;
  cl_next : next_id s' = next_id s;
  cl_capacity : sv_capacity (client_out_buffers s') = sv_capacity (client_out_buffers s);
  cl_config : config s' = config s;
  cl_buffers : buffers s' = buffers s;
  cl_released : released_buffers s' = released_buffers s;
  cl_date : date s' = date s;
  cl_cache : hot_internal_cache s' = hot_internal_cache s;
  cl_rest : s' = set_client_out_buffers (client_out_buffers s') (set_client_fds (client_fds s') s);
}.

Lemma close_connection_helper cid w :
  let fd := default 255%Z (sv_get (client_fds (srv w)) cid) in
  ∃ s', close_connection cid true w =
      Ret (IoOk tt, mkWorld s' (ring w) (kernel_buf w)
        ((if (fd =? 0)%Z then [] else [Close fd]) ++ syscalls w)) ∧
    closed (srv w) cid s'.
Proof.
  intros fd. unfold close_connection. srun. cbn [negb].
  pose proof (sv_remove_result cid (client_fds (srv w))) as Hr.
  pose proof (λ c, sv_get_remove cid (client_fds (srv w)) c) as Hg.
  pose proof (sv_remove_slots cid (client_fds (srv w))) as Hs.
  destruct (sv_remove cid (client_fds (srv w))) as [o fds]. cbn [fst snd] in *. subst o.
  rewrite bind_eq. srun. unfold mret, M_ret. cbv beta iota. fold fd.
  eexists. split.
  - rewrite if_apply. destruct (fd =? 0)%Z; reflexivity.
  - split; try done; intros; cbn; [by rewrite sv_get_remove| |by rewrite sv_remove_capacity].
    unfold next_id. cbn. by rewrite Hs, length_insert.
Qed.

(** C23: a forced close forgets the client's descriptor and output and those
    of no other client, and closes one descriptor: the client's own if it is
    known (nothing for standard input), and descriptor 255 if it is not. *)
Theorem close_connection_forced cid w :
  let fd := default 255%Z (sv_get (client_fds (srv w)) cid) in
  ∃ s', close_connection cid true w =
      Ret (IoOk tt, mkWorld s' (ring w) (kernel_buf w)
        ((if (fd =? 0)%Z then [] else [Close fd]) ++ syscalls w)) ∧
    closed (srv w) cid s'.
Proof. apply close_connection_helper. Qed.

(** Closing a client a second time closes descriptor 255, whoever owns
    it: the first close removed the client, and the default descriptor is
    closed in its stead. *)
Theorem close_connection_twice cid w fd :
  sv_get (client_fds (srv w)) cid = Some fd → fd ≠ 0%Z →
  ∃ s', (close_connection cid true;; close_connection cid true) w =
    Ret (IoOk tt, mkWorld s' (ring w) (kernel_buf w) ([Close 255; Close fd] ++ syscalls w)).
Proof.
  intros Hfd Hnz. destruct (close_connection_helper cid w) as (s1 & H1' & Hc1).
  rewrite Hfd in H1'. cbn [default] in H1'. rewrite (proj2 (Z.eqb_neq _ _)) in H1' by done.
  rewrite bind_eq, H1'. set (w1 := mkWorld s1 _ _ _).
  destruct (close_connection_helper cid w1) as (s2 & H2' & _).
  exists s2. rewrite H2'. cbn [srv w1]. rewrite (cl_fds _ _ _ Hc1), decide_True by done.
  reflexivity.
Qed.

(** * Routing *)

(** What a completion of a client asks for. *)
Inductive event :=
  | Ignore
  | OutOfBuffers
  | Disconnected
  | Readable
  | Received.

(** The routing table of client completions, by result and operation code. *)
Definition client_event (ub : bool) (uniq : N) (result : Z) : event :=
  if (result <? 0)%Z then
    if (result =? - ENOBUFS)%Z then OutOfBuffers
    else if (result =? - ECONNRESET)%Z then Disconnected
    else Ignore
  else if (uniq =? SEND_EVENT)%N then Ignore
  else if (result =? 0)%Z then Disconnected
  else if (uniq =? POLL_EVENT)%N && ub then Readable
  else Received.

Definition handle_event (oc : bool) (e : event) (user : UserData) (result : Z) (flags : N) :
    M World unit :=
  match e with
  | Ignore => io_ok
  | OutOfBuffers => release_buffers
  | Disconnected => close_connection (N.to_nat (client_id user)) true
  | Readable => ubdma oc user
  | Received => request_reply oc flags user result
  end.

Lemma bind_io_ok_r (m : M World unit) w : (m;; io_ok) w = m w.
Proof. rewrite bind_eq. by destruct (m w) as [[[[]|e] w']| | |]. Qed.

Lemma process_entry_routes_helper oc u result flags w :
  ud_wf u → (0 < client_id u)%N → (uniq_id u < 2 ^ 15)%N →
  process_entry oc (mkCqe (pack_user_data u) result flags) w =
  handle_event oc (client_event (ub_kernel_dma (config (srv w))) (uniq_id u) result)
    u result flags w.
Proof.
  intros Hwf Hc Hq. unfold process_entry. cbn [cqe_user_data cqe_result cqe_flags].
  destruct (pack_range_helper u Hwf Hq) as (Hr & Ha & Hb).
  rewrite (proj2 (N.eqb_neq _ _) Hb), (proj2 (N.eqb_neq _ _) Ha), (proj2 (N.leb_le _ _) Hr).
  cbn [andb]. unfold process_entry_response.
  rewrite (bind_lift _ _ _ _ (unpack_pack_helper oc u Hwf Hc Hq)).
  unfold client_event, handle_event, EAGAIN, EBADF, ENOBUFS, ECONNRESET.
  rewrite !if_apply. srun. rewrite !if_apply, !bind_io_ok_r.
  destruct (Z.ltb_spec result 0), (Z.ltb_spec 0 result);
    repeat match goal with |- context [Z.eqb result ?k] => destruct (Z.eqb_spec result k); try lia end;
    cbn [andb orb]; try done.
  all: destruct (N.eqb_spec (uniq_id u) SEND_EVENT) as [->|]; [done|]; cbn [negb orb].
  all: try done; by destruct (_ && _).
Qed.

(** C24: a completion carrying a client's tag reaches exactly the handler its
    operation code and result call for, with the client's id, in both build
    profiles; it is never taken for an accept or a buffer registration. *)
Theorem process_entry_routes_client oc u result flags w :
  ud_wf u → (0 < client_id u)%N → (uniq_id u < 2 ^ 15)%N →
  process_entry oc (mkCqe (pack_user_data u) result flags) w =
  handle_event oc (client_event (ub_kernel_dma (config (srv w))) (uniq_id u) result)
    u result flags w.
Proof. apply process_entry_routes_helper. Qed.
End connections.
