(* ===== verification/Ubdma.v ===== *)
(** Theorems about the UBDMA path: reading the last kernel buffer again when the
    poll event of a client fires ([ubdma]). *)
From S2P Require Import Prelude Config Avx Http Trim Shift Crates UserData Uring IoState.
From S2P Require Import Handler Sockets Server Replies.

(** * The shift and the trim *)

Lemma trim_left_replicate n l : trim_left (replicate n x00 ++ l) = trim_left l.
Proof. induction n as [|n IH]; [done|]. exact IH. Qed.

(** The shift of [request_reply] and the trim of [ubdma] fit together: the
    packet that was shifted to the end of its buffer is found again, whole, by
    the trim, whenever it begins with a non-zero byte. *)
Theorem shift_then_trim buf len b :
  len ≤ length buf → head (take len buf) = Some b → b ≠ x00 →
  (shift_ub_inplace buf len ≫= l_trim256) = Ret (take len buf).
Proof.
  intros Hlen Hb Hnz. rewrite shift_ub_inplace_spec, decide_True by done. run.
  rewrite l_trim256_spec. unfold shifted. rewrite trim_left_replicate. f_equal.
  destruct (take len buf) as [|c l]; [done|]. injection Hb as ->. cbn.
  rewrite byte_eqb_decide. by rewrite bool_decide_eq_false_2.
Qed.

Section ubdma.
Context `{LakeLaws, JsonLaws, StableVecLaws, RingLaws, SocketOps}.

(** The requests the UBDMA path sees in a kernel buffer. *)
Definition ubdma_requests (buf : bytes) : list RequestEntry :=
  requests MAX_REQUESTS (trim_left buf).

(** The path answers when the buffer holds more than five requests and the
    client is known and has nothing to send yet. *)
Definition ubdma_answers (s : Server) (cid : nat) (buf : bytes) : bool :=
  (5 <? length (ubdma_requests buf)) &&
  match sv_get (client_out_buffers s) cid with
  | Some lake => lake_len lake =? 0
  | None => false
  end.

(** What an answer changes: only the client's output, the hot buffers, the
    clocks and the sync flag. *)
Record ubdma_replied (s : Server) (cid : nat) (reqs : list RequestEntry) (s' : Server) : Prop := {
  ub_out : ∃ lake', sv_get (client_out_buffers s') cid = Some lake' ∧
    lake_data lake' = responses (date s) reqs;
  ub_others cid' : cid ≠ cid' →
    sv_get (client_out_buffers s') cid' = sv_get (client_out_buffers s) cid';
  ub_fds : client_fds s' = client_fds s;
  ub_config : config s' = config s;
  ub_date : date s' = date s;
  ub_buffers : buffers s' = buffers s;
  ub_released : released_buffers s' = released_buffers s;
  ub_cache : length (hot_internal_cache s') = 2 * BUFFER_SIZE;
  ub_capacity : sv_capacity (client_out_buffers s') = sv_capacity (client_out_buffers s);
}.

(** Eleven thousand bytes of answers fit in an empty out buffer. *)
Lemma reply_fits_empty n : n ≤ MAX_REQUESTS → n * MAX_RESPONSE ≤ DATA_LAKE_SIZE.
Proof. unfold MAX_REQUESTS, MAX_RESPONSE. const_lia. Qed.

Lemma ubdma_helper oc user w i buf :
  let s := srv w in
  let cid := N.to_nat (client_id user) in
  srv_shape s → kernel_buf w = Some i → buffers s !! i = Some buf →
  no_boundary MAX_REQUESTS (trim_left buf) →
  ∃ s', ubdma oc user w = Ret (IoOk tt, upd_srv (λ _, s') w) ∧
    if ubdma_answers s cid buf then ubdma_replied s cid (ubdma_requests buf) s' else s' = s.
Proof.
  intros s cid Hs Hk Hb Hbd. unfold ubdma. srun. rewrite Hk. srun. fold cid s.
  assert (Hbl : length buf = BUFFER_SIZE)
    by by eapply (Forall_lookup_1 _ _ _ _ (shape_buffer_size s Hs)).
  assert (Hread : (b ← read (buffers s) i; from_raw_parts b 0 BUFFER_SIZE) = Ret buf).
  { unfold read. rewrite Hb. run. rewrite from_raw_parts_Ret by lia.
    by rewrite drop_0, take_ge by lia. }
  pose proof (l_trim256_spec buf) as Htrim.
  pose proof (parse_requests_spec oc _ _ Hbd) as Hparse.
  fold (ubdma_requests buf) in Hparse. set (reqs := ubdma_requests buf) in *.
  srun. cbn [snd].
  assert (Hdo : ∃ s', (if (length reqs - 5) * DATA_LAKE_SIZE =? 0 then io_ok
     else match sv_get (client_out_buffers s) cid with
          | Some client_buffer => if negb (lake_len client_buffer =? 0) then io_ok
              else hot_slice ← serve_requests (padded ([], []) MAX_REQUESTS reqs, length reqs);
                   write_client cid hot_slice client_buffer;;
                   modify_srv (set_sync_now true)
          | None => io_ok end) w = Ret (IoOk tt, upd_srv (λ _, s') w)
    ∧ if ubdma_answers s cid buf then ubdma_replied s cid reqs s' else s' = s);
    [|exact Hdo].
  unfold ubdma_answers. fold reqs.
  assert (Hw : w = upd_srv (λ _, s) w) by by destruct w.
  destruct (Nat.ltb_spec 5 (length reqs)) as [H5'|H5'].
  2: { exists s. rewrite (proj2 (Nat.eqb_eq _ _)) by (replace (length reqs - 5) with 0 by lia; done).
       split; [by rewrite <- Hw|done]. }
  rewrite (proj2 (Nat.eqb_neq _ _)) by (pose proof DATA_LAKE_SIZE_Z; nia). cbn [andb].
  destruct (sv_get (client_out_buffers s) cid) as [lake|] eqn:Hlk;
    [|exists s; by rewrite <- Hw].
  destruct (Nat.eqb_spec (lake_len lake) 0) as [Hlen|Hlen]; cbn [negb];
    [|exists s; by rewrite <- Hw].
  assert (Hempty : lake_data lake = []) by (apply nil_length_inv; by rewrite lake_data_length).
  destruct (serve_requests_spec w reqs Hs (requests_length _ _))
    as (s1 & Hserve & (clk & cache & json & lk & ->) & _ & Hc).
  fold s in Hserve.
  destruct (lake_write_data lake (responses (date s) reqs)) as (lake' & Hwr & Hd).
  { rewrite Hempty. cbn [length]. pose proof (responses_length (date s) reqs (shape_date _ Hs)).
    pose proof (reply_fits_empty (length reqs) (requests_length _ _)). lia. }
  rewrite Hempty in Hd. srun. rewrite modify_srv_eq. eexists. split; [reflexivity|].
  pose proof (sv_get_upd (client_out_buffers s) cid lake lake' Hlk) as [Hg Ho].
  split; try done; [by exists lake'|]. apply sv_set_capacity.
Qed.

(** C25: on a poll event the UBDMA path either does nothing at all, or answers
    the requests of the last kernel buffer to the polled client; it answers
    exactly when that buffer holds more than five requests and the client has
    no pending output. *)
Theorem ubdma_correct oc user w i buf :
  let s := srv w in
  let cid := N.to_nat (client_id user) in
  srv_shape s → kernel_buf w = Some i → buffers s !! i = Some buf →
  no_boundary MAX_REQUESTS (trim_left buf) →
  ∃ s', ubdma oc user w = Ret (IoOk tt, upd_srv (λ _, s') w) ∧
    if ubdma_answers s cid buf then ubdma_replied s cid (ubdma_requests buf) s' else s' = s.
Proof. apply ubdma_helper. Qed.
End ubdma.
