(* ===== verification/Invariant.v ===== *)
(** The invariant of a running server, and its preservation by the handling of
    every completion. *)
From S2P Require Import Prelude Config Avx Http Trim Shift Crates UserData Uring IoState.
From S2P Require Import Handler Sockets Server Replies Buffers Sends Connections Ubdma.

(** The ids [reserve_writes_buffer(100)] takes before the first client. *)
Definition RESERVED : nat := 100.

Lemma release_part_eq : release_part = 682.
Proof. reflexivity. Qed.

Section invariant.
Context `{LakeLaws, JsonLaws, StableVecLaws, RingLaws, SocketOps}.

(** The mode that reads through the pointer to the last kernel buffer finds it
    in the buffers of this server; the other mode never reads through it. *)
Definition pointer_ok (ub : bool) (p : option nat) : Prop :=
  ub = true → ∀ i, p = Some i → i < BUFFERS_COUNT.

Lemma pointer_ok_None ub : pointer_ok ub None.
Proof. done. Qed.

Lemma pointer_ok_Some ub i : i < BUFFERS_COUNT → pointer_ok ub (Some i).
Proof. by intros Hi _ ? [= <-]. Qed.

(** Buffers, caches and ids have their shapes, and the clients with an out
    buffer are exactly the open connections beyond the reserved ids. *)
Record inv_weak (w : World) : Prop := {
  inv_shape : srv_shape (srv w);
  inv_rel_ids : Forall (λ id, id < BUFFERS_COUNT) (released_buffers (srv w));
  inv_out_fds cid : is_Some (sv_get (client_out_buffers (srv w)) cid) →
    is_Some (sv_get (client_fds (srv w)) cid);
  inv_fds_out cid : RESERVED ≤ cid → is_Some (sv_get (client_fds (srv w)) cid) →
    is_Some (sv_get (client_out_buffers (srv w)) cid);
  inv_out_id cid : is_Some (sv_get (client_out_buffers (srv w)) cid) → RESERVED ≤ cid;
  inv_next : RESERVED ≤ next_id (srv w);
  inv_reserved cid : cid < RESERVED → is_Some (sv_get (client_fds (srv w)) cid);
  inv_kbuf : pointer_ok (ub_kernel_dma (config (srv w))) (kernel_buf w);
}.

(** Between completions, fewer buffers than the release threshold are held. *)
Definition inv (w : World) : Prop :=
  inv_weak w ∧ length (released_buffers (srv w)) < release_part.

(** What holds after a handler: the invariant, or, when a system call of a
    release failed and ends the worker's loop, its part without the
    threshold. Handlers never resize the ring or touch the completions. *)
Definition inv_post (w0 : World) (r : io unit) (w : World) : Prop :=
  match r with IoOk _ => inv w | IoErr _ => inv_weak w end ∧
  sq_capacity (ring w) = sq_capacity (ring w0) ∧ cq_len (ring w) = cq_len (ring w0).

(** * Each handler preserves it *)

Lemma inv_weak_frame w w' :
  inv_weak w → buffers_frame (srv w) (srv w') → srv_shape (srv w') →
  kernel_buf w' = kernel_buf w →
  Forall (λ id, id < BUFFERS_COUNT) (released_buffers (srv w')) → inv_weak w'.
Proof.
  intros [? ? ? ? ? ? ? ?] (bufs & rel & Heq) Hs Hk Hr.
  split; try done; rewrite ?Heq; try done. by rewrite Hk.
Qed.

Lemma release_inv w :
  inv_weak w →
  sq_len (ring w) + length (released_buffers (srv w)) ≤ sq_capacity (ring w) →
  runs release_buffers w (inv_post w).
Proof.
  intros Hw Hroom. eapply runs_weaken;
    [apply release_buffers_spec; [apply Hw|apply Hw|done]|].
  intros r w' [(Hf & Hs & Hk & _ & Hcap & Hcq) Hr]. split; [|done]. destruct r as [u|e]; cbn.
  - destruct Hr as [Hr _]. split; [|rewrite Hr; cbn [length]; rewrite release_part_eq; lia].
    by eapply inv_weak_frame; rewrite ?Hr.
  - eapply inv_weak_frame; try done. rewrite Hr. apply Hw.
Qed.

Lemma buffers_after_shape s i buf len :
  srv_shape s → length (buffers_after s i buf len) = BUFFERS_COUNT ∧
    (len ≤ BUFFER_SIZE → len ≤ length buf →
     Forall (λ b, length b = BUFFER_SIZE) (buffers_after s i buf len)).
Proof.
  intros [Hn Hf _ _]. unfold buffers_after. case_match; [|done].
  rewrite length_insert. split; [done|]. intros Hl Hb. apply Forall_insert; [done|].
  unfold shifted. rewrite length_app, length_replicate, length_take. lia.
Qed.

Lemma replied_inv w s' cid i reqs buf len :
  inv_weak w → i < BUFFERS_COUNT → len ≤ BUFFER_SIZE → len ≤ length buf →
  replied (srv w) cid i reqs (buffers_after (srv w) i buf len) s' →
  inv_weak (mkWorld s' (ring w) (Some i) (syscalls w)).
Proof.
  intros Hw Hi Hl Hb Hrp. destruct (buffers_after_shape (srv w) i buf len (inv_shape w Hw)) as [Hn Hf].
  assert (Ho : ∀ c, is_Some (sv_get (client_out_buffers s') c) ↔
                    is_Some (sv_get (client_out_buffers (srv w)) c)).
  { intros c. destruct (decide (cid = c)) as [<-|Hne].
    - destruct (rp_out _ _ _ _ _ _ Hrp) as (l & l' & -> & -> & _). by split.
    - by rewrite (rp_others _ _ _ _ _ _ Hrp). }
  split; cbn.
  - split; rewrite ?(rp_buffers _ _ _ _ _ _ Hrp), ?(rp_date _ _ _ _ _ _ Hrp),
      ?(rp_cache _ _ _ _ _ _ Hrp); [done|by apply Hf|done|apply Hw].
  - rewrite (rp_released _ _ _ _ _ _ Hrp). apply list.Forall_app. split; [apply Hw|].
    by apply list.Forall_singleton.
  - intros c. rewrite Ho, (rp_fds _ _ _ _ _ _ Hrp). apply (inv_out_fds w Hw).
  - intros c. rewrite Ho, (rp_fds _ _ _ _ _ _ Hrp). apply (inv_fds_out w Hw).
  - intros c. rewrite Ho. apply (inv_out_id w Hw).
  - unfold next_id. rewrite (rp_fds _ _ _ _ _ _ Hrp). apply (inv_next w Hw).
  - rewrite (rp_fds _ _ _ _ _ _ Hrp). apply (inv_reserved w Hw).
  - by apply pointer_ok_Some.
Qed.

Lemma ubdma_replied_inv w s' cid reqs lake :
  inv_weak w → sv_get (client_out_buffers (srv w)) cid = Some lake →
  ubdma_replied (srv w) cid reqs s' → inv_weak (upd_srv (λ _, s') w).
Proof.
  intros Hw Hlk Hub.
  assert (Ho : ∀ c, is_Some (sv_get (client_out_buffers s') c) ↔
                    is_Some (sv_get (client_out_buffers (srv w)) c)).
  { intros c. destruct (decide (cid = c)) as [<-|Hne].
    - destruct (ub_out _ _ _ _ Hub) as (l' & -> & _). rewrite Hlk. by split.
    - by rewrite (ub_others _ _ _ _ Hub). }
  destruct (inv_shape w Hw) as [? ? ? ?].
  split; cbn.
  - by split; rewrite ?(ub_buffers _ _ _ _ Hub), ?(ub_date _ _ _ _ Hub), ?(ub_cache _ _ _ _ Hub).
  - rewrite (ub_released _ _ _ _ Hub). apply Hw.
  - intros c. rewrite Ho, (ub_fds _ _ _ _ Hub). apply (inv_out_fds w Hw).
  - intros c. rewrite Ho, (ub_fds _ _ _ _ Hub). apply (inv_fds_out w Hw).
  - intros c. rewrite Ho. apply (inv_out_id w Hw).
  - unfold next_id. rewrite (ub_fds _ _ _ _ Hub). apply (inv_next w Hw).
  - rewrite (ub_fds _ _ _ _ Hub). apply (inv_reserved w Hw).
  - rewrite (ub_config _ _ _ _ Hub). apply (inv_kbuf w Hw).
Qed.

Lemma closed_inv w s' cid r k sys :
  inv_weak w → RESERVED ≤ cid → closed (srv w) cid s' → kernel_buf w = k → inv_weak (mkWorld s' r k sys).
Proof.
  intros Hw Hid Hc <-. destruct (inv_shape w Hw) as [? ? ? ?]. split; cbn.
  - by split; rewrite ?(cl_buffers _ _ _ Hc), ?(cl_date _ _ _ Hc), ?(cl_cache _ _ _ Hc).
  - rewrite (cl_released _ _ _ Hc). apply Hw.
  - intros c. rewrite (cl_out _ _ _ Hc), (cl_fds _ _ _ Hc). case_decide; [done|apply (inv_out_fds w Hw)].
  - intros c. rewrite (cl_out _ _ _ Hc), (cl_fds _ _ _ Hc). case_decide; [done|apply (inv_fds_out w Hw)].
  - intros c. rewrite (cl_out _ _ _ Hc). case_decide; [by intros []|apply (inv_out_id w Hw)].
  - rewrite (cl_next _ _ _ Hc). apply (inv_next w Hw).
  - intros c Hlt. rewrite (cl_fds _ _ _ Hc), decide_False by lia. by apply (inv_reserved w Hw).
  - rewrite (cl_config _ _ _ Hc). apply (inv_kbuf w Hw).
Qed.

Lemma accepted_inv w s' fd r k sys :
  inv_weak w → accepted (srv w) fd s' → kernel_buf w = k → inv_weak (mkWorld s' r k sys).
Proof.
  intros Hw Hc <-. destruct (inv_shape w Hw) as [? ? ? ?]. split; cbn.
  - by split; rewrite ?(acc_buffers _ _ _ Hc), ?(acc_date _ _ _ Hc), ?(acc_cache _ _ _ Hc).
  - rewrite (acc_released _ _ _ Hc). apply Hw.
  - intros c. rewrite (acc_out _ _ _ Hc), (acc_fds _ _ _ Hc). case_decide; [done|apply (inv_out_fds w Hw)].
  - intros c. rewrite (acc_out _ _ _ Hc), (acc_fds _ _ _ Hc). case_decide; [done|apply (inv_fds_out w Hw)].
  - intros c. rewrite (acc_out _ _ _ Hc). pose proof (inv_next w Hw).
    case_decide; [intros; by subst|apply (inv_out_id w Hw)].
  - rewrite (acc_next _ _ _ Hc). pose proof (inv_next w Hw). lia.
  - intros c Hlt. rewrite (acc_fds _ _ _ Hc). pose proof (inv_next w Hw).
    rewrite decide_False by lia. by apply (inv_reserved w Hw).
  - rewrite (acc_config _ _ _ Hc). apply (inv_kbuf w Hw).
Qed.

(** * Completions *)

(** A packet the server may receive for a client: it lies in a provided
    buffer, its requests do not run into the window's edge, and the answers
    fit in what is left of the client's out buffer. *)
Record replyable (w : World) (u : UserData) (result : Z) (flags : N) : Prop := {
  rb_id : N.to_nat (N.shiftr flags 16 mod 2 ^ 16) < BUFFERS_COUNT;
  rb_boundary buf : buffers (srv w) !! N.to_nat (N.shiftr flags 16 mod 2 ^ 16) = Some buf →
    no_boundary MAX_REQUESTS (take (Z.to_nat result) buf);
  rb_fits buf : buffers (srv w) !! N.to_nat (N.shiftr flags 16 mod 2 ^ 16) = Some buf →
    ∃ lake, sv_get (client_out_buffers (srv w)) (N.to_nat (client_id u)) = Some lake ∧
      length (lake_data lake) +
        length (responses (date (srv w)) (requests MAX_REQUESTS (take (Z.to_nat result) buf)))
      ≤ DATA_LAKE_SIZE;
}.

(** C9: the whole of [request_reply] on a received packet: every request the
    reference parser finds in the packet is answered, in order, into the out
    buffer of the client and of no other; the kernel buffer joins the release
    list; and exactly when that brings the list to two thirds of the buffers
    they are all returned to the kernel. *)
Theorem request_reply_correct oc flags user result w :
  let buf_id := N.to_nat (N.shiftr flags 16 mod 2 ^ 16) in
  let cid := N.to_nat (client_id user) in
  let len := Z.to_nat result in
  srv_shape (srv w) → Forall (λ id, id < BUFFERS_COUNT) (released_buffers (srv w)) →
  (0 ≤ result ≤ Z.of_nat BUFFER_SIZE)%Z → replyable w user result flags →
  sq_len (ring w) + S (length (released_buffers (srv w))) ≤ sq_capacity (ring w) →
  ∃ buf s', buffers (srv w) !! buf_id = Some buf ∧
    replied (srv w) cid buf_id (requests MAX_REQUESTS (take len buf))
      (buffers_after (srv w) buf_id buf len) s' ∧
    let w1 := mkWorld s' (ring w) (Some buf_id) (syscalls w) in
    runs (request_reply oc flags user result) w (λ r w',
      if length (released_buffers s') =? release_part then release_result w1 r w'
      else r = IoOk tt ∧ w' = w1).
Proof.
  intros buf_id cid len Hs Hids Hres Hok Hroom.
  assert (Hlen : len ≤ BUFFER_SIZE) by (unfold len; clear -Hres; lia).
  destruct (shape_lookup _ _ Hs (rb_id _ _ _ _ Hok)) as (buf & Hb & Hl).
  destruct (rb_fits _ _ _ _ Hok buf Hb) as (lake & Hlk & Hfit).
  destruct (request_reply_helper oc flags user result w buf lake) as (s' & Hrp & Heq);
    [done..|by apply (rb_boundary _ _ _ _ Hok)|done|done|].
  exists buf, s'. split; [done|]. split; [done|]. intros w1. fold buf_id w1 in Heq. cbv zeta in Heq.
  destruct (buffers_after_shape (srv w) buf_id buf len Hs) as [Hn Hf].
  destruct (_ =? _).
  2: { by exists (IoOk tt), w1. }
  specialize (Hf Hlen). rewrite Hl in Hf. specialize (Hf Hlen).
  eapply runs_eq; [exact Heq|]. apply release_buffers_spec; cbn [w1 srv ring].
  - split; rewrite ?(rp_buffers _ _ _ _ _ _ Hrp), ?(rp_date _ _ _ _ _ _ Hrp),
      ?(rp_cache _ _ _ _ _ _ Hrp); [done|done|done|apply Hs].
  - rewrite (rp_released _ _ _ _ _ _ Hrp). apply list.Forall_app. split; [done|].
    apply list.Forall_singleton, Hok.
  - rewrite (rp_released _ _ _ _ _ _ Hrp), length_app, Nat.add_1_r. exact Hroom.
Qed.

(** The completions the kernel may deliver in a state. *)
Inductive permitted (w : World) : Cqe → Prop :=
  | permitted_control code result flags :
      (code < REQ_RESP_OFFSET)%N → code ≠ CODE_ACCEPT →
      permitted w (mkCqe code result flags)
  | permitted_accept result flags :
      next_id (srv w) < sv_capacity (client_out_buffers (srv w)) →
      permitted w (mkCqe CODE_ACCEPT result flags)
  | permitted_client u result flags :
      ud_wf u → RESERVED ≤ N.to_nat (client_id u) → (uniq_id u < 2 ^ 15)%N →
      (client_event (ub_kernel_dma (config (srv w))) (uniq_id u) result = Received →
       (result ≤ Z.of_nat BUFFER_SIZE)%Z → replyable w u result flags) →
      (client_event (ub_kernel_dma (config (srv w))) (uniq_id u) result = Readable →
       ∀ i buf, kernel_buf w = Some i → buffers (srv w) !! i = Some buf →
         no_boundary MAX_REQUESTS (trim_left buf)) →
      permitted w (mkCqe (pack_user_data u) result flags).

Lemma client_event_readable ub uniq result : client_event ub uniq result = Readable → ub = true.
Proof.
  unfold client_event. intros He. destruct ub; [done|]. rewrite andb_false_r in He.
  by repeat case_match.
Qed.

Lemma inv_lookup w i :
  inv_weak w → i < BUFFERS_COUNT →
  ∃ buf, buffers (srv w) !! i = Some buf ∧ length buf = BUFFER_SIZE.
Proof. intros Hw. apply shape_lookup, Hw. Qed.

Lemma received_inv oc w u result flags :
  inv w → sq_len (ring w) + release_part ≤ sq_capacity (ring w) →
  (0 ≤ result)%Z →
  ((result ≤ Z.of_nat BUFFER_SIZE)%Z → replyable w u result flags) →
  runs (request_reply oc flags u result) w (inv_post w).
Proof.
  intros [Hw Hrel] Hroom H0' Hok.
  destruct (Z.ltb_spec (Z.of_nat BUFFER_SIZE) result) as [Hbig|Hle].
  { exists (IoOk tt), w. unfold request_reply. by rewrite (proj2 (Z.ltb_lt _ _)) by done. }
  specialize (Hok Hle). destruct (inv_lookup w _ Hw (rb_id _ _ _ _ Hok)) as (buf & Hb & Hl).
  destruct (rb_fits _ _ _ _ Hok buf Hb) as (lake & Hlk & Hfit).
  destruct (request_reply_helper oc flags u result w buf lake) as (s' & Hrp & Heq);
    [apply Hw|done|done|by apply (rb_boundary _ _ _ _ Hok)|done|done|].
  assert (Hr : Z.to_nat result ≤ BUFFER_SIZE) by lia.
  assert (Hrb : Z.to_nat result ≤ length buf) by by rewrite Hl.
  assert (Hw' := replied_inv _ _ _ _ _ _ _ Hw (rb_id _ _ _ _ Hok) Hr Hrb Hrp).
  set (w' := mkWorld s' _ _ _) in *. cbv zeta in Heq.
  assert (Hlen : length (released_buffers s') = S (length (released_buffers (srv w)))).
  { rewrite (rp_released _ _ _ _ _ _ Hrp), length_app. cbn. lia. }
  destruct (Nat.eqb_spec (length (released_buffers s')) release_part) as [Hp|Hp].
  - eapply runs_eq; [exact Heq|]. change (inv_post w) with (inv_post w'). apply release_inv; [done|].
    change (released_buffers (srv w')) with (released_buffers s'). by rewrite Hp.
  - exists (IoOk tt), w'. split; [done|]. split; [|done]. split; [done|].
    change (released_buffers (srv w')) with (released_buffers s'). lia.
Qed.

Lemma readable_inv oc w u :
  inv w → ub_kernel_dma (config (srv w)) = true →
  (∀ i buf, kernel_buf w = Some i → buffers (srv w) !! i = Some buf →
    no_boundary MAX_REQUESTS (trim_left buf)) →
  runs (ubdma oc u) w (inv_post w).
Proof.
  intros [Hw Hrel] Hub Hbd. destruct (kernel_buf w) as [i|] eqn:Hk.
  2: { exists (IoOk tt), w. unfold ubdma. srun. by rewrite Hk. }
  destruct (inv_lookup w i Hw (inv_kbuf w Hw Hub i Hk)) as (buf & Hb & _).
  destruct (ubdma_helper oc u w i buf) as (s' & Heq & Hs');
    [apply Hw|done|done|by eapply Hbd|].
  exists (IoOk tt), (upd_srv (λ _, s') w). split; [done|].
  unfold ubdma_answers in Hs'.
  assert (Hid : s' = srv w → inv_post w (IoOk tt) (upd_srv (λ _, s') w)) by (intros ->; by destruct w).
  destruct (_ <? _); cbn [andb] in Hs'; [|by apply Hid].
  destruct (sv_get _ _) as [lake|] eqn:Hlk; [|by apply Hid].
  destruct (lake_len lake =? 0); [|by apply Hid].
  split; [|done]. split; [by eapply ubdma_replied_inv|]. cbn. by rewrite (ub_released _ _ _ _ Hs').
Qed.

Lemma disconnected_inv w cid :
  inv w → RESERVED ≤ cid → runs (close_connection cid true) w (inv_post w).
Proof.
  intros [Hw Hrel] Hid. destruct (close_connection_helper cid w) as (s' & Heq & Hc).
  eexists (IoOk tt), _. split; [exact Heq|]. split; [|done]. split; [by eapply closed_inv|].
  cbn. by rewrite (cl_released _ _ _ Hc).
Qed.

Lemma push_kept e (r : Ring) :
  sq_capacity (default r (sq_push e r)) = sq_capacity r ∧
  cq_len (default r (sq_push e r)) = cq_len r.
Proof.
  destruct (decide (sq_len r < sq_capacity r)) as [Hr|Hr].
  - by destruct (sq_push_fits e r Hr) as (r' & -> & _ & ? & ?).
  - by rewrite sq_push_full by lia.
Qed.

Lemma ring_after_accept_kept s fd (r : Ring) :
  sq_capacity (ring_after_accept s fd r) = sq_capacity r ∧
  cq_len (ring_after_accept s fd r) = cq_len r.
Proof.
  unfold ring_after_accept. set (r1 := if ub_kernel_dma _ then _ else r).
  assert (H1' : sq_capacity r1 = sq_capacity r ∧ cq_len r1 = cq_len r).
  { unfold r1. destruct (ub_kernel_dma _); [|done]. rewrite sq_sync_capacity, sq_sync_cq.
    apply push_kept. }
  destruct H1' as [<- <-]. apply push_kept.
Qed.

Lemma accepted_runs_inv w result :
  inv w → next_id (srv w) < sv_capacity (client_out_buffers (srv w)) →
  runs (process_entry_accept result) w (inv_post w).
Proof.
  intros [Hw Hrel] Hcap. destruct (Z.leb_spec result 0) as [Hneg|Hpos].
  { exists (IoOk tt), w. unfold process_entry_accept. by rewrite (proj2 (Z.leb_le _ _)) by done. }
  destruct (accept_runs result w Hpos Hcap) as (s' & Heq & Hc).
  eexists (IoOk tt), _. split; [exact Heq|]. split.
  - split; [by eapply accepted_inv|]. cbn. by rewrite (acc_released _ _ _ Hc).
  - apply ring_after_accept_kept.
Qed.

Lemma process_entry_inv_helper oc w c :
  inv w → permitted w c → sq_len (ring w) + release_part ≤ sq_capacity (ring w) →
  runs (process_entry oc c) w (inv_post w).
Proof.
  intros Hinv Hp Hroom. destruct Hp as [code r f Hlt Hne|r f Hcap|u r f Hwf Hc Hq Hrec Hread].
  - exists (IoOk tt), w. unfold process_entry. cbn [cqe_user_data cqe_result cqe_flags].
    rewrite (proj2 (N.eqb_neq _ _) Hne), (proj2 (N.leb_gt _ _) Hlt). by destruct (_ && _).
  - eapply runs_eq; [reflexivity|]. by apply accepted_runs_inv.
  - eapply runs_eq; [apply process_entry_routes_helper; [done| |done]|].
    { unfold RESERVED in Hc. lia. }
    unfold handle_event. destruct (client_event _ _ _) eqn:He.
    + by exists (IoOk tt), w.
    + destruct Hinv as [Hw Hrel]. apply release_inv; [done|]. lia.
    + by apply disconnected_inv.
    + apply readable_inv; [done|by eapply client_event_readable|]. by apply Hread.
    + apply received_inv; [done..| |by apply Hrec]. unfold client_event in He.
      destruct (Z.ltb_spec r 0); [|done]. by repeat case_match.
Qed.

(** Handling any completion the kernel may deliver, with room in the
    submission queue for one release, returns and keeps the invariant: no
    panic, no undefined behaviour, no endless retry; a failed system call
    leaves everything but the release threshold intact. *)
Theorem process_entry_preserves_inv oc w c :
  inv w → permitted w c → sq_len (ring w) + release_part ≤ sq_capacity (ring w) →
  runs (process_entry oc c) w (inv_post w).
Proof. apply process_entry_inv_helper. Qed.
End invariant.
