(* ===== verification/Completions.v ===== *)
(** What the handling of one completion does, said once for all kinds of
    completions: the reading of a completion, and the effect of its handler. *)
From S2P Require Import Prelude Config Avx Http Trim Shift Crates UserData Uring IoState.
From S2P Require Import Handler Sockets Server Replies Buffers Sends Connections Ubdma.
From S2P Require Import Invariant.

Section completions.
Context `{LakeLaws, JsonLaws, StableVecLaws, RingLaws, SocketOps}.
Context (oc : bool).

(** * Reading a completion *)

Inductive reading :=
  | Nothing
  | Accepted (fd : Z)
  | OfClient (u : UserData) (e : event).

Definition reading_of (s : Server) (c : Cqe) : reading :=
  if (cqe_user_data c =? CODE_ACCEPT)%N then
    if (cqe_result c <=? 0)%Z then Nothing else Accepted (cqe_result c)
  else if (REQ_RESP_OFFSET <=? cqe_user_data c)%N then
    match unpack_user_data oc (cqe_user_data c) with
    | Ret u => OfClient u (client_event (ub_kernel_dma (config s)) (uniq_id u) (cqe_result c))
    | _ => Nothing
    end
  else Nothing.

Lemma reading_pack s u result flags :
  ud_wf u → (0 < client_id u)%N → (uniq_id u < 2 ^ 15)%N →
  reading_of s (mkCqe (pack_user_data u) result flags) =
    OfClient u (client_event (ub_kernel_dma (config s)) (uniq_id u) result).
Proof.
  intros Hwf Hc Hq. unfold reading_of. cbn [cqe_user_data cqe_result].
  destruct (pack_range_helper u Hwf Hq) as (Hr & Ha & _).
  rewrite (proj2 (N.eqb_neq _ _) Ha), (proj2 (N.leb_le _ _) Hr).
  by rewrite unpack_pack_helper.
Qed.

(** * The effect of a handler *)

(** The buffer a completion delivers its packet in. *)
Definition buffer_of (flags : N) : nat := N.to_nat (N.shiftr flags 16 mod 2 ^ 16).
Definition client_of (u : UserData) : nat := N.to_nat (client_id u).

(** A packet of [result] bytes for client [cid]: its answers are appended, and
    the release list is handed back when it is long enough. *)
Definition packet_answered (cid buf_id : nat) (result : Z) (w w' : World) : Prop :=
  ∃ buf s', buffers (srv w) !! buf_id = Some buf ∧
    replied (srv w) cid buf_id (requests MAX_REQUESTS (take (Z.to_nat result) buf))
      (buffers_after (srv w) buf_id buf (Z.to_nat result)) s' ∧
    let w1 := mkWorld s' (ring w) (Some buf_id) (syscalls w) in
    Forall (λ id, id < BUFFERS_COUNT) (released_buffers s') ∧
    (w' = w1 ∨ release_result w1 (IoOk tt) w').

(** A poll event of client [cid] in UBDMA mode. *)
Definition poll_answered (cid : nat) (w w' : World) : Prop :=
  match kernel_buf w with
  | None => w' = w
  | Some i => ∃ buf s', buffers (srv w) !! i = Some buf ∧ w' = upd_srv (λ _, s') w ∧
      if ubdma_answers (srv w) cid buf
      then ubdma_replied (srv w) cid (ubdma_requests buf) s' else s' = srv w
  end.

Definition client_handled (u : UserData) (result : Z) (flags : N) (e : event) (w w' : World) : Prop :=
  match e with
  | Ignore => w' = w
  | OutOfBuffers => release_result w (IoOk tt) w'
  | Disconnected => ∃ s' sys, closed (srv w) (client_of u) s' ∧
      w' = mkWorld s' (ring w) (kernel_buf w) sys
  | Readable => poll_answered (client_of u) w w'
  | Received =>
      if (Z.of_nat BUFFER_SIZE <? result)%Z then w' = w
      else packet_answered (client_of u) (buffer_of flags) result w w'
  end.

Definition handled (w : World) (c : Cqe) (w' : World) : Prop :=
  match reading_of (srv w) c with
  | Nothing => w' = w
  | Accepted fd => ∃ s' sys, accepted (srv w) fd s' ∧
      next_id (srv w) < sv_capacity (client_out_buffers (srv w)) ∧
      w' = mkWorld s' (ring_after_accept (srv w) fd (ring w)) (kernel_buf w) sys
  | OfClient u e => client_handled u (cqe_result c) (cqe_flags c) e w w'
  end.

(** * Handlers have their effect *)

Lemma runs_result {A} (m : M World A) w r w' Q :
  runs m w Q → m w = Ret (r, w') → Q r w'.
Proof. intros (r1 & w1 & Heq & HQ) Hm. rewrite Heq in Hm. by injection Hm as <- <-. Qed.

Lemma released_handled w w' :
  inv_weak w → sq_len (ring w) + length (released_buffers (srv w)) ≤ sq_capacity (ring w) →
  release_buffers w = Ret (IoOk tt, w') → release_result w (IoOk tt) w'.
Proof.
  intros Hw Hroom Heq. eapply runs_result; [|done].
  apply release_buffers_spec; [apply Hw|apply Hw|done].
Qed.

Lemma received_handled w u result flags w' :
  inv w → sq_len (ring w) + release_part ≤ sq_capacity (ring w) → (0 ≤ result)%Z →
  ((result ≤ Z.of_nat BUFFER_SIZE)%Z → replyable w u result flags) →
  request_reply oc flags u result w = Ret (IoOk tt, w') →
  client_handled u result flags Received w w'.
Proof.
  intros [Hw Hrel] Hroom H0' Hok Heq. cbn [client_handled].
  destruct (Z.ltb_spec (Z.of_nat BUFFER_SIZE) result) as [Hbig|Hle].
  { unfold request_reply in Heq. rewrite (proj2 (Z.ltb_lt _ _)) in Heq by done.
    by injection Heq as <-. }
  specialize (Hok Hle). destruct (inv_lookup w _ Hw (rb_id _ _ _ _ Hok)) as (buf & Hb & Hl).
  destruct (rb_fits _ _ _ _ Hok buf Hb) as (lake & Hlk & Hfit).
  destruct (request_reply_helper oc flags u result w buf lake) as (s' & Hrp & Heq');
    [apply Hw|done|done|by apply (rb_boundary _ _ _ _ Hok)|done|done|].
  assert (Hr : Z.to_nat result ≤ BUFFER_SIZE) by lia.
  assert (Hrb : Z.to_nat result ≤ length buf) by by rewrite Hl.
  assert (Hw' := replied_inv _ _ _ _ _ _ _ Hw (rb_id _ _ _ _ Hok) Hr Hrb Hrp).
  set (w1 := mkWorld s' _ _ _) in *. cbv zeta in Heq'. rewrite Heq' in Heq.
  exists buf, s'. split; [done|]. split; [done|]. split; [apply (inv_rel_ids _ Hw')|].
  destruct (Nat.eqb_spec (length (released_buffers s')) release_part) as [Hp|_];
    [right|left; by injection Heq as <-].
  apply released_handled; [exact Hw'| |exact Heq]. cbn [srv ring]. by rewrite Hp.
Qed.

Lemma readable_handled w u w' :
  inv w → ub_kernel_dma (config (srv w)) = true →
  (∀ i buf, kernel_buf w = Some i → buffers (srv w) !! i = Some buf →
    no_boundary MAX_REQUESTS (trim_left buf)) →
  ubdma oc u w = Ret (IoOk tt, w') → poll_answered (client_of u) w w'.
Proof.
  intros [Hw Hrel] Hub Hbd Heq. unfold poll_answered. destruct (kernel_buf w) as [i|] eqn:Hk.
  2: { unfold ubdma in Heq. rewrite bind_gets, Hk in Heq. by injection Heq as <-. }
  destruct (inv_lookup w i Hw (inv_kbuf w Hw Hub i Hk)) as (buf & Hb & _).
  destruct (ubdma_helper oc u w i buf) as (s' & Heq' & Hs');
    [apply Hw|done|done|by eapply Hbd|].
  rewrite Heq' in Heq. injection Heq as <-. by exists buf, s'.
Qed.

Lemma closed_handled w cid w' :
  close_connection cid true w = Ret (IoOk tt, w') →
  ∃ s' sys, closed (srv w) cid s' ∧ w' = mkWorld s' (ring w) (kernel_buf w) sys.
Proof.
  intros Heq. destruct (close_connection_helper cid w) as (s' & Heq' & Hc).
  cbv zeta in Heq'. rewrite Heq' in Heq. injection Heq as <-. by eexists s', _.
Qed.

Lemma client_event_nonneg ub uniq result : client_event ub uniq result = Received → (0 ≤ result)%Z.
Proof.
  unfold client_event. intros He. destruct (Z.ltb_spec result 0); [|done]. by repeat case_match.
Qed.

(** The case analysis on permitted completions, for whoever needs it. *)
Lemma process_entry_handled w c w' :
  inv w → permitted w c → sq_len (ring w) + release_part ≤ sq_capacity (ring w) →
  process_entry oc c w = Ret (IoOk tt, w') → handled w c w'.
Proof.
  intros Hi Hp Hroom Heq. unfold handled.
  destruct Hp as [code r f Hlt Hne|r f Hcap|u r f Hwf Hc Hq Hrec Hread].
  - unfold process_entry in Heq. unfold reading_of. cbn [cqe_user_data cqe_result cqe_flags] in *.
    rewrite (proj2 (N.eqb_neq _ _) Hne), (proj2 (N.leb_gt _ _) Hlt) in *.
    destruct (_ && _); by injection Heq as <-.
  - change (process_entry_accept r w = Ret (IoOk tt, w')) in Heq.
    unfold reading_of. cbn [cqe_user_data cqe_result]. rewrite N.eqb_refl.
    destruct (Z.leb_spec r 0) as [Hneg|Hpos].
    { unfold process_entry_accept in Heq. rewrite (proj2 (Z.leb_le _ _)) in Heq by done.
      by injection Heq as <-. }
    destruct (accept_runs r w Hpos Hcap) as (s' & Heq' & Ha). rewrite Heq' in Heq.
    injection Heq as <-. by eexists s', _.
  - assert (H0' : (0 < client_id u)%N) by (unfold RESERVED in Hc; lia).
    rewrite reading_pack by done. rewrite process_entry_routes_helper in Heq by done.
    unfold handle_event in Heq. cbn [cqe_result cqe_flags].
    destruct (client_event _ _ _) eqn:He; cbn [client_handled].
    + by injection Heq as <-.
    + destruct Hi as [Hw Hrel]. apply released_handled; [done|lia|done].
    + by apply closed_handled.
    + by eapply readable_handled; [..|by eapply client_event_readable|apply Hread|].
    + by eapply received_handled; [..|eapply client_event_nonneg|apply Hrec|].
Qed.
End completions.
