(* ===== verification/EventLoop.v ===== *)
(** The worker's main loop: [sq_poll] of [src/library/server.rs]. *)
From S2P Require Import Prelude Config Avx Http Trim Shift Crates UserData Uring IoState.
From S2P Require Import Handler Sockets Server Replies Buffers Sends Connections Ubdma.
From S2P Require Import Invariant.

(** * Definitions *)

(** The clock readings of one iteration: [nano_timestamp()], [timestamp()] and
    the bytes [nano_http_date] writes. *)
Record Tick := mkTick { t_nano : Z; t_clock : Z; t_date : bytes }.

(** [a - b] on [usize]. *)
Definition usize_sub (oc : bool) (a b : nat) : outcome N :=
  if b <=? a then Ret (N.of_nat (a - b))
  else if oc then Panic else Ret (N.of_nat a + 2 ^ 64 - N.of_nat b)%N.

Definition set_time (t : Tick) (c : Clocks) : Clocks :=
  mkClocks (t_nano t) (t_clock t) (last_sync_time c) (rps c) (hz c) (synced c)
    (rps_acc c) (hz_acc c).
Definition roll_metrics (c : Clocks) : Clocks :=
  mkClocks (nano_clock c) (clock c) (last_sync_time c) (rps_acc c) (hz_acc c) (clock c) 0 0.
Definition set_synced (t : Z) (c : Clocks) : Clocks :=
  mkClocks (nano_clock c) (clock c) (last_sync_time c) (rps c) (hz c) t (rps_acc c) (hz_acc c).

Section definitions.
Context `{Lake, Json, StableVecOps, RingOps, SocketOps}.
Context (oc : bool).

Definition modify_clocks (f : Clocks → Clocks) : M World unit :=
  modify_srv (λ s, set_clocks (f (clocks s)) s).

(** [sq.push(&e).unwrap()] *)
Definition push_unwrap (e : Entry) : M World unit :=
  r ← gets ring;
  r' ← lift (match sq_push e r with Some r' => Ret r' | None => Panic end);
  modify (upd_ring (λ _, r')).

(** [for i in 0..n { sq.push(&e).unwrap(); }] *)
Fixpoint push_times (n : nat) (e : Entry) : M World unit :=
  match n with
  | 0 => io_ok
  | S n => push_unwrap e;; push_times n e
  end.

Definition do_register_files (fds : list Z) : M World unit := λ w,
  let '(r, ring') := register_files fds (ring w) in
  Ret (r, mkWorld (srv w) ring' (kernel_buf w) (syscalls w)).

(** [sq_poll] before its loop, on a ring already built. *)
Definition sq_poll_setup (listener_fd : Z) : M World unit :=
  register_buffers;;
  modify (log_syscalls (attach_reuseport_cbpf listener_fd));;
  push_times DEFAULT_ACCEPT_MULTIPLICATOR (accept_multi listener_fd);;
  do_submit;;
  reserve_writes_buffer 100;;
  do_register_files (replicate 1024 (-1)%Z);;
  modify_clocks (set_synced 0).

(** The clock readings and the per-second update. *)
Definition update_metrics (t : Tick) : M World unit :=
  modify_clocks (set_time t);;
  s ← server;
  if (clock (clocks s) =? synced (clocks s))%Z then io_ok
  else
    modify_clocks roll_metrics;;
    modify_srv (set_date (t_date t));;
    s ← server;
    _ ← lift (usize_sub oc (length (sv_iter (client_fds s))) 100);
    io_ok.

Definition flush_if_idle : M World unit :=
  r ← gets ring;
  if cq_is_empty r then wideband_send else io_ok.

Definition sync_if_asked : M World unit :=
  s ← server;
  if sync_now s then do_sync;; modify_srv (set_sync_now false) else io_ok.

Definition sync_completions : M World unit :=
  r ← gets ring;
  if cq_is_empty r then modify (upd_ring cq_sync) else io_ok.

Definition wake_kernel : M World unit :=
  r ← gets ring;
  if cq_is_empty r then
    do_submit_and_wait 1;;
    modify_srv (set_io_send_busy false)
  else
    limit ← lift (usize_sub oc (sq_capacity r) 4);
    if (limit <=? N.of_nat (sq_len r))%N then do_submit;; io_ok else io_ok.

(** One iteration up to the completions. *)
Definition loop_head (t : Tick) : M World unit :=
  update_metrics t;;
  flush_if_idle;;
  sync_if_asked;;
  sync_completions;;
  wake_kernel;;
  modify_clocks incr_hz.

(** [while let Some(cqe) = cq.next()] *)
Fixpoint drain (fuel : nat) : M World unit :=
  match fuel with
  | 0 => lift Diverge
  | S fuel =>
      r ← gets ring;
      match cq_next r with
      | None => io_ok
      | Some (cqe, r') =>
          modify (upd_ring (λ _, r'));;
          process_entry oc cqe;;
          modify_clocks incr_hz;;
          drain fuel
      end
  end.

Definition release_if_idle : M World unit :=
  s ← server;
  if (rps (clocks s) =? 0)%N then release_buffers else io_ok.

(** One iteration of the loop; [fuel] bounds the completions handled. *)
Definition iteration (fuel : nat) (t : Tick) : M World unit :=
  loop_head t;;
  drain fuel;;
  release_if_idle.

(** The loop, for a given sequence of clock readings: it leaves only with an
    error. *)
Fixpoint iterations (fuel : nat) (ts : list Tick) : M World unit :=
  match ts with
  | [] => io_ok
  | t :: ts => iteration fuel t;; iterations fuel ts
  end.
End definitions.

Lemma runs_bind_modify {W B} (g : W → W) (f : unit → M W B) w Q :
  runs (f tt) (g w) Q → runs (modify g ≫= f) w Q.
Proof. done. Qed.

(** * The invariant of the loop *)

Section loop.
Context `{LakeLaws, JsonLaws, StableVecLaws, RingLaws, SocketOps}.
Context (oc : bool).

(** The invariant reads neither the clocks nor the flags. *)
Lemma inv_ext w w' :
  client_fds (srv w') = client_fds (srv w) →
  client_out_buffers (srv w') = client_out_buffers (srv w) →
  buffers (srv w') = buffers (srv w) → released_buffers (srv w') = released_buffers (srv w) →
  hot_internal_cache (srv w') = hot_internal_cache (srv w) →
  length (date (srv w')) = DATE_SIZE → config (srv w') = config (srv w) →
  kernel_buf w' = kernel_buf w → inv w → inv w'.
Proof.
  intros Hf Ho Hb Hr Hc Hd Hcfg Hk [[[? ? ? ?] ? ? ? ? ? ? ?] Hlt]. split; [|by rewrite Hr].
  split; rewrite ?Hf, ?Ho, ?Hr, ?Hcfg, ?Hk; try done.
  - by split; rewrite ?Hb, ?Hc.
  - unfold next_id. by rewrite Hf.
Qed.

Lemma inv_date w : inv w → length (date (srv w)) = DATE_SIZE.
Proof. intros [Hw _]. apply Hw. Qed.

Lemma sent_inv w w' : inv w → sent (srv w) (srv w') → kernel_buf w' = kernel_buf w → inv w'.
Proof.
  intros [Hw Hlt] Hs Hk. split; [|by rewrite (sent_released _ _ Hs)].
  assert (Ho : ∀ c, is_Some (sv_get (client_out_buffers (srv w')) c) ↔
                    is_Some (sv_get (client_out_buffers (srv w)) c))
    by (intros c; by rewrite (sent_out _ _ Hs), fmap_is_Some).
  destruct (inv_shape w Hw) as [? ? ? ?].
  split; rewrite ?(sent_released _ _ Hs), ?(sent_config _ _ Hs), ?Hk.
  - by split; rewrite ?(sent_buffers _ _ Hs), ?(sent_cache _ _ Hs), ?(sent_date _ _ Hs).
  - apply Hw.
  - intros c. rewrite Ho, (sent_fds _ _ Hs). apply (inv_out_fds w Hw).
  - intros c. rewrite Ho, (sent_fds _ _ Hs). apply (inv_fds_out w Hw).
  - intros c. rewrite Ho. apply (inv_out_id w Hw).
  - unfold next_id. rewrite (sent_fds _ _ Hs). apply (inv_next w Hw).
  - rewrite (sent_fds _ _ Hs). apply (inv_reserved w Hw).
  - apply (inv_kbuf w Hw).
Qed.

(** A kernel write inside the buffers keeps the invariant. *)
Lemma kernel_write_inv w bufs r :
  inv w → same_shape (buffers (srv w)) bufs →
  inv (mkWorld (set_buffers bufs (srv w)) r (kernel_buf w) (syscalls w)).
Proof.
  intros [[? ? ? ? ? ? ? ?] Hlt] Hsh. split; [|done]. split; try done.
  by apply shape_kernel_write.
Qed.

(** [keeps m w]: [m] runs from [w] without a panic, undefined behaviour or
    divergence, and keeps the invariant and the size of the ring. *)
Definition keeps {A} (m : M World A) (w : World) (Q : io A → World → Prop) : Prop :=
  runs m w (λ r w', inv w' ∧ sq_capacity (ring w') = sq_capacity (ring w) ∧ Q r w').

Lemma keeps_bind {A B} (m : M World A) (f : A → M World B) w Q (Q' : io B → World → Prop) :
  keeps m w Q →
  (∀ a w', inv w' → sq_capacity (ring w') = sq_capacity (ring w) → Q (IoOk a) w' →
    keeps (f a) w' Q') →
  (∀ e w', Q (IoErr e) w' → Q' (IoErr e) w') →
  keeps (m ≫= f) w Q'.
Proof.
  intros Hm Hf He. apply runs_bind. eapply runs_weaken; [exact Hm|].
  intros [a|e] w' (Hi & Hc & HQ); [|by auto].
  eapply runs_weaken; [by apply Hf|]. intros r w'' (? & Hc' & ?). by rewrite Hc', Hc.
Qed.

(** Steps after the flush change neither the descriptors nor the output, and
    at most drop consumed entries from the submission queue. *)
Definition quiet (w w' : World) : Prop :=
  client_fds (srv w') = client_fds (srv w) ∧
  client_out_buffers (srv w') = client_out_buffers (srv w) ∧
  ∃ k, sq_entries (ring w') = drop k (sq_entries (ring w)).

Lemma quiet_same w w' :
  client_fds (srv w') = client_fds (srv w) →
  client_out_buffers (srv w') = client_out_buffers (srv w) →
  sq_entries (ring w') = sq_entries (ring w) → quiet w w'.
Proof. intros ? ? He. split_and!; [done..|]. exists 0. by rewrite He. Qed.

Lemma quiet_refl w : quiet w w.
Proof. by apply quiet_same. Qed.

Lemma do_submit_keeps w : inv w → keeps do_submit w (λ _ w', quiet w w').
Proof.
  intros Hi. unfold keeps, runs, do_submit.
  destruct (submit (kmem_of (srv w)) (ring w)) as [[r bufs] ring'] eqn:Hs.
  pose proof (submit_shape (kmem_of (srv w)) (ring w)) as Hsh.
  pose proof (submit_capacity (kmem_of (srv w)) (ring w)) as Hcap.
  pose proof (submit_entries (kmem_of (srv w)) (ring w)) as He.
  rewrite Hs in *. eexists _, _. split; [done|]. split; [by apply kernel_write_inv|].
  split; [done|]. by apply quiet_same.
Qed.

Lemma do_submit_and_wait_keeps n w :
  inv w → keeps (do_submit_and_wait n) w (λ _ w', quiet w w').
Proof.
  intros Hi. unfold keeps, runs, do_submit_and_wait.
  destruct (submit_and_wait n (kmem_of (srv w)) (ring w)) as [[r bufs] ring'] eqn:Hs.
  pose proof (submit_and_wait_shape n (kmem_of (srv w)) (ring w)) as Hsh.
  pose proof (submit_and_wait_capacity n (kmem_of (srv w)) (ring w)) as Hcap.
  pose proof (submit_and_wait_entries n (kmem_of (srv w)) (ring w)) as He.
  rewrite Hs in *. eexists _, _. split; [done|]. split; [by apply kernel_write_inv|].
  split; [done|]. by apply quiet_same.
Qed.

(** The reserved ids keep the number of descriptors at 100 or more. *)
Lemma reserved_count w : inv w → RESERVED ≤ length (sv_iter (client_fds (srv w))).
Proof.
  intros [Hw _]. rewrite <- (length_seq RESERVED 0), <- (length_fmap fst (sv_iter _)).
  apply submseteq_length, NoDup_submseteq; [apply NoDup_seq|].
  intros i Hi%elem_of_seq. destruct (inv_reserved w Hw i) as [fd Hfd]; [lia|].
  apply list_elem_of_fmap. exists (i, fd). split; [done|]. by apply sv_iter_elem.
Qed.

(** ** Up to the completions *)

(** Room for the sends of a flush, which happens only when no completion is
    pending. *)
Definition flush_room (w : World) : Prop :=
  cq_len (ring w) = 0 →
  sq_len (ring w) + length (pending_sends (srv w)) ≤ sq_capacity (ring w).

Lemma modify_keeps (f : World → World) w (Q : io unit → World → Prop) :
  inv (f w) → sq_capacity (ring (f w)) = sq_capacity (ring w) → Q (IoOk tt) (f w) →
  keeps (modify f) w Q.
Proof. intros Hi Hc HQ. by exists (IoOk tt), (f w). Qed.

Lemma update_metrics_eq t w :
  inv w →
  update_metrics oc t w = Ret (IoOk tt, upd_srv (λ s,
    let c := set_time t (clocks s) in
    if (t_clock t =? synced (clocks s))%Z then set_clocks c s
    else set_date (t_date t) (set_clocks (roll_metrics c) s)) w).
Proof.
  intros Hi. unfold update_metrics, modify_clocks. srun. rewrite if_apply.
  change (clock (clocks (srv _))) with (t_clock t).
  change (synced (clocks (srv (upd_srv _ w)))) with (synced (clocks (srv w))).
  pose proof (reserved_count w Hi) as Hn. unfold upd_srv.
  case_match; [done|]. srun. cbn [srv upd_srv client_fds set_date set_clocks].
  unfold usize_sub. rewrite (proj2 (Nat.leb_le _ _)) by exact Hn. done.
Qed.

Lemma update_metrics_keeps t w :
  inv w → length (t_date t) = DATE_SIZE → flush_room w →
  keeps (update_metrics oc t) w (λ r w', r = IoOk tt ∧ flush_room w' ∧ ring w' = ring w ∧
    client_fds (srv w') = client_fds (srv w) ∧
    client_out_buffers (srv w') = client_out_buffers (srv w)).
Proof.
  intros Hi Hd Hroom. unfold keeps, runs. rewrite update_metrics_eq by done.
  eexists _, _. split; [done|]. pose proof (inv_date w Hi). cbn [upd_srv ring].
  split; [|split; [done|split; [done|split]]].
  - eapply inv_ext; [..|exact Hi]; cbn; by repeat case_match.
  - unfold flush_room in *. intros Hq. specialize (Hroom Hq).
    unfold pending_sends in *. cbn. by case_match.
  - cbn. by case_match.
Qed.

Lemma flush_if_idle_keeps w :
  inv w → flush_room w → keeps flush_if_idle w (λ _ w',
    if cq_len (ring w) =? 0
    then sent (srv w) (srv w') ∧
         sq_entries (ring w') = sq_entries (ring w) ++ pending_sends (srv w)
    else w' = w).
Proof.
  intros Hi Hroom. unfold keeps, runs, flush_if_idle. srun. rewrite if_apply.
  unfold cq_is_empty. destruct (Nat.eqb_spec (cq_len (ring w)) 0) as [Hq|Hq].
  - destruct (wideband_send_spec w (Hroom Hq)) as (w' & -> & Hs & He & Hc & _ & Hk & _).
    eexists _, w'. split; [done|]. split; [by eapply sent_inv|done].
  - by exists (IoOk tt), w.
Qed.

Lemma sync_if_asked_keeps w : inv w → keeps sync_if_asked w (λ _ w', quiet w w').
Proof.
  intros Hi. unfold keeps, runs, sync_if_asked, do_sync. srun. rewrite if_apply.
  pose proof (inv_date w Hi).
  destruct (sync_now _); [|by exists (IoOk tt), w; auto using quiet_refl].
  srun. rewrite modify_srv_eq. eexists _, _. split; [done|]. cbn.
  split; [by apply (inv_ext w)|].
  split; [by rewrite sq_sync_capacity|]. split_and!; [done..|]. apply sq_sync_entries.
Qed.

Lemma sync_completions_keeps w : inv w → keeps sync_completions w (λ _ w', quiet w w').
Proof.
  intros Hi. unfold keeps, runs, sync_completions. srun. rewrite if_apply.
  pose proof (inv_date w Hi). destruct (cq_is_empty _); [|by exists (IoOk tt), w; auto using quiet_refl].
  eexists _, _. split; [done|]. cbn. split; [by apply (inv_ext w)|].
  split; [by rewrite cq_sync_capacity|]. apply quiet_same; [done..|]. apply cq_sync_sq.
Qed.

Lemma wake_kernel_keeps w :
  inv w → 4 ≤ sq_capacity (ring w) → keeps (wake_kernel oc) w (λ _ w', quiet w w').
Proof.
  intros Hi H4'. unfold keeps, wake_kernel. eapply runs_eq; [by rewrite bind_gets|].
  cbv beta. destruct (cq_is_empty _).
  - eapply keeps_bind; [by apply do_submit_and_wait_keeps| |done].
    intros a w' Hi' Hc (? & ? & ?). pose proof (inv_date w' Hi').
    by apply modify_keeps; [apply (inv_ext w')|..].
  - unfold usize_sub. rewrite (proj2 (Nat.leb_le _ _)) by done.
    eapply runs_eq; [by rewrite (bind_lift _ _ _ _ eq_refl)|]. cbv beta.
    case_match; [|by exists (IoOk tt), w; auto using quiet_refl].
    eapply keeps_bind; [by apply do_submit_keeps| |done].
    intros a w' Hi' Hc Hq. by exists (IoOk tt), w'.
Qed.

Lemma incr_hz_keeps w : inv w → keeps (modify_clocks incr_hz) w (λ _ w', quiet w w').
Proof.
  intros Hi. pose proof (inv_date w Hi).
  apply modify_keeps; [by apply (inv_ext w)|done|by apply quiet_same].
Qed.

(** The effect of an iteration's first half: with no completion pending,
    every pending answer is queued for sending and its buffer reset; otherwise
    nothing of it is touched. *)
Definition flushed_to (w w' : World) : Prop :=
  client_fds (srv w') = client_fds (srv w) ∧
  sv_capacity (client_out_buffers (srv w')) = sv_capacity (client_out_buffers (srv w)) ∧
  (∀ cid, sv_get (client_out_buffers (srv w')) cid =
     flushed (client_fds (srv w)) cid <$> sv_get (client_out_buffers (srv w)) cid) ∧
  ∃ k, sq_entries (ring w') = drop k (sq_entries (ring w) ++ pending_sends (srv w)).

Definition headed (w w' : World) : Prop :=
  if cq_len (ring w) =? 0 then flushed_to w w' else quiet w w'.

Lemma headed_quiet w w1 w2 : headed w w1 → quiet w1 w2 → headed w w2.
Proof.
  unfold headed. intros Hh (Hf & Ho & k2 & Hk2). destruct (_ =? _).
  - destruct Hh as (Hf1 & Hc1 & Ho1 & k & Hk). split; [by rewrite Hf|].
    split; [by rewrite Ho|]. split; [by rewrite Ho|]. exists (k + k2). by rewrite Hk2, Hk, drop_drop.
  - destruct Hh as (Hf1 & Ho1 & k & Hk). split; [by rewrite Hf|]. split; [by rewrite Ho|].
    exists (k + k2). by rewrite Hk2, Hk, drop_drop.
Qed.

Lemma loop_head_keeps t w :
  inv w → length (t_date t) = DATE_SIZE → flush_room w → 4 ≤ sq_capacity (ring w) →
  keeps (loop_head oc t) w (λ _, headed w).
Proof.
  intros Hi Hd Hroom H4'. unfold loop_head.
  eapply keeps_bind; [by apply update_metrics_keeps| |by intros ? ? [? _]].
  intros _ w1 Hi1 Hc1 (_ & Hr1 & Hring & Hfds & Hout).
  assert (Hp : pending_sends (srv w1) = pending_sends (srv w))
    by (unfold pending_sends; by rewrite Hfds, Hout).
  assert (Hq : ∀ w2 w3, headed w w2 → quiet w2 w3 → headed w w3) by eauto using headed_quiet.
  eapply (keeps_bind _ _ _ (λ _, headed w)); [|intros _ w2 Hi2 Hc2 HQ2|done].
  { eapply runs_weaken; [by apply flush_if_idle_keeps|]. intros r w2 (? & ? & Hs).
    split; [done|]. split; [done|]. unfold headed. rewrite Hring in Hs. destruct (_ =? _).
    - destruct Hs as [Hs He]. unfold flushed_to. rewrite <- Hfds, <- Hout. split_and!; [apply Hs..|].
      exists 0. by rewrite He, Hp.
    - subst w2. apply quiet_same; by rewrite ?Hring. }
  eapply (keeps_bind _ _ _ (λ _, headed w)); [|intros _ w3 Hi3 Hc3 HQ3|done].
  { eapply runs_weaken; [by apply sync_if_asked_keeps|]. intros ? ? (? & ? & ?). by eauto 6. }
  eapply (keeps_bind _ _ _ (λ _, headed w)); [|intros _ w4 Hi4 Hc4 HQ4|done].
  { eapply runs_weaken; [by apply sync_completions_keeps|]. intros ? ? (? & ? & ?). by eauto 6. }
  eapply (keeps_bind _ _ _ (λ _, headed w)); [|intros _ w5 Hi5 Hc5 HQ5|done].
  { eapply runs_weaken; [apply wake_kernel_keeps; [done|congruence]|]. intros ? ? (? & ? & ?). by eauto 6. }
  eapply runs_weaken; [by apply incr_hz_keeps|]. intros ? ? (? & ? & ?). by eauto 6.
Qed.

(** ** The completions *)

Definition with_ring (r : Ring) (w : World) : World := upd_ring (λ _, r) w.
Definition counted (w : World) : World :=
  upd_srv (λ s, set_clocks (incr_hz (clocks s)) s) w.

(** The kernel delivers only permitted completions, each when there is room
    for a release: said of the state in which each is reached. *)
Inductive deliverable : World → Prop :=
  | deliverable_done w : cq_next (ring w) = None → deliverable w
  | deliverable_next w c r :
      cq_next (ring w) = Some (c, r) →
      permitted (with_ring r w) c → sq_len r + release_part ≤ sq_capacity r →
      (∀ w', process_entry oc c (with_ring r w) = Ret (IoOk tt, w') →
             deliverable (counted w')) →
      deliverable w.

Lemma with_ring_inv r w : inv w → inv (with_ring r w).
Proof. intros Hi. pose proof (inv_date w Hi). by apply (inv_ext w). Qed.
Lemma counted_inv w : inv w → inv (counted w).
Proof. intros Hi. pose proof (inv_date w Hi). by apply (inv_ext w). Qed.

(** The state a worker is left in: without an error the invariant holds;
    after one, its part that does not depend on the failed call. *)
Definition loop_post (w0 : World) (r : io unit) (w : World) : Prop :=
  match r with IoOk _ => inv w | IoErr _ => inv_weak w end ∧
  sq_capacity (ring w) = sq_capacity (ring w0).

Lemma drain_helper fuel w :
  inv w → deliverable w → cq_len (ring w) < fuel →
  runs (drain oc fuel) w (λ r w', loop_post w r w' ∧
    match r with IoOk _ => cq_len (ring w') = 0 | IoErr _ => True end).
Proof.
  revert w. induction fuel as [|fuel IH]; intros w Hi Hd Hf; [lia|].
  cbn [drain]. eapply runs_eq; [by rewrite bind_gets|]. cbv beta.
  destruct (decide (cq_len (ring w) = 0)) as [Hz|Hz].
  { rewrite cq_next_none by done. by exists (IoOk tt), w. }
  destruct (cq_next_some (ring w)) as (c & r & Hn & Hlen & _ & Hcap); [lia|].
  rewrite Hn. destruct Hd as [w Hn'|w c' r' Hn' Hp Hroom Hd]; [congruence|].
  rewrite Hn in Hn'. injection Hn' as <- <-.
  apply (runs_bind_modify (upd_ring (λ _, r))), runs_bind.
  destruct (process_entry_inv_helper oc (with_ring r w) c) as (res & w' & Heq & Hpost);
    [apply with_ring_inv; assumption|assumption|assumption|].
  exists res, w'. split; [exact Heq|]. destruct Hpost as (Hpost & Hc & Hq).
  change (ring (with_ring r w)) with r in Hc, Hq.
  destruct res as [[]|e]; [|by split; [split; [done|congruence]|]].
  apply (runs_bind_modify (upd_srv (λ s, set_clocks (incr_hz (clocks s)) s))).
  fold (counted w'). eapply runs_weaken.
  - apply IH; [by apply counted_inv|by apply Hd|].
    change (ring (counted w')) with (ring w'). lia.
  - intros r' w'' [[? Hc''] ?]. split; [|done]. split; [done|].
    rewrite Hc''. change (ring (counted w')) with (ring w'). congruence.
Qed.

(** As long as the kernel delivers permitted completions, handling the
    completions of a batch terminates after as many steps as there are
    completions, without a panic or undefined behaviour, keeps the invariant
    and, unless a system call fails, leaves no completion behind. *)
Theorem drain_terminates fuel w :
  inv w → deliverable w → cq_len (ring w) < fuel →
  runs (drain oc fuel) w (λ r w', loop_post w r w' ∧
    match r with IoOk _ => cq_len (ring w') = 0 | IoErr _ => True end).
Proof. apply drain_helper. Qed.

(** ** One iteration *)

(** What the environment has to provide for one iteration: a date of the
    right length, room for the flush and for the releases, permitted
    completions. *)
Record iteration_ok (fuel : nat) (w : World) (t : Tick) : Prop := {
  it_date : length (t_date t) = DATE_SIZE;
  it_flush : flush_room w;
  it_capacity : 4 ≤ sq_capacity (ring w);
  it_deliver w1 : loop_head oc t w = Ret (IoOk tt, w1) →
    deliverable w1 ∧ cq_len (ring w1) < fuel;
  it_release w1 w2 : loop_head oc t w = Ret (IoOk tt, w1) →
    drain oc fuel w1 = Ret (IoOk tt, w2) →
    sq_len (ring w2) + length (released_buffers (srv w2)) ≤ sq_capacity (ring w2);
}.

Lemma release_if_idle_post w :
  inv w → sq_len (ring w) + length (released_buffers (srv w)) ≤ sq_capacity (ring w) →
  runs release_if_idle w (loop_post w).
Proof.
  intros Hi Hroom. unfold release_if_idle. eapply runs_eq; [by rewrite bind_server|].
  cbv beta. destruct (_ =? _)%N; [|by exists (IoOk tt), w].
  eapply runs_weaken; [apply release_inv; [apply Hi|done]|]. by intros r w' (? & ? & _).
Qed.

Lemma iteration_helper fuel w t :
  inv w → iteration_ok fuel w t → runs (iteration oc fuel t) w (loop_post w).
Proof.
  intros Hi [Hd Hf Hcap Hdel Hrel]. unfold iteration. apply runs_bind.
  destruct (loop_head_keeps t w Hi Hd Hf Hcap) as (r1 & w1 & Hw1 & Hi1 & Hc1 & _).
  exists r1, w1. split; [done|].
  destruct r1 as [[]|e]; [|by split; [apply Hi1|]].
  destruct (Hdel w1 Hw1) as [Hdl Hfu]. apply runs_bind.
  destruct (drain_helper fuel w1 Hi1 Hdl Hfu) as (r2 & w2 & Hw2 & [Hp2 Hc2] & Hq2).
  exists r2, w2. split; [done|].
  destruct r2 as [[]|e]; [|by split; [done|congruence]].
  eapply runs_weaken; [apply release_if_idle_post; [done|by eapply Hrel]|].
  intros r w3 [? ?]. by split; [|congruence].
Qed.

(** The environment behaves during a run of the loop. *)
Inductive environment_ok (fuel : nat) : World → list Tick → Prop :=
  | environment_nil w : environment_ok fuel w []
  | environment_cons w t ts :
      iteration_ok fuel w t →
      (∀ w', iteration oc fuel t w = Ret (IoOk tt, w') → environment_ok fuel w' ts) →
      environment_ok fuel w (t :: ts).

Lemma iterations_helper fuel w ts :
  inv w → environment_ok fuel w ts → runs (iterations oc fuel ts) w (loop_post w).
Proof.
  intros Hi He. revert Hi. induction He as [w|w t ts Hit _ IH]; intros Hi.
  { by exists (IoOk tt), w. }
  cbn [iterations]. apply runs_bind.
  destruct (iteration_helper fuel w t Hi Hit) as (r & w' & Hw' & Hp & Hc).
  exists r, w'. split; [done|]. destruct r as [[]|e]; [|done].
  eapply runs_weaken; [by apply IH|]. intros r'' w'' [? ?]. by split; [|congruence].
Qed.

(** C4: the worker never panics, never meets undefined behaviour and never
    gets stuck while its environment behaves: from a state satisfying the
    invariant every number of iterations of its loop runs through and
    re-establishes it, or stops at a failed system call. *)
Theorem iterations_safe fuel w ts :
  inv w → environment_ok fuel w ts → runs (iterations oc fuel ts) w (loop_post w).
Proof. apply iterations_helper. Qed.
End loop.
