(* ===== verification/Api.v ===== *)
(** The public endpoints of [src/library/server.rs]: construction and settings;
    and the server that [src/main.rs] builds. *)
From S2P Require Import Prelude Config Crates Uring IoState Handler Sockets Server.

(** [u16::MAX as usize] *)
Definition OUT_CAPACITY : nat := Z.to_nat 65535.
#[global] Opaque OUT_CAPACITY.

Lemma OUT_CAPACITY_Z : Z.of_nat OUT_CAPACITY = 65535%Z.
Proof. reflexivity. Qed.

(** [num_cpus::get().max(1) as u8] *)
Definition default_workers (cpus : nat) : N := (N.of_nat (cpus `max` 1) mod 2 ^ 8)%N.

(** [log_kernel_error] writes [message] to the system log, names the process
    [code] ([CString::new] panics on an inner zero byte) and then stores through
    the invalid pointer [0xDEAD]; the [abort] after it is never reached. *)
Definition log_kernel_error (message code : bytes) : outcome unit :=
  if existsb (Byte.eqb x00) code then Panic else UB.

Section api.
Context `{Lake, Json, StableVecOps, RingOps, SocketOps}.

(** [Server::new], given the processor count and the clock readings. *)
Definition new (addr : bytes) (cpus : nat) (nano time : Z) : Server :=
  mkServer
    (mkConfig addr (default_workers cpus) (N.of_nat DEFAULT_URING_SIZE) false
       (N.of_nat DEFAULT_SQPOLL_IDLE) false false)
    sv_new (replicate 35 x00) (json_default 100) (lake_build 512) true
    (replicate BUFFERS_COUNT (replicate BUFFER_SIZE x00)) []
    (sv_with_capacity OUT_CAPACITY) (replicate (BUFFER_SIZE * 2) x00) 0 false
    (mkClocks nano time 0 0 0 0 0 0).

Definition set_config (v : ServerConfig) (s : Server) : Server :=
  mkServer v (client_fds s) (date s) (hot_json_buf s) (hot_data_lake s) (sync_now s) (buffers s)
    (released_buffers s) (client_out_buffers s) (hot_internal_cache s) (universal_counter s)
    (io_send_busy s) (clocks s).

Definition get_sqpoll_idle (s : Server) : N := sqpoll_idle (config s).
Definition get_workers (s : Server) : N := workers (config s).
Definition set_workers (n : N) (s : Server) : Server :=
  let c := config s in
  set_config (mkConfig (addr c) n (uring_size c) (sqpoll_enabled c) (sqpoll_idle c)
    (realtime c) (ub_kernel_dma c)) s.
Definition get_sqpoll_enabled (s : Server) : bool := sqpoll_enabled (config s).
Definition set_sqpoll_enabled (enabled : bool) (s : Server) : Server :=
  let c := config s in
  set_config (mkConfig (addr c) (workers c) (uring_size c) enabled (sqpoll_idle c)
    (realtime c) (ub_kernel_dma c)) s.
Definition set_uring_size (n : N) (s : Server) : Server :=
  let c := config s in
  set_config (mkConfig (addr c) (workers c) n (sqpoll_enabled c) (sqpoll_idle c)
    (realtime c) (ub_kernel_dma c)) s.
Definition set_sqpoll_idle (n : N) (s : Server) : Server :=
  let c := config s in
  set_config (mkConfig (addr c) (workers c) (uring_size c) (sqpoll_enabled c) n
    (realtime c) (ub_kernel_dma c)) s.
Definition get_realtime (s : Server) : bool := realtime (config s).
Definition set_realtime (enabled : bool) (s : Server) : Server :=
  let c := config s in
  set_config (mkConfig (addr c) (workers c) (uring_size c) (sqpoll_enabled c) (sqpoll_idle c)
    enabled (ub_kernel_dma c)) s.
Definition get_ub_kernel_dma (s : Server) : bool := ub_kernel_dma (config s).
Definition set_ub_kernel_dma (enabled : bool) (s : Server) : Server :=
  let c := config s in
  set_config (mkConfig (addr c) (workers c) (uring_size c) (sqpoll_enabled c) (sqpoll_idle c)
    (realtime c) enabled) s.

(** [self.clone()] *)
Definition build (s : Server) : Server := clone s.

(** The server [main] builds from the command line. *)
Definition main_server (args : list bytes) (cpus : nat) (nano time : Z) : Server :=
  build (set_ub_kernel_dma (existsb (λ arg, bool_decide (arg = byte_str "--ubdma")) args)
    (set_realtime false (set_uring_size 4096 (set_sqpoll_idle 0 (set_sqpoll_enabled false
      (new (byte_str "0.0.0.0:8080") cpus nano time)))))).

(** A server before [sq_poll]. *)
Record fresh (s : Server) : Prop := {
  fresh_fds : sv_slots (client_fds s) = [];
  fresh_out : sv_slots (client_out_buffers s) = [];
  fresh_capacity : OUT_CAPACITY ≤ sv_capacity (client_out_buffers s);
  fresh_released : released_buffers s = [];
  fresh_buffers : buffers s = replicate BUFFERS_COUNT (replicate BUFFER_SIZE x00);
  fresh_cache : length (hot_internal_cache s) = 2 * BUFFER_SIZE;
  fresh_date : length (date s) = 35;
  fresh_sync : sync_now s = true;
}.
End api.

Section settings.
Context `{LakeLaws, JsonLaws, StableVecLaws, RingLaws, SocketOps}.

Lemma new_fresh addr cpus nano time : fresh (new addr cpus nano time).
Proof.
  split; cbn; rewrite ?length_replicate; try done.
  - apply sv_slots_new.
  - apply sv_slots_with_capacity.
  - apply sv_capacity_with_capacity.
Qed.

Lemma set_config_fresh c s : fresh s → fresh (set_config c s).
Proof. by intros []. Qed.

Lemma clone_fresh s : fresh s → fresh (clone s).
Proof.
  intros [Hf Ho Hc Hr Hb Hh Hd Hs]. split; try done; cbn.
  - by rewrite sv_clone_slots, Hf.
  - by rewrite sv_clone_slots, Ho.
  - pose proof (sv_clone_capacity lake_clone (client_out_buffers s)). lia.
Qed.

(** The server [main] builds starts with no client and all kernel buffers, runs
    in UBDMA mode exactly when the command line says so, and asks for one worker
    per processor, modulo 256. *)
Lemma main_server_spec args cpus nano time :
  let s := main_server args cpus nano time in
  fresh s ∧ ub_kernel_dma (config s) = bool_decide (byte_str "--ubdma" ∈ args) ∧
  realtime (config s) = false ∧ get_workers s = default_workers cpus.
Proof.
  cbv zeta. unfold main_server. split; [|split; [|done]].
  - apply clone_fresh. do 5 apply set_config_fresh. apply new_fresh.
  - cbn. apply eq_true_iff_eq. rewrite existsb_exists, bool_decide_eq_true, list_elem_of_In.
    split; [by intros (a & ? & ->%bool_decide_eq_true)|].
    intros Hin. exists (byte_str "--ubdma"). by rewrite bool_decide_eq_true.
Qed.
End settings.
