(* ===== verification/Worker.v ===== *)
(** Theorems about the worker as a whole: the set-up before the loop
    establishes the invariant, an idle iteration flushes the answers, and the
    hazard between a queued send and the next reply. *)
From S2P Require Import Prelude Config Avx Http Trim Shift Crates UserData Uring IoState.
From S2P Require Import Handler Sockets Server Replies Buffers Sends Connections Ubdma.
From S2P Require Import Invariant EventLoop Api.

Section setup.
Context `{LakeLaws, JsonLaws, StableVecLaws, RingLaws, SocketOps}.

Lemma push_times_eq n e w :
  sq_len (ring w) + n ≤ sq_capacity (ring w) →
  ∃ r, push_times n e w = Ret (IoOk tt, with_ring r w) ∧
    sq_entries r = sq_entries (ring w) ++ replicate n e ∧
    sq_capacity r = sq_capacity (ring w) ∧ cq_len r = cq_len (ring w).
Proof.
  revert w. induction n as [|n IH]; intros w Hroom.
  { exists (ring w). rewrite app_nil_r. split; [|done]. by destruct w. }
  destruct (sq_push_fits e (ring w)) as (r & Hp & He & Hc & Hq); [lia|].
  assert (Hstep : push_unwrap e w = Ret (IoOk tt, with_ring r w)).
  { unfold push_unwrap. srun. by rewrite Hp. }
  destruct (IH (with_ring r w)) as (r' & Heq & He' & Hc' & Hq').
  { cbn. rewrite !sq_len_entries in *. rewrite He, Hc, length_app. cbn. lia. }
  exists r'. cbn [push_times]. rewrite (bind_ok _ _ _ _ _ Hstep), Heq.
  split; [done|]. rewrite He', Hc', Hq'. cbn. rewrite He, <- app_assoc. done.
Qed.

Lemma reserve_slots n (v : StableVec Z) :
  sv_slots (Nat.iter n (λ v, (sv_push 0xFFFF%Z v).2) v) =
    sv_slots v ++ replicate n (Some 0xFFFF%Z).
Proof.
  induction n as [|n IH]; [by rewrite app_nil_r|].
  rewrite Nat.iter_succ, sv_push_slots, IH, <- app_assoc, <- replicate_S_end. done.
Qed.

Lemma slot_replicate {A} n (a : A) i : i < n → slot (replicate n (Some a)) i = Some a.
Proof. intros Hi. unfold slot. by rewrite lookup_replicate_2. Qed.

Lemma reserved_inv w fds :
  fresh (srv w) → pointer_ok (ub_kernel_dma (config (srv w))) (kernel_buf w) →
  sv_slots fds = replicate RESERVED (Some 0xFFFF%Z) →
  ∀ bufs, same_shape (buffers (srv w)) bufs →
  ∀ clk r sys, inv (mkWorld (set_clocks clk (set_client_fds fds (set_buffers bufs (srv w)))) r (kernel_buf w) sys).
Proof.
  intros [Hfd Hov Hcap Hrel Hbuf Hcache Hdate Hsync] Hk Hs bufs Hsh clk r sys.
  assert (Hshape : srv_shape (set_buffers bufs (srv w))).
  { apply shape_kernel_write; [done|]. split; try done.
    - by rewrite Hbuf, length_replicate.
    - rewrite Hbuf. apply Forall_replicate. apply length_replicate. }
  split; [|change (length (released_buffers (srv w)) < release_part); rewrite Hrel, release_part_eq; cbn; lia].
  assert (Hout : ∀ cid, sv_get (client_out_buffers (srv w)) cid = None)
    by (intros cid; rewrite sv_get_slot, Hov; by apply slot_ge; cbn; lia).
  split; cbn.
  - by destruct Hshape; split.
  - by rewrite Hrel.
  - intros cid. rewrite Hout. by intros [].
  - intros cid Hid. rewrite sv_get_slot, Hs, slot_ge; [by intros []|].
    by rewrite length_replicate.
  - intros cid. rewrite Hout. by intros [].
  - unfold next_id. cbn. by rewrite Hs, length_replicate.
  - intros cid Hid. rewrite sv_get_slot, Hs, slot_replicate; [by eexists|done].
  - done.
Qed.

(** The entries a set-up queues: every kernel buffer, then the accepts. *)
Definition provide_all : list Entry := provide_entry <$> seq 0 BUFFERS_COUNT.

Lemma register_buffers_spec w :
  sq_len (ring w) + BUFFERS_COUNT ≤ sq_capacity (ring w) →
  ∃ res bufs r, register_buffers w =
      Ret (res, mkWorld (set_buffers bufs (srv w)) r (kernel_buf w) (syscalls w)) ∧
    same_shape (buffers (srv w)) bufs ∧ sq_capacity r = sq_capacity (ring w) ∧
    ∃ k, sq_entries r = drop k (sq_entries (ring w) ++ provide_all).
Proof.
  intros Hroom. unfold register_buffers. srun.
  destruct (push_retry_fits RETRY_FUEL provide_all (ring w)) as (r1 & Hp & _ & He & Hc & _).
  { unfold RETRY_FUEL. lia. } { unfold provide_all. by rewrite length_fmap, length_seq. }
  fold provide_entry. unfold provide_all, provide_entry in Hp.
  unfold do_push_retry. rewrite bind_eq. srun. unfold modify at 1, do_sync. srun.
  set (w1 := upd_ring sq_sync _).
  pose proof (submit_and_wait_shape BUFFERS_COUNT (kmem_of (srv w1)) (ring w1)) as Hs.
  pose proof (submit_and_wait_capacity BUFFERS_COUNT (kmem_of (srv w1)) (ring w1)) as Hcap.
  pose proof (submit_and_wait_entries BUFFERS_COUNT (kmem_of (srv w1)) (ring w1)) as Hen.
  rewrite bind_eq. unfold do_submit_and_wait.
  destruct (submit_and_wait BUFFERS_COUNT (kmem_of (srv w1)) (ring w1)) as [[res bufs] r2].
  cbn [fst snd] in *. destruct (sq_sync_entries r1) as [k Hk].
  assert (Hk2 : sq_entries r2 = drop k (sq_entries (ring w) ++ provide_all))
    by (rewrite Hen, <- He, <- Hk; done).
  assert (Hc2 : sq_capacity r2 = sq_capacity (ring w))
    by (rewrite Hcap; cbn; by rewrite sq_sync_capacity).
  destruct res as [n|e]; eexists _, bufs, r2; (split; [done|]); by eauto.
Qed.

(** What the set-up makes of a fresh world when no system call fails: the pointer
    and the out buffers stay, the kernel wrote inside the buffers. *)
Record set_up (listener : Z) (w w' : World) : Prop := {
  su_world : ∃ bufs fds clk, same_shape (buffers (srv w)) bufs ∧
    sv_slots fds = replicate RESERVED (Some 0xFFFF%Z) ∧
    w' = mkWorld (set_clocks clk (set_client_fds fds (set_buffers bufs (srv w)))) (ring w')
      (kernel_buf w) (attach_reuseport_cbpf listener ++ syscalls w);
  su_entries : ∃ k, sq_entries (ring w') =
    drop k provide_all ++ replicate 16 (accept_multi listener);
}.

Lemma sq_poll_setup_helper listener w :
  fresh (srv w) → sq_entries (ring w) = [] → BUFFERS_COUNT + 16 ≤ sq_capacity (ring w) →
  runs (sq_poll_setup listener) w (λ res w',
    match res with IoErr _ => True | IoOk _ => set_up listener w w' end).
Proof.
  intros Hf He Hroom. assert (Hl : sq_len (ring w) = 0) by by rewrite sq_len_entries, He.
  destruct (register_buffers_spec w) as (res & bufs & r & Hreg & Hsh & Hc & k & Hek); [lia|].
  unfold sq_poll_setup. apply runs_bind. eexists res, _. split; [exact Hreg|].
  destruct res as [[]|e]; [|done]. apply runs_bind_modify. set (w1 := log_syscalls _ _).
  destruct (push_times_eq DEFAULT_ACCEPT_MULTIPLICATOR (accept_multi listener) w1)
    as (r1 & Hpush & He1 & Hc1 & _).
  { change (ring w1) with r. rewrite sq_len_entries, Hek, Hc, He, length_drop. cbn [app].
    unfold provide_all. rewrite length_fmap, length_seq. change DEFAULT_ACCEPT_MULTIPLICATOR with 16. lia. }
  apply runs_bind. eexists _, _. split; [exact Hpush|]. set (w2 := with_ring r1 w1).
  apply runs_bind.
  pose proof (submit_shape (kmem_of (srv w2)) (ring w2)) as Hsh2.
  pose proof (submit_entries (kmem_of (srv w2)) (ring w2)) as Hen2.
  assert (Heq : ∃ res, do_submit w2 = Ret (res,
    mkWorld (set_buffers (submit (kmem_of (srv w2)) (ring w2)).1.2 (srv w2))
      (submit (kmem_of (srv w2)) (ring w2)).2 (kernel_buf w2) (syscalls w2))).
  { unfold do_submit. destruct (submit _ _) as [[res b] r2]. by exists res. }
  destruct Heq as [res Heq]. eexists res, _. split; [exact Heq|].
  destruct res as [n|e]; [|done]. set (b2 := (submit _ _).1.2) in *. set (r2 := (submit _ _).2) in *.
  apply runs_bind_modify. apply runs_bind. unfold runs at 1, do_register_files.
  destruct (register_files _ _) as [res r3] eqn:Hrf. eexists res, _. split; [done|].
  destruct res as [[]|e]; [|done].
  eexists (IoOk tt), _. split; [reflexivity|].
  pose proof (reserve_slots 100 (client_fds (srv w))) as Hslots.
  rewrite (fresh_fds _ Hf) in Hslots.
  split.
  - eexists _, _, _. split; [|split; [exact Hslots|reflexivity]].
    unfold same_shape in *. by rewrite Hsh.
  - exists k. cbn. pose proof (register_files_entries (replicate 1024 (-1)%Z)
      (ring (upd_srv (λ s, set_client_fds (Nat.iter 100 (λ v, (sv_push 0xFFFF%Z v).2) (client_fds s)) s)
        (mkWorld (set_buffers b2 (srv w2)) r2 (kernel_buf w2) (syscalls w2))))) as Hen3.
    rewrite Hrf in Hen3. cbn in Hen3. rewrite Hen3, Hen2. change (ring w2) with r1.
    rewrite He1. change (ring w1) with r. by rewrite Hek, He.
Qed.

Lemma sq_poll_setup_spec listener w :
  fresh (srv w) → pointer_ok (ub_kernel_dma (config (srv w))) (kernel_buf w) →
  sq_entries (ring w) = [] → BUFFERS_COUNT + 16 ≤ sq_capacity (ring w) →
  runs (sq_poll_setup listener) w (λ res w', match res with
    | IoErr _ => True
    | IoOk _ => inv w' ∧ next_id (srv w') = RESERVED ∧
        client_out_buffers (srv w') = client_out_buffers (srv w) ∧ sync_now (srv w') = true ∧
        syscalls w' = attach_reuseport_cbpf listener ++ syscalls w ∧
        ∃ k, sq_entries (ring w') =
          drop k provide_all ++ replicate 16 (accept_multi listener)
    end).
Proof.
  intros Hf Hk He Hroom. eapply runs_weaken; [by apply sq_poll_setup_helper|].
  intros [u|e] w'; [|done]. intros [(bufs & fds & clk & Hsh & Hslots & Hw) Hent].
  assert (Hi : inv w') by (rewrite Hw; by apply (reserved_inv w)).
  assert (Hn : next_id (srv w') = RESERVED)
    by (rewrite Hw; unfold next_id; cbn; by rewrite Hslots, length_replicate).
  split_and!; [done|done|by rewrite Hw|rewrite Hw; apply (fresh_sync _ Hf)|by rewrite Hw|done].
Qed.

End setup.

Section flush.
Context `{LakeLaws, JsonLaws, StableVecLaws, RingLaws, SocketOps}.
Context (oc : bool).

(** C16: an iteration that starts with no pending completion hands every
    pending answer to the submission queue, one send per client in client
    order, empties exactly the buffers it queued, and keeps the invariant. *)
Theorem loop_head_flushes t w :
  inv w → length (t_date t) = DATE_SIZE → flush_room w → 4 ≤ sq_capacity (ring w) →
  runs (loop_head oc t) w (λ _ w', inv w' ∧ (cq_len (ring w) = 0 → flushed_to w w')).
Proof.
  intros Hi Hd Hr Hc. eapply runs_weaken; [by apply loop_head_keeps|].
  intros r w' (? & _ & Hh). split; [done|]. intros Hq. unfold headed in Hh. by rewrite Hq in Hh.
Qed.

(** The clock of the loop: when the second changes, the counters of the
    past second become the published ones, start again from zero, and the date
    header is replaced; within a second only the clock readings change. The
    count of connections never underflows. *)
Theorem update_metrics_correct t w :
  inv w →
  update_metrics oc t w = Ret (IoOk tt, upd_srv (λ s,
    let c := set_time t (clocks s) in
    if (t_clock t =? synced (clocks s))%Z then set_clocks c s
    else set_date (t_date t) (set_clocks (roll_metrics c) s)) w).
Proof. apply update_metrics_eq. Qed.

(** The send of [n] bytes of a client's out buffer. *)
Definition send_entry (cid : nat) (fd : Z) (n : nat) : Entry :=
  send (user_tag cid SEND_EVENT) fd (PClientBuf cid, n) false.

Lemma lake_prefix {n} (l : SmallLake n) : take (length (lake_data l)) (lake_buf l) = lake_data l.
Proof. rewrite lake_data_length, lake_len_pos. done. Qed.

(** C32: a send that is queued but not yet submitted does not own its bytes: the
    flush resets the client's buffer, and when a completion of the same client
    is handled before the next submission, the reply is written over the bytes
    the queued entry still points to. *)
Theorem queued_send_overwritten w w1 w2 user result flags fd lake :
  let cid := N.to_nat (client_id user) in
  inv w → sq_len (ring w) + length (pending_sends (srv w)) ≤ sq_capacity (ring w) →
  sv_get (client_fds (srv w)) cid = Some fd →
  sv_get (client_out_buffers (srv w)) cid = Some lake → lake_data lake ≠ [] →
  wideband_send w = Ret (IoOk tt, w1) →
  (0 ≤ result ≤ Z.of_nat BUFFER_SIZE)%Z → replyable w1 user result flags →
  S (length (released_buffers (srv w))) < release_part →
  request_reply oc flags user result w1 = Ret (IoOk tt, w2) →
  send_entry cid fd (length (lake_data lake)) ∈ sq_entries (ring w2) ∧
  ∃ buf mem, let new := responses (date (srv w)) (requests MAX_REQUESTS (take (Z.to_nat result) buf)) in
    km_out (kmem_of (srv w2)) cid = Some mem ∧ take (length new) mem = new.
Proof.
  intros cid Hi Hroom Hfd Hlk Hne Hw1 Hres Hok Hrel Hw2.
  destruct (wideband_send_spec w Hroom) as (w1' & Heq & Hs & He & _).
  rewrite Heq in Hw1. injection Hw1 as ->.
  assert (Hi1 : inv w1).
  { eapply sent_inv; [done..|]. destruct (wideband_send_spec w Hroom) as (? & Heq' & _ & _ & _ & _ & Hk & _).
    congruence. }
  destruct (inv_lookup w1 _ (proj1 Hi1) (rb_id _ _ _ _ Hok)) as (buf & Hb & Hl).
  destruct (rb_fits _ _ _ _ Hok buf Hb) as (lake1 & Hlk1 & Hfit).
  destruct (request_reply_helper oc flags user result w1 buf lake1) as (s' & Hrp & Heq2);
    [apply Hi1|done|done|by apply (rb_boundary _ _ _ _ Hok)|done|done|].
  cbv zeta in Heq2. rewrite Hw2 in Heq2.
  assert (Hlen : length (released_buffers s') = S (length (released_buffers (srv w)))).
  { rewrite (rp_released _ _ _ _ _ _ Hrp), length_app, (sent_released _ _ Hs). cbn. lia. }
  rewrite (proj2 (Nat.eqb_neq _ _)) in Heq2 by lia. injection Heq2 as ->.
  assert (Hsend : send_of (client_fds (srv w)) (cid, lake) =
    Some (send_entry cid fd (length (lake_data lake)))).
  { unfold send_of. cbn [fst snd]. rewrite Hfd, <- lake_data_length.
    destruct (lake_data lake) as [|b l] eqn:Hd; [done|]. cbn. unfold send_entry, send. cbn.
    rewrite <- lake_len_pos, <- lake_data_length, Hd. done. }
  split.
  - cbn [ring]. rewrite He. apply elem_of_app. right. apply list_elem_of_omap.
    exists (cid, lake). split; [|done]. by apply sv_iter_elem.
  - destruct (rp_out _ _ _ _ _ _ Hrp) as (l & l' & Hg & Hg' & Hd).
    exists buf, (lake_buf l'). cbv zeta. fold cid in Hg, Hg'. split.
    { change (lake_buf <$> sv_get (client_out_buffers s') cid = Some (lake_buf l')). by rewrite Hg'. }
    rewrite (sent_out _ _ Hs), Hlk in Hg. cbn in Hg. unfold flushed in Hg. rewrite Hsend in Hg.
    injection Hg as <-. rewrite lake_data_reset in Hd. cbn [app] in Hd.
    rewrite <- (sent_date _ _ Hs), <- Hd. apply lake_prefix.
Qed.
End flush.
