(* ===== verification/Program.v ===== *)
(** The program: a worker thread from its listener to its restarts, [sq_poll] as
    a whole, the start of the workers in [run] of [src/library/server.rs], and
    [main] of [src/main.rs]. *)
From S2P Require Import Prelude Config Avx Http Trim Shift Crates UserData Uring IoState.
From S2P Require Import Listener Handler Sockets Server Replies Buffers Sends Connections Ubdma.
From S2P Require Import Invariant EventLoop Api Worker.

(** * Definitions *)

Section definitions.
Context `{Lake, Json, StableVecOps, RingOps, SocketOps, Socket2}.
Context (oc : bool).

(** What one instance of a worker meets: the answer of [Builder::build], and the
    clock readings of its iterations. *)
Record Life := mkLife {
  life_ring : list builder_call → N → io Ring;
  life_ticks : list Tick;
}.

(** What a worker thread keeps from one instance to the next: the thread-local
    pointer, the system calls of the sockets and those of the listeners. *)
Record Thread := mkThread {
  th_kernel_buf : option nat;
  th_syscalls : list syscall;
  th_sockets : Log;
}.

(** When an instance is dropped, the thread-local pointer keeps the address it
    had in the buffers of that instance. A pointer of the model names a buffer of
    the instance it is used with; one into a dropped instance names none of
    those, which a number from [BUFFERS_COUNT] on says: reading through it is a
    read outside of every live buffer. *)
Definition dangling (p : option nat) : option nat := Nat.add BUFFERS_COUNT <$> p.

Definition build_uring (env : Life) (size sqpoll_idle affinity : N) (use_sqpoll : bool) : io Ring :=
  life_ring env (uring_setup sqpoll_idle affinity use_sqpoll) size.

(** [sq_poll]: the error of the ring, or how far the loop came. It leaves the
    loop only with an error; [IoOk] says that it still runs. *)
Definition sq_poll (fuel : nat) (env : Life) (listener : Z) (sqpoll_idle affinity : N)
    (instance : Server) (t : Thread) : outcome (Z + io unit * World) :=
  let c := config instance in
  match build_uring env (uring_size c) sqpoll_idle affinity (sqpoll_enabled c) with
  | IoErr e => Ret (inl e)
  | IoOk r =>
      inr <$> (sq_poll_setup listener;; iterations oc fuel (life_ticks env))
                (mkWorld instance r (th_kernel_buf t) (th_syscalls t))
  end.

Inductive ending :=
  | Running (w : World)
  | Failed (errno : Z) (t : Thread).

(** One turn of the [loop] of a worker thread: a new instance, its listener, and
    [sq_poll], after which listener, ring and instance are dropped. *)
Definition worker_life (fuel : nat) (server : Server) (thread : N) (env : Life) (t : Thread) :
    outcome ending :=
  let instance := clone server in
  '(listener, sockets) ← build_listener (addr (config instance)) (th_sockets t);
  match listener with
  | IoErr _ => Panic
  | IoOk listener =>
      res ← sq_poll fuel env listener (sqpoll_idle (config server)) thread instance t;
      let sockets := sockets ++ [CloseSocket listener] in
      match res with
      | inl e => Ret (Failed e (mkThread (th_kernel_buf t) (th_syscalls t) sockets))
      | inr (IoOk _, w) => Ret (Running w)
      | inr (IoErr e, w) => Ret (Failed e (mkThread (dangling (kernel_buf w)) (syscalls w) sockets))
      end
  end.

(** The [loop], for the lives given: the world of the instance that still runs, or
    the thread between two instances. *)
Fixpoint worker_loop (fuel : nat) (server : Server) (thread : N) (envs : list Life) (t : Thread) :
    outcome (Thread + World) :=
  match envs with
  | [] => Ret (inl t)
  | env :: envs =>
      e ← worker_life fuel server thread env t;
      match e with
      | Running w => Ret (inr w)
      | Failed _ t => worker_loop fuel server thread envs t
      end
  end.

(** A worker thread, on its own clone of the server: [core_ids[thread as usize]]
    panics when there are fewer cores; a failed [set_for_current] is only
    logged. *)
Definition worker_thread (fuel : nat) (server : Server) (cores thread : nat) (envs : list Life) :
    outcome (Thread + World) :=
  let server := clone server in
  if thread <? cores
  then worker_loop fuel server (N.of_nat thread) envs (mkThread None [] [])
  else Panic.

(** The threads spawned, each with the number of cores it was told. *)
Fixpoint spawn_workers (core_ids : nat → option nat) (spawn : nat → io unit) (threads : list nat) :
    outcome (io (list (nat * nat))) :=
  match threads with
  | [] => Ret (IoOk [])
  | thread :: threads =>
      cores ← match core_ids thread with Some n => Ret n | None => Panic end;
      match spawn thread with
      | IoErr e => Ret (IoErr e)
      | IoOk _ =>
          r ← spawn_workers core_ids spawn threads;
          Ret (match r with IoOk ws => IoOk ((thread, cores) :: ws) | IoErr e => IoErr e end)
      end
  end.

Inductive run_end :=
  | Returned (r : io unit)
  | Parked (workers : list (nat * nat)).

(** [run]: refuses the settings, fails to start a thread, or parks for ever. *)
Definition run (server : Server) (core_ids : nat → option nat) (spawn : nat → io unit) :
    outcome run_end :=
  if realtime (config server) && ub_kernel_dma (config server) then
    log_kernel_error (byte_str "realtime and ub dma is incompatible.") (byte_str "RT_DMA_CONFLICT");;
    Ret (Returned (IoOk tt))
  else
    r ← spawn_workers core_ids spawn (seq 0 (N.to_nat (get_workers server)));
    match r with
    | IoErr e => Ret (Returned (IoErr e))
    | IoOk ws => Ret (Parked ws)
    end.

(** [main], with the answers of the system: [server::run(server).unwrap()]. *)
Definition main (args : list bytes) (cpus : nat) (nano time : Z)
    (core_ids : nat → option nat) (spawn : nat → io unit) : outcome (list (nat * nat)) :=
  e ← run (main_server args cpus nano time) core_ids spawn;
  match e with
  | Returned (IoErr _) => Panic
  | Returned (IoOk _) => Ret []
  | Parked ws => Ret ws
  end.
End definitions.

(** * Starting *)

Section start.
Context `{LakeLaws, JsonLaws, StableVecLaws, RingLaws, SocketOps}.

Lemma spawn_workers_all core_ids spawn threads :
  Forall (λ i, is_Some (core_ids i) ∧ spawn i = IoOk tt) threads →
  spawn_workers core_ids spawn threads = Ret (IoOk ((λ i, (i, default 0 (core_ids i))) <$> threads)).
Proof.
  induction 1 as [|i threads [[n Hn] Hs] _ IH]; [done|]. cbn. by rewrite Hn, Hs, bind_ret_l, IH.
Qed.

(** C18: with fewer than 256 processors, and when the core ids can be read and
    every thread can be spawned, [main] starts one worker thread per processor
    and parks, whatever the command line; the guard of [run] never stops it. *)
Theorem main_starts_workers args cpus nano time core_ids spawn :
  cpus < 256 →
  (∀ i, i < cpus `max` 1 → is_Some (core_ids i) ∧ spawn i = IoOk tt) →
  main args cpus nano time core_ids spawn =
    Ret ((λ i, (i, default 0 (core_ids i))) <$> seq 0 (cpus `max` 1)).
Proof.
  intros Hc Hall. destruct (main_server_spec args cpus nano time) as (_ & _ & Hr & Hw).
  cbv zeta in *. unfold main, run. rewrite Hr, Hw. cbn [andb]. unfold default_workers.
  rewrite N.mod_small, Nat2N.id by lia. rewrite spawn_workers_all; [done|].
  apply list.Forall_forall. intros i Hi%elem_of_seq. apply Hall. lia.
Qed.

(** [run] on the settings it refuses does not come back. *)
Theorem run_refuses s core_ids spawn :
  realtime (config s) = true → ub_kernel_dma (config s) = true → run s core_ids spawn = UB.
Proof. intros Hr Hu. unfold run. by rewrite Hr, Hu. Qed.
End start.

(** * A worker thread *)

Section worker.
Context `{LakeLaws, JsonLaws, StableVecLaws, RingLaws, SocketOps, Socket2}.
Context (oc : bool).

(** What one life needs: a listener; a ring that, when it is built, is empty and
    has the entries asked for; and an environment for the loop. *)
Definition life_ok (fuel : nat) (s : Server) (thread : N) (env : Life) (t : Thread) : Prop :=
  ∃ listener log, build_listener (addr (config s)) (th_sockets t) = Ret (IoOk listener, log) ∧
  let c := config s in
  ∀ r, build_uring env (uring_size c) (sqpoll_idle c) thread (sqpoll_enabled c) = IoOk r →
    sq_entries r = [] ∧ N.to_nat (uring_size c) ≤ sq_capacity r ∧
    ∀ w, sq_poll_setup listener (mkWorld (clone s) r (th_kernel_buf t) (th_syscalls t)) = Ret (IoOk tt, w) →
      environment_ok oc fuel w (life_ticks env).

Fixpoint lives_ok (fuel : nat) (s : Server) (thread : N) (envs : list Life) (t : Thread) : Prop :=
  match envs with
  | [] => True
  | env :: envs => life_ok fuel s thread env t ∧
      ∀ e t', worker_life oc fuel s thread env t = Ret (Failed e t') →
        lives_ok fuel s thread envs t'
  end.

Lemma sq_poll_safe fuel env listener thread s t :
  fresh s → BUFFERS_COUNT + 16 ≤ N.to_nat (uring_size (config s)) →
  pointer_ok (ub_kernel_dma (config s)) (th_kernel_buf t) →
  (let c := config s in
   ∀ r, build_uring env (uring_size c) (sqpoll_idle c) thread (sqpoll_enabled c) = IoOk r →
     sq_entries r = [] ∧ N.to_nat (uring_size c) ≤ sq_capacity r ∧
     ∀ w, sq_poll_setup listener (mkWorld s r (th_kernel_buf t) (th_syscalls t)) = Ret (IoOk tt, w) →
       environment_ok oc fuel w (life_ticks env)) →
  ∃ res, sq_poll oc fuel env listener (sqpoll_idle (config s)) thread s t = Ret res ∧
    match res with inr (IoOk _, w) => inv w | _ => True end.
Proof.
  intros Hf Hsz Hp Hr. cbv zeta in Hr. unfold sq_poll. cbv zeta.
  destruct (build_uring _ _ _ _ _) as [r|e] eqn:Hb; [|by eexists].
  destruct (Hr r eq_refl) as (He & Hc & Henv). set (w0 := mkWorld s r _ _) in *.
  destruct (sq_poll_setup_spec listener w0) as (res & w & Hset & Hw); [done|done|done|cbn; lia|].
  rewrite bind_eq, Hset. destruct res as [[]|e]; [|by eexists].
  destruct (iterations_helper oc fuel w (life_ticks env)) as (res & w' & -> & [Hi _]);
    [apply Hw|by apply Henv|].
  eexists. split; [done|]. by destruct res.
Qed.

Lemma worker_life_safe fuel s thread env t :
  fresh s → BUFFERS_COUNT + 16 ≤ N.to_nat (uring_size (config s)) →
  pointer_ok (ub_kernel_dma (config s)) (th_kernel_buf t) → life_ok fuel s thread env t →
  ∃ e, worker_life oc fuel s thread env t = Ret e ∧
    match e with Running w => inv w | Failed _ _ => True end.
Proof.
  intros Hf Hsz Hp (listener & log & Hl & Hr). unfold worker_life. cbv zeta.
  change (addr (config (clone s))) with (addr (config s)). rewrite Hl, bind_ret_l.
  destruct (sq_poll_safe fuel env listener thread (clone s) t (clone_fresh s Hf) Hsz Hp Hr)
    as (res & Hpoll & Hres).
  change (sqpoll_idle (config s)) with (sqpoll_idle (config (clone s))). rewrite Hpoll.
  rewrite bind_ret_l. destruct res as [e|[[u|e] w]]; by eexists.
Qed.

(** C3: a worker thread is safe from its start through every restart: as long as
    each of its lives gets a listener, a ring of the size asked for and a
    well-behaved kernel, no life panics, meets undefined behaviour or gets
    stuck, and an instance that still runs satisfies the invariant. In UBDMA
    mode this holds of the first life only. *)
Theorem worker_safe fuel s cores thread envs :
  fresh s → BUFFERS_COUNT + 16 ≤ N.to_nat (uring_size (config s)) → thread < cores →
  (ub_kernel_dma (config s) = true → length envs ≤ 1) →
  lives_ok fuel (clone s) (N.of_nat thread) envs (mkThread None [] []) →
  ∃ st, worker_thread oc fuel s cores thread envs = Ret st ∧
    match st with inl _ => True | inr w => inv w end.
Proof.
  intros Hf%clone_fresh Hsz Hcore Hub Hok. unfold worker_thread. cbv zeta.
  change (config s) with (config (clone s)) in Hsz, Hub. generalize dependent (clone s). clear s.
  intros s Hf Hsz Hub Hok. rewrite (proj2 (Nat.ltb_lt _ _)) by done.
  assert (Hgen : ∀ t, (envs ≠ [] → pointer_ok (ub_kernel_dma (config s)) (th_kernel_buf t)) →
    lives_ok fuel s (N.of_nat thread) envs t →
    ∃ st, worker_loop oc fuel s (N.of_nat thread) envs t = Ret st ∧
      match st with inl _ => True | inr w => inv w end); [|by apply Hgen].
  clear Hok. induction envs as [|env envs IH]; intros t Hp Hok; [by eexists|].
  destruct Hok as [Hlife Hnext]. cbn [worker_loop].
  destruct (worker_life_safe fuel s (N.of_nat thread) env t) as (e & Heq & He); [done|done|by apply Hp|done|].
  rewrite Heq, bind_ret_l. destruct e as [w|e t']; [by eexists|].
  apply IH; [intros Hu; specialize (Hub Hu); cbn in Hub; lia| |by eapply Hnext].
  intros Hne Hu. specialize (Hub Hu). destruct envs; [done|]. cbn in Hub. lia.
Qed.

(** ** The listener of a life *)

(** The address [main] gives to its server is one the parser accepts. *)
Lemma main_address args cpus nano time :
  parse_socket_addr (addr (config (main_server args cpus nano time))) =
    Some (V4 [0; 0; 0; 0] 8080)%N.
Proof. vm_compute. reflexivity. Qed.

(** C28: each life of a worker of [main] makes a listener on 0.0.0.0:8080, whatever
    the command line. When the life fails later, closing that listener is the
    last thing it does with sockets, so that the next life starts without it;
    when the system refuses the socket or any of the calls that set it up, the
    thread panics at once. *)
Theorem life_listens fuel args cpus nano time thread env t :
  let life := worker_life oc fuel (main_server args cpus nano time) thread env t in
  let log0 := th_sockets t ++ [NewSocket IPV4 STREAM (Some TCP)] in
  match socket_answer (th_sockets t) (NewSocket IPV4 STREAM (Some TCP)) with
  | IoErr _ => life = Panic
  | IoOk listener =>
      let calls := listener_plan listener (V4 [0; 0; 0; 0] 8080)%N in
      (all_accepted log0 calls → ∀ e t', life = Ret (Failed e t') →
         th_sockets t' = log0 ++ calls ++ [CloseSocket listener]) ∧
      (¬ all_accepted log0 calls → life = Panic)
  end.
Proof.
  cbv zeta. unfold worker_life. cbv zeta.
  change (addr (config (clone _))) with (addr (config (main_server args cpus nano time))).
  destruct (build_listener_helper _ _ (th_sockets t) (main_address args cpus nano time))
    as (r & calls & -> & Hr).
  rewrite bind_ret_l. destruct (socket_answer _ _) as [listener|e].
  2: { by destruct Hr as [-> _]. }
  destruct Hr as [(-> & -> & Hall)|(k & c & e & -> & _ & Hk & Hpre & He)].
  - split; [|done]. intros _ e t'.
    destruct (sq_poll _ _ _ _ _ _ _ _) as [[e'|[[u|e'] w]]| | |]; [..|done|done|done];
      rewrite bind_ret_l; [|done|]; intros [= _ <-]; cbn [th_sockets]; by rewrite <- !app_assoc.
  - split; [|done]. intros Hall. destruct (Hall _ _ Hk) as [v Hv]. congruence.
Qed.

(** * Restarts in UBDMA mode *)

Lemma failed_pointer fuel s thread env t e t' :
  worker_life oc fuel s thread env t = Ret (Failed e t') → th_kernel_buf t = None →
  ∀ i, th_kernel_buf t' = Some i → BUFFERS_COUNT ≤ i.
Proof.
  intros Heq Hn i. unfold worker_life in Heq. cbv zeta in Heq.
  destruct (build_listener _ _) as [[[l|] log]| | |]; [|done..]. rewrite bind_ret_l in Heq.
  destruct (sq_poll _ _ _ _ _ _ _ _) as [[e'|[[u|e'] w]]| | |]; [..|done|done|done];
    rewrite bind_ret_l in Heq; [|done|]; injection Heq as <- <-; cbn [th_kernel_buf].
  - by rewrite Hn.
  - intros (j & _ & ->)%fmap_Some. lia.
Qed.
End worker.
