(* ===== verification/Steps.v ===== *)
(** The worker as a transition system: the steps of the loop of [sq_poll], the
    invariant of the reachable states, and the tags of the requests queued in
    them. The loop of [EventLoop] runs along these steps. *)
From stdpp Require Import relations.
From S2P Require Import Prelude Config Avx Http Trim Shift Crates UserData Uring IoState.
From S2P Require Import Handler Sockets Server Replies Buffers Sends Connections Ubdma.
From S2P Require Import Invariant Completions EventLoop Api Worker.

Section steps.
Context `{LakeLaws, JsonLaws, StableVecLaws, RingLaws, SocketOps}.
Context (oc : bool).

(** * Tags *)

(** The operation codes of a client's requests. *)
Definition CLIENT_OPERATIONS : list N := [INIT_REQUEST; POLL_EVENT; SEND_EVENT].

Ltac operation := unfold CLIENT_OPERATIONS; rewrite !elem_of_cons; auto.

(** A tag the worker gives to its requests once [n] ids were assigned: a buffer,
    an accept, or an operation of a client whose id was assigned. *)
Inductive tag_known (n : nat) : N → Prop :=
  | tag_buffer : tag_known n BUFFER_REGISTER_CODE
  | tag_accept : tag_known n CODE_ACCEPT
  | tag_client cid uniq :
      RESERVED ≤ cid < n → uniq ∈ CLIENT_OPERATIONS →
      tag_known n (user_tag cid uniq).

Lemma tag_known_mono n n' code : n ≤ n' → tag_known n code → tag_known n' code.
Proof. intros Hn [| |cid uniq Hc Hu]; constructor; (lia || done). Qed.

(** The requests the worker makes once [n] ids were assigned, with all their
    fields: it hands the kernel its own buffers, whole, and the written part of
    a client's out buffer. *)
Inductive entry_typed (n : nat) : Entry → Prop :=
  | typed_buffer id : id < BUFFERS_COUNT → entry_typed n (provide_entry id)
  | typed_accept fd : entry_typed n (accept_multi fd)
  | typed_poll cid fd :
      RESERVED ≤ cid < n → entry_typed n (poll_add fd (user_tag cid POLL_EVENT))
  | typed_recv cid fd :
      RESERVED ≤ cid < n → entry_typed n (recv_multi fd (user_tag cid INIT_REQUEST))
  | typed_send cid fd len :
      RESERVED ≤ cid < n → 0 < len ≤ DATA_LAKE_SIZE →
      entry_typed n (send (user_tag cid SEND_EVENT) fd (PClientBuf cid, len) false).

Lemma entry_typed_mono n n' e : n ≤ n' → entry_typed n e → entry_typed n' e.
Proof. intros Hn []; constructor; (lia || done). Qed.

Lemma entry_typed_tag n e : entry_typed n e → tag_known n (e_user_data e).
Proof. intros [| |cid fd Hc|cid fd Hc|cid fd len Hc _]; constructor; (done || operation). Qed.

Definition entry_known (s : Server) (e : Entry) : Prop := entry_typed (next_id s) e.

(** * What a step may do *)

(** Ids are assigned upwards and below the capacity of the out buffers, which
    stays; every new request carries a known tag. *)
Record grows (w w' : World) : Prop := {
  gr_capacity :
    sv_capacity (client_out_buffers (srv w')) = sv_capacity (client_out_buffers (srv w));
  gr_ids : next_id (srv w) ≤ next_id (srv w');
  gr_bound : next_id (srv w) ≤ sv_capacity (client_out_buffers (srv w)) →
    next_id (srv w') ≤ sv_capacity (client_out_buffers (srv w));
  gr_queue e : e ∈ sq_entries (ring w') → e ∈ sq_entries (ring w) ∨ entry_known (srv w') e;
}.

#[export] Instance grows_preorder : PreOrder grows.
Proof.
  split; [by intros w; split; auto|].
  intros w1 w2 w3 [Hc1 Hi1 Hb1 Hq1] [Hc2 Hi2 Hb2 Hq2]. split.
  - congruence.
  - lia.
  - rewrite Hc1 in Hb2. auto.
  - intros e He. destruct (Hq2 e He) as [He'|]; [|by right].
    destruct (Hq1 e He') as [|Hk]; [by left|right]. by eapply entry_typed_mono.
Qed.

(** A step that assigns no id and queues nothing. *)
Lemma grows_same w w' :
  next_id (srv w') = next_id (srv w) →
  sv_capacity (client_out_buffers (srv w')) = sv_capacity (client_out_buffers (srv w)) →
  sq_entries (ring w') ⊆ sq_entries (ring w) → grows w w'.
Proof. intros Hn Hc He. split; [done|lia|lia|]. intros e ?%He. by left. Qed.

Lemma drop_subseteq {A} k (l : list A) : drop k l ⊆ l.
Proof. intros x Hx. rewrite <- (take_drop k l). apply elem_of_app. by right. Qed.

Lemma with_ring_grows r w : sq_entries r = sq_entries (ring w) → grows w (with_ring r w).
Proof. intros He. apply grows_same; [done..|]. cbn. by rewrite He. Qed.

Lemma counted_grows w : grows w (counted w).
Proof. by apply grows_same. Qed.

Lemma quiet_grows w w' : quiet w w' → grows w w'.
Proof.
  intros (Hf & Ho & k & He). apply grows_same; [unfold next_id; by rewrite Hf|by rewrite Ho|].
  rewrite He. apply drop_subseteq.
Qed.

(** The sends of a flush carry the tags of clients with an out buffer. *)
Lemma pending_known w e : inv w → e ∈ pending_sends (srv w) → entry_known (srv w) e.
Proof.
  intros [Hw _] He. apply list_elem_of_omap in He as ([cid lake] & Hin & He).
  apply sv_iter_elem in Hin. unfold send_of in He. cbn [fst snd] in He.
  destruct (Nat.eqb_spec (lake_len lake) 0) as [|Hlen]; [done|].
  destruct (sv_get (client_fds (srv w)) cid) as [fd|] eqn:Hfd; [|done].
  injection He as <-. rewrite lake_len_pos in Hlen. pose proof (lake_pos_bound lake).
  apply (typed_send _ cid fd (lake_pos lake)); [split|lia].
  - by eapply (inv_out_id w Hw), mk_is_Some.
  - by eapply sv_get_lt, mk_is_Some.
Qed.

Lemma headed_grows w w' : inv w → headed w w' → grows w w'.
Proof.
  intros Hi Hh. unfold headed in Hh. destruct (_ =? _); [|by apply quiet_grows].
  destruct Hh as (Hf & Hc & _ & k & He).
  assert (Hn : next_id (srv w') = next_id (srv w)) by (unfold next_id; by rewrite Hf).
  split; [done|lia|lia|]. intros e. rewrite He.
  intros [?|Hp]%drop_subseteq%elem_of_app; [by left|right]. unfold entry_known. rewrite Hn.
  by apply pending_known.
Qed.

Lemma release_grows w w' :
  Forall (λ id, id < BUFFERS_COUNT) (released_buffers (srv w)) →
  release_result w (IoOk tt) w' → grows w w'.
Proof.
  intros Hids [((bufs & rel & Hs) & _) [_ (k & He)]].
  assert (Hn : next_id (srv w') = next_id (srv w)) by by rewrite Hs.
  split; [by rewrite Hs|lia|lia|]. intros e. rewrite He.
  intros [?|Hp]%drop_subseteq%elem_of_app; [by left|right].
  apply list_elem_of_fmap in Hp as (id & -> & Hid). constructor.
  by eapply list.Forall_forall in Hids.
Qed.

Lemma push_or_drop_elem e e' (r : Ring) :
  e' ∈ sq_entries (default r (sq_push e r)) → e' ∈ sq_entries r ∨ e' = e.
Proof.
  destruct (decide (sq_len r < sq_capacity r)) as [Hr|Hr].
  - destruct (push_or_drop_room e r Hr) as (-> & _). rewrite elem_of_app, list_elem_of_singleton. done.
  - rewrite sq_push_full by lia. by left.
Qed.

Lemma accept_grows fd w s' sys :
  RESERVED ≤ next_id (srv w) →
  next_id (srv w) < sv_capacity (client_out_buffers (srv w)) → accepted (srv w) fd s' →
  grows w (mkWorld s' (ring_after_accept (srv w) fd (ring w)) (kernel_buf w) sys).
Proof.
  intros Hr Hcap Ha. pose proof (acc_next _ _ _ Ha) as Hn.
  split; cbn [srv ring]; [apply Ha|lia|lia|].
  intros e He. unfold ring_after_accept in He.
  apply push_or_drop_elem in He as [He| ->]; [|right; constructor; lia].
  destruct (ub_kernel_dma _); [|by left].
  destruct (sq_sync_entries (default (ring w)
    (sq_push (poll_add fd (user_tag (next_id (srv w)) POLL_EVENT)) (ring w)))) as [k Hsync].
  rewrite Hsync in He. apply drop_subseteq, push_or_drop_elem in He as [?| ->]; [by left|].
  right. constructor. lia.
Qed.

(** * The handlers *)

Lemma replied_grows w cid buf_id reqs bufs s' :
  replied (srv w) cid buf_id reqs bufs s' →
  grows w (mkWorld s' (ring w) (Some buf_id) (syscalls w)).
Proof.
  intros Hrp. apply grows_same; [unfold next_id; cbn; by rewrite (rp_fds _ _ _ _ _ _ Hrp)| |done].
  apply (rp_capacity _ _ _ _ _ _ Hrp).
Qed.

Lemma poll_grows cid w w' : poll_answered cid w w' → grows w w'.
Proof.
  unfold poll_answered. destruct (kernel_buf w) as [i|]; [|by intros ->].
  intros (buf & s' & _ & -> & Hs'). destruct (ubdma_answers _ _ _).
  - apply grows_same; [unfold next_id; cbn; by rewrite (ub_fds _ _ _ _ Hs')| |done].
    apply (ub_capacity _ _ _ _ Hs').
  - apply grows_same; cbn; by rewrite ?Hs'.
Qed.

Lemma handled_grows w c w' : inv w → handled oc w c w' → grows w w'.
Proof.
  intros [Hw _]. unfold handled. destruct (reading_of oc (srv w) c) as [|fd|u e]; [by intros ->| |].
  { intros (s' & sys & Ha & Hcap & ->). by apply accept_grows; [apply (inv_next w Hw)|..]. }
  destruct e; cbn [client_handled].
  - by intros ->.
  - by apply release_grows, Hw.
  - intros (s' & sys & Hc & ->).
    apply grows_same; [apply (cl_next _ _ _ Hc)|apply (cl_capacity _ _ _ Hc)|done].
  - apply poll_grows.
  - destruct (_ <? _)%Z; [by intros ->|]. intros (buf & s' & _ & Hrp & Hids & [-> |Hrel]);
      [by eapply replied_grows|]. etransitivity; [by eapply replied_grows|]. by eapply release_grows.
Qed.

(** * The transition system *)

(** The moves between which the loop can be observed: its first half, one
    completion, the release of an idle worker. *)
Inductive move := Head (t : Tick) | Completion (c : Cqe) | Release.

(** Each has the room it needs in the submission queue; a completion is one the
    kernel may deliver. *)
Inductive step_by : move → World → World → Prop :=
  | step_head t w w' :
      length (t_date t) = DATE_SIZE → flush_room w → 4 ≤ sq_capacity (ring w) →
      loop_head oc t w = Ret (IoOk tt, w') → step_by (Head t) w w'
  | step_completion c r w w' :
      cq_next (ring w) = Some (c, r) → permitted (with_ring r w) c →
      sq_len r + release_part ≤ sq_capacity r →
      process_entry oc c (with_ring r w) = Ret (IoOk tt, w') →
      step_by (Completion c) w (counted w')
  | step_release w w' :
      sq_len (ring w) + length (released_buffers (srv w)) ≤ sq_capacity (ring w) →
      release_buffers w = Ret (IoOk tt, w') → step_by Release w w'.

Definition step (w w' : World) : Prop := ∃ m, step_by m w w'.

Lemma cq_next_entries (r r' : Ring) c : cq_next r = Some (c, r') → sq_entries r' = sq_entries r.
Proof.
  intros Hn. destruct (decide (cq_len r = 0)) as [Hz|Hz].
  { by rewrite cq_next_none in Hn. }
  destruct (cq_next_some r) as (c1 & r1 & Hn1 & _ & He & _); [lia|].
  rewrite Hn in Hn1. by injection Hn1 as <- <-.
Qed.

Lemma step_inv w w' : step w w' → inv w → inv w'.
Proof.
  intros [_ [t w1 w2 Hd Hf Hc Heq|c r w1 w2 Hn Hp Hroom Heq|w1 w2 Hroom Heq]] Hi.
  - by destruct (runs_result _ _ _ _ _ (loop_head_keeps oc t w1 Hi Hd Hf Hc) Heq) as (? & _).
  - apply counted_inv. eapply (runs_result _ _ (IoOk tt) _ (inv_post (with_ring r w1)));
      [|exact Heq]. apply process_entry_inv_helper; [by apply with_ring_inv|done..].
  - eapply (runs_result _ _ (IoOk tt) _ (inv_post w1)); [|exact Heq].
    apply release_inv; [apply Hi|done].
Qed.

Lemma step_grows w w' : step w w' → inv w → grows w w'.
Proof.
  intros [_ [t w1 w2 Hd Hf Hc Heq|c r w1 w2 Hn Hp Hroom Heq|w1 w2 Hroom Heq]] Hi.
  - apply headed_grows; [done|].
    by destruct (runs_result _ _ _ _ _ (loop_head_keeps oc t w1 Hi Hd Hf Hc) Heq) as (_ & _ & ?).
  - transitivity (with_ring r w1); [by eapply with_ring_grows, cq_next_entries|].
    transitivity w2; [|apply counted_grows].
    apply (handled_grows _ c); [by apply with_ring_inv|].
    by apply process_entry_handled; [apply with_ring_inv|..].
  - apply release_grows; [apply Hi|]. by apply released_handled; [apply Hi|..].
Qed.

Lemma steps_inv w w' : rtc step w w' → inv w → inv w'.
Proof. induction 1; eauto using step_inv. Qed.

Lemma steps_grow w w' : rtc step w w' → inv w → grows w w'.
Proof.
  induction 1 as [|w1 w2 w3 Hs _ IH]; intros Hi; [reflexivity|].
  transitivity w2; [by apply step_grows|]. by eapply IH, step_inv.
Qed.

(** * Reachable states *)

(** The invariant of the reachable states: that of the server, ids below the
    capacity of the out buffers, and known tags in the queue. *)
Record good (w : World) : Prop := {
  good_inv : inv w;
  good_ids : next_id (srv w) ≤ sv_capacity (client_out_buffers (srv w));
  good_queue : Forall (entry_known (srv w)) (sq_entries (ring w));
}.

Lemma steps_good w w' : rtc step w w' → good w → good w'.
Proof.
  intros Hs [Hi Hn Hq]. destruct (steps_grow _ _ Hs Hi) as [Hc Hm Hb He]. split.
  - by eapply steps_inv.
  - rewrite Hc. auto.
  - apply list.Forall_forall. intros e [Hin|]%He; [|done].
    rewrite list.Forall_forall in Hq. by eapply entry_typed_mono, Hq.
Qed.

(** The state of a worker when it enters its loop. *)
Definition started (listener : Z) (w : World) : Prop :=
  ∃ w0, fresh (srv w0) ∧ pointer_ok (ub_kernel_dma (config (srv w0))) (kernel_buf w0) ∧
    sq_entries (ring w0) = [] ∧
    BUFFERS_COUNT + 16 ≤ sq_capacity (ring w0) ∧
    sq_poll_setup listener w0 = Ret (IoOk tt, w).

Lemma started_good listener w : started listener w → good w.
Proof.
  intros (w0 & Hf & Hk & He & Hroom & Heq).
  destruct (runs_result _ _ _ _ _ (sq_poll_setup_spec listener w0 Hf Hk He Hroom) Heq)
    as (Hi & Hn & Ho & _ & _ & k & Hq).
  split; [done| |].
  - rewrite Hn, Ho. pose proof (fresh_capacity _ Hf). pose proof OUT_CAPACITY_Z.
    unfold RESERVED. lia.
  - apply list.Forall_forall. intros e. rewrite Hq, elem_of_app.
    intros [(id & -> & Hid%elem_of_seq)%drop_subseteq%list_elem_of_fmap|[-> _]%elem_of_replicate];
      constructor; lia.
Qed.

(** C5: in every state a started worker can reach, however many completions of
    whatever kinds it has handled, the server's invariant holds, the ids given
    out are below the capacity of the out buffers, and every request in the
    submission queue is a buffer, an accept or an operation of a client whose
    id was given out. *)
Theorem reachable_good listener w w' :
  started listener w → rtc step w w' → good w'.
Proof. intros Hs Hr. eapply steps_good; [done|]. by eapply started_good. Qed.

(** * The completions of requests *)

(** What is left to ask of a completion when its tag is that of a request: room
    for another id behind an accept, and packets that can be answered. *)
Record payload_ok (w : World) (c : Cqe) : Prop := {
  pl_accept : cqe_user_data c = CODE_ACCEPT →
    next_id (srv w) < sv_capacity (client_out_buffers (srv w));
  pl_received u : unpack_user_data oc (cqe_user_data c) = Ret u →
    client_event (ub_kernel_dma (config (srv w))) (uniq_id u) (cqe_result c) = Received →
    (cqe_result c ≤ Z.of_nat BUFFER_SIZE)%Z → replyable w u (cqe_result c) (cqe_flags c);
  pl_readable u : unpack_user_data oc (cqe_user_data c) = Ret u →
    client_event (ub_kernel_dma (config (srv w))) (uniq_id u) (cqe_result c) = Readable →
    ∀ i buf, kernel_buf w = Some i → buffers (srv w) !! i = Some buf →
      no_boundary MAX_REQUESTS (trim_left buf);
}.

Lemma known_permitted n w c :
  tag_known n (cqe_user_data c) → (N.of_nat n ≤ 2 ^ 32)%N → payload_ok w c → permitted w c.
Proof.
  destruct c as [code result flags]. cbn [cqe_user_data]. intros Hk Hn [Ha Hr Hp].
  cbn [cqe_user_data cqe_result cqe_flags] in *.
  destruct Hk as [| |cid uniq Hc Hu].
  - by apply permitted_control.
  - apply permitted_accept. by apply Ha.
  - assert (Hid : (N.of_nat cid mod 2 ^ 32 = N.of_nat cid)%N) by (apply N.mod_small; lia).
    assert (Hsmall : (uniq < 2 ^ 15)%N).
    { unfold CLIENT_OPERATIONS in Hu. rewrite !elem_of_cons in Hu.
      by destruct Hu as [->|[->|[->|?%not_elem_of_nil]]]. }
    unfold user_tag in *. set (u := mkUserData _ 0 uniq) in *.
    assert (Hwf : ud_wf u) by (split; [|split]; cbn; [lia|done|lia]).
    assert (Hunp : unpack_user_data oc (pack_user_data u) = Ret u).
    { apply unpack_pack_helper; cbn; [done| |done]. unfold RESERVED in Hc. lia. }
    apply permitted_client; [done|cbn; lia|done|by apply Hr|by apply Hp].
Qed.

(** C6: the worker asks for nothing it cannot handle: a completion that answers a
    request queued in any earlier state, and whose packet, if it carries one,
    can be answered, is handled without a panic, undefined behaviour or an
    endless retry, and keeps the invariant. The tags of requests need no
    assumption: the kernel copies them. *)
Theorem completions_handled listener w0 w1 w2 e c :
  started listener w0 → rtc step w0 w1 → rtc step w1 w2 →
  e ∈ sq_entries (ring w1) → cqe_user_data c = e_user_data e →
  (N.of_nat (sv_capacity (client_out_buffers (srv w2))) ≤ 2 ^ 32)%N → payload_ok w2 c →
  sq_len (ring w2) + release_part ≤ sq_capacity (ring w2) →
  runs (process_entry oc c) w2 (inv_post w2).
Proof.
  intros Hs H01 H12 He Hc Hcap Hpl Hroom.
  pose proof (steps_good _ _ H01 (started_good _ _ Hs)) as Hg1.
  pose proof (steps_good _ _ H12 Hg1) as Hg2.
  apply process_entry_inv_helper; [apply Hg2| |done].
  apply (known_permitted (next_id (srv w2))); [| |done].
  - rewrite Hc. apply (tag_known_mono (next_id (srv w1))).
    + apply (gr_ids _ _ (steps_grow _ _ H12 (good_inv _ Hg1))).
    + by apply entry_typed_tag, (proj1 (list.Forall_forall _ _) (good_queue _ Hg1)).
  - pose proof (good_ids _ Hg2). lia.
Qed.

(** * The loop runs along the steps *)

Lemma bind_unit_ok (m k : M World unit) w w' :
  (m;; k) w = Ret (IoOk tt, w') → ∃ w1, m w = Ret (IoOk tt, w1) ∧ k w1 = Ret (IoOk tt, w').
Proof. rewrite bind_eq. destruct (m w) as [[[[]|] w1]| | |]; [by eauto|done..]. Qed.

Lemma drain_steps fuel w w' :
  deliverable oc w → drain oc fuel w = Ret (IoOk tt, w') → rtc step w w'.
Proof.
  revert w. induction fuel as [|fuel IH]; intros w Hd Heq; [done|].
  cbn [drain] in Heq. rewrite bind_gets in Heq. cbv beta in Heq.
  destruct Hd as [w Hn|w c r Hn Hp Hroom Hd]; rewrite Hn in Heq; [by injection Heq as <-|].
  rewrite bind_modify in Heq. apply bind_unit_ok in Heq as (w1 & H1' & Heq).
  eapply rtc_l; [eexists; by eapply step_completion|]. apply IH; [by apply Hd|exact Heq].
Qed.

Lemma iteration_steps fuel t w w' :
  iteration_ok oc fuel w t → iteration oc fuel t w = Ret (IoOk tt, w') → rtc step w w'.
Proof.
  intros [Hd Hf Hcap Hdel Hrel] Heq. unfold iteration in Heq.
  apply bind_unit_ok in Heq as (w1 & H1' & Heq).
  apply bind_unit_ok in Heq as (w2 & H2' & Heq).
  destruct (Hdel w1 H1') as [Hdl _]. eapply rtc_l; [eexists; by eapply step_head|].
  etransitivity; [by eapply drain_steps|].
  unfold release_if_idle in Heq. rewrite bind_server in Heq. cbv beta in Heq.
  destruct (_ =? _)%N; [|by injection Heq as <-].
  apply rtc_once. exists Release. apply step_release; [by eapply Hrel|done].
Qed.

Lemma iterations_steps fuel ts w w' :
  environment_ok oc fuel w ts → iterations oc fuel ts w = Ret (IoOk tt, w') → rtc step w w'.
Proof.
  intros He. revert w'. induction He as [w|w t ts Hit _ IH]; intros w' Heq;
    [by injection Heq as <-|].
  cbn [iterations] in Heq. apply bind_unit_ok in Heq as (w1 & H1' & Heq).
  etransitivity; [by eapply iteration_steps|]. by apply IH.
Qed.

(** Every run of the worker's loop is a run of the transition system, so
    what holds of the reachable states holds between the iterations. *)
Theorem iterations_are_steps fuel ts w w' :
  environment_ok oc fuel w ts → iterations oc fuel ts w = Ret (IoOk tt, w') → rtc step w w'.
Proof. apply iterations_steps. Qed.
End steps.
