(* ===== verification/Restart.v ===== *)
(** A worker thread in UBDMA mode after a restart: what the thread-local pointer
    left by the instance before does to the next one. *)
From stdpp Require Import relations.
From S2P Require Import Prelude Config Avx Http Trim Shift Crates UserData Uring IoState.
From S2P Require Import Listener Handler Sockets Server Replies Buffers Sends Connections Ubdma.
From S2P Require Import Invariant Completions EventLoop Api Worker Program Steps.

Section restart.
Context `{LakeLaws, JsonLaws, StableVecLaws, RingLaws, SocketOps, Socket2}.
Context (oc : bool).

(** * What only a packet changes *)

(** The pointer, the number of buffers it may point to, and the settings. *)
Definition pointing (w : World) : option nat * nat * ServerConfig :=
  (kernel_buf w, length (buffers (srv w)), config (srv w)).

Abbreviation points := (preserves pointing) (only parsing).

Lemma modify_srv_points f :
  (∀ s, length (buffers (f s)) = length (buffers s) ∧ config (f s) = config s) →
  points (modify_srv f).
Proof.
  intros Hf. apply preserves_modify. intros w. unfold pointing. cbn.
  destruct (Hf (srv w)) as [-> ->]. done.
Qed.

Lemma upd_ring_points f : points (modify (upd_ring f)).
Proof. by apply preserves_modify. Qed.
Lemma log_points l : points (modify (log_syscalls l)).
Proof. by apply preserves_modify. Qed.

Lemma same_shape_length bs bs' : same_shape bs bs' → length bs' = length bs.
Proof. intros Hs. apply (f_equal length) in Hs. by rewrite !length_fmap in Hs. Qed.

Lemma do_submit_points : points do_submit.
Proof.
  intros w r w'. unfold do_submit.
  pose proof (submit_shape (kmem_of (srv w)) (ring w)) as Hs%same_shape_length.
  destruct (submit _ _) as [[r1 bufs] ring']. intros [= _ <-]. unfold pointing. cbn in *.
  by rewrite Hs.
Qed.

Lemma do_submit_and_wait_points n : points (do_submit_and_wait n).
Proof.
  intros w r w'. unfold do_submit_and_wait.
  pose proof (submit_and_wait_shape n (kmem_of (srv w)) (ring w)) as Hs%same_shape_length.
  destruct (submit_and_wait _ _ _) as [[r1 bufs] ring']. intros [= _ <-]. unfold pointing.
  cbn in *. by rewrite Hs.
Qed.

#[local] Hint Resolve upd_ring_points log_points do_submit_points do_submit_and_wait_points : preserves.
#[local] Hint Extern 1 (preserves _ (modify_srv _)) => by apply modify_srv_points : preserves.

Ltac points_walk :=
  unfold do_sync, push_or_drop, do_push_retry, modify_clocks; preserves_walk.

Lemma release_points : points release_buffers.
Proof. unfold release_buffers, release_buffers_within. points_walk. Qed.

Lemma accept_points fd : points (process_entry_accept fd).
Proof. unfold process_entry_accept. points_walk. Qed.

Lemma close_points cid force : points (close_connection cid force).
Proof. unfold close_connection. points_walk. Qed.

Lemma serve_loop_points reqs idx k n s m s' :
  serve_loop reqs idx k n s = Ret (m, s') → buffers s' = buffers s ∧ config s' = config s.
Proof.
  revert idx n s. induction k as [|k IH]; intros idx n s; [by intros [= _ <-]|].
  cbn [serve_loop]. destruct (index reqs idx) as [req| | |]; [|done..]. rewrite bind_ret_l.
  destruct (slice_from _ _) as [hot| | |]; [|done..]. rewrite bind_ret_l.
  destruct (handler _ _ _ _ _ _) as [[[[len hot'] json] lake]| | |]; [|done..].
  rewrite bind_ret_l. intros Hl. by destruct (IH _ _ _ Hl) as [-> ->].
Qed.

Lemma serve_requests_points reqs : points (serve_requests reqs).
Proof.
  intros w r w'. unfold serve_requests. rewrite bind_server. cbv beta. rewrite bind_eq. unfold lift at 1.
  destruct (serve_loop _ _ _ _ (srv w)) as [[m s']| | |] eqn:Hl; [|done..]. cbn [mbind outcome_bind].
  destruct (serve_loop_points _ _ _ _ _ _ _ Hl) as [Hb Hc]. rewrite bind_modify_srv. unfold lift.
  destruct (slice _ _ _); [|done..]. intros [= _ <-]. unfold pointing. cbn. by rewrite Hb, Hc.
Qed.

Lemma ubdma_points u : points (ubdma oc u).
Proof.
  unfold ubdma, write_client. points_walk; auto using serve_requests_points.
Qed.

Lemma loop_head_points t : points (loop_head oc t).
Proof.
  unfold loop_head, update_metrics, flush_if_idle, wideband_send, sync_if_asked, sync_completions, wake_kernel.
  points_walk.
Qed.

(** * Runs without a packet *)

(** The move is not the delivery of a packet. *)
Definition no_packet (m : move) (w : World) : Prop :=
  ∀ c u, m = Completion c → reading_of oc (srv w) c ≠ OfClient u Received.

Lemma completion_points c r w w' :
  permitted (with_ring r w) c → no_packet (Completion c) w →
  process_entry oc c (with_ring r w) = Ret (IoOk tt, w') → pointing w' = pointing w.
Proof.
  intros Hp Hn Heq. trans (pointing (with_ring r w)); [|done].
  destruct Hp as [code res f Hlt Hne|res f Hcap|u res f Hwf Hc Hq _ _].
  - unfold process_entry in Heq. cbn [cqe_user_data cqe_result cqe_flags] in Heq.
    rewrite (proj2 (N.eqb_neq _ _) Hne), (proj2 (N.leb_gt _ _) Hlt) in Heq.
    destruct (_ && _); by injection Heq as <-.
  - change (process_entry_accept res (with_ring r w) = Ret (IoOk tt, w')) in Heq.
    by eapply accept_points.
  - assert (H0' : (0 < client_id u)%N) by (unfold RESERVED in Hc; lia).
    rewrite process_entry_routes_helper in Heq by done. unfold handle_event in Heq.
    specialize (Hn _ u eq_refl). rewrite reading_pack in Hn by done.
    change (config (srv (with_ring r w))) with (config (srv w)) in Heq.
    destruct (client_event _ _ _); [..|done].
    + by injection Heq as <-.
    + by eapply release_points.
    + by eapply close_points.
    + by eapply ubdma_points.
Qed.

(** A step of the loop other than the delivery of a packet. *)
Definition quiet_step (w w' : World) : Prop := ∃ m, step_by oc m w w' ∧ no_packet m w.

Lemma quiet_step_points w w' : quiet_step w w' → pointing w' = pointing w.
Proof.
  intros (m & [t w1 w2 _ _ _ Heq|c r w1 w2 _ Hp _ Heq|w1 w2 _ Heq] & Hn).
  - by eapply loop_head_points.
  - change (pointing (counted w2)) with (pointing w2). by eapply completion_points.
  - by eapply release_points.
Qed.

Lemma quiet_steps_point w w' : rtc quiet_step w w' → pointing w' = pointing w.
Proof. induction 1 as [|w1 w2 w3 Hs _ IH]; [done|]. rewrite IH. by apply quiet_step_points. Qed.

(** * The poll event *)

Lemma readable_dangling u result flags w i :
  ud_wf u → (0 < client_id u)%N → uniq_id u = POLL_EVENT → (0 < result)%Z →
  ub_kernel_dma (config (srv w)) = true → kernel_buf w = Some i → length (buffers (srv w)) ≤ i →
  process_entry oc (mkCqe (pack_user_data u) result flags) w = UB.
Proof.
  intros Hwf Hc Hq Hres Hub Hk Hi. rewrite process_entry_routes_helper by (by rewrite ?Hq).
  assert (Hev : client_event (ub_kernel_dma (config (srv w))) (uniq_id u) result = Readable).
  { rewrite Hub, Hq. unfold client_event.
    rewrite (proj2 (Z.ltb_ge _ _)), (proj2 (Z.eqb_neq _ _)) by lia. done. }
  rewrite Hev. cbn [handle_event]. unfold ubdma. rewrite bind_gets, Hk, bind_server, bind_eq.
  unfold lift, read. by rewrite lookup_ge_None_2.
Qed.

(** C19: a worker in UBDMA mode does not survive a restart: when an instance
    received a packet and then failed, the pointer to its buffers outlives it,
    and whatever the next instance does before it receives a packet of its own
    (set-up, accepts, flushes, releases, closed connections), a poll event of any
    of its clients is then undefined behaviour. *)
Theorem restart_poll_undefined fuel s thread env t e t' listener r w w' cid result flags :
  fresh s → ub_kernel_dma (config s) = true →
  th_kernel_buf t = None → worker_life oc fuel s thread env t = Ret (Failed e t') →
  th_kernel_buf t' ≠ None →
  sq_entries r = [] → BUFFERS_COUNT + 16 ≤ sq_capacity r →
  sq_poll_setup listener (mkWorld (clone s) r (th_kernel_buf t') (th_syscalls t')) =
    Ret (IoOk tt, w) →
  rtc quiet_step w w' →
  RESERVED ≤ cid → (N.of_nat cid < 2 ^ 32)%N → (0 < result)%Z →
  process_entry oc (mkCqe (user_tag cid POLL_EVENT) result flags) w' = UB.
Proof.
  intros Hf Hub Hn Hlife Hp He Hc Hset Hrun Hcid Hcid' Hres.
  destruct (th_kernel_buf t') as [i|] eqn:Hk; [|done].
  pose proof (failed_pointer _ _ _ _ _ _ _ _ Hlife Hn i Hk) as Hi.
  apply clone_fresh in Hf. set (w0 := mkWorld (clone s) r (Some i) (th_syscalls t')) in *.
  destruct (sq_poll_setup_helper listener w0 Hf He Hc) as (res & w1 & Hset' & Hsu).
  rewrite Hset' in Hset. injection Hset as -> ->.
  destruct Hsu as [(bufs & fds & clk & Hsh%same_shape_length & _ & Hw) _].
  assert (Hpt : pointing w' = (Some i, BUFFERS_COUNT, config s)).
  { rewrite (quiet_steps_point _ _ Hrun), Hw. unfold pointing. cbn. rewrite Hsh. cbn [w0 srv].
    by rewrite (fresh_buffers _ Hf), length_replicate. }
  injection Hpt as Hk' Hl Hcfg. unfold RESERVED in Hcid. unfold user_tag. rewrite N.mod_small by done.
  apply (readable_dangling _ _ _ _ i); [by split_and!|cbn; lia|done|done| |done|].
  - by rewrite Hcfg.
  - by rewrite Hl.
Qed.
End restart.
