(* ===== verification/Queued.v ===== *)
(** What a worker ever pushes to its submission queue: the send requests of a
    run, read off the history of the queue. Only a flush pushes any, and it
    pushes those of the pending out buffers. *)
From stdpp Require Import relations.
From S2P Require Import Prelude Config Avx Http Trim Shift Crates UserData Uring IoState.
From S2P Require Import Handler Sockets Server Replies Buffers Sends Connections Ubdma.
From S2P Require Import Invariant Completions EventLoop Api Worker Steps.

(** A request that hands bytes to a socket. *)
Definition is_send (e : Entry) : bool :=
  match e_op e with
  | Send _ _ _ _ | SendMsg _ _ | SendZc _ _ _ | SendMsgZc _ _ => true
  | _ => false
  end.

Section queued.
Context `{LakeLaws, JsonLaws, StableVecLaws, RingLaws, SocketOps}.
Context (oc : bool).

(** The send requests pushed so far. *)
Definition sends_pushed (w : World) : list Entry := filter is_send (sq_pushed (ring w)).

Lemma filter_no_send es : Forall (λ e, is_send e = false) es → filter is_send es = [].
Proof.
  induction 1 as [|e es He _ IH]; [done|]. rewrite filter_cons_False; [done|]. rewrite He. intros [].
Qed.

Lemma filter_all_send es : Forall is_send es → filter is_send es = es.
Proof. induction 1 as [|e es He _ IH]; [done|]. rewrite filter_cons_True by done. by rewrite IH. Qed.

Lemma pushed_app (r r' : Ring) es :
  sq_pushed r' = sq_pushed r ++ es →
  filter is_send (sq_pushed r') = filter is_send (sq_pushed r) ++ filter is_send es.
Proof. intros ->. apply list.filter_app. Qed.

Lemma pushed_same (r r' : Ring) es :
  sq_pushed r' = sq_pushed r ++ es → Forall (λ e, is_send e = false) es →
  filter is_send (sq_pushed r') = filter is_send (sq_pushed r).
Proof. intros Hp Hes. by rewrite (pushed_app r r' es Hp), (filter_no_send es Hes), app_nil_r. Qed.

(** * The steps that push no send *)

Abbreviation quietly := (preserves sends_pushed) (only parsing).

Lemma modify_srv_quietly f : quietly (modify_srv f).
Proof. by apply preserves_modify. Qed.
Lemma modify_clocks_quietly f : quietly (modify_clocks f).
Proof. apply modify_srv_quietly. Qed.
Lemma log_quietly l : quietly (modify (log_syscalls l)).
Proof. by apply preserves_modify. Qed.
Lemma set_kernel_buf_quietly p : quietly (modify (set_kernel_buf p)).
Proof. by apply preserves_modify. Qed.
Lemma do_sync_quietly : quietly do_sync.
Proof. apply preserves_modify. intros w. unfold sends_pushed. cbn. by rewrite sq_sync_pushed. Qed.
Lemma cq_sync_quietly : quietly (modify (upd_ring cq_sync)).
Proof. apply preserves_modify. intros w. unfold sends_pushed. cbn. by rewrite cq_sync_pushed. Qed.

Lemma do_submit_quietly : quietly do_submit.
Proof.
  intros w r w'. unfold do_submit.
  pose proof (submit_pushed (kmem_of (srv w)) (ring w)) as Hp.
  destruct (submit _ _) as [[r1 bufs] ring']. intros [= _ <-]. unfold sends_pushed. cbn in *.
  by rewrite Hp.
Qed.

Lemma do_submit_and_wait_quietly n : quietly (do_submit_and_wait n).
Proof.
  intros w r w'. unfold do_submit_and_wait.
  pose proof (submit_and_wait_pushed n (kmem_of (srv w)) (ring w)) as Hp.
  destruct (submit_and_wait _ _ _) as [[r1 bufs] ring']. intros [= _ <-]. unfold sends_pushed.
  cbn in *. by rewrite Hp.
Qed.

Lemma push_or_drop_quietly e : is_send e = false → quietly (push_or_drop e).
Proof.
  intros He. apply preserves_modify. intros w. unfold sends_pushed. cbn.
  destruct (sq_push e (ring w)) as [r'|] eqn:Hp; [|done]. cbn.
  apply (pushed_same _ _ [e]); [by apply sq_push_pushed|by constructor].
Qed.

Lemma push_retry_pushed fuel es (r r' : Ring) :
  push_retry fuel es r = Ret r' → sq_pushed r' = sq_pushed r ++ es.
Proof.
  unfold push_retry. induction fuel as [|fuel IH]; [done|]. cbn [loop mbind outcome_bind].
  destruct (sq_push_multiple es r) as [r1|] eqn:Hp; cbn; [|exact IH].
  intros [= <-]. by apply sq_push_multiple_pushed.
Qed.

Lemma do_push_retry_quietly fuel es :
  Forall (λ e, is_send e = false) es → quietly (do_push_retry fuel es).
Proof.
  intros Hes w r w'. unfold do_push_retry. rewrite bind_gets. cbv beta. rewrite bind_eq.
  unfold lift. destruct (push_retry fuel es (ring w)) as [r'| | |] eqn:Hp; try done.
  intros [= _ <-]. unfold sends_pushed. cbn. eapply pushed_same; [by eapply push_retry_pushed|done].
Qed.

#[local] Hint Resolve modify_srv_quietly modify_clocks_quietly log_quietly set_kernel_buf_quietly
  do_sync_quietly cq_sync_quietly do_submit_quietly do_submit_and_wait_quietly : preserves.

(** * The handlers *)

Lemma lift_value {A} (o : outcome A) a :
  (∃ (w : World) w', lift o w = Ret (IoOk a, w')) → o = Ret a.
Proof. intros (w & w' & Hl). unfold lift in Hl. destruct o; [|done..]. by injection Hl as -> _. Qed.

Lemma buffer_requests_no_send s ids es :
  mapM (buffer_request s) ids = Ret es → Forall (λ e, is_send e = false) es.
Proof.
  revert es. induction ids as [|id ids IH]; intros es; cbn [mapM].
  { by intros [= <-]. }
  destruct (buffer_request s id) as [e| | |] eqn:He; [|done..]. cbn [mbind outcome_bind].
  destruct (mapM (buffer_request s) ids) as [es'| | |]; [|done..]. intros [= <-].
  constructor; [|by apply IH]. unfold buffer_request in He.
  destruct (index (buffers s) id); [|done..]. by injection He as <-.
Qed.

Lemma release_quietly : quietly release_buffers.
Proof.
  unfold release_buffers, release_buffers_within. preserves_walk.
  apply do_push_retry_quietly. by eapply buffer_requests_no_send, lift_value.
Qed.

Lemma serve_requests_quietly reqs : quietly (serve_requests reqs).
Proof. unfold serve_requests. preserves_walk. Qed.

Lemma write_client_quietly cid bs lake : quietly (write_client cid bs lake).
Proof. unfold write_client. preserves_walk. Qed.

#[local] Hint Resolve release_quietly serve_requests_quietly write_client_quietly : preserves.
#[local] Hint Extern 1 (preserves _ (push_or_drop _)) => by apply push_or_drop_quietly : preserves.

Lemma accept_quietly fd : quietly (process_entry_accept fd).
Proof. unfold process_entry_accept. preserves_walk. Qed.

Lemma ubdma_quietly u : quietly (ubdma oc u).
Proof. unfold ubdma. preserves_walk. Qed.

Lemma request_reply_quietly flags u result : quietly (request_reply oc flags u result).
Proof. unfold request_reply. preserves_walk. Qed.

Lemma close_quietly cid force : quietly (close_connection cid force).
Proof. unfold close_connection. preserves_walk. Qed.

#[local] Hint Resolve accept_quietly ubdma_quietly request_reply_quietly close_quietly : preserves.

(** No completion makes the worker push a send. *)
Lemma process_entry_quietly c : quietly (process_entry oc c).
Proof. unfold process_entry, process_entry_response. preserves_walk. Qed.

(** * A flush *)

Lemma send_of_is_send fds cl e : send_of fds cl = Some e → is_send e.
Proof.
  unfold send_of. destruct (_ =? _); [done|]. destruct (sv_get _ _); [|done]. by intros [= <-].
Qed.

Lemma pending_sends_all s : Forall is_send (pending_sends s).
Proof.
  unfold pending_sends. induction (sv_iter _) as [|cl l IH]; [constructor|]. cbn [omap list_omap].
  destruct (send_of _ cl) as [e|] eqn:He; [|done]. constructor; [by eapply send_of_is_send|done].
Qed.

Lemma wideband_send_pushes w w' :
  wideband_send w = Ret (IoOk tt, w') →
  sends_pushed w' = sends_pushed w ++ pending_sends (srv w).
Proof.
  unfold wideband_send. srun.
  destruct (Nat.eqb_spec (length (sv_iter (client_out_buffers (srv w)))) 0) as [H0'|_].
  { intros [= <-]. unfold pending_sends. by rewrite (nil_length_inv _ H0'), app_nil_r. }
  pose proof (collect_sends_entries (client_fds (srv w)) (sv_iter (client_out_buffers (srv w))) []
    (client_out_buffers (srv w))) as He.
  destruct (collect_sends _ _ _ _) as [entries outs]. cbn [fst snd app] in He.
  fold (pending_sends (srv w)) in He. subst entries. srun. rewrite bind_eq, if_apply.
  destruct (Nat.ltb_spec 0 (length (pending_sends (srv w)))) as [_|Hnil].
  - srun. change (ring (upd_srv _ (upd_srv _ w))) with (ring w). rewrite bind_eq. unfold lift.
    destruct (sq_push_multiple _ (ring w)) as [r'|] eqn:Hp; [|done]. cbn [mbind outcome_bind].
    srun. rewrite modify_srv_eq. cbv beta iota. rewrite modify_srv_eq. intros [= <-].
    unfold sends_pushed. cbn. rewrite (pushed_app _ _ _ (sq_push_multiple_pushed _ _ _ Hp)).
    by rewrite (filter_all_send _ (pending_sends_all _)).
  - assert (Hnil' : pending_sends (srv w) = []) by (apply nil_length_inv; lia).
    rewrite Hnil', app_nil_r. by intros [= <-].
Qed.

Lemma update_metrics_quietly t : quietly (update_metrics oc t).
Proof. unfold update_metrics. preserves_walk. Qed.
Lemma sync_if_asked_quietly : quietly sync_if_asked.
Proof. unfold sync_if_asked. preserves_walk. Qed.
Lemma sync_completions_quietly : quietly sync_completions.
Proof. unfold sync_completions. preserves_walk. Qed.
Lemma wake_kernel_quietly : quietly (wake_kernel oc).
Proof. unfold wake_kernel. preserves_walk. Qed.

(** The pending sends do not depend on the clocks and the date. *)
Lemma update_metrics_pending t : preserves (λ w, pending_sends (srv w)) (update_metrics oc t).
Proof.
  unfold update_metrics, modify_clocks, modify_srv. preserves_walk.
  all: by apply preserves_modify.
Qed.
Lemma update_metrics_completions t : preserves (λ w, cq_len (ring w)) (update_metrics oc t).
Proof.
  unfold update_metrics, modify_clocks, modify_srv. preserves_walk.
  all: by apply preserves_modify.
Qed.

(** The first half of an iteration pushes the pending sends when it flushes, and
    none otherwise. *)
Lemma loop_head_pushes t w w' :
  loop_head oc t w = Ret (IoOk tt, w') →
  sends_pushed w' = sends_pushed w ++
    if cq_len (ring w) =? 0 then pending_sends (srv w) else [].
Proof.
  unfold loop_head. intros (w1 & H1' & Heq)%bind_unit_ok.
  apply bind_unit_ok in Heq as (w2 & H2' & Heq).
  assert (Hq : quietly (sync_if_asked;; sync_completions;; wake_kernel oc;; modify_clocks incr_hz)).
  { preserves_walk; auto using sync_if_asked_quietly, sync_completions_quietly, wake_kernel_quietly. }
  rewrite (Hq _ _ _ Heq), <- (update_metrics_quietly t _ _ _ H1').
  rewrite <- (update_metrics_pending t _ _ _ H1'), <- (update_metrics_completions t _ _ _ H1').
  unfold flush_if_idle in H2'. rewrite bind_gets in H2'. cbv beta in H2'. unfold cq_is_empty in H2'.
  destruct (cq_len (ring w1) =? 0); [by apply wideband_send_pushes|].
  injection H2' as <-. by rewrite app_nil_r.
Qed.

(** * A move *)

Lemma step_pushes m w w' :
  step_by oc m w w' →
  sends_pushed w' = sends_pushed w ++
    match m with
    | Head _ => if cq_len (ring w) =? 0 then pending_sends (srv w) else []
    | _ => []
    end.
Proof.
  intros [t w1 w2 Hd Hf Hc Heq|c r w1 w2 Hn Hp Hroom Heq|w1 w2 Hroom Heq].
  - by apply (loop_head_pushes t).
  - rewrite app_nil_r. change (sends_pushed (counted w2)) with (sends_pushed w2).
    rewrite (process_entry_quietly c _ _ _ Heq). unfold sends_pushed. cbn.
    by rewrite (cq_next_pushed _ _ _ Hn).
  - rewrite app_nil_r. by apply (release_quietly _ _ _ Heq).
Qed.

(** The sends still in the queue are the last of those pushed. *)
Lemma queued_sends w : ∃ k, filter is_send (sq_entries (ring w)) = drop k (sends_pushed w).
Proof.
  destruct (sq_entries_pushed (ring w)) as [k ->]. unfold sends_pushed.
  exists (length (filter is_send (take k (sq_pushed (ring w))))).
  rewrite <- (take_drop k (sq_pushed (ring w))) at 3. rewrite list.filter_app.
  by rewrite drop_app_length.
Qed.
End queued.
