(* ===== verification/Typing.v ===== *)
(** The requests in the submission queue as the kernel reads them: every field
    fits its machine type, and every memory range lies in the buffer it names. *)
From stdpp Require Import relations.
From S2P Require Import Prelude Config Avx Http Trim Shift Crates UserData Uring IoState.
From S2P Require Import Handler Sockets Server Replies Buffers Sends Connections Ubdma.
From S2P Require Import Invariant EventLoop Api Worker Steps.

(** * Machine types *)

(** The user data is a [u64]; the length of a buffer is an [i32], its count,
    group and id are [u16]; the length of a send is a [u32]. *)
Definition fits_u (bits v : N) : bool := (v <? 2 ^ bits)%N.
Definition fits_i32 (z : Z) : bool := ((- 2 ^ 31 <=? z) && (z <? 2 ^ 31))%Z.

Definition op_fits (op : opcode) : bool :=
  match op with
  | ProvideBuffers _ len nbufs bgid bid =>
      fits_i32 len && fits_u 16 nbufs && fits_u 16 bgid && fits_u 16 bid
  | Send _ _ len _ | SendZc _ _ len => fits_u 32 len
  | RecvMulti _ bgid => fits_u 16 bgid
  | Recv _ _ len _ bgid => fits_u 32 len && from_option (fits_u 16) true bgid
  | AsyncCancel target => fits_u 64 target
  | AcceptMulti _ _ | SendMsg _ _ | SendMsgZc _ _ | PollAdd _ _ _ => true
  end.

Definition entry_fits (e : Entry) : bool := fits_u 64 (e_user_data e) && op_fits (e_op e).

(** * Memory *)

(** A buffer is handed over whole, under the number by which completions will
    name it; a send reads inside the out buffer of its client, for as long as
    the client is there. Nothing else gets memory. *)
Definition op_in_bounds (m : kmem) (op : opcode) : Prop :=
  match op with
  | ProvideBuffers (PKernelBuf i) len nbufs bgid bid =>
      nbufs = 1%N ∧ bgid = BUF_GROUP ∧ bid = N.of_nat i ∧
      ∃ buf, km_buffers m !! i = Some buf ∧ Z.of_nat (length buf) = len
  | Send _ (PClientBuf cid) len _ =>
      (0 < len)%N ∧ ∀ buf, km_out m cid = Some buf → N.to_nat len ≤ length buf
  | AcceptMulti _ _ | RecvMulti _ _ | PollAdd _ _ _ => True
  | _ => False
  end.

(** * Every request is well typed *)

Lemma pack_fits u : ud_wf u → (0 < client_id u)%N → (uniq_id u < 2 ^ 15)%N →
  (pack_user_data u < 2 ^ 64)%N.
Proof. intros Hwf Hc Hq. rewrite pack_value_pos by done. destruct Hwf as (? & ? & _). lia. Qed.

Lemma tag_fits cid uniq :
  RESERVED ≤ cid → (N.of_nat cid < 2 ^ 32)%N → (uniq < 2 ^ 15)%N →
  fits_u 64 (user_tag cid uniq) = true.
Proof.
  intros Hr Hc Hq. apply N.ltb_lt, pack_fits; cbn [client_id uniq_id]; [|unfold RESERVED in Hr|done].
  - split; [|split]; cbn; [lia|done|lia].
  - rewrite N.mod_small by done. lia.
Qed.

Lemma u32_small n : n ≤ DATA_LAKE_SIZE → u32_of_nat n = N.of_nat n.
Proof. intros Hn. apply N.mod_small. pose proof DATA_LAKE_SIZE_Z. lia. Qed.

Lemma typed_fits n e : (N.of_nat n ≤ 2 ^ 32)%N → entry_typed n e → entry_fits e = true.
Proof.
  intros Hn [id Hid|fd|cid fd Hc|cid fd Hc|cid fd len Hc Hl];
    unfold entry_fits; apply andb_true_iff; (split; [first [reflexivity | apply tag_fits; [apply Hc|lia|reflexivity]]|]); try done.
  - cbn [provide_entry provide_buffer e_op op_fits]. rewrite BUFFER_SIZE_Z.
    repeat (apply andb_true_iff; split); try done. apply N.ltb_lt. pose proof BUFFERS_COUNT_Z. lia.
  - cbn [send e_op op_fits snd]. rewrite u32_small by apply Hl. apply N.ltb_lt.
    pose proof DATA_LAKE_SIZE_Z. lia.
Qed.

Section typing.
Context `{LakeLaws, JsonLaws, StableVecLaws, RingLaws, SocketOps}.
Context (oc : bool).

Lemma typed_in_bounds n w e :
  inv w → entry_typed n e → op_in_bounds (kmem_of (srv w)) (e_op e).
Proof.
  intros [Hw _] [id Hid|fd|cid fd Hc|cid fd Hc|cid fd len Hc Hl]; cbn; try done.
  - split_and!; try done. destruct (inv_lookup w id Hw Hid) as (buf & Hb & Hlen).
    exists buf. by rewrite Hlen.
  - rewrite u32_small by apply Hl. split; [lia|]. intros buf Hb.
    destruct (sv_get (client_out_buffers (srv w)) cid) as [lake|]; [|done].
    injection Hb as <-. rewrite lake_buf_length. lia.
Qed.

(** C7: whatever a started worker has done, every request in its submission
    queue is well typed: the fields fit their machine types, a provided buffer
    is one of the server's, with its full length and under its own number, and
    a send lies inside the out buffer of its client. *)
Theorem queue_well_typed listener w w' e :
  started listener w → rtc (step oc) w w' → e ∈ sq_entries (ring w') →
  (N.of_nat (sv_capacity (client_out_buffers (srv w'))) ≤ 2 ^ 32)%N →
  entry_fits e = true ∧ op_in_bounds (kmem_of (srv w')) (e_op e).
Proof.
  intros Hs Hr He Hcap. pose proof (steps_good _ _ _ Hr (started_good _ _ Hs)) as Hg.
  assert (Hty : entry_typed (next_id (srv w')) e)
    by by apply (proj1 (list.Forall_forall _ _) (good_queue _ Hg)).
  pose proof (good_ids _ Hg). split.
  - eapply typed_fits; [|exact Hty]. lia.
  - by eapply typed_in_bounds; [apply Hg|].
Qed.
End typing.
