(* ===== verification/Spec.v ===== *)
(** The abstract specification of a worker: a server is a set of open
    connections, each with a descriptor and a stream of answers still to be
    sent; the history of a connection; and the proof that the worker of [Steps]
    implements it. *)
From stdpp Require Import relations gmap.
From S2P Require Import Prelude Config Avx Http Trim Shift Crates UserData Uring IoState.
From S2P Require Import Handler Sockets Server Replies Buffers Sends Connections Ubdma.
From S2P Require Import Invariant Completions EventLoop Api Worker Steps Queued.

(** * The specification *)

(** The open connections, and the number of ids ever given. *)
Record connections := mkConnections { given : nat; open : gmap nat (Z * bytes) }.

Inductive action :=
  | Connect (cid : nat) (fd : Z)
  | Answer (cid : nat) (date : bytes) (reqs : list RequestEntry)
  | Transmit (cid : nat) (fd : Z) (data : bytes)
  | Disconnect (cid : nat).

(** Answers are appended to the stream of their connection; a transmission takes
    the whole stream, which is not empty, and goes to the descriptor of the
    connection. *)
Definition perform (a : action) (c : connections) : option connections :=
  match a with
  | Connect cid fd =>
      if decide (cid = given c) then Some (mkConnections (S cid) (<[cid := (fd, [])]> (open c)))
      else None
  | Answer cid date reqs =>
      '(fd, out) ← open c !! cid;
      Some (mkConnections (given c) (<[cid := (fd, out ++ responses date reqs)]> (open c)))
  | Transmit cid fd data =>
      '(fd', out) ← open c !! cid;
      if decide (fd = fd' ∧ data = out ∧ out ≠ [])
      then Some (mkConnections (given c) (<[cid := (fd, [])]> (open c))) else None
  | Disconnect cid => Some (mkConnections (given c) (delete cid (open c)))
  end.

Fixpoint perform_all (tr : list action) (c : connections) : option connections :=
  match tr with
  | [] => Some c
  | a :: tr => c ← perform a c; perform_all tr c
  end.

Lemma perform_all_app tr tr' c : perform_all (tr ++ tr') c = perform_all tr c ≫= perform_all tr'.
Proof.
  revert c. induction tr as [|a tr IH]; intros c; [done|]. cbn. destruct (perform a c); cbn; auto.
Qed.

(** ** The history of a connection *)

(** All the answers of a connection, and all that was transmitted of them. *)
Definition answered (cid : nat) (tr : list action) : bytes :=
  mjoin ((λ a, match a with
               | Answer cid' date reqs => if decide (cid = cid') then responses date reqs else []
               | _ => [] end) <$> tr).
Definition transmitted (cid : nat) (tr : list action) : bytes :=
  mjoin ((λ a, match a with
               | Transmit cid' _ data => if decide (cid = cid') then data else []
               | _ => [] end) <$> tr).

Lemma answered_snoc cid tr a : answered cid (tr ++ [a]) = answered cid tr ++ answered cid [a].
Proof. unfold answered. by rewrite fmap_app, join_app. Qed.
Lemma transmitted_snoc cid tr a :
  transmitted cid (tr ++ [a]) = transmitted cid tr ++ transmitted cid [a].
Proof. unfold transmitted. by rewrite fmap_app, join_app. Qed.

(** The ids given to clients, in the order of their connections. *)
Definition connects (tr : list action) : list nat :=
  omap (λ a, match a with Connect cid _ => Some cid | _ => None end) tr.

Lemma connects_app tr tr' : connects (tr ++ tr') = connects tr ++ connects tr'.
Proof. apply omap_app. Qed.

Lemma perform_given a c c' : perform a c = Some c' →
  connects [a] = seq (given c) (given c' - given c) ∧ given c ≤ given c'.
Proof.
  destruct a as [cid fd|cid date reqs|cid fd data|cid]; cbn [perform].
  - case_decide as Hc; [|done]. intros [= <-]. subst cid. cbn [given].
    by replace (S (given c) - given c) with 1 by lia; split; [|lia].
  - destruct (open c !! cid) as [[fd out]|]; [|done]. intros [= <-]. cbn [given].
    by rewrite Nat.sub_diag.
  - destruct (open c !! cid) as [[fd' out]|]; [|done]. cbn. case_decide; [|done].
    intros [= <-]. cbn [given]. by rewrite Nat.sub_diag.
  - intros [= <-]. cbn [given]. by rewrite Nat.sub_diag.
Qed.

(** The ids of a history are consecutive, whoever disconnected in between. *)
Lemma perform_all_given tr c c' : perform_all tr c = Some c' →
  connects tr = seq (given c) (given c' - given c) ∧ given c ≤ given c'.
Proof.
  revert c. induction tr as [|a tr IH]; intros c.
  { intros [= ->]. by rewrite Nat.sub_diag. }
  cbn [perform_all]. destruct (perform a c) as [c1|] eqn:Ha; [|done]. cbn. intros Htr.
  destruct (perform_given a c c1 Ha) as [Hc1 ?]. destruct (IH c1 Htr) as [Hc2 ?].
  split; [|lia]. trans (connects ([a] ++ tr)); [done|]. rewrite connects_app, Hc1, Hc2.
  replace (seq (given c1) _) with (seq (given c + (given c1 - given c)) (given c' - given c1))
    by (f_equal; lia).
  rewrite <- seq_app. f_equal. lia.
Qed.

(** What a history says of the connections it leads to. *)
Record history (n : nat) (tr : list action) (c : connections) : Prop := {
  hi_open cid fd out : open c !! cid = Some (fd, out) →
    n ≤ cid < given c ∧ Connect cid fd ∈ tr ∧ answered cid tr = transmitted cid tr ++ out;
  hi_unused cid : given c ≤ cid → answered cid tr = [] ∧ transmitted cid tr = [];
  hi_prefix cid : ∃ rest, answered cid tr = transmitted cid tr ++ rest;
  hi_fd cid fd data : Transmit cid fd data ∈ tr → Connect cid fd ∈ tr;
  hi_given : n ≤ given c;
}.

(** An action that answers and transmits nothing. *)
Lemma history_quiet cid a tr :
  answered cid [a] = [] → transmitted cid [a] = [] →
  answered cid (tr ++ [a]) = answered cid tr ∧ transmitted cid (tr ++ [a]) = transmitted cid tr.
Proof. intros Ha Ht. by rewrite answered_snoc, transmitted_snoc, Ha, Ht, !app_nil_r. Qed.

Lemma transmit_old cid fd data tr a :
  (∀ c f d, a ≠ Transmit c f d) → Transmit cid fd data ∈ tr ++ [a] → Transmit cid fd data ∈ tr.
Proof.
  intros Ha [?|He%list_elem_of_singleton]%elem_of_app; [done|]. exfalso. by eapply Ha.
Qed.

Lemma elem_of_snoc_l {A} (x : A) l a : x ∈ l → x ∈ l ++ [a].
Proof. intros Hx. apply elem_of_app. by left. Qed.

Lemma history_connect n tr c fd :
  history n tr c →
  history n (tr ++ [Connect (given c) fd])
    (mkConnections (S (given c)) (<[given c := (fd, [])]> (open c))).
Proof.
  intros [Ho Hu Hp Hf Hg].
  assert (Hq : ∀ cid, answered cid (tr ++ [Connect (given c) fd]) = answered cid tr ∧
    transmitted cid (tr ++ [Connect (given c) fd]) = transmitted cid tr)
    by (intros cid; by apply history_quiet).
  split; cbn [given open]; [| | | |lia].
  - intros cid fd' out. destruct (Hq cid) as [-> ->].
    rewrite lookup_insert. case_decide as Hc; subst.
    + intros [= <- <-]. destruct (Hu (given c)) as [-> ->]; [lia|].
      split; [lia|]. split; [|done]. apply elem_of_app. right. by left.
    + intros (? & ? & ?)%Ho. split; [lia|]. split; [by apply elem_of_snoc_l|done].
  - intros cid Hc. destruct (Hq cid) as [-> ->]. apply Hu. lia.
  - intros cid. destruct (Hq cid) as [-> ->]. apply Hp.
  - intros cid fd' data Hin%transmit_old; [|done]. by apply elem_of_snoc_l, (Hf _ _ data).
Qed.

Lemma history_disconnect n tr c cid :
  history n tr c →
  history n (tr ++ [Disconnect cid]) (mkConnections (given c) (delete cid (open c))).
Proof.
  intros [Ho Hu Hp Hf Hg].
  assert (Hq : ∀ cid', answered cid' (tr ++ [Disconnect cid]) = answered cid' tr ∧
    transmitted cid' (tr ++ [Disconnect cid]) = transmitted cid' tr)
    by (intros cid'; by apply history_quiet).
  split; cbn [given open]; [| | | |done].
  - intros cid' fd out. destruct (Hq cid') as [-> ->]. intros [_ Hl]%lookup_delete_Some.
    destruct (Ho _ _ _ Hl) as (? & ? & ?). split; [done|]. split; [by apply elem_of_snoc_l|done].
  - intros cid' Hc. destruct (Hq cid') as [-> ->]. by apply Hu.
  - intros cid'. destruct (Hq cid') as [-> ->]. apply Hp.
  - intros cid' fd data Hin%transmit_old; [|done]. by apply elem_of_snoc_l, (Hf _ _ data).
Qed.

Lemma answered_one cid cid' date reqs :
  answered cid [Answer cid' date reqs] = if decide (cid = cid') then responses date reqs else [].
Proof. apply app_nil_r. Qed.
Lemma transmitted_one cid cid' fd data :
  transmitted cid [Transmit cid' fd data] = if decide (cid = cid') then data else [].
Proof. apply app_nil_r. Qed.

Lemma history_answer n tr c cid date reqs fd out :
  history n tr c → open c !! cid = Some (fd, out) →
  history n (tr ++ [Answer cid date reqs])
    (mkConnections (given c) (<[cid := (fd, out ++ responses date reqs)]> (open c))).
Proof.
  intros [Ho Hu Hp Hf Hg] Hl. destruct (Ho _ _ _ Hl) as (Hlt & Hin & Heq).
  split; cbn [given open]; [| | | |done].
  - intros cid' fd' out'. rewrite answered_snoc, transmitted_snoc, answered_one, app_nil_r.
    rewrite lookup_insert. destruct (decide (cid = cid')) as [<-|Hne].
    + intros [= <- <-]. rewrite decide_True by done. split; [done|].
      split; [by apply elem_of_snoc_l|]. by rewrite Heq, app_assoc.
    + rewrite decide_False, app_nil_r by congruence.
      intros (? & ? & ?)%Ho. split; [done|]. split; [by apply elem_of_snoc_l|done].
  - intros cid' Hc. rewrite answered_snoc, transmitted_snoc, answered_one, app_nil_r.
    rewrite decide_False, app_nil_r by lia. by apply Hu.
  - intros cid'. rewrite answered_snoc, transmitted_snoc, app_nil_r.
    destruct (Hp cid') as [rest ->]. exists (rest ++ answered cid' [Answer cid date reqs]).
    by rewrite app_assoc.
  - intros cid' fd' data Hi%transmit_old; [|done]. by apply elem_of_snoc_l, (Hf _ _ data).
Qed.

Lemma history_transmit n tr c cid fd out :
  history n tr c → open c !! cid = Some (fd, out) →
  history n (tr ++ [Transmit cid fd out])
    (mkConnections (given c) (<[cid := (fd, [])]> (open c))).
Proof.
  intros [Ho Hu Hp Hf Hg] Hl. destruct (Ho _ _ _ Hl) as (Hlt & Hin & Heq).
  split; cbn [given open]; [| | | |done].
  - intros cid' fd' out'. rewrite answered_snoc, transmitted_snoc, transmitted_one, app_nil_r.
    rewrite lookup_insert. destruct (decide (cid = cid')) as [<-|Hne].
    + intros [= <- <-]. rewrite decide_True by done. split; [done|].
      split; [by apply elem_of_snoc_l|]. by rewrite Heq, app_nil_r.
    + rewrite decide_False, app_nil_r by congruence.
      intros (? & ? & ?)%Ho. split; [done|]. split; [by apply elem_of_snoc_l|done].
  - intros cid' Hc. rewrite answered_snoc, transmitted_snoc, transmitted_one, app_nil_r.
    rewrite decide_False, app_nil_r by lia. by apply Hu.
  - intros cid'. rewrite answered_snoc, transmitted_snoc, transmitted_one, app_nil_r.
    case_decide as Hc; [|by rewrite app_nil_r]. subst cid'. exists []. by rewrite Heq, app_nil_r.
  - intros cid' fd' data [Hi|[= -> -> ->]%list_elem_of_singleton]%elem_of_app.
    + by apply elem_of_snoc_l, (Hf _ _ data).
    + by apply elem_of_snoc_l.
Qed.

Lemma history_step n tr c a c' :
  history n tr c → perform a c = Some c' → history n (tr ++ [a]) c'.
Proof.
  intros Hh Hp. destruct a as [cid fd|cid date reqs|cid fd data|cid]; cbn [perform] in Hp.
  - case_decide as Hc; [|done]. subst cid. injection Hp as <-. by apply history_connect.
  - destruct (open c !! cid) as [[fd out]|] eqn:Hl; [|done]. injection Hp as <-.
    by apply history_answer.
  - destruct (open c !! cid) as [[fd' out]|] eqn:Hl; [|done]. cbn in Hp.
    case_decide as Hd; [|done]. destruct Hd as (-> & -> & _). injection Hp as <-.
    by apply history_transmit.
  - injection Hp as <-. by apply history_disconnect.
Qed.

Lemma history_init n : history n [] (mkConnections n ∅).
Proof.
  split; cbn [given open].
  - intros cid fd out. by rewrite lookup_empty.
  - done.
  - by exists [].
  - by intros ? ? ? ?%not_elem_of_nil.
  - done.
Qed.

Lemma perform_all_history n tr c : perform_all tr (mkConnections n ∅) = Some c → history n tr c.
Proof.
  revert c. induction tr as [|a tr IH] using rev_ind; intros c.
  { intros [= <-]. apply history_init. }
  rewrite perform_all_app. destruct (perform_all tr _) as [c1|]; [|done]. cbn.
  destruct (perform a c1) as [c2|] eqn:Hp; [|done]. intros [= <-].
  eapply history_step; [by apply IH|done].
Qed.

(** * The worker as an implementation *)

Section spec.
Context `{LakeLaws, JsonLaws, StableVecLaws, RingLaws, SocketOps}.
Context (oc : bool).
Abbreviation Out := (SmallLake DATA_LAKE_SIZE).

(** ** The abstraction *)

Definition connection_of (fds : StableVec Z) (cl : nat * Out) : option (nat * (Z * bytes)) :=
  fd ← sv_get fds cl.1; Some (cl.1, (fd, lake_data cl.2)).

Definition connections_of (s : Server) : gmap nat (Z * bytes) :=
  list_to_map (omap (connection_of (client_fds s)) (sv_iter (client_out_buffers s))).

Definition view (w : World) : connections :=
  mkConnections (next_id (srv w)) (connections_of (srv w)).

Lemma connection_of_keys fds l i :
  i ∈ (omap (connection_of fds) l).*1 → i ∈ l.*1.
Proof.
  intros ([j x] & -> & ([j' lake] & Hin & Hc)%list_elem_of_omap)%list_elem_of_fmap.
  unfold connection_of in Hc. cbn [fst snd] in Hc. destruct (sv_get fds j'); [|done].
  injection Hc as <- <-. apply list_elem_of_fmap. by exists (j', lake).
Qed.

Lemma connection_of_NoDup fds l : NoDup l.*1 → NoDup (omap (connection_of fds) l).*1.
Proof.
  induction l as [|[i lake] l IH]; [constructor|]. cbn [fmap list_fmap fst].
  intros [Hi Hnd]%list.NoDup_cons. cbn [omap list_omap]. unfold connection_of at 1.
  cbn [fst snd]. destruct (sv_get fds i); cbn; [|by apply IH].
  apply list.NoDup_cons. split; [|by apply IH]. intros Hin%connection_of_keys. by apply Hi.
Qed.

Lemma connections_lookup s cid :
  connections_of s !! cid =
    lake ← sv_get (client_out_buffers s) cid;
    fd ← sv_get (client_fds s) cid; Some (fd, lake_data lake).
Proof.
  apply option_eq. intros x. unfold connections_of.
  rewrite <- elem_of_list_to_map; [|apply connection_of_NoDup; rewrite sv_iter_slots;
    apply filled_slots_NoDup].
  rewrite list_elem_of_omap. split.
  - intros ([i lake] & Hin%sv_iter_elem & Hc). unfold connection_of in Hc. cbn [fst snd] in Hc.
    destruct (sv_get (client_fds s) i) as [fd|] eqn:Hfd; [|done]. injection Hc as -> <-.
    rewrite Hin. cbn. by rewrite Hfd.
  - destruct (sv_get (client_out_buffers s) cid) as [lake|] eqn:Hlk; [|done]. cbn.
    destruct (sv_get (client_fds s) cid) as [fd|] eqn:Hfd; [|done]. intros [= <-].
    exists (cid, lake). split; [by apply sv_iter_elem|]. unfold connection_of. cbn. by rewrite Hfd.
Qed.

(** Worlds that agree on the descriptors and the written bytes look the same. *)
Lemma view_eq w w' :
  next_id (srv w') = next_id (srv w) →
  (∀ cid, connections_of (srv w') !! cid = connections_of (srv w) !! cid) → view w' = view w.
Proof. intros Hn Hc. unfold view. rewrite Hn. f_equal. by apply map_eq. Qed.

Lemma view_same w w' :
  client_fds (srv w') = client_fds (srv w) →
  client_out_buffers (srv w') = client_out_buffers (srv w) → view w' = view w.
Proof. intros Hf Ho. unfold view, connections_of, next_id. by rewrite Hf, Ho. Qed.

(** ** The actions of a move *)

Definition transmission (fds : StableVec Z) (cl : nat * Out) : option action :=
  if lake_len cl.2 =? 0 then None
  else fd ← sv_get fds cl.1; Some (Transmit cl.1 fd (lake_data cl.2)).

Definition flush_actions (s : Server) : list action :=
  omap (transmission (client_fds s)) (sv_iter (client_out_buffers s)).

Definition client_actions (w : World) (u : UserData) (result : Z) (flags : N) (e : event) :
    list action :=
  match e with
  | Ignore | OutOfBuffers => []
  | Disconnected => [Disconnect (client_of u)]
  | Readable =>
      match kernel_buf w ≫= λ i, buffers (srv w) !! i with
      | Some buf => if ubdma_answers (srv w) (client_of u) buf
                    then [Answer (client_of u) (date (srv w)) (ubdma_requests buf)] else []
      | None => []
      end
  | Received =>
      match buffers (srv w) !! buffer_of flags with
      | Some buf =>
          if (Z.of_nat BUFFER_SIZE <? result)%Z then []
          else [Answer (client_of u) (date (srv w)) (requests MAX_REQUESTS (take (Z.to_nat result) buf))]
      | None => []
      end
  end.

(** A flush transmits; a completion of an accept connects; a packet is answered
    with the responses to the requests in it; an end of stream disconnects. *)
Definition actions (m : move) (w : World) : list action :=
  match m with
  | Head _ => if cq_len (ring w) =? 0 then flush_actions (srv w) else []
  | Completion c =>
      match reading_of oc (srv w) c with
      | Nothing => []
      | Accepted fd => [Connect (next_id (srv w)) fd]
      | OfClient u e => client_actions w u (cqe_result c) (cqe_flags c) e
      end
  | Release => []
  end.

(** The requests a flush puts into the queue are its transmissions. *)
Definition request_of (a : action) : option Entry :=
  match a with
  | Transmit cid fd data => Some (send_entry cid fd (length data))
  | _ => None
  end.

Lemma flush_requests s : pending_sends s = omap request_of (flush_actions s).
Proof.
  unfold pending_sends, flush_actions. induction (sv_iter _) as [|[cid lake] l IH]; [done|].
  cbn [omap list_omap]. unfold send_of, transmission. cbn [fst snd].
  destruct (lake_len lake =? 0); [exact IH|]. destruct (sv_get _ cid) as [fd|]; [|exact IH].
  cbn. f_equal; [|exact IH]. unfold send_entry, send. cbn. by rewrite lake_data_length, lake_len_pos.
Qed.

(** ** Each move performs its actions *)

Lemma connections_answer s s' cid lake lake' bs :
  is_Some (sv_get (client_fds s) cid) → client_fds s' = client_fds s → next_id s' = next_id s →
  sv_get (client_out_buffers s) cid = Some lake →
  sv_get (client_out_buffers s') cid = Some lake' → lake_data lake' = lake_data lake ++ bs →
  (∀ cid', cid ≠ cid' → sv_get (client_out_buffers s') cid' = sv_get (client_out_buffers s) cid') →
  ∃ fd, connections_of s !! cid = Some (fd, lake_data lake) ∧
    connections_of s' = <[cid := (fd, lake_data lake ++ bs)]> (connections_of s).
Proof.
  intros [fd Hfd] Hf Hn Hlk Hlk' Hd Ho. exists fd.
  rewrite connections_lookup, Hlk. cbn. rewrite Hfd. split; [done|].
  apply map_eq. intros i. rewrite lookup_insert, !connections_lookup, Hf. case_decide as Hi.
  - subst. rewrite Hlk'. cbn. by rewrite Hfd, Hd.
  - by rewrite Ho.
Qed.

Lemma perform_answer s s' r r' k k' l l' cid lake lake' reqs :
  is_Some (sv_get (client_fds s) cid) → client_fds s' = client_fds s →
  sv_get (client_out_buffers s) cid = Some lake →
  sv_get (client_out_buffers s') cid = Some lake' →
  lake_data lake' = lake_data lake ++ responses (date s) reqs →
  (∀ cid', cid ≠ cid' → sv_get (client_out_buffers s') cid' = sv_get (client_out_buffers s) cid') →
  perform (Answer cid (date s) reqs) (view (mkWorld s r k l)) = Some (view (mkWorld s' r' k' l')).
Proof.
  intros Hfd Hf Hlk Hlk' Hd Ho. assert (Hn : next_id s' = next_id s) by (unfold next_id; by rewrite Hf).
  destruct (connections_answer s s' cid lake lake' _ Hfd Hf Hn Hlk Hlk' Hd Ho) as (fd & Hl & Hc).
  unfold view. cbn [perform open given srv]. rewrite Hl. cbn. by rewrite Hc, Hn.
Qed.

Lemma perform_accept w fd s' r' k' l' :
  accepted (srv w) fd s' →
  perform (Connect (next_id (srv w)) fd) (view w) = Some (view (mkWorld s' r' k' l')).
Proof.
  intros Ha. cbn [perform view given open]. rewrite decide_True by done. unfold view. cbn [srv].
  rewrite (acc_next _ _ _ Ha). do 2 f_equal. apply map_eq. intros cid.
  rewrite lookup_insert, !connections_lookup, (acc_out _ _ _ Ha), (acc_fds _ _ _ Ha).
  case_decide; [|done]. cbn. by rewrite lake_data_build.
Qed.

Lemma perform_close w cid s' r' k' l' :
  closed (srv w) cid s' →
  perform (Disconnect cid) (view w) = Some (view (mkWorld s' r' k' l')).
Proof.
  intros Hc. cbn [perform view given open]. unfold view. cbn [srv].
  rewrite (cl_next _ _ _ Hc). do 2 f_equal. apply map_eq. intros i.
  rewrite lookup_delete, !connections_lookup, (cl_out _ _ _ Hc), (cl_fds _ _ _ Hc).
  by case_decide.
Qed.

Lemma release_view w w' : release_result w (IoOk tt) w' → view w' = view w.
Proof. intros [((bufs & rel & Hs) & _) _]. by apply view_same; rewrite Hs. Qed.

(** Transmissions to different connections, one after the other. *)
Lemma perform_flush fds l c :
  NoDup l.*1 →
  (∀ cid lake fd, (cid, lake) ∈ l → sv_get fds cid = Some fd →
     open c !! cid = Some (fd, lake_data lake)) →
  ∃ m, perform_all (omap (transmission fds) l) c = Some (mkConnections (given c) m) ∧
    ∀ cid, m !! cid = if decide (cid ∈ l.*1 ∧ is_Some (sv_get fds cid))
                      then (λ x, (x.1, [])) <$> open c !! cid else open c !! cid.
Proof.
  revert c. induction l as [|[i lake] l IH]; intros c Hnd Hl.
  { exists (open c). split; [by destruct c|]. intros cid.
    by rewrite decide_False by (by intros [?%not_elem_of_nil _]). }
  cbn [fmap list_fmap fst] in *. apply list.NoDup_cons in Hnd as [Hi Hnd].
  assert (Hrest : ∀ c', (∀ cid, cid ≠ i → open c' !! cid = open c !! cid) →
    ∀ cid lake fd, (cid, lake) ∈ l → sv_get fds cid = Some fd →
      open c' !! cid = Some (fd, lake_data lake)).
  { intros c' Hc' cid lk fd Hin Hfd. rewrite Hc'; [by eapply Hl; [right|]|].
    intros ->. apply Hi, list_elem_of_fmap. by exists (i, lk). }
  assert (Hdone : ∀ c', given c' = given c →
    (∀ cid, open c' !! cid = if decide (cid = i ∧ is_Some (sv_get fds i))
                             then (λ x, (x.1, [])) <$> open c !! cid else open c !! cid) →
    ∃ m, perform_all (omap (transmission fds) l) c' = Some (mkConnections (given c) m) ∧
      ∀ cid, m !! cid = if decide (cid ∈ i :: l.*1 ∧ is_Some (sv_get fds cid))
                        then (λ x, (x.1, [])) <$> open c !! cid else open c !! cid).
  { intros c' Hg Hc'. destruct (IH c' Hnd) as (m & Heq & Hm).
    { apply Hrest. intros cid Hne. rewrite Hc', decide_False; [done|]. by intros [? _]. }
    exists m. rewrite Heq, Hg. split; [done|]. intros cid. rewrite Hm, Hc'.
    destruct (decide (cid = i)) as [->|Hne].
    - rewrite decide_False by (by intros [? _]). apply decide_ext. rewrite elem_of_cons.
      split; [intros [_ ?]; auto|by intros [_ ?]].
    - rewrite (decide_False (P := cid = i ∧ _)) by (by intros [? _]). apply decide_ext.
      rewrite elem_of_cons. split; [intros [? ?]; auto|by intros [[?|?] ?]]. }
  cbn [omap list_omap]. unfold transmission at 1. cbn [fst snd].
  destruct (sv_get fds i) as [fd|] eqn:Hfd.
  2: { destruct (lake_len lake =? 0); (apply Hdone; [done|]; intros cid;
         by rewrite decide_False by (by intros [_ []])). }
  pose proof (Hl i lake fd (list_elem_of_here _ _) Hfd) as Ho.
  destruct (Nat.eqb_spec (lake_len lake) 0) as [Hz|Hnz].
  - apply Hdone; [done|]. intros cid. case_decide as Hc; [|done]. destruct Hc as [-> _].
    rewrite Ho. cbn. rewrite <- lake_data_length in Hz. by rewrite (nil_length_inv _ Hz).
  - cbn [mbind option_bind perform_all].
    cbn [perform mbind option_bind]. rewrite Ho. cbn [mbind option_bind]. rewrite decide_True.
    2: { split_and!; [done..|]. intros Hd. apply Hnz. by rewrite <- lake_data_length, Hd. }
    cbn. apply Hdone; [done|]. intros cid. cbn [open]. rewrite lookup_insert.
    case_decide as Hc; subst.
    + rewrite decide_True by (by split; [|eexists]). by rewrite Ho.
    + by rewrite decide_False by (by intros [-> _]).
Qed.

Lemma flushed_data fds cid lake fd :
  sv_get fds cid = Some fd → lake_data (flushed fds cid lake) = [].
Proof.
  intros Hfd. unfold flushed, send_of. cbn [fst snd]. rewrite Hfd.
  destruct (Nat.eqb_spec (lake_len lake) 0) as [Hz|Hnz]; [|apply lake_data_reset].
  apply nil_length_inv. by rewrite lake_data_length.
Qed.

Lemma head_performed t w w' :
  headed w w' → perform_all (actions (Head t) w) (view w) = Some (view w').
Proof.
  unfold headed. cbn [actions]. destruct (cq_len (ring w) =? 0).
  2: { intros (Hf & Ho & _). by rewrite (view_same w w'). }
  intros (Hf & _ & Ho & _).
  assert (Hn : next_id (srv w') = next_id (srv w)) by (unfold next_id; by rewrite Hf).
  destruct (perform_flush (client_fds (srv w)) (sv_iter (client_out_buffers (srv w))) (view w))
    as (m & Heq & Hm).
  { rewrite sv_iter_slots. apply filled_slots_NoDup. }
  { intros cid lake fd Hin%sv_iter_elem Hfd. cbn [open view]. rewrite connections_lookup, Hin.
    cbn. by rewrite Hfd. }
  unfold flush_actions. rewrite Heq. unfold view. rewrite Hn. cbn [given]. do 2 f_equal.
  apply map_eq. intros cid. rewrite Hm. cbn [view open]. rewrite !connections_lookup, Ho, Hf.
  destruct (sv_get (client_out_buffers (srv w)) cid) as [lake|] eqn:Hlk; cbn; [|by case_decide].
  destruct (sv_get (client_fds (srv w)) cid) as [fd|] eqn:Hfd; cbn; [|by case_decide].
  rewrite decide_True; [by rewrite (flushed_data _ _ _ fd)|].
  split; [|by eexists]. apply list_elem_of_fmap. exists (cid, lake). by rewrite sv_iter_elem.
Qed.

Lemma packet_performed cid buf_id result w w' buf :
  inv w → packet_answered cid buf_id result w w' → buffers (srv w) !! buf_id = Some buf →
  perform (Answer cid (date (srv w)) (requests MAX_REQUESTS (take (Z.to_nat result) buf))) (view w)
    = Some (view w').
Proof.
  intros [Hw _] (buf' & s' & Hb & Hrp & _ & Hw') Hb'. rewrite Hb in Hb'. injection Hb' as <-.
  destruct (rp_out _ _ _ _ _ _ Hrp) as (lake & lake' & Hlk & Hlk' & Hd).
  assert (Hp : ∀ r k l, perform (Answer cid (date (srv w))
      (requests MAX_REQUESTS (take (Z.to_nat result) buf'))) (view w)
    = Some (view (mkWorld s' r k l))).
  { intros r k l. destruct w as [s r0 k0 l0].
    eapply perform_answer; [by apply mk_is_Some, (inv_out_fds _ Hw) in Hlk
      |apply (rp_fds _ _ _ _ _ _ Hrp)|done|done|done|apply (rp_others _ _ _ _ _ _ Hrp)]. }
  destruct Hw' as [-> |Hrel]; [apply Hp|]. rewrite (release_view _ _ Hrel). apply Hp.
Qed.

Lemma poll_performed u result flags w w' :
  inv w → poll_answered (client_of u) w w' →
  perform_all (client_actions w u result flags Readable) (view w) = Some (view w').
Proof.
  intros [Hw _] Hp. unfold poll_answered in Hp. cbn [client_actions].
  destruct (kernel_buf w) as [i|]; [|by subst].
  destruct Hp as (buf & s' & Hb & -> & Hs'). cbn [mbind option_bind]. rewrite Hb.
  destruct (ubdma_answers (srv w) (client_of u) buf) eqn:Ha.
  2: { subst s'. by destruct w. }
  unfold ubdma_answers in Ha. apply andb_true_iff in Ha as [_ Ha].
  destruct (sv_get (client_out_buffers (srv w)) (client_of u)) as [lake|] eqn:Hlk; [|done].
  apply Nat.eqb_eq in Ha. destruct (ub_out _ _ _ _ Hs') as (lake' & Hlk' & Hd).
  cbn [perform_all].
  assert (Hempty : lake_data lake = []) by (apply nil_length_inv; by rewrite lake_data_length).
  destruct w as [s r k l]. cbn [srv] in *. erewrite perform_answer; [done|..].
  - by apply mk_is_Some, (inv_out_fds _ Hw) in Hlk.
  - apply (ub_fds _ _ _ _ Hs').
  - done.
  - done.
  - by rewrite Hempty.
  - apply (ub_others _ _ _ _ Hs').
Qed.

Lemma handled_performed w c w' :
  inv w → handled oc w c w' → perform_all (actions (Completion c) w) (view w) = Some (view w').
Proof.
  intros Hi Hh. unfold handled in Hh. cbn [actions].
  destruct (reading_of oc (srv w) c) as [|fd|u e]; [by subst| |].
  { destruct Hh as (s' & sys & Ha & _ & ->). cbn [perform_all].
    by erewrite perform_accept. }
  destruct e; cbn [client_handled] in Hh.
  - by subst.
  - by rewrite (release_view _ _ Hh).
  - destruct Hh as (s' & sys & Hc & ->). cbn [client_actions perform_all].
    by erewrite perform_close.
  - by apply poll_performed.
  - cbn [client_actions]. destruct (_ <? _)%Z; [subst; by case_match|].
    destruct (Hh) as (buf & _ & Hb & _). rewrite Hb. cbn [perform_all].
    by erewrite packet_performed.
Qed.

Lemma actions_with_ring c r w : actions (Completion c) (with_ring r w) = actions (Completion c) w.
Proof. done. Qed.

Lemma step_performed m w w' :
  inv w → step_by oc m w w' → perform_all (actions m w) (view w) = Some (view w').
Proof.
  intros Hi Hs. destruct Hs as [t w w' Hd Hf Hc Heq|c r w w' Hn Hp Hroom Heq|w w' Hroom Heq].
  - apply head_performed.
    by destruct (runs_result _ _ _ _ _ (loop_head_keeps oc t w Hi Hd Hf Hc) Heq) as (_ & _ & ?).
  - rewrite <- (actions_with_ring c r w). change (view (counted w')) with (view w').
    change (view w) with (view (with_ring r w)).
    apply handled_performed; [by apply with_ring_inv|].
    by apply process_entry_handled; [apply with_ring_inv|..].
  - cbn [actions perform_all]. f_equal. symmetry. apply release_view.
    by apply released_handled; [apply Hi|..].
Qed.

(** A flush queues exactly its transmissions, behind what is still queued. *)
Lemma head_queued t w w' :
  headed w w' → ∃ k, sq_entries (ring w') =
    drop k (sq_entries (ring w) ++ omap request_of (actions (Head t) w)).
Proof.
  unfold headed. cbn [actions]. destruct (_ =? _).
  - intros (_ & _ & _ & k & He). exists k. by rewrite He, flush_requests.
  - intros (_ & _ & k & He). exists k. by rewrite He, app_nil_r.
Qed.

(** C8: each move of a worker in a state with the invariant performs exactly the
    actions the specification reads off the state and the completion: a flush
    transmits each pending stream whole to its own descriptor and queues just
    these transmissions, a packet is answered with the responses to its
    requests, and all else leaves every connection as it is. *)
Theorem move_performs m w w' :
  inv w → step_by oc m w w' →
  perform_all (actions m w) (view w) = Some (view w') ∧
  ∀ t, m = Head t → ∃ k, sq_entries (ring w') =
    drop k (sq_entries (ring w) ++ omap request_of (actions m w)).
Proof.
  intros Hi Hs. split; [by apply step_performed|]. intros t ->.
  inversion Hs as [t' w1 w2 Hd Hf Hc Heq| |]; subst. apply head_queued.
  by destruct (runs_result _ _ _ _ _ (loop_head_keeps oc t w Hi Hd Hf Hc) Heq) as (_ & _ & ?).
Qed.

(** * Runs *)

(** A run of the worker, with all its actions. *)
Inductive traced : World → list action → World → Prop :=
  | traced_refl w : traced w [] w
  | traced_step m w w1 tr w2 :
      step_by oc m w w1 → traced w1 tr w2 → traced w (actions m w ++ tr) w2.

Lemma traced_steps w tr w' : traced w tr w' → rtc (step oc) w w'.
Proof. induction 1 as [|m w w1 tr w2 Hs _ IH]; [done|]. eapply rtc_l; [by exists m|done]. Qed.

(** Every run has a trace. *)
Lemma steps_traced w w' : rtc (step oc) w w' → ∃ tr, traced w tr w'.
Proof.
  induction 1 as [w|w w1 w2 [m Hs] _ [tr IH]]; [by exists []; constructor|].
  eexists. by eapply traced_step.
Qed.

Lemma traced_performed w tr w' :
  inv w → traced w tr w' → perform_all tr (view w) = Some (view w').
Proof.
  intros Hi Ht. revert Hi. induction Ht as [|m w w1 tr w2 Hs _ IH]; intros Hi; [done|].
  rewrite perform_all_app, (step_performed _ _ _ Hi Hs). apply IH.
  eapply step_inv; [by exists m|done].
Qed.

(** The send requests a move pushes are its transmissions. *)
Lemma step_requests m w w' :
  step_by oc m w w' → sends_pushed w' = sends_pushed w ++ omap request_of (actions m w).
Proof.
  intros Hs. rewrite (step_pushes oc m w w' Hs). f_equal. destruct m as [t|c|]; cbn [actions]; [|..|done].
  - case_match; [apply flush_requests|done].
  - destruct (reading_of oc (srv w) c) as [| |u e]; [done..|]. unfold client_actions.
    by repeat case_match.
Qed.

Lemma traced_requests w tr w' :
  traced w tr w' → sends_pushed w' = sends_pushed w ++ omap request_of tr.
Proof.
  induction 1 as [w|m w w1 tr w2 Hs _ IH]; [by rewrite app_nil_r|].
  by rewrite omap_app, app_assoc, <- (step_requests _ _ _ Hs).
Qed.

Lemma started_view listener w : started listener w → view w = mkConnections RESERVED ∅.
Proof.
  intros (w0 & Hf & Hk & He & Hroom & Heq).
  destruct (runs_result _ _ _ _ _ (sq_poll_setup_spec listener w0 Hf Hk He Hroom) Heq)
    as (_ & Hn & Ho & _).
  unfold view. rewrite Hn. f_equal. apply map_eq. intros cid.
  rewrite connections_lookup, Ho, lookup_empty, (sv_get_slot (client_out_buffers _)).
  by rewrite (fresh_out _ Hf).
Qed.

Lemma run_performed listener w0 tr w :
  started listener w0 → traced w0 tr w →
  perform_all tr (mkConnections RESERVED ∅) = Some (view w).
Proof.
  intros Hs Ht. rewrite <- (started_view _ _ Hs). apply traced_performed; [|done].
  by eapply good_inv, started_good.
Qed.

(** C1: the worker refines its specification: the actions of every run, from the
    set-up on, are a run of the abstract server that leads from no connection
    to the connections of the final state. *)
Theorem worker_refines listener w0 tr w :
  started listener w0 → traced w0 tr w →
  perform_all tr (mkConnections RESERVED ∅) = Some (view w).
Proof. apply run_performed. Qed.

(** C2: every client gets each answer at most once and in order. In every run,
    the send requests pushed to the submission queue are one by one the
    transmissions of the run: to the descriptor, from the out buffer of the
    client, as long as the bytes transmitted, and the worker pushes no other
    send. What was transmitted to a client is a prefix of the responses to the
    requests in its packets, all of it to the descriptor the client was
    accepted on; and as long as the client is connected, the rest of the
    responses is exactly what its out buffer holds. *)
Theorem answers_in_order listener w0 tr w cid :
  started listener w0 → traced w0 tr w →
  sends_pushed w = sends_pushed w0 ++ omap request_of tr ∧
  (∃ rest, answered cid tr = transmitted cid tr ++ rest) ∧
  (∀ fd data, Transmit cid fd data ∈ tr → Connect cid fd ∈ tr) ∧
  (∀ fd lake, sv_get (client_fds (srv w)) cid = Some fd →
     sv_get (client_out_buffers (srv w)) cid = Some lake →
     Connect cid fd ∈ tr ∧ answered cid tr = transmitted cid tr ++ lake_data lake).
Proof.
  intros Hs Ht. destruct (perform_all_history _ _ _ (run_performed _ _ _ _ Hs Ht))
    as [Ho _ Hp Hf _].
  split; [by apply traced_requests|].
  split; [apply Hp|]. split; [apply Hf|]. intros fd lake Hfd Hlk.
  destruct (Ho cid fd (lake_data lake)) as (_ & ? & ?); [|done].
  cbn [open view]. rewrite connections_lookup, Hlk. cbn. by rewrite Hfd.
Qed.

(** C37: client ids are never reused: in every run the clients get the numbers
    from 100 on, one after the other, whoever disconnects in between; and once
    as many clients were accepted since the start as the out buffers have room
    for beyond the reserved ids, the next completion of an accept panics, however
    few of them are still connected. Up to then none does. *)
Theorem ids_never_reused listener w0 tr w fd flags :
  started listener w0 → traced w0 tr w → (0 < fd)%Z →
  connects tr = seq RESERVED (length (connects tr)) ∧
  RESERVED + length (connects tr) ≤ sv_capacity (client_out_buffers (srv w0)) ∧
  if RESERVED + length (connects tr) =? sv_capacity (client_out_buffers (srv w0))
  then process_entry oc (mkCqe CODE_ACCEPT fd flags) w = Panic
  else ∃ w', process_entry oc (mkCqe CODE_ACCEPT fd flags) w = Ret (IoOk tt, w').
Proof.
  intros Hs Ht Hfd. pose proof (started_good _ _ Hs) as Hg0.
  destruct (steps_grow oc _ _ (traced_steps _ _ _ Ht) (good_inv _ Hg0)) as [Hcap _ Hb _].
  specialize (Hb (good_ids _ Hg0)).
  destruct (perform_all_given _ _ _ (run_performed _ _ _ _ Hs Ht)) as [Hc Hle].
  cbn [given view] in Hc, Hle.
  assert (Hlen : length (connects tr) = next_id (srv w) - RESERVED) by by rewrite Hc, length_seq.
  rewrite Hlen. split; [done|]. replace (RESERVED + _) with (next_id (srv w)) by lia.
  split; [done|].
  change (process_entry oc (mkCqe CODE_ACCEPT fd flags) w) with (process_entry_accept fd w).
  destruct (Nat.eqb_spec (next_id (srv w)) (sv_capacity (client_out_buffers (srv w0)))) as [He|Hne].
  - apply accept_exhausted; [done|]. rewrite Hcap. lia.
  - destruct (accept_runs fd w Hfd) as (s' & -> & _); [rewrite Hcap; lia|]. by eexists.
Qed.
End spec.
