(* ===== verification/Pipeline.v ===== *)
(** Pipelined requests: parsing inverts the framing of well-formed requests, up
    to the answers the server writes for them. *)
From S2P Require Import Prelude Config Avx Http Crates UserData Uring IoState Handler Sockets.
From S2P Require Import Server Replies Buffers Connections Invariant.

(** * Well-formed requests *)

Record request := mkRequest { rq_method : bytes; rq_path : bytes; rq_rest : bytes }.

Definition request_wire (r : request) : bytes :=
  rq_method r ++ [x20] ++ rq_path r ++ [x20] ++ rq_rest r.

(** What the scanner relies on: a GET or POST whose request line has its second
    space among the first 32 bytes, followed by enough header bytes, and in
    which neither "GET" nor "POS" occurs again. *)
Record request_ok (r : request) : Prop := {
  rq_ok_method : rq_method r = byte_str "GET" ∨ rq_method r = byte_str "POST";
  rq_ok_path : x20 ∉ rq_path r;
  rq_ok_line : length (rq_method r) + length (rq_path r) + 2 ≤ 32;
  rq_ok_length : 34 ≤ length (request_wire r);
  rq_ok_single i : 0 < i → i + 3 ≤ length (request_wire r) → match_at (request_wire r) i = false;
}.

Definition stream (rs : list request) : bytes := mjoin (request_wire <$> rs).
Definition entry_of (r : request) : RequestEntry := (rq_method r, rq_path r).

Lemma stream_cons r rs : stream (r :: rs) = request_wire r ++ stream rs.
Proof. done. Qed.

(** * Matches *)

Lemma match_at_app pre l i : match_at (pre ++ l) (length pre + i) = match_at l i.
Proof. unfold match_at. by rewrite drop_app_add. Qed.

Lemma match_at_prefix w r i : i + 3 ≤ length w → match_at (w ++ r) i = match_at w i.
Proof.
  intros Hi. unfold match_at. rewrite drop_app_le by lia.
  rewrite take_app_le by (rewrite length_drop; lia). done.
Qed.

Lemma wire_head r : request_ok r → ∃ c t, request_wire r = c :: t ∧ (c = "G"%byte ∨ c = "P"%byte).
Proof.
  intros Hr. unfold request_wire. destruct (rq_ok_method r Hr) as [-> | ->]; eexists _, _;
    (split; [reflexivity|]); auto.
Qed.

Lemma wire_match r rest : request_ok r → match_at (request_wire r ++ rest) 0 = true.
Proof.
  intros Hr. unfold match_at, request_wire. destruct (rq_ok_method r Hr) as [-> | ->]; reflexivity.
Qed.

Lemma stream_head rs : Forall request_ok rs →
  stream rs = [] ∨ ∃ c t, stream rs = c :: t ∧ (c = "G"%byte ∨ c = "P"%byte).
Proof.
  intros [|r rs' Hr _]; [by left|right]. rewrite stream_cons.
  destruct (wire_head r Hr) as (c & t & -> & Hc). by eexists _, _.
Qed.

(** A match does not straddle two requests. *)
Lemma straddle w l i :
  (l = [] ∨ ∃ c t, l = c :: t ∧ (c = "G"%byte ∨ c = "P"%byte)) →
  i < length w → length w < i + 3 → match_at (w ++ l) i = false.
Proof.
  intros Hl Hi Hw. unfold match_at. rewrite drop_app_le by lia.
  assert (Hd : length (drop i w) = length w - i) by apply length_drop.
  destruct (drop i w) as [|a [|b [|]]]; cbn in Hd; try lia.
  - destruct Hl as [->|(c & t & -> & [-> | ->])]; cbn; repeat case_bool_decide; simplify_eq; done.
  - destruct Hl as [->|(c & t & -> & [-> | ->])]; cbn; repeat case_bool_decide; simplify_eq; done.
Qed.

Lemma wire_no_match r rs i :
  request_ok r → Forall request_ok rs → 0 < i → i < length (request_wire r) →
  match_at (request_wire r ++ stream rs) i = false.
Proof.
  intros Hr Hrs Hi Hl. destruct (decide (i + 3 ≤ length (request_wire r))).
  - rewrite match_at_prefix by done. by apply rq_ok_single.
  - apply straddle; [by apply stream_head|done|lia].
Qed.

(** * Start positions *)

Fixpoint starts_from (k : nat) (rs : list request) : list nat :=
  match rs with
  | [] => []
  | r :: rs => k :: starts_from (k + length (request_wire r)) rs
  end.

Lemma filter_none (P : nat → bool) l : (∀ i, i ∈ l → P i = false) → filter P l = [].
Proof.
  induction l as [|a l IH]; intros HP; [done|].
  rewrite filter_cons_False by (rewrite HP by (by left); by intros []).
  apply IH. intros i Hi. apply HP. by right.
Qed.

Lemma filter_starts rs pre :
  Forall request_ok rs →
  filter (match_at (pre ++ stream rs)) (seq (length pre) (length (stream rs)))
  = starts_from (length pre) rs.
Proof.
  intros Hrs. revert pre. induction Hrs as [|r rs Hr Hrs IH]; intros pre; [done|].
  rewrite stream_cons, length_app, seq_app, list.filter_app, app_assoc. cbn [starts_from].
  rewrite <- length_app, IH, length_app. change (length pre :: ?l) with ([length pre] ++ l).
  f_equal. pose proof (rq_ok_length r Hr).
  destruct (length (request_wire r)) as [|n] eqn:Hn; [lia|]. cbn [seq].
  rewrite <- app_assoc. rewrite filter_cons_True.
  - f_equal. apply filter_none. intros i Hi%elem_of_seq.
    replace i with (length pre + (i - length pre)) by lia. rewrite match_at_app.
    apply wire_no_match; [done|done|lia|lia].
  - pose proof (match_at_app pre (request_wire r ++ stream rs) 0) as Hm.
    rewrite Nat.add_0_r in Hm. rewrite Hm, wire_match by done. done.
Qed.

Lemma starts_bound rs k p :
  Forall request_ok rs → p ∈ starts_from k rs → k ≤ p ∧ p + 34 ≤ k + length (stream rs).
Proof.
  intros Hrs. revert k. induction Hrs as [|r rs Hr Hrs IH]; intros k; cbn [starts_from].
  { by intros ?%not_elem_of_nil. }
  rewrite stream_cons, length_app. pose proof (rq_ok_length r Hr).
  intros [->|Hin]%elem_of_cons; [lia|]. specialize (IH _ Hin). lia.
Qed.

Lemma request_starts_stream n rs :
  Forall request_ok rs → request_starts n (stream rs) = take n (starts_from 0 rs).
Proof.
  intros Hrs. unfold request_starts. f_equal.
  pose proof (filter_starts rs [] Hrs) as Hf. cbn [app length] in Hf.
  assert (Hsc : scanned (length (stream rs)) ≤ length (stream rs))
    by (unfold scanned; div_lia).
  replace (length (stream rs)) with
    (scanned (length (stream rs)) + (length (stream rs) - scanned (length (stream rs)))) in Hf at 1 by lia.
  rewrite seq_app, list.filter_app in Hf. rewrite <- Hf at 1.
  assert (Hrest : filter (match_at (stream rs)) (seq (0 + scanned (length (stream rs)))
    (length (stream rs) - scanned (length (stream rs)))) = []); [|by rewrite Hrest, app_nil_r].
  apply filter_none. intros i Hi%elem_of_seq. apply not_true_iff_false. intros Hm.
  assert (Hin : i ∈ starts_from 0 rs).
  { rewrite <- Hf. apply elem_of_app. right. apply list_elem_of_filter.
    split; [by rewrite Hm|]. apply elem_of_seq. lia. }
  apply starts_bound in Hin; [|done]. unfold scanned in Hi. div_lia.
Qed.

(** * Entries *)

Lemma first_space_app l t : x20 ∉ l → first_space (l ++ x20 :: t) = Some (length l).
Proof.
  unfold first_space. induction l as [|b l IH]; intros Hl; [done|].
  apply not_elem_of_cons in Hl as [Hb Hl]. cbn. unfold is_space at 1.
  rewrite byte_eqb_decide, bool_decide_eq_false_2 by congruence. unfold first_space in IH.
  by rewrite IH.
Qed.

Lemma method_no_space r : request_ok r → x20 ∉ rq_method r.
Proof.
  intros Hr. destruct (rq_ok_method r Hr) as [-> | ->];
    apply (bool_decide_unpack _); vm_compute; exact I.
Qed.

(** The 32-byte window of a request. *)
Lemma request_window pre r post :
  request_ok r →
  ∃ t, take 32 (drop (length pre) (pre ++ request_wire r ++ post)) =
    rq_method r ++ x20 :: rq_path r ++ x20 :: t.
Proof.
  intros Hr. pose proof (rq_ok_line r Hr). rewrite drop_app_length. unfold request_wire.
  exists (take (32 - (length (rq_method r) + length (rq_path r) + 2)) (rq_rest r ++ post)).
  rewrite <- !app_assoc. rewrite take_app_ge by lia. f_equal. cbn [app].
  replace (32 - length (rq_method r)) with (S (31 - length (rq_method r))) by lia.
  cbn [take firstn]. f_equal. rewrite take_app_ge by lia. f_equal.
  replace (31 - length (rq_method r) - length (rq_path r)) with
    (S (32 - (length (rq_method r) + length (rq_path r) + 2))) by lia. done.
Qed.

Lemma entry_at_request pre r post :
  request_ok r →
  entry_at (pre ++ request_wire r ++ post) (length pre) = Some (entry_of r) ∧
  boundary_at (pre ++ request_wire r ++ post) (length pre) = false.
Proof.
  intros Hr. destruct (request_window pre r post Hr) as [t Ht].
  pose proof (method_no_space r Hr) as Hm. pose proof (rq_ok_path r Hr) as Hp.
  pose proof (rq_ok_line r Hr).
  unfold entry_at, boundary_at. rewrite Ht. rewrite first_space_app by done. split.
  - cbn [mbind option_bind]. rewrite drop_app_add. cbn [drop skipn]. rewrite drop_0.
    rewrite first_space_app by done. cbn. by rewrite !take_app_length.
  - apply bool_decide_eq_false. intros [= Heq]. lia.
Qed.

Lemma starts_entries rs pre k :
  Forall request_ok rs →
  omap (entry_at (pre ++ stream rs)) (take k (starts_from (length pre) rs)) = entry_of <$> take k rs ∧
  Forall (λ p, boundary_at (pre ++ stream rs) p = false) (take k (starts_from (length pre) rs)).
Proof.
  intros Hrs. revert pre k. induction Hrs as [|r rs Hr Hrs IH]; intros pre k; (destruct k as [|k]; [done|]);
    [done|].
  rewrite stream_cons. cbn [starts_from take firstn]. rewrite <- length_app.
  destruct (entry_at_request pre r (stream rs) Hr) as [He Hb].
  specialize (IH (pre ++ request_wire r) k). rewrite <- app_assoc in IH. destruct IH as [IH1 IH2].
  cbn [omap list_omap fmap list_fmap]. rewrite He, IH1. split; [done|].
  by constructor.
Qed.

Lemma take_while_all {A} (P : A → bool) l : (∀ a, a ∈ l → P a = true) → take_while P l = l.
Proof.
  induction l as [|a l IH]; intros HP; [done|]. cbn. rewrite HP by (by left).
  f_equal. apply IH. intros b Hb. apply HP. by right.
Qed.

Lemma full_starts_stream n rs :
  Forall request_ok rs → full_starts n (stream rs) = take n (starts_from 0 rs).
Proof.
  intros Hrs. unfold full_starts. rewrite request_starts_stream by done.
  apply take_while_all. intros p (i & Hp%list_elem_of_lookup_2 & _)%elem_of_take.
  apply starts_bound in Hp; [|done]. apply Nat.leb_le. lia.
Qed.

Lemma requests_stream n rs :
  Forall request_ok rs →
  requests n (stream rs) = entry_of <$> take n rs ∧ no_boundary n (stream rs).
Proof.
  intros Hrs. unfold requests, no_boundary. rewrite full_starts_stream by done.
  apply (starts_entries rs [] n Hrs).
Qed.

(** Parsing inverts framing: from a packet of pipelined well-formed requests
    the parser recovers exactly the method and the path of the first [n], in
    order, in both build profiles. *)
Theorem parse_pipeline oc n rs :
  Forall request_ok rs →
  parse_http_methods_paths oc n (stream rs) =
    Ret (padded ([], []) n (entry_of <$> take n rs), length (take n rs)).
Proof.
  intros Hrs. destruct (requests_stream n rs Hrs) as [Hr Hb].
  by rewrite parse_requests_spec, Hr, length_fmap.
Qed.

(** A packet of fewer than 34 bytes yields no request at all, even when it
    is a complete one. *)
Theorem parse_short_packet oc n buf :
  length buf < 34 →
  parse_http_methods_paths oc n buf = Ret (padded ([], []) n [], 0).
Proof.
  intros Hl.
  assert (Hf : full_starts n buf = []).
  { unfold full_starts, request_starts. replace (scanned (length buf)) with 0
      by (unfold scanned; div_lia). by destruct n. }
  assert (Hr : requests n buf = []) by (unfold requests; by rewrite Hf).
  rewrite parse_requests_spec, Hr; [done|]. unfold no_boundary. by rewrite Hf.
Qed.

(** * From the packet to the answers *)

Section answers.
Context `{LakeLaws, JsonLaws, StableVecLaws, RingLaws, SocketOps}.

Lemma pipeline_helper oc user flags rs rest w lake :
  let buf_id := N.to_nat (N.shiftr flags 16 mod 2 ^ 16) in
  let cid := N.to_nat (client_id user) in
  inv w → Forall request_ok rs → length rs ≤ MAX_REQUESTS →
  buffers (srv w) !! buf_id = Some (stream rs ++ rest) →
  sv_get (client_out_buffers (srv w)) cid = Some lake → lake_data lake = [] →
  S (length (released_buffers (srv w))) < release_part →
  ∃ w' lake', request_reply oc flags user (Z.of_nat (length (stream rs))) w = Ret (IoOk tt, w') ∧
    sv_get (client_out_buffers (srv w')) cid = Some lake' ∧
    lake_data lake' = responses (date (srv w)) (entry_of <$> rs).
Proof.
  intros buf_id cid [Hw Hlt] Hrs Hn Hbuf Hlk Hd Hrel.
  destruct (requests_stream MAX_REQUESTS rs Hrs) as [Hr Hb]. rewrite take_ge in Hr by done.
  assert (Hlen : length (stream rs ++ rest) = BUFFER_SIZE).
  { by eapply (Forall_lookup_1 _ _ _ _ (shape_buffer_size _ (inv_shape w Hw))). }
  assert (Htake : take (Z.to_nat (Z.of_nat (length (stream rs)))) (stream rs ++ rest) = stream rs)
    by (rewrite Nat2Z.id; apply take_app_length).
  destruct (request_reply_helper oc flags user (Z.of_nat (length (stream rs))) w
    (stream rs ++ rest) lake) as (s' & Hrp & Heq).
  - apply Hw.
  - rewrite length_app in Hlen. clear -Hlen. lia.
  - done.
  - by rewrite Htake.
  - done.
  - rewrite Htake, Hr, Hd. cbn [length].
    pose proof (responses_length (date (srv w)) (entry_of <$> rs) (shape_date _ (inv_shape w Hw))) as Hl.
    rewrite length_fmap in Hl. unfold MAX_REQUESTS, MAX_RESPONSE in *. clear -Hl Hn. const_lia.
  - cbv zeta in Heq. rewrite Htake, Hr in Hrp.
    rewrite (proj2 (Nat.eqb_neq _ _)) in Heq.
    2: { rewrite (rp_released _ _ _ _ _ _ Hrp), length_app. clear -Hrel. cbn [length]. lia. }
    destruct (rp_out _ _ _ _ _ _ Hrp) as (l & l' & Hl1 & Hl2 & Hdl).
    fold cid in Hl1. rewrite Hlk in Hl1. injection Hl1 as <-.
    eexists _, l'. split; [exact Heq|]. split; [exact Hl2|]. by rewrite Hdl, Hd.
Qed.

(** C10: end to end: when up to fifty well-formed pipelined requests arrive for
    a client with an empty out buffer, handling the completion leaves exactly
    their answers, in order, in that buffer. *)
Theorem pipeline_answered oc user flags rs rest w lake :
  let buf_id := N.to_nat (N.shiftr flags 16 mod 2 ^ 16) in
  let cid := N.to_nat (client_id user) in
  inv w → Forall request_ok rs → length rs ≤ MAX_REQUESTS →
  buffers (srv w) !! buf_id = Some (stream rs ++ rest) →
  sv_get (client_out_buffers (srv w)) cid = Some lake → lake_data lake = [] →
  S (length (released_buffers (srv w))) < release_part →
  ∃ w' lake', request_reply oc flags user (Z.of_nat (length (stream rs))) w = Ret (IoOk tt, w') ∧
    sv_get (client_out_buffers (srv w')) cid = Some lake' ∧
    lake_data lake' = responses (date (srv w)) (entry_of <$> rs).
Proof. apply pipeline_helper. Qed.
End answers.
