(* ===== verification/Client.v ===== *)
(** A reference client: what a keep-alive HTTP reader makes of the bytes the
    server sends. *)
From S2P Require Import Prelude Decimal Config Avx Http Trim Shift Crates UserData Uring IoState.
From S2P Require Import Handler Sockets Server Replies Buffers Sends Connections Ubdma.
From S2P Require Import Invariant Pipeline.

(** * The reader *)

(** A line up to CRLF, and what follows. *)
Fixpoint read_line (l : bytes) : option (bytes * bytes) :=
  match l with
  | [] => None
  | b :: t =>
      if bool_decide (take 2 l = CRLF) then Some ([], drop 1 t)
      else '(line, rest) ← read_line t; Some (b :: line, rest)
  end.

(** The header lines up to the empty line. *)
Fixpoint read_headers (fuel : nat) (l : bytes) : option (list bytes * bytes) :=
  match fuel with
  | 0 => None
  | S fuel =>
      '(line, rest) ← read_line l;
      match line with
      | [] => Some ([], rest)
      | _ => '(lines, rest) ← read_headers fuel rest; Some (line :: lines, rest)
      end
  end.

Definition CONTENT_LENGTH : bytes := byte_str "Content-Length: ".

Fixpoint content_length (lines : list bytes) : option nat :=
  match lines with
  | [] => None
  | line :: lines =>
      if bool_decide (take (length CONTENT_LENGTH) line = CONTENT_LENGTH)
      then Some (decimal (drop (length CONTENT_LENGTH) line))
      else content_length lines
  end.

(** One response: its header lines, its body, and the rest of the stream. *)
Definition read_response (l : bytes) : option (list bytes * bytes * bytes) :=
  '(lines, rest) ← read_headers (length l) l;
  n ← content_length lines;
  if n <=? length rest then Some (lines, take n rest, drop n rest) else None.

Fixpoint read_responses (fuel : nat) (l : bytes) : option (list (list bytes * bytes)) :=
  match fuel with
  | 0 => None
  | S fuel =>
      match l with
      | [] => Some []
      | _ => '(lines, body, rest) ← read_response l;
             rs ← read_responses fuel rest; Some ((lines, body) :: rs)
      end
  end.

(** * Reading a response *)

Lemma read_line_text text l : x0d ∉ text → read_line (text ++ CRLF ++ l) = Some (text, l).
Proof.
  induction text as [|b text IH]; intros Hcr; [done|].
  apply not_elem_of_cons in Hcr as [Hb Hcr]. cbn [app read_line].
  rewrite bool_decide_eq_false_2.
  - rewrite IH by done. done.
  - unfold CRLF. intros Heq. apply Hb. destruct (text ++ _); cbn in Heq; congruence.
Qed.

Lemma read_headers_lines lines fuel rest :
  Forall (λ t, t ≠ [] ∧ x0d ∉ t) lines → length lines < fuel →
  read_headers fuel (mjoin ((λ t, t ++ CRLF) <$> lines) ++ CRLF ++ rest) = Some (lines, rest).
Proof.
  intros Hl. revert fuel. induction Hl as [|t lines [Hne Hcr] Hl IH]; intros fuel Hf;
    (destruct fuel as [|fuel]; [lia|]); [done|].
  change (mjoin ((λ t, t ++ CRLF) <$> t :: lines)) with
    ((t ++ CRLF) ++ mjoin ((λ t, t ++ CRLF) <$> lines)).
  cbn [read_headers]. rewrite <- !app_assoc.
  rewrite (read_line_text t) by done. cbn [mbind option_bind].
  destruct t as [|b t]; [done|]. cbn [length] in Hf.
  rewrite (IH fuel) by lia. done.
Qed.

(** The header lines of a response. *)
Definition response_lines (a : answer) (date : bytes) : list bytes :=
  [ match a with NotFound => byte_str "HTTP/1.1 404 Not Found" | _ => byte_str "HTTP/1.1 200 OK" end;
    match a with JsonHello => byte_str "Content-Type: application/json; charset=utf-8"
               | _ => byte_str "Content-Type: text/plain; charset=utf-8" end;
    date;
    CONTENT_LENGTH ++ decimal_2 (length (answer_body a));
    byte_str "Server: Tachyon";
    byte_str "Connection: keep-alive";
    byte_str "Keep-Alive: timeout=5, max=1000" ].

Lemma response_eq a date rest :
  response a date ++ rest =
  mjoin ((λ t, t ++ CRLF) <$> response_lines a date) ++ CRLF ++ answer_body a ++ rest.
Proof.
  unfold response, response_head, response_lines, BASE_HEADERS, answer_status, answer_type.
  cbn [fmap list_fmap mjoin list_join].
  destruct a; unfold STATUS_SUCCESS, STATUS_NOT_FOUND, CONTENT_TYPE_TEXT, CONTENT_TYPE_JSON,
    CONTENT_LENGTH; by rewrite <- ?app_assoc, ?app_nil_l.
Qed.

Lemma no_cr (t : bytes) : bool_decide (x0d ∈ t) = false → x0d ∉ t.
Proof. apply bool_decide_eq_false_1. Qed.

Lemma response_lines_ok a date :
  length date = DATE_SIZE → x0d ∉ date → Forall (λ t, t ≠ [] ∧ x0d ∉ t) (response_lines a date).
Proof.
  intros Hd Hcr. unfold response_lines.
  assert (Hne : date ≠ []) by (intros ->; done).
  repeat apply Forall_cons_2; try apply Forall_nil_2; try done;
    destruct a; (split; [discriminate|apply no_cr; vm_compute; reflexivity]).
Qed.

Lemma response_content_length a date :
  take (length CONTENT_LENGTH) date ≠ CONTENT_LENGTH →
  content_length (response_lines a date) = Some (length (answer_body a)).
Proof.
  intros Hd. unfold response_lines. cbn [content_length].
  rewrite (bool_decide_eq_false_2 (take _ (match a with NotFound => _ | _ => _ end) = _)) by (by destruct a).
  rewrite (bool_decide_eq_false_2 (take _ (match a with JsonHello => _ | _ => _ end) = _)) by (by destruct a).
  rewrite bool_decide_eq_false_2 by done.
  by destruct a.
Qed.

(** The date line the clock library writes: it starts with "Date: ". *)
Definition date_line (date : bytes) : Prop :=
  length date = DATE_SIZE ∧ (x0d ∉ date) ∧ take (length CONTENT_LENGTH) date ≠ CONTENT_LENGTH.

Lemma read_response_spec a date rest :
  date_line date →
  read_response (response a date ++ rest) =
    Some (response_lines a date, answer_body a, rest).
Proof.
  intros (Hl & Hcr & Hc). unfold read_response.
  rewrite response_eq at 2. rewrite read_headers_lines.
  - cbn [mbind option_bind]. rewrite response_content_length by done. cbn [mbind option_bind].
    rewrite (proj2 (Nat.leb_le _ _)) by (rewrite length_app; lia).
    by rewrite take_app_length, drop_app_length.
  - by apply response_lines_ok.
  - rewrite length_app, response_length by done. cbn. destruct a; lia.
Qed.

Lemma read_responses_spec date reqs :
  date_line date →
  read_responses (S (length reqs)) (responses date reqs) =
    Some ((λ r, (response_lines (route r.1 r.2) date, answer_body (route r.1 r.2))) <$> reqs).
Proof.
  intros Hd. induction reqs as [|r reqs IH]; [done|].
  rewrite responses_cons. set (fuel := S (length reqs)) in *.
  change (S (length (r :: reqs))) with (S fuel). cbn [read_responses].
  rewrite read_response_spec by done.
  destruct (response (route r.1 r.2) date ++ responses date reqs) eqn:He.
  { apply (f_equal length) in He. rewrite length_app, response_length in He by apply Hd.
    cbn in He. destruct (route _ _); lia. }
  cbn [mbind option_bind]. by rewrite IH.
Qed.

(** * The server's answers *)

Section served.
Context `{LakeLaws, JsonLaws, StableVecLaws, RingLaws, SocketOps}.

(** C14: the client and the server agree on framing: when up to fifty well-formed
    pipelined requests arrive for a client with an empty out buffer, and the date
    header is a line other than a Content-Length, then a keep-alive client that
    reads headers up to the empty line and as many body bytes as Content-Length
    says splits what the server wrote for it into exactly one response per
    request, in order, with the header lines and the body of its route. *)
Theorem answers_readable oc user flags rs rest w lake :
  let buf_id := N.to_nat (N.shiftr flags 16 mod 2 ^ 16) in
  let cid := N.to_nat (client_id user) in
  inv w → Forall request_ok rs → length rs ≤ MAX_REQUESTS →
  buffers (srv w) !! buf_id = Some (stream rs ++ rest) →
  sv_get (client_out_buffers (srv w)) cid = Some lake → lake_data lake = [] →
  S (length (released_buffers (srv w))) < release_part → date_line (date (srv w)) →
  ∃ w' lake', request_reply oc flags user (Z.of_nat (length (stream rs))) w = Ret (IoOk tt, w') ∧
    sv_get (client_out_buffers (srv w')) cid = Some lake' ∧
    read_responses (S (length rs)) (lake_data lake') =
      Some ((λ r, let a := route (rq_method r) (rq_path r) in
                  (response_lines a (date (srv w)), answer_body a)) <$> rs).
Proof.
  intros buf_id cid Hi Hrs Hn Hbuf Hlk Hd Hrel Hdate.
  destruct (pipeline_helper oc user flags rs rest w lake) as (w' & lake' & Heq & Hlk' & Hd'); [done..|].
  exists w', lake'. split; [exact Heq|]. split; [exact Hlk'|]. rewrite Hd'.
  rewrite <- (length_fmap entry_of rs), read_responses_spec by done. by rewrite <- list_fmap_compose.
Qed.
End served.
