(* ===== verification/Memory.v ===== *)
(** The raw memory helpers of [src/library/utils/memory.rs] and
    [src/library/utils/kernel.rs]. *)
From S2P Require Import Prelude Avx Config.

(** * memory.rs *)

(** [libc::iovec]: the bytes readable at [iov_base], and [iov_len]. *)
Record iovec := mkIovec { iov_base : bytes; iov_len : nat }.

(** [ptr::copy_nonoverlapping(src, dst.add(off), len)] *)
Definition copy_nonoverlapping (src dst : bytes) (off len : nat) : outcome bytes :=
  if decide (len ≤ length src ∧ off + len ≤ length dst)
  then Ret (take off dst ++ take len src ++ drop (off + len) dst)
  else UB.

(** [for iov in iovecs { copy_nonoverlapping(..); offset += len; }] *)
Fixpoint flatten_loop (iovecs : list iovec) (out : bytes) (offset : nat) : outcome (bytes * nat) :=
  match iovecs with
  | [] => Ret (out, offset)
  | iov :: iovecs =>
      let len := iov_len iov in
      out ← copy_nonoverlapping (iov_base iov) out offset len;
      flatten_loop iovecs out (offset + len)
  end.

Definition fast_flatten_iovec (iovecs : list iovec) (out : bytes) : outcome (bytes * nat) :=
  flatten_loop iovecs out 0.

(** [iovecs.iter().map(|iov| iov.iov_len).sum()] *)
Definition total_len (iovecs : list iovec) : nat := sum_list_with iov_len iovecs.

(** [uninit n] stands for the [n] uninitialised bytes [set_len] exposes. *)
Definition flatten_iovec (uninit : nat → bytes) (iovecs : list iovec) (out : bytes) : outcome bytes :=
  let orig_len := length out in
  let out := out ++ uninit (total_len iovecs) in
  '(out, _) ← flatten_loop iovecs out orig_len;
  Ret out.

(** [ptr::write_bytes(ptr, 0, n)] *)
Definition write_zeros (buf : bytes) (off n : nat) : outcome bytes :=
  if decide (off + n ≤ length buf)
  then Ret (take off buf ++ replicate n x00 ++ drop (off + n) buf) else UB.

(** The pointers [ptr] and [end] are offsets into the memory [mem]. *)
Definition avx2_zero (mem : bytes) (buf len : nat) : outcome bytes :=
  let fin := buf + len in
  let zero := mm256_setzero_si256 in
  '(ptr, mem) ← while (S len)
    (λ '(ptr, _), ptr + 32 <=? fin)
    (λ '(ptr, mem),
      mem ← mm256_storeu_si256 mem ptr zero;
      Ret (ptr + 32, mem))
    (buf, mem);
  if ptr <? fin then write_zeros mem ptr (fin - ptr) else Ret mem.

(** * kernel.rs *)

(** The copy loop of the assembly: [mem] is the memory at [buffers], [r10] and
    [r8] the registers. *)
Definition KERNEL_BUFFER : nat := Z.to_nat 6272.
#[global] Opaque KERNEL_BUFFER.

Lemma KERNEL_BUFFER_Z : Z.of_nat KERNEL_BUFFER = 6272%Z.
Proof. reflexivity. Qed.

Definition get_kernel_owned_buffer (idx : nat) (mem : bytes) (dst : bytes) : outcome bytes :=
  let rcx := idx * KERNEL_BUFFER in
  let r10 := rcx in
  '(_, dst) ← while (S KERNEL_BUFFER)
    (λ '(r8, _), negb (KERNEL_BUFFER <=? r8))
    (λ '(r8, dst),
      ymm0 ← mm256_loadu_si256 mem (r10 + r8);
      dst ← mm256_storeu_si256 dst r8 ymm0;
      Ret (r8 + 32, dst))
    (0, dst);
  Ret dst.

(** * Correctness *)

(** The bytes an iovec stands for, and its validity. *)
Definition iov_data (iov : iovec) : bytes := take (iov_len iov) (iov_base iov).
Definition iov_ok (iov : iovec) : Prop := iov_len iov ≤ length (iov_base iov).

Lemma iov_data_length iov : iov_ok iov → length (iov_data iov) = iov_len iov.
Proof. unfold iov_ok, iov_data. rewrite length_take. lia. Qed.

Lemma total_len_data iovecs :
  Forall iov_ok iovecs → length (mjoin (iov_data <$> iovecs)) = total_len iovecs.
Proof.
  induction 1 as [|iov iovecs Hi _ IH]; [done|]. unfold total_len in *.
  cbn [fmap list_fmap mjoin list_join sum_list_with].
  rewrite length_app, iov_data_length by done. f_equal. exact IH.
Qed.

Lemma flatten_loop_spec iovecs out offset :
  Forall iov_ok iovecs → offset + total_len iovecs ≤ length out →
  flatten_loop iovecs out offset =
    Ret (take offset out ++ mjoin (iov_data <$> iovecs) ++ drop (offset + total_len iovecs) out,
         offset + total_len iovecs).
Proof.
  intros Hok. revert out offset. induction Hok as [|iov iovecs Hi Hok IH]; intros out offset Hl.
  { cbn. by rewrite Nat.add_0_r, take_drop. }
  unfold total_len in *. cbn [sum_list_with flatten_loop] in *. unfold copy_nonoverlapping.
  rewrite decide_True by (unfold iov_ok in Hi; lia). run. fold (iov_data iov).
  pose proof (iov_data_length iov Hi) as Hd.
  rewrite IH by (rewrite !length_app, length_take, length_drop, Hd; lia).
  rewrite <- Nat.add_assoc. f_equal. f_equal. cbn [fmap list_fmap mjoin list_join].
  rewrite (app_assoc (take offset out)).
  assert (Hp : length (take offset out ++ iov_data iov) = offset + iov_len iov)
    by (rewrite length_app, length_take, Hd; lia).
  rewrite take_app_length' by done. rewrite Nat.add_assoc, drop_app_add' by done.
  by rewrite drop_drop, <- !app_assoc.
Qed.

(** Flattening valid iovecs into a slice that is long enough concatenates
    them at its front, leaves the rest of the slice alone and returns the number
    of bytes written. *)
Theorem fast_flatten_iovec_correct iovecs out :
  Forall iov_ok iovecs → total_len iovecs ≤ length out →
  fast_flatten_iovec iovecs out =
    Ret (mjoin (iov_data <$> iovecs) ++ drop (total_len iovecs) out, total_len iovecs).
Proof. intros Hok Hl. unfold fast_flatten_iovec. by rewrite flatten_loop_spec. Qed.

(** A slice that is too short is overrun. *)
Theorem fast_flatten_iovec_overrun iovecs out :
  Forall iov_ok iovecs → length out < total_len iovecs → fast_flatten_iovec iovecs out = UB.
Proof.
  unfold fast_flatten_iovec. intros Hok.
  assert (Hgen : ∀ offset out, offset ≤ length out → length out < offset + total_len iovecs →
    flatten_loop iovecs out offset = UB); [|intros; by apply Hgen; lia].
  clear out. induction Hok as [|iov iovecs Hi Hok IH]; intros offset out Ho Hl.
  { unfold total_len in Hl. cbn in Hl. lia. }
  unfold total_len in *. cbn [flatten_loop sum_list_with] in *. unfold copy_nonoverlapping.
  case_decide as Hd; [|done]. run. fold (iov_data iov).
  pose proof (iov_data_length iov Hi).
  apply IH; rewrite !length_app, length_take, length_drop; lia.
Qed.

(** The vector version appends exactly the concatenated data, and none of the
    uninitialised bytes remains visible. *)
Theorem flatten_iovec_correct uninit iovecs out :
  (∀ n, length (uninit n) = n) → Forall iov_ok iovecs →
  flatten_iovec uninit iovecs out = Ret (out ++ mjoin (iov_data <$> iovecs)).
Proof.
  intros Hu Hok. unfold flatten_iovec.
  rewrite flatten_loop_spec by (done || by rewrite length_app, Hu). run.
  rewrite take_app_length, drop_ge, app_nil_r by (rewrite length_app, Hu; lia). done.
Qed.

Section avx2_zero.
Context (mem : bytes) (buf len : nat).
Hypothesis Hfit : buf + len ≤ length mem.

(** The memory after the first [n] bytes were zeroed. *)
Definition zeroed (n : nat) : bytes :=
  take buf mem ++ replicate n x00 ++ drop (buf + n) mem.

Lemma length_zeroed n : n ≤ len → length (zeroed n) = length mem.
Proof.
  intros Hn. unfold zeroed. rewrite !length_app, length_take, length_replicate, length_drop. lia.
Qed.

Lemma zeroed_0 : zeroed 0 = mem.
Proof. unfold zeroed. cbn. by rewrite Nat.add_0_r, take_drop. Qed.

Lemma zeroed_next n k :
  n + k ≤ len →
  take (buf + n) (zeroed n) ++ replicate k x00 ++ drop (buf + n + k) (zeroed n) = zeroed (n + k).
Proof.
  intros Hn. unfold zeroed. rewrite (app_assoc (take buf mem)).
  assert (Hl : length (take buf mem ++ replicate n x00) = buf + n)
    by (rewrite length_app, length_take, length_replicate; lia).
  rewrite take_app_length' by done. rewrite drop_app_add' by done.
  rewrite drop_drop, replicate_add, <- !app_assoc, <- Nat.add_assoc. done.
Qed.

(** The vectorised clear zeroes exactly the [len] bytes it is given, in
    whole vectors and a tail, for every length. *)
Theorem avx2_zero_correct : avx2_zero mem buf len = Ret (zeroed len).
Proof.
  unfold avx2_zero. cbv zeta.
  edestruct (while_rule (λ st : nat * bytes, ∃ n, st = (buf + n, zeroed n) ∧ n ≤ len)
    (λ st, buf + len - st.1)) as (st & -> & (n & -> & Hn) & Hc);
    [|exists 0; rewrite Nat.add_0_r, zeroed_0; split; [done|lia]|cbn; lia|].
  - intros st (n & -> & Hn) Hc. apply Nat.leb_le in Hc.
    rewrite storeu_Ret by (rewrite ?length_zeroed by lia; done || lia). run.
    eexists. split; [reflexivity|]. split; [|cbn; lia].
    exists (n + 32). rewrite <- Nat.add_assoc. split; [|lia]. f_equal.
    change mm256_setzero_si256 with (replicate 32 x00). rewrite Nat.add_assoc.
    apply zeroed_next. lia.
  - run. apply Nat.leb_gt in Hc. destruct (Nat.ltb_spec (buf + n) (buf + len)).
    + unfold write_zeros. rewrite length_zeroed, decide_True by lia. f_equal.
      rewrite zeroed_next by lia. f_equal. lia.
    + f_equal. f_equal. lia.
Qed.
End avx2_zero.

Section kernel_owned.
Context (mem : bytes) (idx : nat) (dst : bytes).
Hypothesis Hmem : (idx + 1) * KERNEL_BUFFER ≤ length mem.
Hypothesis Hdst : KERNEL_BUFFER ≤ length dst.

(** The destination after [n] bytes were copied. *)
Definition copied_from (n : nat) : bytes :=
  take n (drop (idx * KERNEL_BUFFER) mem) ++ drop n dst.

Lemma copied_from_next n k :
  n + k ≤ KERNEL_BUFFER →
  take n (copied_from n) ++ take k (drop (idx * KERNEL_BUFFER + n) mem) ++
    drop (n + k) (copied_from n) = copied_from (n + k).
Proof.
  intros Hn. unfold copied_from.
  assert (Hl : length (take n (drop (idx * KERNEL_BUFFER) mem)) = n)
    by (rewrite length_take, length_drop; lia).
  rewrite take_app_length', drop_app_add' by done.
  rewrite drop_drop, <- (drop_drop mem), app_assoc. f_equal. apply take_take_drop.
Qed.

Lemma copied_from_spec :
  get_kernel_owned_buffer idx mem dst = Ret (copied_from KERNEL_BUFFER).
Proof.
  unfold get_kernel_owned_buffer. cbv zeta. pose proof KERNEL_BUFFER_Z as HK.
  edestruct (while_rule (λ st : nat * bytes,
      ∃ i, st = (32 * i, copied_from (32 * i)) ∧ i ≤ 196)
    (λ st, KERNEL_BUFFER - st.1)) as (st & -> & (n & -> & Hn) & Hc);
    [|by exists 0; split; [|lia]|cbn; lia|].
  - intros st (i & -> & Hi) Hc. apply negb_true_iff, Nat.leb_gt in Hc.
    rewrite loadu_Ret by lia. run.
    rewrite storeu_Ret.
    + run. eexists. split; [reflexivity|]. split; [|cbn; lia].
      exists (S i). split; [|lia]. replace (32 * S i) with (32 * i + 32) by lia. f_equal.
      apply copied_from_next. lia.
    + unfold copied_from. rewrite length_app, length_take, !length_drop. lia.
  - run. apply negb_false_iff, Nat.leb_le in Hc. do 2 f_equal. lia.
Qed.

(** The assembly copies 6272 bytes starting at [index * 6272] from the
    beginning of the slab, in 196 vector moves; it addresses the slab with
    that stride whatever the size of a buffer. *)
Theorem get_kernel_owned_buffer_correct :
  get_kernel_owned_buffer idx mem dst = Ret (copied_from KERNEL_BUFFER).
Proof. apply copied_from_spec. Qed.
End kernel_owned.

(** Since a buffer of the server has 7168 bytes and not 6272, asking for
    buffer 1 delivers the last 896 bytes of buffer 0 followed by the first 5376
    of buffer 1. *)
Theorem get_kernel_owned_buffer_misses b0 b1 rest dst :
  length b0 = BUFFER_SIZE → length b1 = BUFFER_SIZE → KERNEL_BUFFER ≤ length dst →
  get_kernel_owned_buffer 1 (mjoin (b0 :: b1 :: rest)) dst =
    Ret (drop KERNEL_BUFFER b0 ++ take (2 * KERNEL_BUFFER - BUFFER_SIZE) b1 ++
         drop KERNEL_BUFFER dst).
Proof.
  intros H0 H1 Hd. pose proof KERNEL_BUFFER_Z. cbn [mjoin list_join].
  rewrite copied_from_spec; [|rewrite !length_app; const_lia|done]. f_equal. unfold copied_from.
  rewrite Nat.mul_1_l, drop_app_le by const_lia.
  rewrite take_app_ge by (rewrite length_drop; const_lia).
  rewrite length_drop, <- app_assoc. f_equal.
  rewrite take_app_le by const_lia. do 2 f_equal. const_lia.
Qed.
