(* ===== verification/PacketSocket.v ===== *)
(** The set-up of the packet socket, [setup_packet_socket] of
    [src/library/network/tsocket.rs], and its packet filter. *)
From S2P Require Import Prelude Sockets.

(** * Definitions *)

Definition FRAME_SIZE : N := 8192.
Definition FRAME_COUNT : N := 4096.
Definition BLOCK_SIZE : N := FRAME_SIZE * FRAME_COUNT.

(** Load the protocol byte of the IPv4 header; accept the whole packet when it
    is TCP, reject it otherwise. *)
Definition BPF_TCP_FILTER : list SockFilter :=
  let BPF_LD := 0x00%N in
  let BPF_B := 0x10%N in
  let BPF_ABS := 0x20%N in
  let BPF_JMP := 0x05%N in
  let BPF_JEQ := 0x10%N in
  let BPF_K := 0x00%N in
  let BPF_RET := 0x06%N in
  [ mkFilter (BPF_LD + BPF_B + BPF_ABS) 0 0 23;
    mkFilter (BPF_JMP + BPF_JEQ + BPF_K) 0 1 0x06;
    mkFilter (BPF_RET + BPF_K) 0 0 (2 ^ 32 - 1);
    mkFilter (BPF_RET + BPF_K) 0 0 0 ].

(** [u16::to_be] on a little-endian machine. *)
Definition htons (value : N) : N :=
  N.lor (N.shiftl (N.land value 0xFF) 8) (N.shiftr value 8).

Record PacketRing := mkPacketRing { fd : Z; mmap_ptr : N; mmap_len : N }.

(** ** setup_packet_socket *)

(** The system calls made, in order. *)
Inductive packet_call :=
  | CSocket (protocol : N)
  | CSetVersion (fd : Z)
  | CSetRing (fd : Z) (block_size block_nr frame_size frame_nr retire_tov : N)
  | CIfNameToIndex (iface : bytes)
  | CBind (fd : Z) (protocol : N) (ifindex : Z)
  | CAttachFilter (fd : Z) (prog : list SockFilter)
  | CMmap (len : N) (fd : Z)
  | CClose (fd : Z).

(** The results of the calls; [None] for [MAP_FAILED]. *)
Record packet_results := mkResults {
  r_socket : Z;
  r_version : Z;
  r_ring : Z;
  r_ifindex : N;
  r_bind : Z;
  r_filter : Z;
  r_mmap : option N;
}.

Definition ETH_P_ALL : N := 3.

(** [x as i32] of a [u32]. *)
Definition i32_of_u32 (n : N) : Z :=
  if (n <? 2 ^ 31)%N then Z.of_N n else (Z.of_N n - 2 ^ 32)%Z.

(** The calls made, and how it ends: the ring, [None] for
    [Err(last_os_error())], or the panic of [CString::new] on a zero byte in the
    interface name. *)
Definition setup_packet_socket (res : packet_results) (iface : bytes) :
    list packet_call * outcome (option PacketRing) :=
  let fd := r_socket res in
  let c1 := [CSocket (htons ETH_P_ALL)] in
  if (fd <? 0)%Z then (c1, Ret None)
  else
    let c2 := c1 ++ [CSetVersion fd] in
    if (r_version res <? 0)%Z then (c2, Ret None)
    else
      let c3 := c2 ++ [CSetRing fd BLOCK_SIZE 1 FRAME_SIZE FRAME_COUNT 60] in
      if (r_ring res <? 0)%Z then (c3, Ret None)
      else
        if existsb (Byte.eqb x00) iface then (c3, Panic) else
        let c4 := c3 ++ [CIfNameToIndex iface] in
        if (r_ifindex res =? 0)%N then (c4, Ret None)
        else
          let c5 := c4 ++ [CBind fd (htons ETH_P_ALL) (i32_of_u32 (r_ifindex res))] in
          if (r_bind res <? 0)%Z then (c5, Ret None)
          else
            let c6 := c5 ++ [CAttachFilter fd BPF_TCP_FILTER] in
            if (r_filter res <? 0)%Z then (c6, Ret None)
            else
              let c7 := c6 ++ [CMmap BLOCK_SIZE fd] in
              match r_mmap res with
              | None => (c7, Ret None)
              | Some ptr => (c7, Ret (Some (mkPacketRing fd ptr BLOCK_SIZE)))
              end.

(** * Byte order *)

(** [htons] is an involution on 16-bit values and swaps their two bytes. *)
Theorem htons_swaps v :
  (v < 2 ^ 16)%N →
  htons v = (v mod 256 * 256 + v / 256)%N ∧ htons (htons v) = v.
Proof.
  intros Hv.
  assert (Hs : ∀ u, (u < 2 ^ 16)%N → htons u = (u mod 256 * 256 + u / 256)%N).
  { intros u Hu. unfold htons. change 0xFF%N with (N.ones 8).
    rewrite N.land_ones, N.shiftl_mul_pow2, N.shiftr_div_pow2.
    change 256%N with (2 ^ 8)%N. apply lor_disjoint. lia. }
  split; [by apply Hs|]. rewrite (Hs v Hv), Hs; div_lia.
Qed.

(** * Setting up *)

(** The calls of a list up to the first that fails. *)
Fixpoint up_to_failure {A} (l : list (A * bool)) : list A :=
  match l with
  | [] => []
  | (a, ok) :: l => a :: if ok then up_to_failure l else []
  end.

(** The calls of the set-up with their success: three before the name of the
    interface is turned into a C string, and four after. *)
Definition setup_calls (res : packet_results) : list (packet_call * bool) :=
  let fd := r_socket res in
  [ (CSocket (htons ETH_P_ALL), (0 <=? fd)%Z);
    (CSetVersion fd, (0 <=? r_version res)%Z);
    (CSetRing fd BLOCK_SIZE 1 FRAME_SIZE FRAME_COUNT 60, (0 <=? r_ring res)%Z) ].
Definition bind_calls (res : packet_results) (iface : bytes) : list (packet_call * bool) :=
  let fd := r_socket res in
  [ (CIfNameToIndex iface, negb (r_ifindex res =? 0)%N);
    (CBind fd (htons ETH_P_ALL) (i32_of_u32 (r_ifindex res)), (0 <=? r_bind res)%Z);
    (CAttachFilter fd BPF_TCP_FILTER, (0 <=? r_filter res)%Z);
    (CMmap BLOCK_SIZE fd, bool_decide (is_Some (r_mmap res))) ].

Definition all_succeed {A} (l : list (A * bool)) : bool := forallb snd l.

Lemma ltb_negb_leb (z : Z) : (z <? 0)%Z = negb (0 <=? z)%Z.
Proof. rewrite Z.ltb_antisym. done. Qed.

Definition setup_result (res : packet_results) (iface : bytes) :
    list packet_call * outcome (option PacketRing) :=
  if all_succeed (setup_calls res) && existsb (Byte.eqb x00) iface
  then ((setup_calls res).*1, Panic)
  else
    let calls := setup_calls res ++ bind_calls res iface in
    (up_to_failure calls,
     Ret (if all_succeed calls
          then (λ ptr, mkPacketRing (r_socket res) ptr BLOCK_SIZE) <$> r_mmap res else None)).

Lemma setup_packet_socket_eq res iface : setup_packet_socket res iface = setup_result res iface.
Proof.
  unfold setup_packet_socket, setup_result, setup_calls, bind_calls, all_succeed.
  rewrite !ltb_negb_leb. cbn [up_to_failure forallb snd app].
  repeat (destruct (0 <=? _)%Z; cbn [negb andb]; [|done]).
  destruct (existsb _ _); [done|]. destruct (_ =? 0)%N; cbn [negb andb]; [done|].
  repeat (destruct (0 <=? _)%Z; cbn [negb andb]; [|done]).
  by destruct (r_mmap res).
Qed.

Lemma up_to_failure_elem {A} (a : A) l : a ∈ up_to_failure l → a ∈ l.*1.
Proof.
  induction l as [|[b ok] l IH]; [done|]. cbn. rewrite !elem_of_cons.
  intros [->|Ha]; [by left|]. right. destruct ok; [by apply IH|by apply not_elem_of_nil in Ha].
Qed.

(** C30: the set-up of the packet socket makes its calls in order up to the first
    that fails, and returns a ring exactly when all succeed, on the socket and
    the mapping they made, with the TCP filter attached and one block mapped. It
    panics, after opening the socket and requesting the ring, when the name of
    the interface has a zero byte; and on no path, the panic included, does it
    close the socket. *)
Theorem setup_packet_socket_correct res iface :
  setup_packet_socket res iface = setup_result res iface ∧
  Forall (λ c, ∀ fd, c ≠ CClose fd) (setup_packet_socket res iface).1.
Proof.
  split; [apply setup_packet_socket_eq|]. rewrite setup_packet_socket_eq. unfold setup_result.
  apply list.Forall_forall. intros c Hc fd ->. destruct (_ && _).
  - cbn in Hc. rewrite !elem_of_cons, elem_of_nil in Hc. intuition discriminate.
  - apply up_to_failure_elem in Hc. cbn in Hc.
    rewrite !elem_of_cons, elem_of_nil in Hc. intuition discriminate.
Qed.
