(* ===== verification/Packets.v ===== *)
(** The packet-ring reader and the frame parser of
    [src/library/network/tsocket.rs]. *)
From S2P Require Import Prelude Http.

(** * Definitions *)

(** ** get_ipv4_addr *)

Definition AF_INET : N := 2.

(** An element of the list [getifaddrs] returns; the address is the family and
    the four address bytes, in memory order. *)
Record ifaddr := mkIfaddr { ifa_name : bytes; ifa_addr : option (N * bytes) }.

Fixpoint get_ipv4_loop (cur : list ifaddr) (interface : bytes) : option bytes :=
  match cur with
  | [] => None
  | i :: cur =>
      match ifa_addr i with
      | Some (family, ip) =>
          if bool_decide (ifa_name i = interface) && (family =? AF_INET)%N then Some ip
          else get_ipv4_loop cur interface
      | None => get_ipv4_loop cur interface
      end
  end.

(** [None] for a failed [getifaddrs]. *)
Definition get_ipv4_addr (ifap : option (list ifaddr)) (interface : bytes) : option bytes :=
  match ifap with
  | None => None
  | Some l => get_ipv4_loop l interface
  end.

(** ** read_packets *)

(** A little-endian field of [n] bytes. *)
Definition read_le (mem : bytes) (off n : nat) : outcome nat :=
  w ← from_raw_parts mem off n; Ret (N.to_nat (from_le_bytes w)).

(** [u16::from_be_bytes([a, b])] *)
Definition be16 (a b : byte) : nat := byte_nat a * 256 + byte_nat b.

(** Field offsets of [TpacketBlockDesc] and [Tpacket3Hdr]. *)
Definition BLOCK_STATUS : nat := 8.
Definition NUM_PKTS : nat := 12.
Definition OFFSET_TO_FIRST_PKT : nat := 16.
Definition TP_NEXT_OFFSET : nat := 0.
Definition TP_SNAPLEN : nat := 12.
Definition TP_MAC : nat := 24.
Definition TPACKET3_HDR : nat := 28.
Definition TP_STATUS_USER : N := 1.
Definition TP_STATUS_KERNEL : bytes := [x00; x00; x00; x00].

(** [for _ in 0..num_pkts]; offsets are relative to [ring.mmap_ptr]. *)
Fixpoint read_loop (n : nat) (mem server_ip : bytes) (base : nat)
    (first_offset : option nat) (last_offset : nat) : outcome (option nat * nat) :=
  match n with
  | 0 => Ret (first_offset, last_offset)
  | S n =>
      _ ← from_raw_parts mem base TPACKET3_HDR;
      tp_mac ← read_le mem (base + TP_MAC) 2;
      let data_ptr := base + tp_mac in
      data_len ← read_le mem (base + TP_SNAPLEN) 4;
      if data_len <? 14 then read_loop n mem server_ip base first_offset last_offset
      else
        e0 ← read mem (data_ptr + 12);
        e1 ← read mem (data_ptr + 13);
        if negb (be16 e0 e1 =? 0x0800)
        then read_loop n mem server_ip base first_offset last_offset
        else if data_len <? 14 + 20
        then read_loop n mem server_ip base first_offset last_offset
        else
          src_ip ← from_raw_parts mem (data_ptr + 14 + 12) 4;
          if bool_decide (src_ip = server_ip)
          then read_loop n mem server_ip base first_offset last_offset
          else
            let first_offset := match first_offset with
                                | None => Some data_ptr | Some o => Some o end in
            let last_offset := data_ptr + data_len in
            next ← read_le mem (base + TP_NEXT_OFFSET) 4;
            if next =? 0 then Ret (first_offset, last_offset)
            else read_loop n mem server_ip (base + next) first_offset last_offset
  end.

(** The range found, and the memory afterwards. *)
Definition read_packets (ifap : option (list ifaddr)) (mem : bytes) :
    outcome (option (nat * nat) * bytes) :=
  block_status ← read_le mem BLOCK_STATUS 4;
  if (N.land (N.of_nat block_status) TP_STATUS_USER =? 0)%N then Ret (None, mem)
  else
    num_pkts ← read_le mem NUM_PKTS 4;
    offset ← read_le mem OFFSET_TO_FIRST_PKT 4;
    server_ip ← match get_ipv4_addr ifap (byte_str "eth0") with
                | Some ip => Ret ip | None => Panic end;
    '(first_offset, last_offset) ← read_loop num_pkts mem server_ip offset None 0;
    let mem := take BLOCK_STATUS mem ++ TP_STATUS_KERNEL ++ drop (BLOCK_STATUS + 4) mem in
    Ret (match first_offset with
         | Some start => Some (start, last_offset)
         | None => None
         end, mem).

(** ** parse_ipv4_tcp_packets *)

Record ParsedPacket := mkPacket {
  src_ip : bytes;
  dst_ip : bytes;
  src_port : nat;
  dst_port : nat;
  payload : bytes;
}.

(** [u16::from_be_bytes([buffer[i], buffer[i + 1]])] *)
Definition index_be16 (buffer : bytes) (i : nat) : outcome nat :=
  a ← index buffer i;
  b ← index buffer (i + 1);
  Ret (be16 a b).

(** [Ipv4Addr::new(buffer[i], buffer[i + 1], buffer[i + 2], buffer[i + 3])] *)
Definition index_ip (buffer : bytes) (i : nat) : outcome bytes :=
  a ← index buffer i;
  b ← index buffer (i + 1);
  c ← index buffer (i + 2);
  d ← index buffer (i + 3);
  Ret [a; b; c; d].

(** The loop body: [inr] leaves the loop. *)
Definition parse_step (buffer : bytes) (st : list ParsedPacket * nat) :
    outcome ((list ParsedPacket * nat) + list ParsedPacket) :=
  let '(packets, offset) := st in
  if negb (offset + 14 + 20 <=? length buffer) then Ret (inr packets)
  else
    ethertype ← index_be16 buffer (offset + 12);
    if negb (ethertype =? 0x0800) then Ret (inl (packets, offset + 64))
    else
      let ip_start := offset + 14 in
      if length buffer <? ip_start + 20 then Ret (inr packets)
      else
        b0 ← index buffer ip_start;
        let ihl := N.to_nat (N.land (Byte.to_N b0) 0x0F) in
        let ip_header_len := ihl * 4 in
        total_len ← index_be16 buffer (ip_start + 2);
        if length buffer <? ip_start + total_len then Ret (inr packets)
        else
          protocol ← index buffer (ip_start + 9);
          if negb (byte_nat protocol =? 6) then Ret (inl (packets, offset + (14 + total_len)))
          else
            src_ip ← index_ip buffer (ip_start + 12);
            dst_ip ← index_ip buffer (ip_start + 16);
            let tcp_start := ip_start + ip_header_len in
            if length buffer <? tcp_start + 20 then Ret (inr packets)
            else
              src_port ← index_be16 buffer tcp_start;
              dst_port ← index_be16 buffer (tcp_start + 2);
              b12 ← index buffer (tcp_start + 12);
              let data_offset := N.to_nat ((N.shiftr (Byte.to_N b12) 4 * 4) mod 256) in
              let payload_start := tcp_start + data_offset in
              if length buffer <? payload_start then Ret (inr packets)
              else
                let payload_end := ip_start + total_len in
                if (length buffer <? payload_end) || (payload_end <? payload_start)
                then Ret (inr packets)
                else
                  payload ← slice buffer payload_start payload_end;
                  Ret (inl (packets ++ [mkPacket src_ip dst_ip src_port dst_port payload],
                            offset + (14 + total_len))).

Definition parse_ipv4_tcp_packets (buffer : bytes) : outcome (list ParsedPacket) :=
  loop (S (length buffer)) (parse_step buffer) ([], 0).

(** * Parsing is total *)

Lemma index_lt {A} (l : list A) i : i < length l → ∃ a, index l i = Ret a.
Proof. intros [a Ha]%lookup_lt_is_Some_2. exists a. unfold index. by rewrite Ha. Qed.

Lemma index_be16_lt buffer i : i + 1 < length buffer → ∃ n, index_be16 buffer i = Ret n.
Proof.
  intros Hi. unfold index_be16. destruct (index_lt buffer i) as [a ->]; [lia|].
  destruct (index_lt buffer (i + 1)) as [b ->]; [lia|]. by eexists.
Qed.

Lemma index_ip_lt buffer i : i + 3 < length buffer → ∃ ip, index_ip buffer i = Ret ip ∧ length ip = 4.
Proof.
  intros Hi. unfold index_ip. destruct (index_lt buffer i) as [a ->]; [lia|].
  destruct (index_lt buffer (i + 1)) as [b ->]; [lia|].
  destruct (index_lt buffer (i + 2)) as [c ->]; [lia|].
  destruct (index_lt buffer (i + 3)) as [d ->]; [lia|]. by eexists.
Qed.

(** A packet list whose payloads are contiguous parts of the buffer. *)
Definition payload_in (buffer : bytes) (p : ParsedPacket) : Prop :=
  ∃ a b, a ≤ b ≤ length buffer ∧ payload p = take (b - a) (drop a buffer) ∧
    length (src_ip p) = 4 ∧ length (dst_ip p) = 4.

(** A step goes on further in the buffer, or leaves with the packets found. *)
Definition step_ok (buffer : bytes) (packets : list ParsedPacket) (offset : nat)
    (r : outcome ((list ParsedPacket * nat) + list ParsedPacket)) : Prop :=
  match r with
  | Ret (inl (packets', offset')) =>
      Forall (payload_in buffer) packets' ∧ offset < offset' ∧ offset < length buffer
  | Ret (inr packets') => packets' = packets
  | _ => False
  end.

(** Performs the next access, which is in bounds. *)
Ltac access := match goal with
  | |- step_ok _ _ _ (mbind _ (index_be16 ?l ?i)) =>
      let n := fresh "n" in destruct (index_be16_lt l i) as [n ->]; [lia|rewrite bind_ret_l]
  | |- step_ok _ _ _ (mbind _ (index_ip ?l ?i)) =>
      let n := fresh "ip" in destruct (index_ip_lt l i) as (n & -> & ?); [lia|rewrite bind_ret_l]
  | |- step_ok _ _ _ (mbind _ (index ?l ?i)) =>
      let n := fresh "b" in destruct (index_lt l i) as [n ->]; [lia|rewrite bind_ret_l]
  end; cbv beta zeta.

Ltac check_guard := match goal with
  | |- step_ok _ _ _ (if ?a <? ?b then _ else _) => destruct (Nat.ltb_spec a b)
  | |- step_ok _ _ _ (if negb (?a <=? ?b) then _ else _) =>
      destruct (Nat.leb_spec a b); cbn [negb]
  | |- step_ok _ _ _ (if negb ?b then _ else _) => destruct b; cbn [negb]
  end.

Lemma parse_step_spec buffer packets offset :
  Forall (payload_in buffer) packets →
  step_ok buffer packets offset (parse_step buffer (packets, offset)).
Proof.
  intros Hp. unfold parse_step.
  check_guard; [|done]. access. check_guard; [|by cbn; split; [|lia]].
  check_guard; [done|]. do 2 access. check_guard; [done|]. access. check_guard; [|by cbn; split; [|lia]].
  do 2 access. check_guard; [done|]. do 3 access. check_guard; [done|].
  cbn [orb]. check_guard; [done|].
  unfold slice. rewrite decide_True by lia. rewrite bind_ret_l. cbn [step_ok].
  split; [|lia]. apply list.Forall_app. split; [done|]. apply list.Forall_singleton.
  eexists _, _. split; [|split; [reflexivity|done]]. lia.
Qed.

(** C31: the packet parser is total: on every buffer, however malformed, it
    terminates without an out-of-bounds access, and the payload of every packet
    it returns is a contiguous part of the buffer. *)
Theorem parse_ipv4_tcp_packets_total buffer :
  ∃ packets, parse_ipv4_tcp_packets buffer = Ret packets ∧ Forall (payload_in buffer) packets.
Proof.
  unfold parse_ipv4_tcp_packets.
  apply (loop_rule (λ st, Forall (payload_in buffer) st.1) _ (λ st, length buffer - st.2));
    [|constructor|cbn; lia].
  intros [packets offset] Hp. cbn in Hp.
  pose proof (parse_step_spec buffer packets offset Hp) as Hs.
  destruct (parse_step _ _) as [[[p' o']|p']| | |]; cbn in Hs; try done.
  - left. eexists. split; [done|]. split; [apply Hs|]. cbn. lia.
  - right. eexists. split; [done|]. by subst.
Qed.

(** * Well-formed captures *)

Definition field (l : bytes) (i : nat) : byte := default x00 (l !! i).

(** An Ethernet frame with an IPv4 and a TCP header. *)
Record frame := mkFrame { f_macs : bytes; f_ip : bytes; f_tcp : bytes; f_payload : bytes }.

Definition wire (f : frame) : bytes :=
  f_macs f ++ [x08; x00] ++ f_ip f ++ f_tcp f ++ f_payload f.

(** The length fields of both headers agree with the parts, the protocol is
    TCP. *)
Record frame_ok (f : frame) : Prop := {
  ok_macs : length (f_macs f) = 12;
  ok_ip : 20 ≤ length (f_ip f);
  ok_ihl : N.to_nat (N.land (Byte.to_N (field (f_ip f) 0)) 0x0F) * 4 = length (f_ip f);
  ok_total : be16 (field (f_ip f) 2) (field (f_ip f) 3) =
    length (f_ip f) + length (f_tcp f) + length (f_payload f);
  ok_protocol : field (f_ip f) 9 = x06;
  ok_tcp : 20 ≤ length (f_tcp f);
  ok_offset : N.to_nat ((N.shiftr (Byte.to_N (field (f_tcp f) 12)) 4 * 4) mod 256) =
    length (f_tcp f);
}.

Definition ip_at (l : bytes) (i : nat) : bytes :=
  [field l i; field l (i + 1); field l (i + 2); field l (i + 3)].

Definition packet_of (f : frame) : ParsedPacket :=
  mkPacket (ip_at (f_ip f) 12) (ip_at (f_ip f) 16)
    (be16 (field (f_tcp f) 0) (field (f_tcp f) 1))
    (be16 (field (f_tcp f) 2) (field (f_tcp f) 3)) (f_payload f).

Section one_frame.
Context (pre : bytes) (f : frame) (post : bytes).
Hypothesis Hok : frame_ok f.
Let buffer := pre ++ wire f ++ post.

Lemma wire_length :
  length (wire f) = 14 + length (f_ip f) + length (f_tcp f) + length (f_payload f).
Proof. unfold wire. rewrite !length_app, (ok_macs f Hok). cbn. lia. Qed.

Lemma buffer_length : length buffer = length pre + length (wire f) + length post.
Proof. unfold buffer. rewrite !length_app. lia. Qed.

Lemma index_wire i k :
  i = length pre + k → k < length (wire f) → index buffer i = Ret (field (wire f) k).
Proof.
  intros -> Hk. unfold index, buffer, field. rewrite lookup_app_r by lia.
  replace (length pre + k - length pre) with k by lia. rewrite lookup_app_l by done.
  by destruct (lookup_lt_is_Some_2 (wire f) k Hk) as [b ->].
Qed.

Lemma index_be16_wire i k :
  i = length pre + k → k + 1 < length (wire f) →
  index_be16 buffer i = Ret (be16 (field (wire f) k) (field (wire f) (k + 1))).
Proof.
  intros Hi Hk. unfold index_be16. rewrite (index_wire i k), (index_wire (i + 1) (k + 1)) by lia.
  done.
Qed.

Lemma index_ip_wire i k :
  i = length pre + k → k + 3 < length (wire f) → index_ip buffer i = Ret (ip_at (wire f) k).
Proof.
  intros Hi Hk. unfold index_ip.
  rewrite (index_wire i k), (index_wire (i + 1) (k + 1)), (index_wire (i + 2) (k + 2)),
    (index_wire (i + 3) (k + 3)) by lia. done.
Qed.

Lemma field_ip k : k < length (f_ip f) → field (wire f) (14 + k) = field (f_ip f) k.
Proof.
  intros Hk. unfold field, wire. pose proof (ok_macs f Hok).
  rewrite lookup_app_r by lia. rewrite lookup_app_r by (cbn; lia).
  rewrite lookup_app_l by (cbn; lia). do 2 f_equal. cbn. lia.
Qed.

Lemma field_tcp k :
  k < length (f_tcp f) → field (wire f) (14 + length (f_ip f) + k) = field (f_tcp f) k.
Proof.
  intros Hk. unfold field, wire. pose proof (ok_macs f Hok).
  rewrite lookup_app_r by lia. rewrite lookup_app_r by (cbn; lia).
  rewrite lookup_app_r by (cbn; lia). rewrite lookup_app_l by (cbn; lia).
  do 2 f_equal. cbn. lia.
Qed.

Lemma ip_at_ip k : k + 3 < length (f_ip f) → ip_at (wire f) (14 + k) = ip_at (f_ip f) k.
Proof. intros Hk. unfold ip_at. rewrite <- !(Nat.add_assoc 14 k), !field_ip by lia. done. Qed.

Lemma field_type : be16 (field (wire f) 12) (field (wire f) (12 + 1)) = 0x0800.
Proof.
  unfold field, wire. pose proof (ok_macs f Hok) as Hm.
  rewrite !(lookup_app_r (f_macs f)) by lia. rewrite Hm. done.
Qed.

Lemma slice_payload a b :
  a = length pre + 14 + length (f_ip f) + length (f_tcp f) →
  b = a + length (f_payload f) → slice buffer a b = Ret (f_payload f).
Proof.
  intros -> ->. pose proof wire_length as Hw. pose proof buffer_length as Hb.
  unfold slice. rewrite decide_True by lia. f_equal.
  assert (Hsplit : buffer = (pre ++ f_macs f ++ [x08; x00] ++ f_ip f ++ f_tcp f) ++ f_payload f ++ post)
    by (unfold buffer, wire; by rewrite <- !app_assoc).
  rewrite Hsplit, drop_app_length'.
  - apply take_app_length'. lia.
  - rewrite !length_app, (ok_macs f Hok). cbn. lia.
Qed.

Lemma parse_step_frame packets :
  parse_step buffer (packets, length pre) =
    Ret (inl (packets ++ [packet_of f], length pre + length (wire f))).
Proof.
  pose proof wire_length as Hw. pose proof buffer_length as Hb.
  destruct Hok as [Hm Hip Hihl Htot Hproto Htcp Hoff]. unfold parse_step.
  rewrite (proj2 (Nat.leb_le _ _)) by lia. cbn [negb].
  rewrite (index_be16_wire (length pre + 12) 12), field_type by lia.
  rewrite bind_ret_l. cbn [negb Nat.eqb].
  cbv zeta. rewrite (proj2 (Nat.ltb_ge _ _)) by lia.
  rewrite (index_wire (length pre + 14) (14 + 0)), field_ip by lia. rewrite bind_ret_l, Hihl.
  rewrite (index_be16_wire (length pre + 14 + 2) (14 + 2)), <- (Nat.add_assoc 14 2 1), !field_ip by lia.
  rewrite bind_ret_l. change (2 + 1) with 3. rewrite Htot.
  rewrite (proj2 (Nat.ltb_ge _ _)) by lia.
  rewrite (index_wire (length pre + 14 + 9) (14 + 9)), field_ip, Hproto by lia. rewrite bind_ret_l.
  change (negb (byte_nat x06 =? 6)) with false. cbv iota.
  rewrite (index_ip_wire (length pre + 14 + 12) (14 + 12)), ip_at_ip by lia. rewrite bind_ret_l.
  rewrite (index_ip_wire (length pre + 14 + 16) (14 + 16)), ip_at_ip by lia. rewrite bind_ret_l.
  rewrite (proj2 (Nat.ltb_ge _ _)) by lia. set (n := length (f_ip f)) in *.
  rewrite (index_be16_wire (length pre + 14 + n) (14 + n + 0)), <- (Nat.add_assoc _ 0 1),
    !field_tcp by lia. rewrite bind_ret_l.
  rewrite (index_be16_wire (length pre + 14 + n + 2) (14 + n + 2)), <- (Nat.add_assoc _ 2 1),
    !field_tcp by lia. rewrite bind_ret_l.
  rewrite (index_wire (length pre + 14 + n + 12) (14 + n + 12)), field_tcp by lia.
  rewrite bind_ret_l, Hoff. rewrite (proj2 (Nat.ltb_ge _ _)) by lia.
  cbn [orb]. rewrite (proj2 (Nat.ltb_ge _ _)) by lia.
  rewrite slice_payload by lia. rewrite bind_ret_l. do 3 f_equal. lia.
Qed.
End one_frame.

Lemma parse_frames fs pre packets fuel :
  Forall frame_ok fs →
  length (mjoin (wire <$> fs)) < fuel →
  loop fuel (parse_step (pre ++ mjoin (wire <$> fs))) (packets, length pre) =
    Ret (packets ++ (packet_of <$> fs)).
Proof.
  intros Hok. revert pre packets fuel. induction Hok as [|f fs Hf Hok IH]; intros pre packets fuel Hfu;
    (destruct fuel as [|fuel]; [cbn in Hfu; lia|]); cbn [loop fmap list_fmap mjoin list_join] in Hfu |- *.
  - unfold parse_step. rewrite app_nil_r, (proj2 (Nat.leb_gt _ _)) by lia. cbn.
    by rewrite app_nil_r.
  - rewrite parse_step_frame by done. rewrite bind_ret_l. cbv iota.
    rewrite length_app in Hfu. pose proof (wire_length f Hf).
    assert (Hlt : length (wire f) + length (mjoin (wire <$> fs)) < S fuel) by exact Hfu.
    rewrite <- length_app, app_assoc, IH by lia. by rewrite <- app_assoc.
Qed.

(** C27: parsing inverts framing: on a capture of back-to-back well-formed TCP
    frames the parser returns exactly their packets, in order, with addresses,
    ports and payload taken from the right places. *)
Theorem parse_ipv4_tcp_packets_roundtrip fs :
  Forall frame_ok fs →
  parse_ipv4_tcp_packets (mjoin (wire <$> fs)) = Ret (packet_of <$> fs).
Proof. intros Hok. apply (parse_frames fs [] [] _ Hok). cbn. lia. Qed.

(** * The packet ring *)

(** A block the kernel still owns is left alone. *)
Theorem read_packets_kernel_owned ifap mem status :
  read_le mem BLOCK_STATUS 4 = Ret status → N.land (N.of_nat status) TP_STATUS_USER = 0%N →
  read_packets ifap mem = Ret (None, mem).
Proof. intros Hs Hz. unfold read_packets. rewrite Hs, bind_ret_l, Hz. done. Qed.


Section ring.
Context (mem server_ip : bytes).

(** A packet header at [base] whose frame, [len] captured bytes at [data], is
    an IPv4 frame of another host, or is not an IPv4 frame. *)
Record header_at (base data len : nat) (ethertype : nat) : Prop := {
  hd_in : base + TPACKET3_HDR ≤ length mem;
  hd_mac : ∃ mac, read_le mem (base + TP_MAC) 2 = Ret mac ∧ data = base + mac;
  hd_len : read_le mem (base + TP_SNAPLEN) 4 = Ret len;
  hd_type : ∃ a b, read mem (data + 12) = Ret a ∧ read mem (data + 13) = Ret b ∧
    be16 a b = ethertype;
}.

Record foreign_at (base data len next : nat) : Prop := {
  fo_header : header_at base data len 0x0800;
  fo_len : 14 + 20 ≤ len;
  fo_src : ∃ ip, from_raw_parts mem (data + 14 + 12) 4 = Ret ip ∧ ip ≠ server_ip;
  fo_next : read_le mem (base + TP_NEXT_OFFSET) 4 = Ret next;
}.

Definition or_first (first : option nat) (data : nat) : option nat :=
  match first with None => Some data | Some o => Some o end.

Lemma read_loop_foreign n base data len next first last :
  foreign_at base data len next →
  read_loop (S n) mem server_ip base first last =
    if next =? 0 then Ret (or_first first data, data + len)
    else read_loop n mem server_ip (base + next) (or_first first data) (data + len).
Proof.
  intros [[Hin (mac & Hmac & ->) Hlen (a & b & Ha & Hb & Ht)] Hl (ip & Hip & Hne) Hnext].
  cbn [read_loop]. rewrite from_raw_parts_Ret by done. rewrite bind_ret_l, Hmac, bind_ret_l.
  rewrite Hlen, bind_ret_l. rewrite (proj2 (Nat.ltb_ge _ _)) by lia.
  rewrite Ha, bind_ret_l, Hb, bind_ret_l, Ht. change (negb (0x0800 =? 0x0800)) with false.
  cbv iota. rewrite (proj2 (Nat.ltb_ge _ _)) by lia. rewrite Hip, bind_ret_l.
  rewrite bool_decide_eq_false_2 by done. by rewrite Hnext, bind_ret_l.
Qed.

(** A chain of such packets, linked by their next offsets. *)
Inductive chain : nat → list (nat * nat) → Prop :=
  | chain_last base data len : foreign_at base data len 0 → chain base [(data, len)]
  | chain_next base data len next rest :
      foreign_at base data len next → next ≠ 0 → chain (base + next) rest →
      chain base ((data, len) :: rest).

(** The end of the last frame. *)
Fixpoint packets_end (pkts : list (nat * nat)) (d : nat) : nat :=
  match pkts with
  | [] => d
  | (data, len) :: pkts => packets_end pkts (data + len)
  end.

Lemma read_loop_chain n base pkts first last :
  chain base pkts → length pkts ≤ n →
  read_loop n mem server_ip base first last =
    Ret (match first with Some o => Some o | None => fst <$> head pkts end,
         packets_end pkts last).
Proof.
  intros Hc. revert n first last.
  induction Hc as [base data len Hf|base data len next rest Hf Hne Hc IH];
    intros n first last Hn; (destruct n as [|n]; [cbn in Hn; lia|]);
    rewrite (read_loop_foreign _ _ _ _ _ _ _ Hf).
  - by destruct first.
  - rewrite (proj2 (Nat.eqb_neq _ _)) by done. cbn [length] in Hn. rewrite IH by lia. f_equal.
    by destruct first.
Qed.

(** A packet that is skipped is looked at again: the [continue] jumps over
    the step to the next packet. *)
Lemma read_loop_skipped n base data len ethertype first last :
  header_at base data len ethertype → ethertype ≠ 0x0800 →
  read_loop n mem server_ip base first last = Ret (first, last).
Proof.
  intros [Hin (mac & Hmac & ->) Hlen (a & b & Ha & Hb & Ht)] Hne.
  induction n as [|n IH]; [done|]. cbn [read_loop].
  rewrite from_raw_parts_Ret by done. rewrite bind_ret_l, Hmac, bind_ret_l.
  rewrite Hlen, bind_ret_l. destruct (_ <? 14); [done|].
  rewrite Ha, bind_ret_l, Hb, bind_ret_l, Ht. by rewrite (proj2 (Nat.eqb_neq _ _)).
Qed.
End ring.

Section block.
Context (ifap : option (list ifaddr)) (mem server_ip : bytes) (status num first : nat).
Hypothesis Hstatus : read_le mem BLOCK_STATUS 4 = Ret status.
Hypothesis Huser : N.land (N.of_nat status) TP_STATUS_USER ≠ 0%N.
Hypothesis Hnum : read_le mem NUM_PKTS 4 = Ret num.
Hypothesis Hfirst : read_le mem OFFSET_TO_FIRST_PKT 4 = Ret first.
Hypothesis Hip : get_ipv4_addr ifap (byte_str "eth0") = Some server_ip.

(** The block handed back to the kernel. *)
Definition returned_block : bytes :=
  take BLOCK_STATUS mem ++ TP_STATUS_KERNEL ++ drop (BLOCK_STATUS + 4) mem.

Lemma read_packets_eq r last :
  read_loop num mem server_ip first None 0 = Ret (r, last) →
  read_packets ifap mem = Ret ((λ start, (start, last)) <$> r, returned_block).
Proof.
  intros Hl. unfold read_packets. rewrite Hstatus, bind_ret_l.
  rewrite (proj2 (N.eqb_neq _ _)) by done.
  rewrite Hnum, bind_ret_l, Hfirst, bind_ret_l, Hip, bind_ret_l, Hl. by destruct r.
Qed.

(** C38: a block of packets that are all IPv4 frames of other hosts is read as
    the range from its first frame to the end of its last, and handed back to
    the kernel. *)
Theorem read_packets_chain pkts data len :
  chain mem server_ip first ((data, len) :: pkts) → S (length pkts) ≤ num →
  read_packets ifap mem =
    Ret (Some (data, packets_end ((data, len) :: pkts) 0), returned_block).
Proof.
  intros Hc Hn.
  rewrite (read_packets_eq (Some data) (packets_end ((data, len) :: pkts) 0)); [done|].
  by rewrite (read_loop_chain _ _ _ _ _ _ _ Hc).
Qed.

(** C39: a block whose first packet is not an IPv4 frame yields nothing, however
    many packets follow: the loop looks at that packet over and over. *)
Theorem read_packets_stuck data len ethertype :
  header_at mem first data len ethertype → ethertype ≠ 0x0800 →
  read_packets ifap mem = Ret (None, returned_block).
Proof.
  intros Hh Hne. by rewrite (read_packets_eq None 0) by by eapply read_loop_skipped.
Qed.
End block.
