(* ===== verification/Bpf.v ===== *)
(** The meaning of the two classic BPF programs the code hands to the kernel:
    the packet filter of the packet socket and the selection program of the
    listener's reuse-port group. *)
From S2P Require Import Prelude Http Sockets PacketSocket Packets.

(** * Classic BPF *)

(** What a program runs on: the packet, and the ancillary data of the kernel by
    its offset from [SKF_AD_OFF]. *)
Record bpf_input := mkInput { packet : bytes; ancillary : N → option N }.

Definition SKF_AD_BASE : N := 2 ^ 32 - 0x1000.

Definition load_byte (i : bpf_input) (k : N) : option N :=
  Byte.to_N <$> packet i !! N.to_nat k.

(** A 32-bit load, big-endian; offsets from [SKF_AD_BASE] on are ancillary. *)
Definition load_word (i : bpf_input) (k : N) : option N :=
  if (SKF_AD_BASE <=? k)%N then ancillary i (k - SKF_AD_BASE)
  else
    a ← load_byte i k;
    b ← load_byte i (k + 1);
    c ← load_byte i (k + 2);
    d ← load_byte i (k + 3);
    Some (a * 2 ^ 24 + b * 2 ^ 16 + c * 2 ^ 8 + d)%N.

Inductive bpf_instr :=
  | LdW (k : N)
  | LdB (k : N)
  | Jeq (k : N) (jt jf : nat)
  | RetK (k : N)
  | RetA.

(** The instructions in use: [BPF_LD | BPF_W | BPF_ABS], [BPF_LD | BPF_B | BPF_ABS],
    [BPF_JMP | BPF_JEQ | BPF_K], [BPF_RET | BPF_K] and [BPF_RET | BPF_A]. *)
Definition decode (f : SockFilter) : option bpf_instr :=
  match code f with
  | 0x20%N => Some (LdW (k f))
  | 0x30%N => Some (LdB (k f))
  | 0x15%N => Some (Jeq (k f) (N.to_nat (jt f)) (N.to_nat (jf f)))
  | 0x06%N => Some (RetK (k f))
  | 0x16%N => Some RetA
  | _ => None
  end.

(** The value a program returns with accumulator [a]; a load outside the packet
    ends it with 0. Jumps go forward, so the program gets shorter; [None] at its
    end. *)
Fixpoint bpf_run (fuel : nat) (prog : list bpf_instr) (i : bpf_input) (a : N) : option N :=
  match fuel, prog with
  | S fuel, ins :: prog =>
      match ins with
      | LdW k => match load_word i k with Some a => bpf_run fuel prog i a | None => Some 0%N end
      | LdB k => match load_byte i k with Some a => bpf_run fuel prog i a | None => Some 0%N end
      | Jeq k jt jf => bpf_run fuel (drop (if (a =? k)%N then jt else jf) prog) i a
      | RetK k => Some k
      | RetA => Some a
      end
  | _, _ => None
  end.

(** A program with an unknown instruction is refused as a whole. *)
Definition bpf (prog : list SockFilter) (i : bpf_input) : option N :=
  ins ← mapM decode prog; bpf_run (length ins) ins i 0.

(** More fuel than instructions changes nothing. *)
Lemma bpf_run_fuel fuel prog i a :
  length prog ≤ fuel → bpf_run fuel prog i a = bpf_run (length prog) prog i a.
Proof.
  revert fuel a. induction prog as [prog IH] using (induction_ltof1 _ (@length bpf_instr)).
  intros fuel a Hf. destruct prog as [|ins prog]; [by destruct fuel|].
  destruct fuel as [|fuel]; [cbn in Hf; lia|]. cbn [length] in *. cbn [bpf_run].
  assert (IH' : ∀ n a, bpf_run fuel (drop n prog) i a = bpf_run (length prog) (drop n prog) i a).
  { intros n a'. assert (Hl : length (drop n prog) ≤ length prog) by (rewrite length_drop; lia).
    rewrite (IH (drop n prog)) by (unfold ltof; cbn; lia).
    symmetry. apply IH; [unfold ltof; cbn; lia|done]. }
  destruct ins; try done.
  - destruct (load_word i k); [apply (IH' 0)|done].
  - destruct (load_byte i k); [apply (IH' 0)|done].
Qed.

(** * The packet filter *)

(** The bytes of a packet the filter lets through. *)
Definition tcp_accepts (pkt : bytes) : bool :=
  match bpf BPF_TCP_FILTER (mkInput pkt (λ _, None)) with Some n => negb (n =? 0)%N | None => false end.

Lemma tcp_filter_eq pkt anc :
  bpf BPF_TCP_FILTER (mkInput pkt anc) =
    Some (if decide (pkt !! 23 = Some x06) then (2 ^ 32 - 1)%N else 0%N).
Proof.
  change (bpf BPF_TCP_FILTER (mkInput pkt anc)) with
    (bpf_run 4 [LdB 23; Jeq 6 0 1; RetK (2 ^ 32 - 1); RetK 0] (mkInput pkt anc) 0).
  cbn [bpf_run]. unfold load_byte. cbn [packet]. change (N.to_nat 23) with 23.
  destruct (pkt !! 23) as [b|] eqn:Hb; cbn [fmap option_fmap option_map]; [|by rewrite decide_False].
  destruct (decide (b = x06)) as [->|Hne]; [by rewrite decide_True|].
  rewrite decide_False by congruence.
  destruct (N.eqb_spec (Byte.to_N b) 6) as [He|]; [|done]. exfalso. apply Hne.
  apply (f_equal Byte.of_N) in He. rewrite Byte.of_to_N in He. cbn in He. congruence.
Qed.

Lemma tcp_accepts_iff pkt : tcp_accepts pkt = true ↔ pkt !! 23 = Some x06.
Proof. unfold tcp_accepts. rewrite tcp_filter_eq. by case_decide. Qed.

(** The first frame of a packet list the parser returns is one the filter let
    through, provided that it starts the buffer. *)
Lemma parse_step_accepted buffer p packets offset :
  parse_step buffer ([], 0) = Ret (inl (p :: packets, offset)) → tcp_accepts buffer = true.
Proof.
  intros Hp. apply tcp_accepts_iff. unfold parse_step in Hp. cbn [Nat.add] in Hp.
  destruct (negb (_ <=? _)); [done|].
  destruct (index_be16 buffer 12) as [ty| | |]; cbn [mbind outcome_bind] in Hp; try done; cbv zeta in Hp.
  destruct (negb _); [done|]. destruct (_ <? _); [done|].
  destruct (index buffer 14) as [b0| | |]; cbn [mbind outcome_bind] in Hp; try done; cbv zeta in Hp.
  destruct (index_be16 buffer 16) as [tl| | |]; cbn [mbind outcome_bind] in Hp; try done; cbv zeta in Hp.
  destruct (_ <? _); [done|].
  destruct (index buffer 23) as [pr| | |] eqn:Hpr; cbn [mbind outcome_bind] in Hp; try done; cbv zeta in Hp.
  unfold index in Hpr. destruct (buffer !! 23) as [b|]; [|done]. injection Hpr as ->.
  destruct (Nat.eqb_spec (byte_nat pr) 6) as [He|]; [|done]. f_equal.
  unfold byte_nat in He. assert (He' : Byte.to_N pr = 6%N) by lia.
  apply (f_equal Byte.of_N) in He'. rewrite Byte.of_to_N in He'. cbn in He'. congruence.
Qed.

(** C29: the packet filter returns the whole length for the packets whose byte 23
    is the protocol number of TCP, and 0 for all others, short ones included;
    so the parser finds a TCP packet only in a frame that passed the filter, and
    every well-formed IPv4 frame with TCP passes. *)
Theorem tcp_filter_correct pkt anc :
  bpf BPF_TCP_FILTER (mkInput pkt anc) =
    Some (if decide (pkt !! 23 = Some x06) then (2 ^ 32 - 1)%N else 0%N) ∧
  (∀ p packets offset, parse_step pkt ([], 0) = Ret (inl (p :: packets, offset)) →
     tcp_accepts pkt = true) ∧
  (∀ f, frame_ok f → tcp_accepts (wire f) = true).
Proof.
  split; [apply tcp_filter_eq|]. split; [apply parse_step_accepted|].
  intros f Hok. apply tcp_accepts_iff. destruct Hok as [Hm Hi _ _ Hp _ _].
  unfold wire. rewrite lookup_app_r, Hm by lia. cbn [app]. rewrite lookup_cons_ne_0 by done.
  rewrite lookup_cons_ne_0 by done. cbn. rewrite lookup_app_l by lia.
  unfold field in Hp. destruct (lookup_lt_is_Some_2 (f_ip f) 9) as [b Hb]; [lia|].
  rewrite Hb in Hp |- *. cbn in Hp. by subst.
Qed.

(** The filter looks at one byte only: it is let through whatever the type of
    the frame, and kept out however TCP arrives, when that byte says so. *)
Theorem tcp_filter_any_ethertype macs ethertype rest :
  length macs = 12 → length ethertype = 2 → 10 ≤ length rest →
  tcp_accepts (macs ++ ethertype ++ rest) = bool_decide (rest !! 9 = Some x06).
Proof.
  intros Hm He Hr. apply eq_true_iff_eq. rewrite tcp_accepts_iff, bool_decide_eq_true.
  rewrite lookup_app_r, Hm, lookup_app_r, He by lia. done.
Qed.

(** * The reuse-port program *)

(** The reuse-port program returns the number of the processor that handles
    the connection request, whatever the packet: with the workers pinned to the
    cores and their sockets in the order of the cores, a connection goes to the
    worker of its core. *)
Theorem reuseport_filter_selects_cpu pkt anc cpu :
  anc 36%N = Some cpu → bpf reuseport_filter (mkInput pkt anc) = Some cpu.
Proof.
  intros Hc. change (bpf reuseport_filter (mkInput pkt anc)) with
    (bpf_run 2 [LdW (SKF_AD_BASE + 36); RetA] (mkInput pkt anc) 0). cbn [bpf_run].
  assert (Hl : load_word (mkInput pkt anc) (SKF_AD_BASE + 36) = Some cpu) by exact Hc.
  by rewrite Hl.
Qed.
