(* ===== verification/Print.v ===== *)
(** The debug printer of [src/library/utils/mod.rs]. *)
From S2P Require Import Prelude Decimal.

Definition NEWLINE : bytes := [x0a].
Definition INDENT : bytes := byte_str "    ".

(** [{:3}] *)
Definition padded_3 (n : nat) : bytes := replicate (3 - length (display n)) x20 ++ display n.

(** [for (i, b) in bytes.iter().enumerate()] *)
Fixpoint print_elements (i : nat) (l : bytes) : bytes :=
  match l with
  | [] => []
  | b :: l =>
      padded_3 (byte_nat b) ++ byte_str "," ++
      (if S i mod 16 =? 0 then NEWLINE ++ INDENT else []) ++
      print_elements (S i) l
  end.

(** The bytes [print_as_const] writes to the standard output. *)
Definition print_as_const (l name : bytes) : bytes :=
  byte_str "const " ++ name ++ byte_str ": &[u8] = &[" ++ NEWLINE ++ INDENT ++
  print_elements 0 l ++ NEWLINE ++ byte_str "];" ++ NEWLINE.

(** * Reading the text back *)

(** The elements of an array literal behind its bracket, and what follows it. *)
Fixpoint read_elements (number l : bytes) : option (list nat * bytes) :=
  match l with
  | [] => None
  | b :: l =>
      if bool_decide (b = "]"%byte) then Some ([], l)
      else if bool_decide (b = ","%byte) then
        '(ns, l) ← read_elements [] l; Some (decimal number :: ns, l)
      else if bool_decide (b = x20 ∨ b = x0a) then read_elements number l
      else read_elements (number ++ [b]) l
  end.

Lemma read_blanks blanks l number :
  Forall (λ b, b = x20 ∨ b = x0a) blanks → read_elements number (blanks ++ l) = read_elements number l.
Proof. induction 1 as [|b blanks [-> | ->] _ IH]; [done|..]; cbn [app read_elements]; exact IH. Qed.

Lemma read_digits ds l number :
  Forall (λ b, is_Some (to_digit b)) ds →
  read_elements number (ds ++ l) = read_elements (number ++ ds) l.
Proof.
  intros Hds. revert number. induction Hds as [|b ds [d Hd] _ IH]; intros number;
    [by rewrite app_nil_r|]. cbn [app read_elements].
  rewrite !bool_decide_eq_false_2 by (try intros [Hb|Hb]; try intros Hb; by rewrite Hb in Hd).
  by rewrite IH, <- app_assoc.
Qed.

Lemma read_element n l :
  read_elements [] (padded_3 n ++ byte_str "," ++ l) =
    ('(ns, rest) ← read_elements [] l; Some (n :: ns, rest)).
Proof.
  unfold padded_3. rewrite <- app_assoc, read_blanks by (apply Forall_replicate; by left).
  rewrite read_digits by apply display_digits. cbn [app]. change (byte_str ",") with [","%byte].
  cbn [app read_elements]. rewrite bool_decide_eq_false_2, bool_decide_eq_true_2 by done.
  by rewrite decimal_display.
Qed.

Lemma read_printed i l rest :
  read_elements [] (print_elements i l ++ NEWLINE ++ byte_str "]" ++ rest) =
    Some (byte_nat <$> l, rest).
Proof.
  revert i. induction l as [|b l IH]; intros i.
  { cbn [print_elements app]. rewrite read_blanks by (repeat constructor; by right).
    by change (byte_str "]" ++ rest) with ("]"%byte :: rest). }
  cbn [print_elements]. rewrite <- !app_assoc, read_element, read_blanks.
  { by rewrite IH. }
  case_match; repeat constructor; (by left) || by right.
Qed.

(** C40: the text that [print_as_const] prints is an array literal of exactly the
    bytes given, whatever they are and however the lines are broken. *)
Theorem print_as_const_roundtrip l name :
  let head := byte_str "const " ++ name ++ byte_str ": &[u8] = &[" in
  take (length head) (print_as_const l name) = head ∧
  read_elements [] (drop (length head) (print_as_const l name)) =
    Some (byte_nat <$> l, byte_str ";" ++ NEWLINE).
Proof.
  intros head.
  assert (Heq : print_as_const l name = head ++ (NEWLINE ++ INDENT) ++
    print_elements 0 l ++ NEWLINE ++ byte_str "]" ++ byte_str ";" ++ NEWLINE).
  { unfold print_as_const, head. by rewrite <- !app_assoc. }
  rewrite Heq, take_app_length, drop_app_length. split; [done|].
  rewrite read_blanks by (repeat constructor; (by left) || by right). apply read_printed.
Qed.

Example print_two : print_as_const [x07; xff] (byte_str "X") =
  byte_str "const X: &[u8] = &[" ++ NEWLINE ++ byte_str "      7,255," ++ NEWLINE ++
  byte_str "];" ++ NEWLINE.
Proof. reflexivity. Qed.
