(* ===== verification/Instances.v ===== *)
(** Concrete instances of the crate interfaces of [Crates], [Uring], [Sockets]
    and [Listener], with their laws: they show that the laws can hold together, and
    let examples and witnesses evaluate the model. *)
From S2P Require Import Prelude Decimal Crates Uring Sockets Listener.

#[local] Arguments Nat.ltb : simpl never.
#[local] Arguments Nat.leb : simpl never.

(** * SmallLake: bytes and a position, read as an array of [n] cells *)

Definition cells (n : nat) (l : bytes) : bytes := take n (l ++ replicate n x00).

Lemma length_cells n l : length (cells n l) = n.
Proof. unfold cells. rewrite length_take, length_app, length_replicate. lia. Qed.

Lemma cells_id l : cells (length l) l = l.
Proof. apply take_app_length. Qed.

Definition array_write (n : nat) (l : bytes * nat) (bs : bytes) : outcome (bytes * nat) :=
  let buf := cells n l.1 in
  let pos := l.2 `min` n in
  if pos + length bs <=? n
  then Ret (take pos buf ++ bs ++ drop (pos + length bs) buf, pos + length bs)
  else UB.

#[export] Instance array_lake : Lake := {|
  SmallLake _ := (bytes * nat)%type;
  lake_build _ := ([], 0);
  lake_buf n l := cells n l.1;
  lake_pos n l := l.2 `min` n;
  lake_len n l := l.2 `min` n;
  lake_reset_pos _ l := (l.1, 0);
  lake_write n l bs := array_write n l bs;
  lake_write_num_str_fixed n l k _ := array_write n l [digit (k / 10); digit (k mod 10)];
  lake_write_to dst src :=
    if length src <=? length dst then Ret (src ++ drop (length src) dst) else UB;
  lake_clone _ l := l;
|}.

#[export] Instance array_lake_laws : LakeLaws.
Proof.
  split; cbn; try done.
  - intros. apply length_cells.
  - lia.
  - intros n l bs Hfit. unfold array_write. rewrite (proj2 (Nat.leb_le _ _)) by done.
    eexists. split; [done|]. cbn [fst snd]. split; [lia|].
    rewrite <- (cells_id (_ ++ _)) at 2. f_equal.
    rewrite !length_app, length_take, length_drop, length_cells. lia.
  - intros dst src Hl. by rewrite (proj2 (Nat.leb_le _ _)).
Qed.

(** * TachyonBuffer: the text written *)

Fixpoint json_members (kvs : list (bytes * bytes)) : bytes :=
  match kvs with
  | [] => []
  | [kv] => quoted kv.1 ++ byte_str ":" ++ quoted kv.2
  | kv :: kvs => quoted kv.1 ++ byte_str ":" ++ quoted kv.2 ++ byte_str "," ++ json_members kvs
  end.

#[export] Instance text_json : Json := {|
  TachyonBuffer _ := bytes;
  json_default _ := [];
  json_reset_pos _ _ := [];
  json_encode n kvs _ b :=
    let text := b ++ byte_str "{" ++ json_members kvs ++ byte_str "}" in
    if length text <=? n then Ret text else Panic;
  json_as_slice _ b := b;
  json_clone _ b := b;
|}.

#[export] Instance text_json_laws : JsonLaws.
Proof.
  split. intros n b kv flag Hl. cbn [json_encode text_json json_reset_pos json_as_slice app].
  assert (Heq : byte_str "{" ++ json_members [kv] ++ byte_str "}" = json_pair kv).
  { unfold json_pair. cbn [json_members]. by rewrite <- !app_assoc. }
  rewrite Heq, (proj2 (Nat.leb_le _ _)) by done. by exists (json_pair kv).
Qed.

(** * ExternStableVec: the slots and the capacity *)

Record slots (A : Type) := mkSlots { slots_list : list (option A); slots_cap : nat }.
Arguments mkSlots {A}.
Arguments slots_list {A}.
Arguments slots_cap {A}.

Definition slots_insert {A} (i : nat) (a : A) (v : slots A) : outcome (slots A) :=
  if i <? slots_cap v
  then Ret (mkSlots (<[i:=Some a]> (slots_list v ++
                       replicate (S i - length (slots_list v)) None)) (slots_cap v))
  else Panic.

#[export] Instance slots_vec : StableVecOps := {|
  StableVec := slots;
  sv_slots A v := slots_list v;
  sv_capacity A v := slots_cap v;
  sv_new A := mkSlots [] 0;
  sv_with_capacity A n := mkSlots [] n;
  sv_push A a v :=
    (length (slots_list v),
     mkSlots (slots_list v ++ [Some a]) (slots_cap v `max` S (length (slots_list v))));
  sv_insert A i a v := slots_insert i a v;
  sv_get A v i := slot (slots_list v) i;
  sv_set A i a v := mkSlots (<[i:=Some a]> (slots_list v)) (slots_cap v);
  sv_remove A i v := (slot (slots_list v) i, mkSlots (<[i:=None]> (slots_list v)) (slots_cap v));
  sv_iter A v := filled_slots 0 (slots_list v);
  sv_clone A f v := mkSlots ((λ o : option A, f <$> o) <$> slots_list v) (slots_cap v);
|}.

#[export] Instance slots_vec_laws : StableVecLaws.
Proof.
  split; cbn; try done; unfold slots_insert.
  - intros A i a v Hi. rewrite (proj2 (Nat.ltb_lt _ _)) by done. by eexists.
  - intros A i a v Hi. by rewrite (proj2 (Nat.ltb_ge _ _)).
Qed.

(** * The ring: a kernel that consumes what it is shown, receives one packet
    and completes a script *)

Record script_ring := mkRing {
  r_capacity : nat;
  (** entries known to be consumed, and those still in the queue *)
  r_done : list Entry;
  r_entries : list Entry;
  (** entries published by the last sync, and those of them consumed since *)
  r_published : nat;
  r_consumed : nat;
  r_cq : list Cqe;
  (** completions not yet seen by the process *)
  r_script : list Cqe;
  (** what the kernel receives into the first buffer when it is entered *)
  r_packet : bytes;
}.

Definition ring_push (es : list Entry) (r : script_ring) : script_ring :=
  mkRing (r_capacity r) (r_done r) (r_entries r ++ es) (r_published r) (r_consumed r)
    (r_cq r) (r_script r) (r_packet r).
Definition ring_set_cq (cq script : list Cqe) (r : script_ring) : script_ring :=
  mkRing (r_capacity r) (r_done r) (r_entries r) (r_published r) (r_consumed r) cq script
    (r_packet r).

(** A packet overwrites the front of a buffer. *)
Definition receive (packet b : bytes) : bytes :=
  take (length b) (packet ++ drop (length packet) b).
Definition receive_first (packet : bytes) (bufs : list bytes) : list bytes :=
  match bufs with [] => [] | b :: bufs => receive packet b :: bufs end.

Definition ring_submit (m : kmem) (r : script_ring) : io nat * list bytes * script_ring :=
  (IoOk (r_published r - r_consumed r), receive_first (r_packet r) (km_buffers m),
   mkRing (r_capacity r) (r_done r) (r_entries r) (r_published r) (r_published r) (r_cq r)
     (r_script r) (r_packet r)).

(** A wait with nothing to submit for a completion that would never come is
    interrupted. *)
Definition EINTR : Z := 4.
Definition ring_wait (m : kmem) (r : script_ring) : io nat * list bytes * script_ring :=
  if (length (r_cq r ++ r_script r) =? 0) && (r_published r =? r_consumed r)
  then (IoErr EINTR, km_buffers m, r) else ring_submit m r.

#[export] Instance script_ring_ops : RingOps := {|
  Ring := script_ring;
  sq_push e r := if length (r_entries r) <? r_capacity r then Some (ring_push [e] r) else None;
  sq_push_multiple es r := if length (r_entries r) + length es <=? r_capacity r
                           then Some (ring_push es r) else None;
  sq_sync r :=
    mkRing (r_capacity r) (r_done r ++ take (r_consumed r) (r_entries r))
      (drop (r_consumed r) (r_entries r)) (length (drop (r_consumed r) (r_entries r))) 0
      (r_cq r) (r_script r) (r_packet r);
  sq_len r := length (r_entries r);
  sq_capacity := r_capacity;
  sq_entries := r_entries;
  sq_pushed r := r_done r ++ r_entries r;
  submit := ring_submit;
  submit_and_wait _ := ring_wait;
  register_files _ r := (IoOk tt, r);
  cq_len r := length (r_cq r);
  cq_next r := match r_cq r with
               | [] => None
               | c :: cq => Some (c, ring_set_cq cq (r_script r) r)
               end;
  cq_sync r := ring_set_cq (r_cq r ++ r_script r) [] r;
|}.

Lemma length_receive packet b : length (receive packet b) = length b.
Proof. unfold receive. rewrite length_take, length_app, length_drop. lia. Qed.

Lemma receive_first_shape packet bufs : same_shape bufs (receive_first packet bufs).
Proof.
  destruct bufs as [|b bufs]; [done|]. unfold same_shape. cbn [receive_first fmap list_fmap].
  by rewrite length_receive.
Qed.

Lemma ring_wait_cases m r : ring_wait m r = (IoErr EINTR, km_buffers m, r) ∨ ring_wait m r = ring_submit m r.
Proof. unfold ring_wait. case_match; auto. Qed.

#[export] Instance script_ring_laws : RingLaws.
Proof.
  split; cbn -[ring_wait receive_first]; try done;
    try match goal with |- context [ring_wait] => intros ? m r; by destruct (ring_wait_cases m r) as [-> | ->];
      [|cbn -[receive_first]; try apply receive_first_shape] end.
  - intros e r Hr. rewrite (proj2 (Nat.ltb_lt _ _)) by done. by eexists.
  - intros e r Hr. by rewrite (proj2 (Nat.ltb_ge _ _)).
  - intros es r Hr. rewrite (proj2 (Nat.leb_le _ _)) by done. by eexists.
  - intros es r Hr. by rewrite (proj2 (Nat.leb_gt _ _)).
  - by eexists.
  - intros. apply receive_first_shape.
  - intros r Hr. destruct (r_cq r) as [|c cq]; [cbn in Hr; lia|]. by eexists _, _.
  - intros r Hr. by rewrite (nil_length_inv _ Hr).
  - intros r. rewrite length_app. lia.
  - intros e r r'. case_match; [|done]. intros [= <-]. cbn. by rewrite app_assoc.
  - intros es r r'. case_match; [|done]. intros [= <-]. cbn. by rewrite app_assoc.
  - intros r. by rewrite <- app_assoc, take_drop.
  - intros e r r'. destruct (r_cq r); [done|]. by intros [= _ <-].
  - intros r. exists (length (r_done r)). by rewrite drop_app_length.
Qed.

(** * fcntl: every descriptor is open for reading and writing *)

#[export] Instance rdwr_sockets : SocketOps := {| fcntl_getfl _ := 2%Z |}.

(** * socket2: a socket is descriptor 4, and every call on it succeeds *)

#[export] Instance willing_sockets : Socket2 := {|
  socket_answer _ c := match c with NewSocket _ _ _ => IoOk 4%Z | _ => IoOk 0%Z end;
|}.
