(* ===== verification/Examples.v ===== *)
(** Boolean checks for the hypotheses of the theorems, and a concrete running
    server with one client on the instances of [Instances]. *)
From S2P Require Import Prelude Config Avx Http Trim Shift Crates UserData Uring IoState.
From S2P Require Import Handler Sockets Server Replies Buffers Sends Connections Ubdma.
From S2P Require Import Invariant EventLoop Api Worker Pipeline Client Memory PacketSocket Packets.
From S2P Require Import Instances.

(** * Checking hypotheses by evaluation *)

#[export] Instance Cqe_eq_dec : EqDecision Cqe.
Proof. solve_decision. Defined.

Definition no_boundary_b (n : nat) (buf : bytes) : bool :=
  forallb (λ p, negb (boundary_at buf p)) (full_starts n buf).

Lemma no_boundary_b_sound n buf : no_boundary_b n buf = true → no_boundary n buf.
Proof.
  unfold no_boundary_b, no_boundary. rewrite forallb_forall, Forall_forall.
  intros Hb p Hp. apply negb_true_iff, Hb. exact Hp.
Qed.

Lemma no_boundary_b_complete n buf : no_boundary_b n buf = false → ¬ no_boundary n buf.
Proof.
  unfold no_boundary_b, no_boundary. intros Hb Hn. apply not_true_iff_false in Hb. apply Hb.
  rewrite forallb_forall. rewrite Forall_forall in Hn. intros p Hp. by rewrite Hn.
Qed.

Definition replyable_b (w : World) (u : UserData) (result : Z) (flags : N) : bool :=
  let i := N.to_nat (N.shiftr flags 16 mod 2 ^ 16) in
  (i <? BUFFERS_COUNT) &&
  match buffers (srv w) !! i, sv_get (client_out_buffers (srv w)) (N.to_nat (client_id u)) with
  | Some buf, Some lake =>
      let packet := take (Z.to_nat result) buf in
      no_boundary_b MAX_REQUESTS packet &&
      (length (lake_data lake) + length (responses (date (srv w)) (requests MAX_REQUESTS packet))
       <=? DATA_LAKE_SIZE)
  | _, _ => false
  end.

Lemma replyable_b_sound w u result flags :
  replyable_b w u result flags = true → replyable w u result flags.
Proof.
  unfold replyable_b. intros [Hi Hb]%andb_true_iff. apply Nat.ltb_lt in Hi.
  destruct (buffers (srv w) !! _) as [buf|] eqn:Hbuf; [|done].
  destruct (sv_get _ _) as [lake|] eqn:Hlk; [|done].
  apply andb_true_iff in Hb as [Hn Hf]. apply Nat.leb_le in Hf.
  split; [done|..]; intros buf'; rewrite Hbuf; intros [= <-].
  - by apply no_boundary_b_sound.
  - by exists lake.
Qed.

Definition ud_wf_b (u : UserData) : bool :=
  (client_id u <? 2 ^ 32)%N && (buffer_id u <? 2 ^ 16)%N && (uniq_id u <? 2 ^ 15)%N &&
  (RESERVED <=? N.to_nat (client_id u)).

(** Completions of clients that are received packets or need no packet. *)
Definition permitted_b (w : World) (c : Cqe) : bool :=
  let '(mkCqe code result flags) := c in
  if (code =? CODE_ACCEPT)%N then
    next_id (srv w) <? sv_capacity (client_out_buffers (srv w))
  else if (code <? REQ_RESP_OFFSET)%N then true
  else
    match unpack_user_data false code with
    | Ret u =>
        (pack_user_data u =? code)%N && ud_wf_b u &&
        match client_event (ub_kernel_dma (config (srv w))) (uniq_id u) result with
        | Received => replyable_b w u result flags
        | Readable => false
        | _ => true
        end
    | _ => false
    end.

Lemma permitted_b_sound w c : permitted_b w c = true → permitted w c.
Proof.
  destruct c as [code result flags]. unfold permitted_b.
  destruct (N.eqb_spec code CODE_ACCEPT) as [->|Hne].
  { intros Hl%Nat.ltb_lt. by constructor. }
  destruct (N.ltb_spec code REQ_RESP_OFFSET); [by constructor|].
  destruct (unpack_user_data false code) as [u| | |]; [|done..].
  intros [[Hp Hwf]%andb_true_iff Hev]%andb_true_iff. apply N.eqb_eq in Hp. subst code.
  unfold ud_wf_b in Hwf. repeat rewrite andb_true_iff in Hwf.
  destruct Hwf as [[[?%N.ltb_lt ?%N.ltb_lt] ?%N.ltb_lt] ?%Nat.leb_le].
  apply permitted_client; [by split_and!; [..|lia]|done|done|..]; intros He; rewrite He in Hev; [|done].
  intros _. by apply replyable_b_sound.
Qed.

Fixpoint deliverable_b (oc : bool) (fuel : nat) (w : World) : bool :=
  match cq_next (ring w) with
  | None => true
  | Some (c, r) =>
      match fuel with
      | 0 => false
      | S fuel =>
          permitted_b (with_ring r w) c && (sq_len r + release_part <=? sq_capacity r) &&
          match process_entry oc c (with_ring r w) with
          | Ret (IoOk _, w') => deliverable_b oc fuel (counted w')
          | _ => true
          end
      end
  end.

Lemma deliverable_b_sound oc fuel w : deliverable_b oc fuel w = true → deliverable oc w.
Proof.
  revert w. induction fuel as [|fuel IH]; intros w; cbn [deliverable_b];
    (destruct (cq_next (ring w)) as [[c r]|] eqn:Hn; [|by constructor]); [done|].
  intros [[Hp Hr%Nat.leb_le]%andb_true_iff Hd]%andb_true_iff.
  eapply deliverable_next; [done|by apply permitted_b_sound|done|].
  intros w' Heq. rewrite Heq in Hd. by apply IH.
Qed.

(** What holds of the result of a computation, when there is one. *)
Definition result_b {A} (m : outcome (io unit * A)) (P : A → bool) : bool :=
  match m with Ret (IoOk _, w) => P w | _ => true end.

Lemma result_b_sound {A} (m : outcome (io unit * A)) P w :
  result_b m P = true → m = Ret (IoOk tt, w) → P w = true.
Proof. by intros Hb ->. Qed.

(** A computation that returns normally, in a state with a property. *)
Definition returns_b {A} (m : outcome (io unit * A)) (P : A → bool) : bool :=
  match m with Ret (IoOk _, w) => P w | _ => false end.

Lemma returns_b_sound {A} (m : outcome (io unit * A)) P :
  returns_b m P = true → ∃ w, m = Ret (IoOk tt, w) ∧ P w = true.
Proof. destruct m as [[[[]|] w]| | |]; [by eauto|done..]. Qed.

Definition release_room_b (w : World) : bool :=
  sq_len (ring w) + length (released_buffers (srv w)) <=? sq_capacity (ring w).

Definition iteration_b (oc : bool) (fuel : nat) (w : World) (t : Tick) : bool :=
  (length (t_date t) =? DATE_SIZE) &&
  (sq_len (ring w) + length (pending_sends (srv w)) <=? sq_capacity (ring w)) &&
  (4 <=? sq_capacity (ring w)) &&
  result_b (loop_head oc t w) (λ w1,
    deliverable_b oc fuel w1 && (cq_len (ring w1) <? fuel) &&
    result_b (drain oc fuel w1) release_room_b).

Lemma iteration_b_sound oc fuel w t : iteration_b oc fuel w t = true → iteration_ok oc fuel w t.
Proof.
  unfold iteration_b. repeat rewrite andb_true_iff.
  intros [[[Hd%Nat.eqb_eq Hf%Nat.leb_le] Hc%Nat.leb_le] Hb].
  assert (Hw1 : ∀ w1, loop_head oc t w = Ret (IoOk tt, w1) →
    (deliverable_b oc fuel w1 = true ∧ cq_len (ring w1) < fuel) ∧
    result_b (drain oc fuel w1) release_room_b = true).
  { intros w1 Heq. apply (result_b_sound _ _ _ Hb) in Heq. revert Heq.
    by rewrite !andb_true_iff, Nat.ltb_lt. }
  split; [done|by intros _|done|..].
  - intros w1 [[Hdl ?] _]%Hw1. split; [by eapply deliverable_b_sound|done].
  - intros w1 w2 [_ Hr]%Hw1 Heq. apply Nat.leb_le. exact (result_b_sound _ _ _ Hr Heq).
Qed.

Fixpoint environment_b (oc : bool) (fuel : nat) (w : World) (ts : list Tick) : bool :=
  match ts with
  | [] => true
  | t :: ts => iteration_b oc fuel w t &&
      result_b (iteration oc fuel t w) (λ w', environment_b oc fuel w' ts)
  end.

Lemma environment_b_sound oc fuel w ts : environment_b oc fuel w ts = true → environment_ok oc fuel w ts.
Proof.
  revert w. induction ts as [|t ts IH]; intros w; cbn [environment_b]; [constructor|].
  intros [Hi Hr]%andb_true_iff. constructor; [by apply iteration_b_sound|].
  intros w' Heq. apply IH. exact (result_b_sound _ _ _ Hr Heq).
Qed.

(** * A running server *)

Definition ex_date : bytes := byte_str "Date: Sun, 06 Nov 1994 08:49:37 GMT".

(** A kernel buffer that begins with [l]. *)
Definition ex_buffer (l : bytes) : bytes := l ++ replicate (BUFFER_SIZE - length l) x00.

Lemma ex_buffer_length l : length l ≤ BUFFER_SIZE → length (ex_buffer l) = BUFFER_SIZE.
Proof. intros Hl. unfold ex_buffer. rewrite length_app, length_replicate. lia. Qed.

(** The descriptors after 100 reservations and one client on descriptor 7, and
    the out buffers with [out] written for the client. *)
Definition ex_fds : StableVec Z := mkSlots (replicate RESERVED (Some 0xFFFF%Z) ++ [Some 7%Z]) 101.
Definition ex_outs (out : bytes) : StableVec (SmallLake DATA_LAKE_SIZE) :=
  mkSlots (replicate RESERVED None ++ [Some (out, length out)]) 200.

Definition ex_clocks : Clocks := mkClocks 0 0 0 1 0 0 0 0.

Definition ex_server (ub : bool) (packet out : bytes) (released : list nat) : Server :=
  mkServer (mkConfig (byte_str "0.0.0.0:8080") 1 4096 false 0 false ub)
    ex_fds ex_date [] ([], 0) true
    (ex_buffer packet :: replicate (BUFFERS_COUNT - 1) (ex_buffer []))
    released (ex_outs out) (replicate (2 * BUFFER_SIZE) x00) 0 false ex_clocks.

Definition ex_world (ub : bool) (packet out : bytes) (released : list nat) (r : Ring)
    (kbuf : option nat) : World :=
  mkWorld (ex_server ub packet out released) r kbuf [].

(** An empty ring of 4096 entries with completions to come, behind which the
    kernel receives a packet. *)
Definition packet_ring (packet : bytes) (script : list Cqe) : Ring :=
  mkRing 4096 [] [] 0 0 [] script packet.
Definition ex_ring (script : list Cqe) : Ring := packet_ring [] script.
(** A ring with no room left. *)
Definition full_ring : Ring := mkRing 1 [] [async_cancel] 0 0 [] [] [].

Lemma ex_slot {A} (l : list (option A)) x cid :
  slot (l ++ [Some x]) cid = if decide (length l = cid) then Some x else slot l cid.
Proof.
  unfold slot. case_decide as Hc.
  - subst. by rewrite lookup_app_r, Nat.sub_diag by lia.
  - destruct (decide (cid < length l)); [by rewrite lookup_app_l|].
    rewrite !lookup_ge_None_2; [done|lia|]. rewrite length_app. cbn. lia.
Qed.

Lemma slot_replicate_None {A} n cid : slot (replicate n (@None A)) cid = None.
Proof.
  unfold slot. destruct (_ !! _) as [o|] eqn:Ho; [|done]. by apply lookup_replicate in Ho as [-> _].
Qed.

Lemma ex_shape ub packet out released :
  length packet ≤ BUFFER_SIZE → srv_shape (ex_server ub packet out released).
Proof.
  intros Hp. split; [| | |reflexivity].
  - cbn. rewrite length_replicate. const_lia.
  - constructor; [by apply ex_buffer_length|]. apply Forall_replicate. apply ex_buffer_length. cbn. lia.
  - apply length_replicate.
Qed.

Lemma ex_inv ub packet out released r kbuf :
  length packet ≤ BUFFER_SIZE → Forall (λ id, id < BUFFERS_COUNT) released →
  length released < release_part → (∀ i, kbuf = Some i → i < BUFFERS_COUNT) →
  inv (ex_world ub packet out released r kbuf).
Proof.
  intros Hp Hr Hl Hk.
  assert (Hout : ∀ cid, is_Some (sv_get (ex_outs out) cid) ↔ RESERVED = cid).
  { intros cid. change (sv_get (ex_outs out) cid) with
      (slot (replicate RESERVED None ++ [Some (out, length out)]) cid).
    rewrite ex_slot, length_replicate, slot_replicate_None.
    case_decide; (split; [|intros]); [done|by eexists|by intros []|done]. }
  assert (Hfd : ∀ cid, is_Some (sv_get ex_fds cid) ↔ cid ≤ RESERVED).
  { intros cid. change (sv_get ex_fds cid) with
      (slot (replicate RESERVED (Some 0xFFFF%Z) ++ [Some 7%Z]) cid).
    rewrite ex_slot, length_replicate.
    case_decide; [subst; split; [done|by eexists]|].
    destruct (decide (cid < RESERVED)).
    - rewrite slot_replicate by done. split; [lia|by eexists].
    - rewrite slot_ge by (rewrite length_replicate; lia). split; [by intros []|lia]. }
  split; [|done]. split; cbn [srv ex_world]; try done.
  - by apply ex_shape.
  - intros cid <-%Hout. by apply Hfd.
  - intros cid Hc Hs%Hfd. apply Hout. lia.
  - by intros cid <-%Hout.
  - unfold next_id. change (sv_slots (client_fds (ex_server ub packet out released))) with
      (replicate RESERVED (Some 0xFFFF%Z) ++ [Some 7%Z]). rewrite length_app, length_replicate. lia.
  - intros cid Hc. apply Hfd. lia.
  - intros _. exact Hk.
Qed.

(** * Packets *)

Definition ex_rest : bytes :=
  byte_str "HTTP/1.1" ++ CRLF ++ byte_str "Host: tachyon.example" ++ CRLF ++ CRLF.
Definition ex_requests : list request :=
  [mkRequest (byte_str "GET") (byte_str "/plaintext") ex_rest;
   mkRequest (byte_str "POST") (byte_str "/plaintext") ex_rest;
   mkRequest (byte_str "GET") (byte_str "/json") ex_rest].

Definition request_b (r : request) : bool :=
  (bool_decide (rq_method r = byte_str "GET") || bool_decide (rq_method r = byte_str "POST")) &&
  bool_decide (x20 ∉ rq_path r) &&
  (length (rq_method r) + length (rq_path r) + 2 <=? 32) && (34 <=? length (request_wire r)) &&
  forallb (λ i, negb (match_at (request_wire r) i)) (seq 1 (length (request_wire r))).

Lemma request_b_sound r : request_b r = true → request_ok r.
Proof.
  unfold request_b. repeat rewrite andb_true_iff.
  intros [[[[Hm Hp%bool_decide_eq_true] Hl%Nat.leb_le] Hw%Nat.leb_le] Hs].
  split; [|done..|].
  - apply orb_true_iff in Hm as [?%bool_decide_eq_true|?%bool_decide_eq_true]; auto.
  - intros i Hi Hlen. apply negb_true_iff. rewrite forallb_forall in Hs. apply Hs.
    apply in_seq. lia.
Qed.

Lemma ex_requests_ok : Forall request_ok ex_requests.
Proof. repeat constructor; apply request_b_sound; vm_compute; reflexivity. Qed.

Definition ex_packet : bytes := stream ex_requests.

Lemma ex_packet_length : length ex_packet ≤ BUFFER_SIZE.
Proof. apply Nat.leb_le. vm_compute. reflexivity. Qed.

(** The client of id 100, and the completion that delivers the packet to it in
    buffer 0. *)
Definition ex_user (uniq : N) : UserData := mkUserData 100 0 uniq.
Definition ex_received : Cqe :=
  mkCqe (pack_user_data (ex_user INIT_REQUEST)) (Z.of_nat (length ex_packet)) 0.

(** * Captures *)

Definition ex_ip : bytes :=
  [x45; x00; x00; x2b] ++ replicate 5 x00 ++ [x06; x00; x00] ++ [x0a; x00; x00; x01] ++ [x0a; x00; x00; x09].
Definition ex_tcp : bytes := [x1f; x90; x00; x50] ++ replicate 8 x00 ++ [x50] ++ replicate 7 x00.
Definition ex_frame : frame := mkFrame (replicate 12 x00) ex_ip ex_tcp (byte_str "abc").

Lemma ex_frame_ok : frame_ok ex_frame.
Proof. split; first [reflexivity | apply Nat.leb_le; reflexivity]. Qed.

(** An Ethernet frame of 34 bytes from 10.0.0.1. *)
Definition ex_ethernet (ethertype : bytes) : bytes := replicate 12 x00 ++ ethertype ++ ex_ip.
(** A packet header: next offset, captured length 34, frame 32 bytes further. *)
Definition ex_header (next : byte) : bytes :=
  [next; x00; x00; x00] ++ replicate 8 x00 ++ [x22; x00; x00; x00] ++ replicate 8 x00 ++
  [x20; x00] ++ replicate 6 x00.
(** A block of two packets, the headers at 48 and 128. *)
Definition ex_block (ethertype : bytes) : bytes :=
  replicate 8 x00 ++ [x01; x00; x00; x00] ++ [x02; x00; x00; x00] ++ [x30; x00; x00; x00] ++
  replicate 28 x00 ++ ex_header x50 ++ ex_ethernet ethertype ++ replicate 14 x00 ++
  ex_header x00 ++ ex_ethernet [x08; x00].

Definition ex_server_ip : bytes := [x0a; x00; x00; x09].
Definition ex_interfaces : option (list ifaddr) :=
  Some [mkIfaddr (byte_str "lo") None; mkIfaddr (byte_str "eth0") (Some (AF_INET, ex_server_ip))].

Lemma ex_foreign base data next :
  (base, data, next) = (48, 80, 80) ∨ (base, data, next) = (128, 160, 0) →
  foreign_at (ex_block [x08; x00]) ex_server_ip base data 34 next.
Proof.
  intros [[= -> -> ->]|[= -> -> ->]]; (split; [split| | |]);
    first [reflexivity | apply Nat.leb_le; vm_compute; reflexivity
          | eexists; split; [vm_compute; reflexivity|]; (reflexivity || discriminate)
          | eexists _, _; split_and!; vm_compute; reflexivity].
Qed.

Lemma ex_chain : chain (ex_block [x08; x00]) ex_server_ip 48 [(80, 34); (160, 34)].
Proof.
  eapply chain_next; [apply ex_foreign; by left|done|]. apply chain_last, ex_foreign. by right.
Qed.
