(* ===== verification/Witnesses.v ===== *)
(** Every theorem with hypotheses, applied to a concrete input at which they
    hold. *)
From stdpp Require Import relations.
From S2P Require Import Prelude Config Avx Http Trim Shift Crates UserData Uring IoState.
From S2P Require Import Listener Handler Sockets Server Replies Buffers Sends Connections Ubdma.
From S2P Require Import Invariant EventLoop Api Worker Program Restart Pipeline Client Memory PacketSocket Packets Bpf.
From S2P Require Import Instances Examples Completions Steps Queued Typing Spec.

(** * The running server *)

Definition w_idle : World := ex_world false ex_packet [] [] (ex_ring []) None.
Definition w_busy : World := ex_world false ex_packet (byte_str "pending") []
  (ex_ring [mkCqe BUFFER_REGISTER_CODE 0 0]) None.
(** A packet of the client and a new connection are about to complete. *)
Definition w_loop : World :=
  ex_world false ex_packet (byte_str "pending") []
    (ex_ring [ex_received; mkCqe CODE_ACCEPT 9 0]) None.
Definition tick : Tick := mkTick 5 1 ex_date.

Lemma ex_inv_packet out released r kbuf :
  Forall (λ id, id < BUFFERS_COUNT) released → length released < release_part →
  (∀ i, kbuf = Some i → i < BUFFERS_COUNT) →
  inv (ex_world false ex_packet out released r kbuf).
Proof. intros. apply ex_inv; [apply ex_packet_length|done..]. Qed.

Lemma few_released : length (@nil nat) < release_part.
Proof. rewrite release_part_eq. cbn. lia. Qed.

Ltac ex_inv_tac := apply ex_inv_packet; [constructor|apply few_released|done].
Ltac by_eval := vm_compute; reflexivity.

Lemma ex_replyable out : 
  replyable_b (ex_world false ex_packet out [] (ex_ring []) None) (ex_user INIT_REQUEST)
    (Z.of_nat (length ex_packet)) 0 = true →
  replyable (ex_world false ex_packet out [] (ex_ring []) None) (ex_user INIT_REQUEST)
    (Z.of_nat (length ex_packet)) 0.
Proof. apply replyable_b_sound. Qed.

Lemma ex_result : (0 ≤ Z.of_nat (length ex_packet) ≤ Z.of_nat BUFFER_SIZE)%Z.
Proof. pose proof ex_packet_length. lia. Qed.

Lemma process_entry_preserves_inv_witness :
  runs (process_entry false ex_received) w_idle (inv_post w_idle).
Proof.
  apply process_entry_preserves_inv; [ex_inv_tac|apply permitted_b_sound; by_eval|].
  apply Nat.leb_le. by_eval.
Defined.

Lemma request_reply_correct_witness :
  ∃ buf s', buffers (srv w_idle) !! 0 = Some buf ∧
    replied (srv w_idle) 100 0 (requests MAX_REQUESTS (take (length ex_packet) buf))
      (buffers_after (srv w_idle) 0 buf (length ex_packet)) s'.
Proof.
  destruct (request_reply_correct false 0 (ex_user INIT_REQUEST) (Z.of_nat (length ex_packet)) w_idle)
    as (buf & s' & Hb & Hr & _).
  - apply ex_shape, ex_packet_length.
  - constructor.
  - apply ex_result.
  - apply ex_replyable. by_eval.
  - apply Nat.leb_le. by_eval.
  - rewrite Nat2Z.id in Hr. by exists buf, s'.
Defined.

Lemma w_loop_env : environment_ok false 10 w_loop [tick].
Proof. apply environment_b_sound. by_eval. Qed.

Lemma iterations_safe_witness : runs (iterations false 10 [tick]) w_loop (loop_post w_loop).
Proof. apply (iterations_safe false 10 w_loop [tick]); [ex_inv_tac|exact w_loop_env]. Defined.

(** ** From the start *)

(** A server about to start; once its accepts are queued, a client connects and
    sends 64 bytes. *)
Definition w_fresh : World :=
  mkWorld (new [] 1 0 0)
    (ex_ring [mkCqe CODE_ACCEPT 9 0; mkCqe (user_tag 100 INIT_REQUEST) 64 0]) None [].

(** A further packet of that client, and what makes it answerable. *)
Definition more : Cqe := mkCqe (user_tag 100 INIT_REQUEST) 64 0.
Definition more_user : UserData := mkUserData 100 0 INIT_REQUEST.
Definition ready_b (w : World) : bool :=
  (next_id (srv w) =? 101) && negb (ub_kernel_dma (config (srv w))) &&
  replyable_b w more_user 64 0 &&
  bool_decide (recv_multi 9 (user_tag 100 INIT_REQUEST) ∈ sq_entries (ring w)) &&
  (N.of_nat (sv_capacity (client_out_buffers (srv w))) <=? 2 ^ 32)%N &&
  (sq_len (ring w) + release_part <=? sq_capacity (ring w)).

Lemma ready_ids w : ready_b w = true → next_id (srv w) = 101.
Proof. unfold ready_b. repeat rewrite andb_true_iff. intros Hr. apply Nat.eqb_eq, Hr. Qed.

Definition first_iteration_b (w : World) : bool :=
  environment_b false 10 w [tick] && returns_b (iterations false 10 [tick] w) ready_b.

Lemma first_iteration : ∃ w w', started 4 w ∧ environment_ok false 10 w [tick] ∧
  iterations false 10 [tick] w = Ret (IoOk tt, w') ∧ ready_b w' = true.
Proof.
  destruct (returns_b_sound (sq_poll_setup 4 w_fresh) first_iteration_b) as (w & Hw & Hb); [by_eval|].
  apply andb_true_iff in Hb as [He (w' & Hw' & Hr)%returns_b_sound].
  exists w, w'. split; [|exact (conj (environment_b_sound _ _ _ _ He) (conj Hw' Hr))].
  exists w_fresh. split; [apply new_fresh|]. split; [apply pointer_ok_None|]. split; [reflexivity|].
  split; [apply Nat.leb_le; by_eval|exact Hw].
Qed.

Lemma iterations_are_steps_witness :
  ∃ w w', started 4 w ∧ next_id (srv w') = 101 ∧ rtc (step false) w w'.
Proof.
  destruct first_iteration as (w & w' & Hs & He & Hw & Hr). exists w, w'.
  split; [exact Hs|]. split; [by apply ready_ids|].
  exact (iterations_are_steps false 10 [tick] w w' He Hw).
Defined.

Lemma first_steps : ∃ w w', started 4 w ∧ rtc (step false) w w' ∧ ready_b w' = true.
Proof.
  destruct first_iteration as (w & w' & Hs & He & Hw & Hr). exists w, w'.
  split; [exact Hs|]. split; [exact (iterations_steps _ _ _ _ _ He Hw)|exact Hr].
Qed.

Lemma reachable_good_witness : ∃ w', next_id (srv w') = 101 ∧ good w'.
Proof.
  destruct first_steps as (w & w' & Hs & Hst & Hr). exists w'.
  split; [by apply ready_ids|exact (reachable_good false 4 w w' Hs Hst)].
Defined.

Lemma completions_handled_witness :
  ∃ w', next_id (srv w') = 101 ∧ runs (process_entry false more) w' (inv_post w').
Proof.
  destruct first_steps as (w & w' & Hs & Hst & Hr). exists w'.
  unfold ready_b in Hr. repeat rewrite andb_true_iff in Hr.
  destruct Hr as [[[[[Hn%Nat.eqb_eq Hub%negb_true_iff] Hrep] Hin%bool_decide_eq_true]
    Hcap%N.leb_le] Hroom%Nat.leb_le].
  split; [exact Hn|].
  apply (completions_handled false 4 w w' w' (recv_multi 9 (user_tag 100 INIT_REQUEST)) more);
    [exact Hs|exact Hst|reflexivity|exact Hin|reflexivity|exact Hcap| |exact Hroom].
  split.
  - discriminate.
  - assert (Hu : unpack_user_data false (cqe_user_data more) = Ret more_user) by reflexivity.
    rewrite Hu. intros u [= <-] _ _. by apply replyable_b_sound.
  - rewrite Hub. assert (Hu : unpack_user_data false (cqe_user_data more) = Ret more_user) by reflexivity.
    rewrite Hu. intros u [= <-] He. discriminate He.
Defined.

Lemma queue_well_typed_witness :
  ∃ w', recv_multi 9 (user_tag 100 INIT_REQUEST) ∈ sq_entries (ring w') ∧
    op_in_bounds (kmem_of (srv w')) (RecvMulti 9 BUF_GROUP).
Proof.
  destruct first_steps as (w & w' & Hs & Hst & Hr). exists w'.
  unfold ready_b in Hr. repeat rewrite andb_true_iff in Hr.
  destruct Hr as [[[_ Hin%bool_decide_eq_true] Hcap%N.leb_le] _].
  split; [exact Hin|].
  exact (proj2 (queue_well_typed false 4 w w' (recv_multi 9 (user_tag 100 INIT_REQUEST))
    Hs Hst Hin Hcap)).
Defined.

(** The first iteration of [w_busy] sends what the client is owed. *)
Lemma move_performs_witness :
  ∃ w', step_by false (Head tick) w_busy w' ∧
    perform_all [Transmit 100 7 (byte_str "pending")] (view w_busy) = Some (view w').
Proof.
  destruct (returns_b_sound (loop_head false tick w_busy) (λ _, true)) as (w' & Hw & _); [by_eval|].
  assert (Hst : step_by false (Head tick) w_busy w').
  { apply step_head; [reflexivity|intros _; apply Nat.leb_le; by_eval|apply Nat.leb_le; by_eval|exact Hw]. }
  exists w'. split; [exact Hst|].
  exact (proj1 (move_performs false (Head tick) w_busy w' ltac:(ex_inv_tac) Hst)).
Defined.

Lemma worker_refines_witness :
  ∃ w tr w', started 4 w ∧ traced false w tr w' ∧ next_id (srv w') = 101 ∧
    perform_all tr (mkConnections RESERVED ∅) = Some (view w').
Proof.
  destruct first_steps as (w & w' & Hs & Hst & Hr).
  destruct (steps_traced false w w' Hst) as (tr & Ht). exists w, tr, w'.
  split; [exact Hs|]. split; [exact Ht|]. split; [by apply ready_ids|].
  exact (worker_refines false 4 w tr w' Hs Ht).
Defined.

(** A run in which a client connects, sends three requests and is answered with
    one send, queued by the second iteration. *)
Definition w_served : World :=
  mkWorld (new [] 1 0 0)
    (packet_ring ex_packet
       [mkCqe CODE_ACCEPT 9 0; mkCqe (user_tag 100 INIT_REQUEST) (Z.of_nat (length ex_packet)) 0])
    None [].
Definition served_answers : bytes := responses ex_date (entry_of <$> ex_requests).
Definition served_b (w : World) : bool :=
  environment_b false 10 w [tick; tick] && bool_decide (sends_pushed w = []) &&
  returns_b (iterations false 10 [tick; tick] w) (λ w',
    (next_id (srv w') =? 101) &&
    bool_decide (sends_pushed w' = [send_entry 100 9 (length served_answers)])).

Lemma served_run : ∃ w tr w', started 4 w ∧ traced false w tr w' ∧ next_id (srv w') = 101 ∧
  sends_pushed w = [] ∧ sends_pushed w' = [send_entry 100 9 (length served_answers)].
Proof.
  destruct (returns_b_sound (sq_poll_setup 4 w_served) served_b) as (w & Hw & Hb); [by_eval|].
  unfold served_b in Hb. apply andb_true_iff in Hb as [[He Hn%bool_decide_eq_true]%andb_true_iff
    (w' & Hw' & Hr)%returns_b_sound].
  apply andb_true_iff in Hr as [Hid%Nat.eqb_eq Hs%bool_decide_eq_true].
  destruct (steps_traced false w w' (iterations_steps _ _ _ _ _ (environment_b_sound _ _ _ _ He) Hw'))
    as (tr & Ht).
  exists w, tr, w'. split; [|split; [exact Ht|split; [exact Hid|split; [exact Hn|exact Hs]]]].
  exists w_served. split; [apply new_fresh|]. split; [apply pointer_ok_None|]. split; [reflexivity|].
  split; [apply Nat.leb_le; by_eval|exact Hw].
Qed.

Lemma one_transmit tr cid fd n :
  omap request_of tr = [send_entry cid fd n] → ∃ data, Transmit cid fd data ∈ tr.
Proof.
  intros Htr. assert (Hin : send_entry cid fd n ∈ omap request_of tr) by (rewrite Htr; by left).
  apply list_elem_of_omap in Hin as (a & Ha & He). destruct a as [| |cid' fd' data|]; try discriminate.
  injection He as Hfd Hcid _ _. exists data. by rewrite <- Hfd, <- Hcid.
Qed.

Lemma answers_in_order_witness :
  ∃ w tr w', started 4 w ∧ traced false w tr w' ∧
    sends_pushed w' = [send_entry 100 9 (length served_answers)] ∧
    omap request_of tr = [send_entry 100 9 (length served_answers)] ∧
    (∃ data, Transmit 100 9 data ∈ tr) ∧ Connect 100 9 ∈ tr.
Proof.
  destruct served_run as (w & tr & w' & Hs & Ht & _ & Hn & Hq).
  destruct (answers_in_order false 4 w tr w' 100 Hs Ht) as (Hp & _ & Hc & _).
  rewrite Hn, Hq in Hp. cbn [app] in Hp. symmetry in Hp.
  destruct (one_transmit tr 100 9 _ Hp) as (data & Hd).
  exists w, tr, w'. split; [exact Hs|]. split; [exact Ht|]. split; [exact Hq|]. split; [exact Hp|].
  split; [by exists data|exact (Hc 9%Z data Hd)].
Defined.

Lemma ids_never_reused_witness :
  ∃ w tr w', started 4 w ∧ traced false w tr w' ∧ connects tr = [100] ∧
    101 ≤ sv_capacity (client_out_buffers (srv w)) ∧
    if 101 =? sv_capacity (client_out_buffers (srv w))
    then process_entry false (mkCqe CODE_ACCEPT 12 0) w' = Panic
    else ∃ w'', process_entry false (mkCqe CODE_ACCEPT 12 0) w' = Ret (IoOk tt, w'').
Proof.
  destruct served_run as (w & tr & w' & Hs & Ht & Hid & _).
  destruct (perform_all_given _ _ _ (run_performed false 4 w tr w' Hs Ht)) as [Hc _].
  cbn [given view] in Hc. rewrite Hid in Hc. change (connects tr = [100]) in Hc.
  destruct (ids_never_reused false 4 w tr w' 12 0 Hs Ht eq_refl) as (_ & Hle & Hacc).
  rewrite Hc in Hle, Hacc. exists w, tr, w'. by split_and!.
Defined.

(** The completions of [w_loop], seen. *)
Definition w_drain : World :=
  ex_world false ex_packet [] [] (cq_sync (ex_ring [ex_received; mkCqe CODE_ACCEPT 9 0])) None.

Lemma drain_terminates_witness :
  runs (drain false 3) w_drain (λ r w', loop_post w_drain r w' ∧
    match r with IoOk _ => cq_len (ring w') = 0 | IoErr _ => True end).
Proof.
  apply drain_terminates; [ex_inv_tac|apply (deliverable_b_sound false 3); by_eval|].
  cbn. lia.
Defined.

Lemma loop_head_flushes_witness :
  runs (loop_head false tick) w_busy (λ _ w', inv w' ∧ (cq_len (ring w_busy) = 0 → flushed_to w_busy w')).
Proof.
  apply loop_head_flushes; [ex_inv_tac|reflexivity|intros _; apply Nat.leb_le; by_eval|cbn; lia].
Defined.

Lemma update_metrics_correct_witness :
  update_metrics false tick w_idle = Ret (IoOk tt, upd_srv (λ s,
    let c := set_time tick (clocks s) in
    if (t_clock tick =? synced (clocks s))%Z then set_clocks c s
    else set_date (t_date tick) (set_clocks (roll_metrics c) s)) w_idle).
Proof. apply update_metrics_correct. ex_inv_tac. Defined.



Lemma release_buffers_full_diverges_witness :
  let w := ex_world false ex_packet [] [3; 5] full_ring None in
  release_buffers_within 1 w = Diverge ∧ release_buffers_within 1000 w = Diverge.
Proof.
  assert (Hids : Forall (λ id, id < BUFFERS_COUNT) [3; 5]) by (repeat constructor; const_lia).
  assert (Hfull : sq_capacity full_ring < sq_len full_ring + 2) by (cbn; lia).
  split; apply (release_buffers_full_diverges (ex_world false ex_packet [] [3; 5] full_ring None))
    with (n := 0); first [exact Hids | exact Hfull | reflexivity | discriminate
      | apply ex_shape, ex_packet_length].
Defined.

Lemma wideband_send_correct_witness :
  ∃ w', wideband_send w_busy = Ret (IoOk tt, w') ∧ sent (srv w_busy) (srv w').
Proof.
  destruct (wideband_send_correct w_busy) as (w' & Heq & Hs & _); [apply Nat.leb_le; by_eval|].
  by exists w'.
Defined.

Lemma wideband_send_full_panics_witness :
  wideband_send (ex_world false ex_packet (byte_str "pending") [] full_ring None) = Panic.
Proof. apply wideband_send_full_panics; [by vm_compute|apply Nat.ltb_lt; by_eval]. Defined.

Lemma queued_send_overwritten_witness :
  ∃ w1 w2, wideband_send w_busy = Ret (IoOk tt, w1) ∧
    request_reply false 0 (ex_user INIT_REQUEST) (Z.of_nat (length ex_packet)) w1 = Ret (IoOk tt, w2) ∧
    send_entry 100 7 7 ∈ sq_entries (ring w2).
Proof.
  destruct (wideband_send_spec w_busy) as (w1 & Hw1 & _); [apply Nat.leb_le; by_eval|].
  assert (Hrep : replyable_b w1 (ex_user INIT_REQUEST) (Z.of_nat (length ex_packet)) 0 = true)
    by (apply (result_b_sound (wideband_send w_busy)
          (λ w, replyable_b w (ex_user INIT_REQUEST) (Z.of_nat (length ex_packet)) 0));
        [by_eval|exact Hw1]).
  pose (returns := λ w, match request_reply false 0 (ex_user INIT_REQUEST)
    (Z.of_nat (length ex_packet)) w with Ret (IoOk _, _) => true | _ => false end).
  assert (Hret : returns w1 = true)
    by (apply (result_b_sound (wideband_send w_busy) returns); [by_eval|exact Hw1]).
  unfold returns in Hret.
  destruct (request_reply false 0 (ex_user INIT_REQUEST) (Z.of_nat (length ex_packet)) w1)
    as [[[[]|e] w2]| | |] eqn:Hw2; try discriminate Hret.
  - exists w1, w2. split; [exact Hw1|]. split; [exact Hw2|].
    destruct (queued_send_overwritten false w_busy w1 w2 (ex_user INIT_REQUEST)
      (Z.of_nat (length ex_packet)) 0 7 (byte_str "pending", 7)) as [Hin _].
    + ex_inv_tac.
    + apply Nat.leb_le. by_eval.
    + by_eval.
    + by_eval.
    + discriminate.
    + exact Hw1.
    + apply ex_result.
    + apply replyable_b_sound. exact Hrep.
    + cbn [released_buffers w_busy ex_world srv ex_server length]. rewrite release_part_eq. lia.
    + exact Hw2.
    + exact Hin.
Defined.

(** The same within one iteration of the loop: a client is owed "pending" when
    its next packet completes, and nothing is submitted in between. *)
Definition overwritten_b (w : World) : bool :=
  bool_decide (send_entry 100 7 7 ∈ sq_entries (ring w)) &&
  match km_out (kmem_of (srv w)) 100 with
  | Some mem => bool_decide (take 7 mem = byte_str "HTTP/1.")
  | None => false
  end.

Example iteration_overwrites :
  ∃ w, (loop_head false tick;; drain false 10)
      (ex_world false ex_packet (byte_str "pending") [] (ex_ring [ex_received]) None) =
    Ret (IoOk tt, w) ∧ overwritten_b w = true.
Proof. apply returns_b_sound. by_eval. Qed.

Lemma process_entry_accept_correct_witness :
  ∃ s' r' k, process_entry_accept 9 w_idle =
      Ret (IoOk tt, mkWorld s' r' None (reverse (prepare_incoming_socket 9) ++ [])) ∧
    accepted (srv w_idle) 9 s' ∧ (false = false → k = 0).
Proof.
  destruct (process_entry_accept_correct 9 w_idle) as (s' & r' & k & Heq & Ha & _ & _ & Hk & _).
  - done.
  - apply Nat.ltb_lt. by_eval.
  - apply Nat.leb_le. by_eval.
  - exists s', r', k. split; [exact Heq|]. by split.
Defined.

Lemma process_entry_accept_full_witness :
  ∃ s', process_entry_accept 9 (ex_world false ex_packet [] [] full_ring None) =
    Ret (IoOk tt, mkWorld s' full_ring None (reverse (prepare_incoming_socket 9) ++ [])).
Proof.
  destruct (process_entry_accept_full 9 (ex_world false ex_packet [] [] full_ring None))
    as (s' & Heq & _); [done|apply Nat.ltb_lt; by_eval|reflexivity|apply Nat.leb_le; by_eval|].
  by exists s'.
Defined.

Lemma close_connection_forced_witness :
  ∃ s', close_connection 100 true w_idle = Ret (IoOk tt, mkWorld s' (ex_ring []) None [Close 7]) ∧
    closed (srv w_idle) 100 s'.
Proof. apply (close_connection_forced 100 w_idle). Defined.

Lemma close_connection_twice_witness :
  ∃ s', (close_connection 100 true;; close_connection 100 true) w_idle =
    Ret (IoOk tt, mkWorld s' (ex_ring []) None [Close 255; Close 7]).
Proof. apply (close_connection_twice 100 w_idle 7); [reflexivity|discriminate]. Defined.

Lemma process_entry_routes_client_witness :
  process_entry true (mkCqe (pack_user_data (ex_user INIT_REQUEST)) (-104) 0) w_idle =
  close_connection 100 true w_idle.
Proof.
  rewrite (process_entry_routes_client true (ex_user INIT_REQUEST) (-104) 0 w_idle);
    [reflexivity|by split_and!|done|done].
Defined.

(** * Requests and answers *)

Lemma parse_http_methods_paths_correct_witness :
  parse_http_methods_paths true 50 ex_packet =
    Ret (padded ([], []) 50 (requests 50 ex_packet), length (requests 50 ex_packet)).
Proof. apply parse_http_methods_paths_correct. apply no_boundary_b_sound. by_eval. Defined.

(** A request line whose first space is its 32nd byte. *)
Definition boundary_packet : bytes := byte_str "GETAAAAAAAAAAAAAAAAAAAAAAAAAAAA  AAAA".

(** The same line with a path in the 31 bytes behind its window. *)
Definition boundary_line : bytes := boundary_packet ++ byte_str "BBBBBBBBBBBBBBBBBBBBBBBBBBBBBBBBBBBB".

Lemma parse_http_methods_paths_boundary_witness :
  parse_http_methods_paths true 50 boundary_packet = Panic ∧
  parse_http_methods_paths false 50 boundary_packet = UB ∧
  parse_http_methods_paths false 50 boundary_line =
    Ret (padded ([], []) 50 [(take 31 boundary_line, take 31 (drop 32 boundary_line))], 1).
Proof.
  assert (Hb : ¬ no_boundary 50 boundary_packet) by (apply no_boundary_b_complete; by_eval).
  assert (Hl : ¬ no_boundary 50 boundary_line) by (apply no_boundary_b_complete; by_eval).
  split; [exact (parse_http_methods_paths_boundary true 50 boundary_packet Hb)|].
  rewrite (parse_http_methods_paths_boundary false 50 boundary_packet Hb).
  rewrite (parse_http_methods_paths_boundary false 50 boundary_line Hl). split; by_eval.
Defined.

Lemma parse_one_manual_correct_witness :
  parse_one_manual true ex_packet 0 = Ret (Some ((0, 3), (4, 10), 0)).
Proof.
  rewrite (parse_one_manual_correct true ex_packet 0); [reflexivity|apply Nat.leb_le; by_eval|].
  vm_compute. discriminate.
Defined.

Lemma parse_one_manual_boundary_witness : parse_one_manual true boundary_packet 0 = Panic.
Proof. apply (parse_one_manual_boundary true boundary_packet 0); [cbn; lia|reflexivity]. Defined.

Lemma parse_pipeline_witness :
  parse_http_methods_paths false 50 ex_packet =
    Ret (padded ([], []) 50 (entry_of <$> ex_requests), 3).
Proof. apply (parse_pipeline false 50 ex_requests). exact ex_requests_ok. Defined.

Lemma parse_short_packet_witness :
  parse_http_methods_paths false 50 (byte_str "GET /json HTTP/1.1" ++ CRLF ++ byte_str "Host: a" ++ CRLF ++ CRLF) =
    Ret (padded ([], []) 50 [], 0).
Proof. apply parse_short_packet. cbn. lia. Defined.

Lemma handler_correct_witness :
  ∃ json lake, handler (byte_str "GET") (byte_str "/json") ex_date (replicate 224 x00) (json_default 100) (lake_build 512) =
    Ret (224, response JsonHello ex_date, json, lake).
Proof.
  destruct (handler_correct (byte_str "GET") (byte_str "/json") ex_date (replicate 224 x00) (json_default 100) (lake_build 512))
    as (json & lake & Heq); [reflexivity|apply Nat.leb_le; by_eval|].
  exists json, lake. rewrite Heq. by_eval.
Defined.

Lemma ex_date_line : date_line ex_date.
Proof. split; [reflexivity|]. split; [apply no_cr; by_eval|discriminate]. Qed.

Lemma answers_readable_witness :
  ∃ w' lake', request_reply false 0 (ex_user INIT_REQUEST) (Z.of_nat (length (stream ex_requests))) w_idle
      = Ret (IoOk tt, w') ∧
    sv_get (client_out_buffers (srv w')) 100 = Some lake' ∧
    read_responses 4 (lake_data lake') =
      Some [(response_lines Plaintext ex_date, answer_body Plaintext);
            (response_lines NotFound ex_date, answer_body NotFound);
            (response_lines JsonHello ex_date, answer_body JsonHello)].
Proof.
  apply (answers_readable false (ex_user INIT_REQUEST) 0 ex_requests
    (replicate (BUFFER_SIZE - length ex_packet) x00) w_idle ([], 0)).
  - ex_inv_tac.
  - exact ex_requests_ok.
  - apply Nat.leb_le. by_eval.
  - reflexivity.
  - reflexivity.
  - reflexivity.
  - rewrite release_part_eq. cbn. lia.
  - exact ex_date_line.
Defined.

Lemma pipeline_answered_witness :
  ∃ w' lake', request_reply false 0 (ex_user INIT_REQUEST) (Z.of_nat (length (stream ex_requests))) w_idle
      = Ret (IoOk tt, w') ∧
    sv_get (client_out_buffers (srv w')) 100 = Some lake' ∧
    lake_data lake' = responses ex_date (entry_of <$> ex_requests).
Proof.
  apply (pipeline_answered false (ex_user INIT_REQUEST) 0 ex_requests
    (replicate (BUFFER_SIZE - length ex_packet) x00) w_idle ([], 0)).
  - ex_inv_tac.
  - exact ex_requests_ok.
  - apply Nat.leb_le. by_eval.
  - reflexivity.
  - reflexivity.
  - reflexivity.
  - rewrite release_part_eq. cbn. lia.
Defined.

(** Six copies of a request, which the UBDMA path answers. *)
Definition ub_packet : bytes :=
  stream (replicate 6 (mkRequest (byte_str "GET") (byte_str "/json") ex_rest)).
Definition w_ub : World := ex_world true ub_packet [] [] (ex_ring []) (Some 0).

Lemma ubdma_correct_witness :
  ∃ s', ubdma false (ex_user POLL_EVENT) w_ub = Ret (IoOk tt, upd_srv (λ _, s') w_ub) ∧
    ubdma_replied (srv w_ub) 100 (ubdma_requests (ex_buffer ub_packet)) s'.
Proof.
  destruct (ubdma_correct false (ex_user POLL_EVENT) w_ub 0 (ex_buffer ub_packet)) as (s' & Heq & Hs).
  - apply ex_shape. apply Nat.leb_le. by_eval.
  - reflexivity.
  - reflexivity.
  - apply no_boundary_b_sound. by_eval.
  - assert (Ha : ubdma_answers (srv w_ub) 100 (ex_buffer ub_packet) = true) by by_eval.
    change (N.to_nat (client_id (ex_user POLL_EVENT))) with 100 in Hs. rewrite Ha in Hs.
    exists s'. split; [exact Heq|exact Hs].
Defined.

(** * Tags, buffers, packets *)

Lemma unpack_pack_witness :
  unpack_user_data true (pack_user_data (mkUserData 100 7 0xCCA)) = Ret (mkUserData 100 7 0xCCA).
Proof. apply unpack_pack; [by split_and!|done|done]. Defined.

Lemma unpack_pack_client_0_witness :
  unpack_user_data true (pack_user_data (mkUserData 0 7 0xCCA)) = Ret (mkUserData 0 0 0).
Proof. apply unpack_pack_client_0; [by split_and!|done|done]. Defined.

Lemma shift_then_trim_witness :
  (shift_ub_inplace (ex_buffer ex_packet) (length ex_packet) ≫= l_trim256) =
    Ret (take (length ex_packet) (ex_buffer ex_packet)).
Proof.
  apply (shift_then_trim _ _ "G"%byte); [|reflexivity|discriminate].
  rewrite ex_buffer_length; apply ex_packet_length.
Defined.

Lemma shift_ub_correct_witness :
  shift_ub true ex_packet 40 = Ret (shifted BUFFER_SIZE ex_packet 40).
Proof. apply shift_ub_correct; [const_lia|apply Nat.leb_le; by_eval]. Defined.

Lemma shift_safe_correct_witness :
  shift_safe (byte_str "abcdef") 2 = Ret (safe_result (byte_str "abcdef") 2).
Proof. apply shift_safe_correct; cbn; lia. Defined.

Lemma fast_flatten_iovec_correct_witness :
  fast_flatten_iovec [mkIovec (byte_str "ab") 2; mkIovec (byte_str "cde") 2] (byte_str "wxyz!") =
    Ret (byte_str "abcd!", 4).
Proof.
  apply (fast_flatten_iovec_correct [mkIovec (byte_str "ab") 2; mkIovec (byte_str "cde") 2]
    (byte_str "wxyz!")); [repeat constructor; unfold iov_ok; cbn; lia|cbn; lia].
Defined.

Lemma flatten_iovec_correct_witness :
  flatten_iovec (λ n, replicate n x2a) [mkIovec (byte_str "ab") 2; mkIovec (byte_str "cde") 2] (byte_str ">") =
    Ret (byte_str ">abcd").
Proof.
  apply (flatten_iovec_correct (λ n, replicate n x2a)
    [mkIovec (byte_str "ab") 2; mkIovec (byte_str "cde") 2] (byte_str ">"));
    [intros; apply length_replicate|repeat constructor; unfold iov_ok; cbn; lia].
Defined.

Lemma avx2_zero_correct_witness :
  avx2_zero (replicate 80 x2a) 3 40 = Ret (zeroed (replicate 80 x2a) 3 40).
Proof. apply avx2_zero_correct. rewrite length_replicate. lia. Defined.

Lemma get_kernel_owned_buffer_misses_witness :
  get_kernel_owned_buffer 1 (mjoin [replicate BUFFER_SIZE x61; replicate BUFFER_SIZE x62])
    (replicate BUFFER_SIZE x00) =
  Ret (drop KERNEL_BUFFER (replicate BUFFER_SIZE x61) ++
       take (2 * KERNEL_BUFFER - BUFFER_SIZE) (replicate BUFFER_SIZE x62) ++
       drop KERNEL_BUFFER (replicate BUFFER_SIZE x00)).
Proof.
  apply (get_kernel_owned_buffer_misses _ _ []); rewrite ?length_replicate; [done|done|].
  pose proof KERNEL_BUFFER_Z. const_lia.
Defined.

Lemma parse_ipv4_tcp_packets_roundtrip_witness :
  parse_ipv4_tcp_packets (mjoin (wire <$> [ex_frame; ex_frame])) =
    Ret [packet_of ex_frame; packet_of ex_frame].
Proof.
  apply (parse_ipv4_tcp_packets_roundtrip [ex_frame; ex_frame]).
  repeat constructor; exact ex_frame_ok.
Defined.

Lemma htons_swaps_witness : htons 3 = 768%N ∧ htons (htons 3) = 3%N.
Proof. apply (htons_swaps 3). done. Defined.

Lemma read_packets_chain_witness :
  read_packets ex_interfaces (ex_block [x08; x00]) =
    Ret (Some (80, 194), returned_block (ex_block [x08; x00])).
Proof.
  apply (read_packets_chain ex_interfaces (ex_block [x08; x00]) ex_server_ip 1 2 48) with
    (pkts := [(160, 34)]) (len := 34); try (vm_compute; reflexivity).
  - discriminate.
  - exact ex_chain.
Defined.

Lemma read_packets_stuck_witness :
  read_packets ex_interfaces (ex_block [x08; x06]) =
    Ret (None, returned_block (ex_block [x08; x06])).
Proof.
  apply (read_packets_stuck ex_interfaces (ex_block [x08; x06]) ex_server_ip 1 2 48) with
    (data := 80) (len := 34) (ethertype := 0x0806); try (vm_compute; reflexivity).
  - discriminate.
  - split; [apply Nat.leb_le; by_eval|by exists 32; split; [by_eval|]|by_eval|].
    eexists _, _. split_and!; by_eval.
  - discriminate.
Defined.

(** * The program *)

(** The port is taken: [bind] fails with EADDRINUSE. *)
Definition port_taken : Socket2 := {|
  socket_answer _ c := match c with BindTo _ _ => IoErr 98%Z | _ => IoOk 4%Z end;
|}.

Lemma build_listener_correct_witness :
  ∃ e calls, @build_listener port_taken (byte_str "0.0.0.0:8080") [] =
    Ret (IoErr e, calls ++ [CloseSocket 4]).
Proof.
  destruct (@build_listener_correct port_taken (byte_str "0.0.0.0:8080") (V4 [0; 0; 0; 0] 8080)%N []
    eq_refl) as (r & calls & Heq & Hr).
  cbn [port_taken socket_answer] in Hr.
  destruct Hr as [(-> & -> & _)|(k & c & e & -> & -> & _)]; [discriminate Heq|].
  eexists e, _. rewrite Heq, !app_assoc. reflexivity.
Defined.

Lemma main_starts_workers_witness :
  main [byte_str "tachyon"] 2 0 0 (λ _, Some 2) (λ _, IoOk tt) = Ret [(0, 2); (1, 2)].
Proof.
  apply (main_starts_workers [byte_str "tachyon"] 2 0 0 (λ _, Some 2) (λ _, IoOk tt)).
  - apply Nat.ltb_lt. reflexivity.
  - intros i _. split; [by eexists|reflexivity].
Defined.

(** A first life without a ring, and a second one in which a client connects and
    sends a packet. *)
Definition p_server (args : list bytes) : Server := main_server args 1 0 0.
Lemma p_fresh args : fresh (p_server args).
Proof. exact (proj1 (main_server_spec args 1 0 0)). Qed.
Definition p_ring : Ring :=
  ex_ring [mkCqe CODE_ACCEPT 9 0; mkCqe (user_tag 100 INIT_REQUEST) 64 0].
Definition no_ring : Life := mkLife (λ _ _, IoErr 12%Z) [].
Definition one_client (ts : list Tick) : Life := mkLife (λ _ _, IoOk p_ring) ts.

Lemma all_accepted_willing log calls : all_accepted log calls.
Proof. intros k c Hk. unfold accepts. cbn. destruct c; by eexists. Qed.

Definition p_log : Log := NewSocket IPV4 STREAM (Some TCP) :: listener_plan 4 (V4 [0; 0; 0; 0] 8080)%N.
Definition p_second : Thread := mkThread None [] (p_log ++ [CloseSocket 4]).

Lemma p_first : worker_life false 10 (p_server []) 0 no_ring (mkThread None [] []) =
  Ret (Failed 12 p_second).
Proof. vm_compute. reflexivity. Qed.

Lemma p_first_clone :
  worker_life false 10 (clone (p_server [])) 0 no_ring (mkThread None [] []) = Ret (Failed 12 p_second).
Proof. vm_compute. reflexivity. Qed.

Lemma life_listens_witness :
  th_sockets p_second = [NewSocket IPV4 STREAM (Some TCP)] ++
    listener_plan 4 (V4 [0; 0; 0; 0] 8080)%N ++ [CloseSocket 4].
Proof.
  destruct (life_listens false 10 [] 1 0 0 0 no_ring (mkThread None [] [])) as [Hl _].
  apply (Hl (all_accepted_willing _ _) 12%Z). exact p_first.
Defined.

Lemma p_lives : lives_ok false 10 (clone (p_server [])) 0 [no_ring; one_client [tick]] (mkThread None [] []).
Proof.
  split; [exists 4%Z, p_log; split; [vm_compute; reflexivity|discriminate]|].
  intros e t'. rewrite p_first_clone. intros [= _ <-]. split; [|done].
  exists 4%Z, (p_log ++ CloseSocket 4 :: p_log). split; [vm_compute; reflexivity|].
  intros c r [= <-]. split; [reflexivity|]. split; [apply Nat.leb_le; by_eval|].
  intros w Hw. apply environment_b_sound.
  apply (result_b_sound (sq_poll_setup 4 (mkWorld (clone (clone (p_server []))) p_ring None []))
    (λ w, environment_b false 10 w [tick])); [by_eval|exact Hw].
Qed.

Lemma worker_safe_witness :
  ∃ st, worker_thread false 10 (p_server []) 1 0 [no_ring; one_client [tick]] = Ret st ∧
    match st with inl _ => True | inr w => inv w end.
Proof.
  apply (worker_safe false 10 (p_server []) 1 0 [no_ring; one_client [tick]]).
  - apply p_fresh.
  - apply Nat.leb_le. by_eval.
  - apply Nat.ltb_lt. reflexivity.
  - discriminate.
  - exact p_lives.
Defined.

(** In UBDMA mode, a life that receives a packet and then fails; in the next one
    a client connects, and its poll is queued. *)
Definition ub_server : Server := p_server [byte_str "--ubdma"].
Definition accept_9 : Cqe := mkCqe CODE_ACCEPT 9 0.
Definition next_ring : Ring := ex_ring [accept_9].
Definition poll_9 : Entry := poll_add 9 (user_tag 100 POLL_EVENT).

(** The first half of an iteration, and an accept. *)
Definition accepted_b (w : World) : bool :=
  match cq_next (ring w) with
  | Some (c, r) =>
      bool_decide (c = accept_9) && permitted_b (with_ring r w) c &&
      (sq_len r + release_part <=? sq_capacity r) &&
      returns_b (process_entry false c (with_ring r w))
        (λ w', bool_decide (poll_9 ∈ sq_entries (ring w')))
  | None => false
  end.
Definition connected_b (w : World) : bool :=
  (sq_len (ring w) + length (pending_sends (srv w)) <=? sq_capacity (ring w)) &&
  (4 <=? sq_capacity (ring w)) && returns_b (loop_head false tick w) accepted_b.

Lemma connected_run w : connected_b w = true →
  ∃ w', rtc (quiet_step false) w w' ∧ poll_9 ∈ sq_entries (ring w').
Proof.
  unfold connected_b. repeat rewrite andb_true_iff.
  intros [[Hf%Nat.leb_le Hc%Nat.leb_le] (w1 & H1' & Ha)%returns_b_sound].
  unfold accepted_b in Ha. destruct (cq_next (ring w1)) as [[c r]|] eqn:Hn; [|discriminate Ha].
  repeat rewrite andb_true_iff in Ha.
  destruct Ha as [[[->%bool_decide_eq_true Hp] Hr%Nat.leb_le] (w2 & H2' & Hin)%returns_b_sound].
  apply bool_decide_eq_true in Hin. exists (counted w2). split; [|exact Hin].
  eapply rtc_l; [|apply rtc_once].
  - exists (Head tick). split; [|by intros c u Hm].
    apply step_head; [reflexivity|by intros _|exact Hc|exact H1'].
  - exists (Completion accept_9). split; [|by intros c u [= <-]].
    apply (step_completion false accept_9 r w1 w2 Hn); [by apply permitted_b_sound|exact Hr|exact H2'].
Qed.

Definition restarts_b (m : outcome ending) : bool :=
  match m with
  | Ret (Failed _ t) =>
      match th_kernel_buf t with
      | Some _ =>
          returns_b (sq_poll_setup 4
            (mkWorld (clone ub_server) next_ring (th_kernel_buf t) (th_syscalls t))) connected_b
      | None => false
      end
  | _ => false
  end.

Lemma restart_poll_undefined_witness :
  ∃ e t w w', worker_life false 10 ub_server 0 (one_client [tick; tick]) (mkThread None [] []) =
      Ret (Failed e t) ∧
    sq_poll_setup 4 (mkWorld (clone ub_server) next_ring (th_kernel_buf t) (th_syscalls t)) =
      Ret (IoOk tt, w) ∧
    rtc (quiet_step false) w w' ∧ poll_9 ∈ sq_entries (ring w') ∧
    process_entry false (mkCqe (e_user_data poll_9) 1 0) w' = UB.
Proof.
  assert (Hb : restarts_b (worker_life false 10 ub_server 0 (one_client [tick; tick])
    (mkThread None [] [])) = true) by by_eval.
  destruct (worker_life false 10 ub_server 0 (one_client [tick; tick]) (mkThread None [] []))
    as [[w|e t]| | |] eqn:Hl; try discriminate Hb.
  unfold restarts_b in Hb. destruct (th_kernel_buf t) as [i|] eqn:Hk; [|discriminate Hb].
  rewrite <- Hk in Hb. destruct (returns_b_sound _ _ Hb) as (w & Hw & Hc).
  destruct (connected_run w Hc) as (w' & Hrun & Hin).
  exists e, t, w, w'. split; [reflexivity|]. split; [exact Hw|]. split; [exact Hrun|].
  split; [exact Hin|].
  apply (restart_poll_undefined false 10 ub_server 0 (one_client [tick; tick]) (mkThread None [] [])
    e t 4 next_ring w w' 100 1 0); try reflexivity.
  - exact (p_fresh [byte_str "--ubdma"]).
  - exact Hl.
  - rewrite Hk. discriminate.
  - apply Nat.leb_le. by_eval.
  - exact Hw.
  - exact Hrun.
Defined.

(** * Filters *)

Lemma reuseport_filter_selects_cpu_witness :
  bpf reuseport_filter (mkInput [] (λ off, if (off =? 36)%N then Some 3%N else None)) = Some 3%N.
Proof.
  apply (reuseport_filter_selects_cpu [] (λ off, if (off =? 36)%N then Some 3%N else None)).
  reflexivity.
Defined.
